(* ===== verification/_CoqProject ===== *)
-Q . S2P
Prelude.v
Text.v
Strings.v
Numbers.v
Errors.v
Roots.v
Url.v
Proxies.v
Requests.v
Lines.v
Metadata.v
Wire.v
Bodies.v
Loading.v
Chunks.v
Segments.v
Runtime.v
Connections.v
Chains.v
Panics.v
Deadlines.v
Navigation.v
Journeys.v
Servers.v
Echo.v
TestServer.v
Tests.v
Polling.v
Programs.v
NativeTls.v
