(* ===== verification/Prelude.v ===== *)
(** A verification development for [async_minreq], an asynchronous HTTP client
    (a fork of minreq).

    * The program

    A request ([src/request.rs], [Request]) is built by method calls and parsed
    ([ParsedRequest::new]): its URL is split ([src/http_url.rs], [HttpUrl::parse]),
    query parameters are appended, and a default proxy is taken from the environment
    ([src/proxy.rs]). A connection ([src/connection.rs], [Connection]) makes the host
    ASCII, resolves it, connects, through a proxy if there is one, writes the
    serialised request and reads the head of the response ([src/response.rs],
    [ResponseLazy::from_stream], [read_metadata]). If the status redirects,
    [get_redirect] and [ParsedRequest::redirect_to] make the next request, which is
    sent the same way; otherwise the lazy response is returned, and [Response::create]
    loads its body, which ends with the connection, has a length, or is chunked.

    * The files

    - [Prelude] (this file): text, bytes, results, [usize] arithmetic, build
      configuration, hash maps, lists, and the automation the other files share.
    - [Text], [Strings], [Numbers]: what the code uses of the standard library:
      UTF-8, [str] methods, [Display] and [FromStr] of integers.
    - [Errors]: [src/error.rs].
    - [Roots]: the static variables of [src/connection.rs]: the root certificates of
      rustls and the configuration made of them, once, for the whole program.
    - [Url]: [src/http_url.rs]. [HttpUrl.parse] is the loop over characters, one
      [parse_char] a turn; [UrlGrammar] is its specification.
    - [Proxies]: [src/proxy.rs].
    - [Requests]: [src/request.rs]: [Method], [Request], [ParsedRequest].
    - [Lines], [Metadata], [Bodies]: [src/response.rs], from the two readers of lines
      over the head of a response to its body. A connection is the list of the
      answers its stream will give to [poll_next]: a chunk, an error, or a wait.
    - [Loading]: the theorems about bodies; [Chunks]: chunked bodies that come in single
      bytes, against a decoder of byte strings; [Segments]: streams up to their pieces.
    - [Wire]: the serialised request, read back by the grammar of [Metadata].
    - [Runtime]: what tokio, the TLS libraries and the system provide, as a class over
      an abstract world, and the monad of the programs that use it.
    - [Connections]: [src/connection.rs], and [Request::send] and [send_lazy] in the
      module [Client]; [Chains]: the theorems about them.
    - [Panics]: where a release build cannot panic. [Deadlines]: timeouts as a whole.
    - [Navigation], [Journeys]: the client as a whole against its specification
      [navigate], on networks that serve an abstract web; [Servers]: the same against
      servers that read the serialised requests, and sites that can be checked by
      computing; [Echo]: what such servers send back. [Polling]: the lazy response under
      arbitrary sequences of polls.
    - [TestServer]: the server of [src/tests/setup.rs]. The library it is built on,
      [tiny_http], is the class [TinyHttp], what it is documented to do the class
      [TinyHttpLaws]: it gives the words of a request line, the headers as they were
      written and the body, and sends the status code, the header and the data of a
      response among headers of its own. [PlainHttp] is an instance that satisfies the
      laws; [Likeness] carries over what is computed with it to every other.
    - [Tests]: the unit tests of [src/src] and the tests of [src/tests/main.rs].
    - [Programs]: the programs of [src/examples].
    - [NativeTls]: [src/native_tls], a layer over openssl: the settings of connectors,
      errors, handshakes and streams; and [src/build.rs], which selects one of the two
      ways to bound the protocol versions.

    A definition has the name of the function it models; a loop has one of its own,
    next to the function. A method that changes [self] returns the changed value.
    Modules are named after the types whose methods they hold; [...Facts] modules
    hold the theorems, [...Examples] modules apply them at concrete inputs.

    * What is shown

    - End to end: the client returns what navigating a web of replies gives, pages and
      errors, over redirections and through proxies, with and without a timeout, for all
      three ways to find a body ([Journeys.NavigationFacts.client_navigates]); requests
      and responses survive the wire, in any pieces ([Wire.Wire.request_round_trip],
      [Loading.BodyFacts.response_round_trip]); and so, against servers that read what
      is written, a request is what the server is told of it
      ([Servers.Servers.client_meets_servers]), a JSON value that is sent back is the
      value that was sent ([Echo.Echo.json_round_trip]), and the tests of the
      repository pass on every network and with every [tiny_http] that keeps to the laws
      ([Tests.TestSuite.tests_pass]), the one of JSON for every [serde_json] that reads
      what it writes ([Tests.TestSuite.json_test_passes]), but for the one of HTTPS,
      which fails on all networks ([Tests.TestSuite.test_https_fails]).
    - Panics: a release build without TLS has none but those of its runtime and of a
      timeout that the clock cannot represent ([Panics.Panics.release_never_panics]).
    - URLs: the parser is its grammar, its results are the well-formed URLs, the
      writers are its inverse but for escapes, which lose nothing ([Url.UrlFacts]).
    - Refinement: the readers of lines and heads depend on the bytes of the connection
      only, not on chunks and waits ([Lines.LineFacts], [Metadata.MetadataFacts]);
      the specifications are [line_spec] and [metadata_spec]. The same holds of a whole
      response without chunks ([Segments.Segments.segments_do_not_matter]).
    - Bodies: what each of the three readers gives, and that loading ends
      ([Loading.BodyFacts]); with more bytes than announced it depends on the pieces
      they come in ([Loading.BodyFacts.over_delivery]). Delivered in single bytes, a
      chunked response is what the decoder [dechunk] makes of its bytes ([Chunks.Chunks.chunked_in_single_bytes]): of
      the standard encoding the first chunk ([Chunks.Chunks.only_first_chunk_arrives]), of
      one without line ends behind the chunks everything
      ([Chunks.Chunks.chunks_without_line_ends]).
    - Redirection: which answers are followed, the invariant of a chain, that every
      chain ends, given sockets and proxies that do not wait or send for ever and a
      stack that holds one nested request for every redirection allowed
      ([Requests.RequestFacts], [Chains.ConnectionFacts]), and that what is delivered is
      the last answer of such a chain, with its URL
      ([Chains.ClientFacts.delivered_response]).
    - Polling: no sequence of polls loses, repeats or changes a byte of an unchunked
      body, and the end is final ([Polling.Polling.polls_conserve]); the two example
      programs print the same page ([Programs.ProgramFacts.iterator_prints]).
    - Timeouts: a passed deadline stops a request
      ([Chains.ConnectionFacts.send_meets_deadline]), one that is not reached
      changes nothing ([Deadlines.Deadlines.deadline_not_reached]), a server that is
      slower gets no response through ([Deadlines.Deadlines.slow_server_fails]).
    - The order of addresses, ASCII hosts, proxies ([Connections], [Proxies],
      [Journeys.NavigationFacts.proxy_judges]).
    - TLS settings: the trusted roots are those of the first call that sets them, if it
      comes before the first use, and are fixed by that use
      ([Roots.RootsFacts.trusted_roots_fixed]); the protocols of a connector are an
      interval of versions ([NativeTls.NativeTlsFacts.supported_protocols_interval]).
    - Behaviour that is surely not meant: chunked bodies are not decoded as the
      standard has them, a server that sends too much makes a length underflow, a bare
      line feed lifts the cap on headers, HTTPS always panics, relative redirections
      can change the host, waits lose bytes, a chunked body that is cut off counts as
      complete, header values are written with the line ends they hold. These are
      stated as theorems about the code as it is.

    * Conventions

    - A [char] is its scalar value, a string the list of its chars, a byte its value,
      all of type [N]; a [usize] is an [N] up to [usize_MAX], of 64 bits, whose
      additions and subtractions panic or wrap as [overflow_checks] says. Lengths of
      buffers in memory are assumed to be representable.
    - A call returns an [outcome]: a value, an error, or a panic.
    - The cargo features that select code are fields of the class [Build]; functions
      of other crates are fields of [Externals]; the process environment is
      [Environment]; the iteration order of a hash map is [HashOrder], about which
      only is known that it lists the entries of the map.
    - Fuel: [dechunk] gets one unit more than there are bytes; [read_headers] and
      [read_trailers] get one unit for every byte that is left, since a line they go on
      after takes a byte; [Response.load] two more than the stream has answers; a chain
      of redirections one more than the redirections allowed. That each is enough is
      proved ([dechunk_total], [read_metadata_refines], [read_trailers_total],
      [create_total], [send_chain_ends]). The fuel of a chain is also the number of
      nested requests on the stack, since each is awaited inside the one before. The two
      loops that wait for a socket have no
      bound in the code, and [fuel] in the model stays a parameter.
    - The world of [Runtime] moves when an operation is called; a dropped future
      leaves it as the parameter [cancelled] says. Reading the body moves it no more,
      since the answers of the stream are known from the start.

    * What is not modelled

    The size of the stack: every redirection that is followed nests one more future,
    and the documentation of [with_max_redirects] warns that about 1000 may be too many;
    the theorems take the stack to have room for one more than are allowed. The world of
    [tiny_http] apart from its answers: what it answers is a function of the request, so
    that the date it writes may be any, but the same for the same request. Logging,
    [Debug], and reserved capacities; TLS itself, whose sessions are calls of
    [Runtime] and, in [NativeTls], of [OpenSsl]; the pauses of the example [iterator]
    and of the test server, and which of its threads takes a request. What is left of
    [src] beside these is documentation, imports, module declarations, wrappers that
    only hand a call on, and code that is commented out. No build of the client uses
    [src/native_tls]: with the feature that compiles it the client names a crate that
    is not declared. *)

From Stdlib Require Export Ascii NArith ZArith Lia.
From stdpp Require Export base decidable option list numbers gmap fin_maps strings.

#[global] Open Scope N_scope.
#[global] Set Default Goal Selector "!".

(** * Text and bytes *)

(** A Rust [char] is its Unicode scalar value, a [String] or [&str] the list of
    its chars, a [u8] its value, a [Vec<u8>] the list of its bytes. *)
Abbreviation text := (list N) (only parsing).
Abbreviation bytes := (list N) (only parsing).

(** An ASCII string literal of the source. *)
Definition lit (s : string) : text := N_of_ascii <$> String.list_ascii_of_string s.

(** A character literal of the source, read as its number. *)
Abbreviation ch s :=
  (ltac:(let x := eval compute in (N_of_ascii s%char) in exact x))
  (only parsing).

(** The two line-ending characters and their pair. *)
Abbreviation CR := 13 (only parsing).
Abbreviation LF := 10 (only parsing).
Definition CRLF : text := [CR; LF].

(** The length of a buffer, as the [usize] that [.len()] computes. *)
Definition len {A} (l : list A) : N := N.of_nat (length l).

(** * Results *)

(** A call returns a value, returns an error, or panics. *)
Inductive outcome (E A : Type) : Type :=
| Ok (a : A)
| Err (e : E)
| Panic.
Arguments Ok {E A} a.
Arguments Err {E A} e.
Arguments Panic {E A}.

#[export] Instance outcome_ret {E} : MRet (outcome E) := fun _ a => Ok a.
#[export] Instance outcome_bind {E} : MBind (outcome E) := fun _ _ f m =>
  match m with Ok a => f a | Err e => Err e | Panic => Panic end.
#[export] Instance outcome_fmap {E} : FMap (outcome E) := fun _ _ f m =>
  match m with Ok a => Ok (f a) | Err e => Err e | Panic => Panic end.

(** [Result::map_err]. *)
Definition map_err {E F A} (f : E -> F) (m : outcome E A) : outcome F A :=
  match m with Ok a => Ok a | Err e => Err (f e) | Panic => Panic end.

(** [Option::ok_or]. *)
Definition ok_or {E A} (o : option A) (e : E) : outcome E A :=
  match o with Some a => Ok a | None => Err e end.

Definition is_ok {E A} (m : outcome E A) : bool :=
  match m with Ok _ => true | _ => false end.

(** What a [poll] method answers. *)
Inductive poll (A : Type) : Type :=
| Ready (a : A)
| Pending.
Arguments Ready {A} a.
Arguments Pending {A}.

(** * Build configuration *)

(** The cargo features and the profile that select the code compiled in. *)
Class Build : Type := {
  feature_urlencoding : bool;
  feature_punycode : bool;
  feature_proxy : bool;
  (** one of [rustls], [openssl], [native-tls] is enabled *)
  feature_tls : bool;
  (** the feature [rustls] is enabled, so it provides [send_https] *)
  feature_rustls : bool;
  (** with rustls, only the root certificates set by hand are trusted
      ([https-rustls-tls-manual-roots]), and otherwise those of the system too
      ([https-rustls-probe]) *)
  feature_manual_roots : bool;
  feature_probe : bool;
  (** arithmetic overflow panics (debug profile) instead of wrapping (release) *)
  overflow_checks : bool;
}.

(** The default build, and one with every feature that changes the code modelled
    here: the witnesses run in them. *)
Definition default_build : Build := {|
  feature_urlencoding := false; feature_punycode := false; feature_proxy := false;
  feature_tls := false; feature_rustls := false; feature_manual_roots := false;
  feature_probe := false; overflow_checks := true |}.
Definition full_build : Build := {|
  feature_urlencoding := true; feature_punycode := true; feature_proxy := true;
  feature_tls := true; feature_rustls := true; feature_manual_roots := true;
  feature_probe := false; overflow_checks := false |}.

(** * Code of other crates, and the process environment *)

(** The functions of other crates that the code calls. *)
Class Externals : Type := {
  (** [urlencoding::encode] *)
  urlencoding_encode : text -> text;
  (** [punycode::encode]: [None] stands for its error *)
  punycode_encode : text -> option text;
  (** [base64::encode] *)
  base64_encode : bytes -> text;
}.

(** [std::env::var], [None] when the variable is unset or not Unicode. *)
Class Environment : Type := env_var : text -> option text.

(** * [usize], 64 bits wide *)

Definition usize_MAX : N := 2 ^ 64 - 1.

Section Usize.
Context `{Build} {E : Type}.

Definition usize_add (a b : N) : outcome E N :=
  if a + b <=? usize_MAX then Ok (a + b)
  else if overflow_checks then Panic else Ok ((a + b) mod 2 ^ 64).

Definition usize_sub (a b : N) : outcome E N :=
  if b <=? a then Ok (a - b)
  else if overflow_checks then Panic else Ok ((a + 2 ^ 64 - b) mod 2 ^ 64).

Lemma usize_add_fits a b : a + b <= usize_MAX -> usize_add a b = Ok (a + b).
Proof. intros Hle. unfold usize_add. by rewrite (proj2 (N.leb_le _ _) Hle). Qed.

Lemma usize_sub_fits a b : b <= a -> usize_sub a b = Ok (a - b).
Proof. intros Hle. unfold usize_sub. by rewrite (proj2 (N.leb_le _ _) Hle). Qed.

Lemma usize_sub_underflow_panics a b :
  overflow_checks = true -> a < b -> usize_sub a b = Panic.
Proof.
  intros Hc Hlt. unfold usize_sub.
  rewrite (proj2 (N.leb_gt _ _) Hlt). by rewrite Hc.
Qed.

Lemma usize_sub_underflow_wraps a b :
  overflow_checks = false -> a < b <= usize_MAX -> usize_sub a b = Ok (a + 2 ^ 64 - b).
Proof.
  intros Hc [Hlt Hb]. unfold usize_sub, usize_MAX in *.
  rewrite (proj2 (N.leb_gt _ _) Hlt). rewrite Hc. rewrite N.mod_small; [done|lia].
Qed.
End Usize.

(** * Hash maps with string keys *)

(** A [HashMap] is iterated in an order that the program cannot predict: the
    iterator of this build lists the entries of the map in some order. *)
Class HashOrder : Type := {
  hm_iter : gmap text text -> list (text * text);
  hm_iter_perm : forall m, hm_iter m ≡ₚ map_to_list m;
}.

Section HashOrderFacts.
Context `{HashOrder}.

Lemma hm_iter_elem m k v : (k, v) ∈ hm_iter m <-> m !! k = Some v.
Proof. rewrite (hm_iter_perm m). apply elem_of_map_to_list. Qed.

Lemma hm_iter_empty : hm_iter ∅ = [].
Proof.
  apply Permutation_nil_r. rewrite (hm_iter_perm ∅). by rewrite map_to_list_empty.
Qed.

Lemma hm_iter_NoDup_fst m : NoDup (hm_iter m).*1.
Proof. rewrite (hm_iter_perm m). apply NoDup_fst_map_to_list. Qed.

Lemma hm_iter_list_to_map m : list_to_map (hm_iter m) = m.
Proof.
  rewrite <- (list_to_map_to_list m) at 2.
  apply list_to_map_proper; [apply hm_iter_NoDup_fst | apply hm_iter_perm].
Qed.
End HashOrderFacts.

(** The order of the canonical enumeration, used by the witnesses. *)
Definition canonical_order : HashOrder :=
  {| hm_iter := map_to_list; hm_iter_perm := fun m => Permutation_refl _ |}.

(** * Lists *)

(** The longest prefix whose elements satisfy [p], and the rest. *)
Fixpoint span {A} (p : A -> bool) (l : list A) : list A * list A :=
  match l with
  | [] => ([], [])
  | x :: l' => if p x then let '(a, b) := span p l' in (x :: a, b) else ([], l)
  end.

Fixpoint drop_while {A} (p : A -> bool) (l : list A) : list A :=
  match l with
  | [] => []
  | x :: l' => if p x then drop_while p l' else l
  end.

Section Lists.
Context {A : Type}.
Implicit Types (l k : list A) (p : A -> bool).

Lemma len_nil : len (@nil A) = 0.
Proof. done. Qed.
Lemma len_cons x l : len (x :: l) = len l + 1.
Proof. unfold len. rewrite length_cons. lia. Qed.
Lemma len_app l k : len (l ++ k) = len l + len k.
Proof. unfold len. rewrite length_app. lia. Qed.
Lemma len_0_inv l : len l = 0 -> l = [].
Proof. destruct l; [done|]. rewrite len_cons. lia. Qed.

Lemma span_app p l : (span p l).1 ++ (span p l).2 = l.
Proof.
  induction l as [|x l IH]; [done|]. simpl. destruct (p x); [|done].
  destruct (span p l) as [a b]. simpl in *. by rewrite IH.
Qed.

Lemma span_all p l : Forall (fun x => p x = true) (span p l).1.
Proof.
  induction l as [|x l IH]; [constructor|]. simpl. destruct (p x) eqn:E; [|constructor].
  destruct (span p l) as [a b]. simpl in *. by constructor.
Qed.

Lemma span_stop p l x k : (span p l).2 = x :: k -> p x = false.
Proof.
  induction l as [|y l IH]; [done|]. simpl. destruct (p y) eqn:E.
  - destruct (span p l) as [a b]. simpl in *. done.
  - simpl. by intros [= <- <-].
Qed.

Lemma span_prefix p l k :
  Forall (fun x => p x = true) l ->
  (match k with [] => True | x :: _ => p x = false end) ->
  span p (l ++ k) = (l, k).
Proof.
  intros Hl Hk. induction Hl as [|x l Hx Hl IH].
  - destruct k; [done|]. simpl. by rewrite Hk.
  - simpl. by rewrite Hx, IH.
Qed.

Lemma drop_while_span p l : drop_while p l = (span p l).2.
Proof.
  induction l as [|x l IH]; [done|]. simpl. destruct (p x); [|done].
  rewrite IH. by destruct (span p l).
Qed.

Lemma drop_while_none p l :
  (match l with [] => True | x :: _ => p x = false end) -> drop_while p l = l.
Proof. destruct l; [done|]. simpl. by intros ->. Qed.
Lemma forallb_Forall p l : forallb p l = true <-> Forall (fun x => p x = true) l.
Proof.
  rewrite Forall_forall. setoid_rewrite list_elem_of_In. apply forallb_forall.
Qed.

Lemma forallb_Exists p l : forallb p l = false <-> Exists (fun x => p x = false) l.
Proof.
  induction l as [|x l IH]; simpl; [by rewrite Exists_nil|].
  rewrite andb_false_iff, Exists_cons, IH. done.
Qed.
End Lists.

(** * Automation *)

Create HintDb minreq.
Create Rewrite HintDb len.
#[export] Hint Rewrite @len_nil @len_cons @len_app : len.
#[export] Hint Resolve hm_iter_perm hm_iter_NoDup_fst : minreq.

(** Turn boolean tests of the code on [N] into arithmetic facts. *)
Ltac btest :=
  repeat match goal with
  | H : _ && _ = true |- _ => apply andb_prop in H; destruct H
  | H : (_ =? _) = true |- _ => apply N.eqb_eq in H
  | H : (_ =? _) = false |- _ => apply N.eqb_neq in H
  | H : (_ <=? _) = true |- _ => apply N.leb_le in H
  | H : (_ <=? _) = false |- _ => apply N.leb_gt in H
  | H : (_ <? _) = true |- _ => apply N.ltb_lt in H
  | H : (_ <? _) = false |- _ => apply N.ltb_ge in H
  | H : negb _ = true |- _ => apply negb_true_iff in H
  | H : negb _ = false |- _ => apply negb_false_iff in H
  | H : _ || _ = false |- _ => apply orb_false_elim in H; destruct H
  end.

(** Case split on a scrutinee of the goal, remembering the equation, and turn
    the equations that are arithmetic tests into facts. *)
Ltac split_match :=
  match goal with
  | |- context [match ?x with _ => _ end] => destruct x eqn:?
  end; btest; try discriminate; try done.

(** Solve [(a =? b) = true] and its variants by arithmetic. *)
Ltac decide_test :=
  first [ apply N.eqb_eq | apply N.eqb_neq | apply N.leb_le | apply N.leb_gt
        | apply N.ltb_lt | apply N.ltb_ge ]; lia.

(** Rewrite a boolean test of the goal to its value, found by arithmetic. *)
Ltac test_true t := replace t with true by (symmetry; decide_test).
Ltac test_false t := replace t with false by (symmetry; decide_test).

(** Prove a decidable closed goal by evaluating its decision procedure. *)
Ltac by_compute :=
  cbn; match goal with |- ?P => apply (bool_decide_unpack P) end; vm_compute; exact I.
