(* ===== verification/Text.v ===== *)
(** The part of the Rust standard library's string handling that the code uses:
    UTF-8, trimming, splitting, case mapping, integer parsing and printing.
    A [String] is the list of its chars; [utf8] gives its bytes. *)

From S2P Require Import Prelude.

(** * UTF-8 *)

(** Unicode scalar values: what a [char] can hold. *)
Definition is_char (c : N) : bool :=
  (c <? 0xD800) || ((0xE000 <=? c) && (c <? 0x110000)).

Definition is_text (s : text) : Prop := Forall (fun c => is_char c = true) s.

(** [char::encode_utf8]. *)
Definition encode_utf8 (c : N) : bytes :=
  if c <? 0x80 then [c]
  else if c <? 0x800 then [0xC0 + c / 64; 0x80 + c mod 64]
  else if c <? 0x10000 then
    [0xE0 + c / 4096; 0x80 + c / 64 mod 64; 0x80 + c mod 64]
  else [0xF0 + c / 262144; 0x80 + c / 4096 mod 64; 0x80 + c / 64 mod 64; 0x80 + c mod 64].

(** [String::into_bytes], [str::as_bytes]. *)
Definition utf8 (s : text) : bytes := s ≫= encode_utf8.

(** [str::len]: the length in bytes. *)
Definition str_len (s : text) : N := len (utf8 s).

(** [str::is_ascii]. *)
Definition is_ascii (s : text) : bool := forallb (fun c => c <? 0x80) s.

Definition is_cont (b : N) : bool := (0x80 <=? b) && (b <? 0xC0).

(** The second byte a three-byte sequence may have after [b0]: neither an
    overlong form nor a surrogate. *)
Definition second_of_3 (b0 b1 : N) : bool :=
  if b0 =? 0xE0 then (0xA0 <=? b1) && (b1 <? 0xC0)
  else if b0 =? 0xED then (0x80 <=? b1) && (b1 <? 0xA0)
  else is_cont b1.

(** The same for a four-byte sequence: no overlong form, at most U+10FFFF. *)
Definition second_of_4 (b0 b1 : N) : bool :=
  if b0 =? 0xF0 then (0x90 <=? b1) && (b1 <? 0xC0)
  else if b0 =? 0xF4 then (0x80 <=? b1) && (b1 <? 0x90)
  else is_cont b1.

(** The decoder's view of a byte string: valid chars, and maximal invalid
    pieces with their length ([None]: the input ended inside a sequence). *)
Inductive utf8_chunk : Type :=
| Valid (c : N)
| Invalid (error_len : option N).

Fixpoint utf8_chunks (b : bytes) : list utf8_chunk :=
  match b with
  | [] => []
  | b0 :: r0 =>
      if b0 <? 0x80 then Valid b0 :: utf8_chunks r0
      else if (0xC2 <=? b0) && (b0 <=? 0xDF) then
        match r0 with
        | [] => [Invalid None]
        | b1 :: r1 =>
            if is_cont b1 then Valid ((b0 - 0xC0) * 64 + (b1 - 0x80)) :: utf8_chunks r1
            else Invalid (Some 1) :: utf8_chunks r0
        end
      else if (0xE0 <=? b0) && (b0 <=? 0xEF) then
        match r0 with
        | [] => [Invalid None]
        | b1 :: r1 =>
            if second_of_3 b0 b1 then
              match r1 with
              | [] => [Invalid None]
              | b2 :: r2 =>
                  if is_cont b2 then
                    Valid ((b0 - 0xE0) * 4096 + (b1 - 0x80) * 64 + (b2 - 0x80)) :: utf8_chunks r2
                  else Invalid (Some 2) :: utf8_chunks r1
              end
            else Invalid (Some 1) :: utf8_chunks r0
        end
      else if (0xF0 <=? b0) && (b0 <=? 0xF4) then
        match r0 with
        | [] => [Invalid None]
        | b1 :: r1 =>
            if second_of_4 b0 b1 then
              match r1 with
              | [] => [Invalid None]
              | b2 :: r2 =>
                  if is_cont b2 then
                    match r2 with
                    | [] => [Invalid None]
                    | b3 :: r3 =>
                        if is_cont b3 then
                          Valid ((b0 - 0xF0) * 262144 + (b1 - 0x80) * 4096
                                 + (b2 - 0x80) * 64 + (b3 - 0x80)) :: utf8_chunks r3
                        else Invalid (Some 3) :: utf8_chunks r2
                    end
                  else Invalid (Some 2) :: utf8_chunks r1
              end
            else Invalid (Some 1) :: utf8_chunks r0
        end
      else Invalid (Some 1) :: utf8_chunks r0
  end.

(** [str::Utf8Error]. *)
Record Utf8Error : Type := mkUtf8Error {
  valid_up_to : N;
  error_len : option N;
}.

Fixpoint validate (pos : N) (cs : list utf8_chunk) : outcome Utf8Error text :=
  match cs with
  | [] => Ok []
  | Valid c :: cs' => (cons c) <$> validate (pos + len (encode_utf8 c)) cs'
  | Invalid e :: _ => Err (mkUtf8Error pos e)
  end.

(** [str::from_utf8] and [String::from_utf8]. *)
Definition from_utf8 (b : bytes) : outcome Utf8Error text := validate 0 (utf8_chunks b).

(** [String::from_utf8_lossy]: U+FFFD for each invalid piece. *)
Definition from_utf8_lossy (b : bytes) : text :=
  (fun c => match c with Valid c => c | Invalid _ => 0xFFFD end) <$> utf8_chunks b.

(** ** Facts *)

Lemma utf8_cons c s : utf8 (c :: s) = encode_utf8 c ++ utf8 s.
Proof. done. Qed.

Lemma utf8_app s1 s2 : utf8 (s1 ++ s2) = utf8 s1 ++ utf8 s2.
Proof. unfold utf8. apply bind_app. Qed.

Lemma is_text_app s1 s2 : is_text (s1 ++ s2) <-> is_text s1 /\ is_text s2.
Proof. apply Forall_app. Qed.

Lemma encode_utf8_ascii c : c < 0x80 -> encode_utf8 c = [c].
Proof. intros Hc. unfold encode_utf8. by rewrite (proj2 (N.ltb_lt _ _) Hc). Qed.

Lemma utf8_ascii s : is_ascii s = true -> utf8 s = s.
Proof.
  intros Hs%forallb_Forall. induction Hs as [|c s Hc _ IH]; [done|].
  rewrite utf8_cons, IH, encode_utf8_ascii; [done|]. by btest.
Qed.

(** Evaluate the decoder's tests on bytes known up to arithmetic. *)
Ltac utf8_tests :=
  repeat match goal with
  | |- context [if ?t then _ else _] =>
      first [ let H := fresh in
              assert (t = true) as H
                by (unfold is_cont, second_of_3, second_of_4;
                    repeat (case_match; btest; try lia);
                    repeat (apply andb_true_intro; split); decide_test);
              rewrite H; clear H
            | let H := fresh in
              assert (t = false) as H
                by (repeat (apply andb_false_intro1; decide_test)
                    || (apply andb_false_intro1; decide_test)
                    || (apply andb_false_intro2; decide_test) || decide_test);
              rewrite H; clear H ]
  end.

Lemma utf8_chunks_encode c b :
  is_char c = true -> utf8_chunks (encode_utf8 c ++ b) = Valid c :: utf8_chunks b.
Proof.
  intros Hc. unfold is_char in Hc. apply orb_prop in Hc.
  assert (c < 0xD800 \/ 0xE000 <= c < 0x110000) as Hr by (destruct Hc; btest; lia).
  clear Hc. unfold encode_utf8.
  pose proof (N.div_mod' c 64) as E1. pose proof (N.mod_lt c 64 ltac:(done)) as B1.
  pose proof (N.div_mod' (c / 64) 64) as E2. pose proof (N.mod_lt (c / 64) 64 ltac:(done)) as B2.
  pose proof (N.div_mod' (c / 4096) 64) as E3. pose proof (N.mod_lt (c / 4096) 64 ltac:(done)) as B3.
  assert (c / 4096 = c / 64 / 64) as E4 by (rewrite N.Div0.div_div; done).
  assert (c / 262144 = c / 4096 / 64) as E5 by (rewrite N.Div0.div_div; done).
  rewrite <- E4 in E2. rewrite <- E5 in E3. clear E4 E5.
  set (q1 := c / 64) in *. set (r1 := c mod 64) in *. set (r2 := q1 mod 64) in *.
  set (q2 := c / 4096) in *. set (r3 := q2 mod 64) in *. set (q3 := c / 262144) in *.
  clearbody q1 r1 r2 q2 r3 q3.
  destruct (N.ltb_spec c 0x80); [|destruct (N.ltb_spec c 0x800);
    [|destruct (N.ltb_spec c 0x10000)]]; cbn [utf8_chunks app]; utf8_tests;
    repeat f_equal; lia.
Qed.

(** Evaluate the encoder's tests on a char known up to arithmetic, and read off
    the bytes. *)
Ltac encode_bytes :=
  unfold encode_utf8; utf8_tests;
  repeat match goal with
  | |- context [?a / ?k] =>
      let q := fresh "q" in
      pose proof (N.div_mod' a k); pose proof (N.mod_lt a k ltac:(done));
      set (q := a / k) in *; clearbody q
  end.

Lemma encode_utf8_2 b0 b1 :
  0xC2 <= b0 <= 0xDF -> 0x80 <= b1 < 0xC0 ->
  let c := (b0 - 0xC0) * 64 + (b1 - 0x80) in
  encode_utf8 c = [b0; b1] /\ is_char c = true.
Proof.
  intros H0 H1 c.
  assert (c / 64 = b0 - 0xC0) as E1 by (symmetry; apply (N.div_unique _ _ _ (b1 - 0x80)); lia).
  assert (c mod 64 = b1 - 0x80) as E2
    by (symmetry; apply (N.mod_unique _ _ (b0 - 0xC0)); lia).
  split.
  - unfold encode_utf8. utf8_tests. rewrite E1, E2. repeat f_equal; lia.
  - unfold is_char. apply orb_true_intro. left. decide_test.
Qed.

Lemma encode_utf8_3 b0 b1 b2 :
  0xE0 <= b0 <= 0xEF -> second_of_3 b0 b1 = true -> 0x80 <= b2 < 0xC0 ->
  let c := (b0 - 0xE0) * 4096 + (b1 - 0x80) * 64 + (b2 - 0x80) in
  encode_utf8 c = [b0; b1; b2] /\ is_char c = true.
Proof.
  intros H0 H1 H2 c.
  assert (0x80 <= b1 < 0xC0 /\ (b0 = 0xE0 -> 0xA0 <= b1) /\ (b0 = 0xED -> b1 < 0xA0)) as (H3 & H4 & H5).
  { unfold second_of_3, is_cont in H1. repeat case_match; btest; lia. }
  assert (c / 64 = (b0 - 0xE0) * 64 + (b1 - 0x80)) as E1
    by (symmetry; apply (N.div_unique _ _ _ (b2 - 0x80)); lia).
  assert (c mod 64 = b2 - 0x80) as E2
    by (symmetry; apply (N.mod_unique _ _ ((b0 - 0xE0) * 64 + (b1 - 0x80))); lia).
  assert (c / 4096 = b0 - 0xE0) as E3
    by (symmetry; apply (N.div_unique _ _ _ ((b1 - 0x80) * 64 + (b2 - 0x80))); lia).
  assert (((b0 - 0xE0) * 64 + (b1 - 0x80)) mod 64 = b1 - 0x80) as E4
    by (symmetry; apply (N.mod_unique _ _ (b0 - 0xE0)); lia).
  split.
  - unfold encode_utf8. utf8_tests. rewrite E3, E1, E4, E2. repeat f_equal; lia.
  - unfold is_char. apply orb_true_intro.
    destruct (N.ltb_spec c 0xD800); [by left|right].
    apply andb_true_intro; split; decide_test.
Qed.

Lemma encode_utf8_4 b0 b1 b2 b3 :
  0xF0 <= b0 <= 0xF4 -> second_of_4 b0 b1 = true -> 0x80 <= b2 < 0xC0 -> 0x80 <= b3 < 0xC0 ->
  let c := (b0 - 0xF0) * 262144 + (b1 - 0x80) * 4096 + (b2 - 0x80) * 64 + (b3 - 0x80) in
  encode_utf8 c = [b0; b1; b2; b3] /\ is_char c = true.
Proof.
  intros H0 H1 H2 H2' c.
  assert (0x80 <= b1 < 0xC0 /\ (b0 = 0xF0 -> 0x90 <= b1) /\ (b0 = 0xF4 -> b1 < 0x90)) as (H3 & H4 & H5).
  { unfold second_of_4, is_cont in H1. repeat case_match; btest; lia. }
  set (p := (b0 - 0xF0) * 64 + (b1 - 0x80)). set (q := p * 64 + (b2 - 0x80)).
  assert (c / 64 = q) as E1 by (symmetry; apply (N.div_unique _ _ _ (b3 - 0x80)); lia).
  assert (c mod 64 = b3 - 0x80) as E2 by (symmetry; apply (N.mod_unique _ _ q); lia).
  assert (c / 4096 = p) as E3
    by (symmetry; apply (N.div_unique _ _ _ ((b2 - 0x80) * 64 + (b3 - 0x80))); lia).
  assert (q mod 64 = b2 - 0x80) as E4 by (symmetry; apply (N.mod_unique _ _ p); lia).
  assert (p mod 64 = b1 - 0x80) as E5
    by (symmetry; apply (N.mod_unique _ _ (b0 - 0xF0)); lia).
  assert (c / 262144 = b0 - 0xF0) as E6
    by (symmetry; apply (N.div_unique _ _ _ ((b1 - 0x80) * 4096 + (b2 - 0x80) * 64 + (b3 - 0x80))); lia).
  split.
  - unfold encode_utf8. utf8_tests. rewrite E6, E3, E5, E1, E4, E2. repeat f_equal; lia.
  - unfold is_char. apply orb_true_intro. right.
    apply andb_true_intro; split; decide_test.
Qed.

Lemma is_cont_spec b : is_cont b = true -> 0x80 <= b < 0xC0.
Proof. unfold is_cont. intros H. btest. lia. Qed.

Lemma utf8_chunks_valid b c cs :
  utf8_chunks b = Valid c :: cs ->
  exists b', b = encode_utf8 c ++ b' /\ cs = utf8_chunks b' /\ is_char c = true.
Proof.
  destruct b as [|b0 r0]; [done|]. cbn [utf8_chunks]. intros H.
  repeat case_match; simplify_eq; btest;
    repeat match goal with H : is_cont _ = true |- _ => apply is_cont_spec in H end.
  - exists r0. rewrite encode_utf8_ascii by done. split_and!; [done..|].
    unfold is_char. apply orb_true_intro. left. decide_test.
  - destruct (encode_utf8_2 b0 n) as [-> Hc]; [lia..|]. by eexists.
  - destruct (encode_utf8_3 b0 n n0) as [-> Hc]; [done || lia..|]. by eexists.
  - destruct (encode_utf8_4 b0 n n0 n1) as [-> Hc]; [done || lia..|]. by eexists.
Qed.

Lemma validate_shift_ok p p' cs s : validate p cs = Ok s -> validate p' cs = Ok s.
Proof.
  revert p p' s. induction cs as [|[c|e] cs IH]; intros p p' s; simpl; [done| |done].
  destruct (validate _ cs) eqn:E; simpl; try discriminate.
  intros [= <-]. by rewrite (IH _ _ _ E).
Qed.

(** Decoding the bytes of a string gives the string back. *)
Lemma from_utf8_utf8 s : is_text s -> from_utf8 (utf8 s) = Ok s.
Proof.
  unfold from_utf8. generalize 0. induction s as [|c s IH]; intros p Hs; [done|].
  inversion_clear Hs as [|? ? Hc Hs']. rewrite utf8_cons, utf8_chunks_encode by done.
  simpl. by rewrite IH.
Qed.

(** What decodes is the encoding of the string it decodes to. *)
Lemma from_utf8_ok b s : from_utf8 b = Ok s -> b = utf8 s /\ is_text s.
Proof.
  unfold from_utf8. generalize 0. remember (utf8_chunks b) as cs eqn:Ecs.
  revert b s Ecs. induction cs as [|[c|e] cs IH]; intros b s Ecs p Hv; simpl in Hv.
  - destruct b as [|b0 r0]; [|exfalso; cbn [utf8_chunks] in Ecs; repeat case_match; done].
    simplify_eq. split; [done|constructor].
  - destruct (utf8_chunks_valid b c cs) as (b' & -> & -> & Hc); [done|].
    destruct (validate _ _) eqn:E in Hv; simplify_eq/=.
    destruct (IH b' a eq_refl _ E) as [-> Hs]. split; [done|by constructor].
  - done.
Qed.

Lemma from_utf8_never_panics b : from_utf8 b <> Panic.
Proof.
  unfold from_utf8. generalize 0. generalize (utf8_chunks b) as cs.
  induction cs as [|[c|e] cs IH]; intros p; simpl; [done| |done].
  specialize (IH (p + len (encode_utf8 c))). by destruct (validate _ cs).
Qed.

Lemma is_ascii_text s : is_ascii s = true -> is_text s.
Proof.
  intros Hs%forallb_Forall. unfold is_text. eapply Forall_impl; [exact Hs|].
  intros c Hc. simpl in Hc. btest. unfold is_char. apply orb_true_intro. left. decide_test.
Qed.

(** Bytes below 0x80 are themselves a string. *)
Lemma from_utf8_ascii s : is_ascii s = true -> from_utf8 s = Ok s.
Proof.
  intros Hs. rewrite <- (utf8_ascii s Hs) at 1. by apply from_utf8_utf8, is_ascii_text.
Qed.

Lemma encode_utf8_bytes c :
  is_char c = true -> Forall (fun b => b < 256) (encode_utf8 c).
Proof.
  intros Hc. assert (c < 0x110000) as Hr.
  { unfold is_char in Hc. apply orb_prop in Hc as [|]; btest; lia. }
  pose proof (N.mod_lt c 64 ltac:(done)). pose proof (N.mod_lt (c / 64) 64 ltac:(done)).
  pose proof (N.mod_lt (c / 4096) 64 ltac:(done)).
  assert (c < 0x800 -> c / 64 < 32) by (intros; apply N.Div0.div_lt_upper_bound; lia).
  assert (c < 0x10000 -> c / 4096 < 16) by (intros; apply N.Div0.div_lt_upper_bound; lia).
  assert (c / 262144 < 5) by (apply N.Div0.div_lt_upper_bound; lia).
  unfold encode_utf8. repeat case_match; btest; repeat constructor; lia.
Qed.

Lemma utf8_bytes s : is_text s -> Forall (fun b => b < 256) (utf8 s).
Proof.
  induction 1 as [|c s Hc _ IH]; [constructor|]. rewrite utf8_cons.
  apply Forall_app. split; [by apply encode_utf8_bytes|done].
Qed.

(** Valid bytes decode as themselves, whatever follows. *)
Lemma from_utf8_lossy_app s b :
  is_text s -> from_utf8_lossy (utf8 s ++ b) = s ++ from_utf8_lossy b.
Proof.
  unfold from_utf8_lossy. induction 1 as [|c s Hc _ IH]; [done|].
  rewrite utf8_cons, <- app_assoc, utf8_chunks_encode by done.
  by rewrite fmap_cons, IH.
Qed.

(** A byte below 0x80 in the encoding of a char is that char. *)
Lemma encode_utf8_low b c : b ∈ encode_utf8 c -> b < 0x80 -> b = c.
Proof.
  intros Hin Hb. destruct (N.ltb_spec c 0x80) as [Hc|Hc].
  - rewrite encode_utf8_ascii in Hin by done. by apply list_elem_of_singleton in Hin.
  - assert (Forall (fun x => 0x80 <= x) (encode_utf8 c)) as Hall.
    { unfold encode_utf8.
      generalize (c / 64) (c / 4096) (c / 262144) (c mod 64) (c / 64 mod 64) (c / 4096 mod 64).
      intros. repeat case_match; btest; try lia;
        repeat (apply Forall_cons; split; [lia|]); by apply Forall_nil. }
    rewrite Forall_forall in Hall. apply Hall in Hin. lia.
Qed.

Lemma utf8_not_in b s : b < 0x80 -> b ∉ s -> b ∉ utf8 s.
Proof.
  intros Hb Hs (c & Hc & Hin)%list_elem_of_bind. apply encode_utf8_low in Hc; [|done].
  by subst.
Qed.
