(* ===== verification/Strings.v ===== *)
(** String operations of the Rust standard library used by the code: whitespace,
    case mapping, prefixes, searching and splitting. *)

From S2P Require Import Prelude.
From S2P Require Import Text.

(** * Whitespace *)

(** [char::is_whitespace]: the Unicode property White_Space. *)
Definition is_whitespace (c : N) : bool :=
  ((9 <=? c) && (c <=? 13)) || (c =? 0x20) || (c =? 0x85) || (c =? 0xA0) || (c =? 0x1680)
  || ((0x2000 <=? c) && (c <=? 0x200A)) || (c =? 0x2028) || (c =? 0x2029) || (c =? 0x202F)
  || (c =? 0x205F) || (c =? 0x3000).

(** [str::trim]. *)
Definition trim_start (s : text) : text := drop_while is_whitespace s.
Definition trim (s : text) : text := reverse (trim_start (reverse (trim_start s))).

(** * Case *)

(** [str::make_ascii_lowercase] on one char. *)
Definition ascii_lowercase_char (c : N) : N :=
  if (65 <=? c) && (c <=? 90) then c + 32 else c.
Definition make_ascii_lowercase (s : text) : text := ascii_lowercase_char <$> s.

(** The simple lowercase mappings of Unicode outside ASCII: an entry
    [(first, last, step, target)] sends [first + k * step] to [target + k * step]. *)
Definition lowercase_table : list (N * N * N * N) := [
  (0xC0,0xD6,1,0xE0); (0xD8,0xDE,1,0xF8); (0x100,0x12E,2,0x101); (0x132,0x136,2,0x133);
  (0x139,0x147,2,0x13A); (0x14A,0x176,2,0x14B); (0x178,0x178,1,0xFF); (0x179,0x17D,2,0x17A);
  (0x181,0x181,1,0x253); (0x182,0x184,2,0x183); (0x186,0x186,1,0x254); (0x187,0x187,1,0x188);
  (0x189,0x18A,1,0x256); (0x18B,0x18B,1,0x18C); (0x18E,0x18E,1,0x1DD); (0x18F,0x18F,1,0x259);
  (0x190,0x190,1,0x25B); (0x191,0x191,1,0x192); (0x193,0x193,1,0x260); (0x194,0x194,1,0x263);
  (0x196,0x196,1,0x269); (0x197,0x197,1,0x268); (0x198,0x198,1,0x199); (0x19C,0x19C,1,0x26F);
  (0x19D,0x19D,1,0x272); (0x19F,0x19F,1,0x275); (0x1A0,0x1A4,2,0x1A1); (0x1A6,0x1A6,1,0x280);
  (0x1A7,0x1A7,1,0x1A8); (0x1A9,0x1A9,1,0x283); (0x1AC,0x1AC,1,0x1AD); (0x1AE,0x1AE,1,0x288);
  (0x1AF,0x1AF,1,0x1B0); (0x1B1,0x1B2,1,0x28A); (0x1B3,0x1B5,2,0x1B4); (0x1B7,0x1B7,1,0x292);
  (0x1B8,0x1B8,1,0x1B9); (0x1BC,0x1BC,1,0x1BD); (0x1C4,0x1C4,1,0x1C6); (0x1C5,0x1C5,1,0x1C6);
  (0x1C7,0x1C7,1,0x1C9); (0x1C8,0x1C8,1,0x1C9); (0x1CA,0x1CA,1,0x1CC); (0x1CB,0x1DB,2,0x1CC);
  (0x1DE,0x1EE,2,0x1DF); (0x1F1,0x1F1,1,0x1F3); (0x1F2,0x1F4,2,0x1F3); (0x1F6,0x1F6,1,0x195);
  (0x1F7,0x1F7,1,0x1BF); (0x1F8,0x21E,2,0x1F9); (0x220,0x220,1,0x19E); (0x222,0x232,2,0x223);
  (0x23A,0x23A,1,0x2C65); (0x23B,0x23B,1,0x23C); (0x23D,0x23D,1,0x19A); (0x23E,0x23E,1,0x2C66);
  (0x241,0x241,1,0x242); (0x243,0x243,1,0x180); (0x244,0x244,1,0x289); (0x245,0x245,1,0x28C);
  (0x246,0x24E,2,0x247); (0x370,0x372,2,0x371); (0x376,0x376,1,0x377); (0x37F,0x37F,1,0x3F3);
  (0x386,0x386,1,0x3AC); (0x388,0x38A,1,0x3AD); (0x38C,0x38C,1,0x3CC); (0x38E,0x38F,1,0x3CD);
  (0x391,0x3A1,1,0x3B1); (0x3A3,0x3AB,1,0x3C3); (0x3CF,0x3CF,1,0x3D7); (0x3D8,0x3EE,2,0x3D9);
  (0x3F4,0x3F4,1,0x3B8); (0x3F7,0x3F7,1,0x3F8); (0x3F9,0x3F9,1,0x3F2); (0x3FA,0x3FA,1,0x3FB);
  (0x3FD,0x3FF,1,0x37B); (0x400,0x40F,1,0x450); (0x410,0x42F,1,0x430); (0x460,0x480,2,0x461);
  (0x48A,0x4BE,2,0x48B); (0x4C0,0x4C0,1,0x4CF); (0x4C1,0x4CD,2,0x4C2); (0x4D0,0x52E,2,0x4D1);
  (0x531,0x556,1,0x561); (0x10A0,0x10C5,1,0x2D00); (0x10C7,0x10C7,1,0x2D27);
  (0x10CD,0x10CD,1,0x2D2D); (0x13A0,0x13EF,1,0xAB70); (0x13F0,0x13F5,1,0x13F8);
  (0x1C90,0x1CBA,1,0x10D0); (0x1CBD,0x1CBF,1,0x10FD); (0x1E00,0x1E94,2,0x1E01);
  (0x1E9E,0x1E9E,1,0xDF); (0x1EA0,0x1EFE,2,0x1EA1); (0x1F08,0x1F0F,1,0x1F00);
  (0x1F18,0x1F1D,1,0x1F10); (0x1F28,0x1F2F,1,0x1F20); (0x1F38,0x1F3F,1,0x1F30);
  (0x1F48,0x1F4D,1,0x1F40); (0x1F59,0x1F5F,2,0x1F51); (0x1F68,0x1F6F,1,0x1F60);
  (0x1F88,0x1F8F,1,0x1F80); (0x1F98,0x1F9F,1,0x1F90); (0x1FA8,0x1FAF,1,0x1FA0);
  (0x1FB8,0x1FB9,1,0x1FB0); (0x1FBA,0x1FBB,1,0x1F70); (0x1FBC,0x1FBC,1,0x1FB3);
  (0x1FC8,0x1FCB,1,0x1F72); (0x1FCC,0x1FCC,1,0x1FC3); (0x1FD8,0x1FD9,1,0x1FD0);
  (0x1FDA,0x1FDB,1,0x1F76); (0x1FE8,0x1FE9,1,0x1FE0); (0x1FEA,0x1FEB,1,0x1F7A);
  (0x1FEC,0x1FEC,1,0x1FE5); (0x1FF8,0x1FF9,1,0x1F78); (0x1FFA,0x1FFB,1,0x1F7C);
  (0x1FFC,0x1FFC,1,0x1FF3); (0x2126,0x2126,1,0x3C9); (0x212A,0x212A,1,0x6B);
  (0x212B,0x212B,1,0xE5); (0x2132,0x2132,1,0x214E); (0x2160,0x216F,1,0x2170);
  (0x2183,0x2183,1,0x2184); (0x24B6,0x24CF,1,0x24D0); (0x2C00,0x2C2F,1,0x2C30);
  (0x2C60,0x2C60,1,0x2C61); (0x2C62,0x2C62,1,0x26B); (0x2C63,0x2C63,1,0x1D7D);
  (0x2C64,0x2C64,1,0x27D); (0x2C67,0x2C6B,2,0x2C68); (0x2C6D,0x2C6D,1,0x251);
  (0x2C6E,0x2C6E,1,0x271); (0x2C6F,0x2C6F,1,0x250); (0x2C70,0x2C70,1,0x252);
  (0x2C72,0x2C72,1,0x2C73); (0x2C75,0x2C75,1,0x2C76); (0x2C7E,0x2C7F,1,0x23F);
  (0x2C80,0x2CE2,2,0x2C81); (0x2CEB,0x2CED,2,0x2CEC); (0x2CF2,0x2CF2,1,0x2CF3);
  (0xA640,0xA66C,2,0xA641); (0xA680,0xA69A,2,0xA681); (0xA722,0xA72E,2,0xA723);
  (0xA732,0xA76E,2,0xA733); (0xA779,0xA77B,2,0xA77A); (0xA77D,0xA77D,1,0x1D79);
  (0xA77E,0xA786,2,0xA77F); (0xA78B,0xA78B,1,0xA78C); (0xA78D,0xA78D,1,0x265);
  (0xA790,0xA792,2,0xA791); (0xA796,0xA7A8,2,0xA797); (0xA7AA,0xA7AA,1,0x266);
  (0xA7AB,0xA7AB,1,0x25C); (0xA7AC,0xA7AC,1,0x261); (0xA7AD,0xA7AD,1,0x26C);
  (0xA7AE,0xA7AE,1,0x26A); (0xA7B0,0xA7B0,1,0x29E); (0xA7B1,0xA7B1,1,0x287);
  (0xA7B2,0xA7B2,1,0x29D); (0xA7B3,0xA7B3,1,0xAB53); (0xA7B4,0xA7C2,2,0xA7B5);
  (0xA7C4,0xA7C4,1,0xA794); (0xA7C5,0xA7C5,1,0x282); (0xA7C6,0xA7C6,1,0x1D8E);
  (0xA7C7,0xA7C9,2,0xA7C8); (0xA7D0,0xA7D0,1,0xA7D1); (0xA7D6,0xA7D8,2,0xA7D7);
  (0xA7F5,0xA7F5,1,0xA7F6); (0xFF21,0xFF3A,1,0xFF41); (0x10400,0x10427,1,0x10428);
  (0x104B0,0x104D3,1,0x104D8); (0x10570,0x1057A,1,0x10597); (0x1057C,0x1058A,1,0x105A3);
  (0x1058C,0x10592,1,0x105B3); (0x10594,0x10595,1,0x105BB); (0x10C80,0x10CB2,1,0x10CC0);
  (0x118A0,0x118BF,1,0x118C0); (0x16E40,0x16E5F,1,0x16E60); (0x1E900,0x1E921,1,0x1E922)
].

Fixpoint lowercase_lookup (t : list (N * N * N * N)) (c : N) : N :=
  match t with
  | [] => c
  | (lo, hi, step, target) :: t' =>
      if (lo <=? c) && (c <=? hi) && ((c - lo) mod step =? 0)
      then target + (c - lo) else lowercase_lookup t' c
  end.

(** [char::to_lowercase]: U+0130 is the one char with a mapping to two. *)
Definition char_to_lowercase (c : N) : text :=
  if c <? 0x80 then [ascii_lowercase_char c]
  else if c =? 0x130 then [0x69; 0x307]
  else [lowercase_lookup lowercase_table c].

(** [str::to_lowercase], up to the choice between the two lowercase sigmas
    (U+03C3, U+03C2) at the end of a word, neither of which occurs in a string
    that the code compares with. *)
Definition to_lowercase (s : text) : text := s ≫= char_to_lowercase.

(** * Prefixes, searching and splitting *)

(** [str::strip_prefix]. *)
Fixpoint strip_prefix (p s : text) : option text :=
  match p, s with
  | [], _ => Some s
  | c :: p', d :: s' => if c =? d then strip_prefix p' s' else None
  | _ :: _, [] => None
  end.

(** The parts before and after the first occurrence of a non-empty pattern. *)
Fixpoint split_first (p s : text) : option (text * text) :=
  match strip_prefix p s with
  | Some rest => Some ([], rest)
  | None =>
      match s with
      | [] => None
      | c :: s' => '(a, b) ← split_first p s'; Some (c :: a, b)
      end
  end.

(** The parts before and after the last occurrence of a one-char pattern. *)
Fixpoint split_last (c : N) (s : text) : option (text * text) :=
  match s with
  | [] => None
  | d :: s' =>
      match split_last c s' with
      | Some (a, b) => Some (d :: a, b)
      | None => if d =? c then Some ([], s') else None
      end
  end.

(** [str::contains] with a string pattern. *)
Definition contains (p s : text) : bool :=
  match split_first p s with Some _ => true | None => false end.

(** [str::find] with a char pattern, as the split at the char found. *)
Definition split_char (c : N) (s : text) : option (text * text) :=
  match span (fun d => negb (d =? c)) s with
  | (a, _ :: b) => Some (a, b)
  | (_, []) => None
  end.

(** [str::lines().next()]: no line in the empty string; a final [\r] is dropped
    only before a [\n]. *)
Definition first_line (s : text) : option text :=
  match s with
  | [] => None
  | _ =>
      match split_char LF s with
      | None => Some s
      | Some (l, _) =>
          match reverse l with
          | c :: l' => if c =? CR then Some (reverse l') else Some l
          | [] => Some l
          end
      end
  end.

(** [str::split_whitespace]: the maximal runs of other chars. *)
Fixpoint words (cur : text) (s : text) : list text :=
  match s with
  | [] => match cur with [] => [] | _ => [reverse cur] end
  | c :: s' =>
      if is_whitespace c
      then match cur with [] => words [] s' | _ => reverse cur :: words [] s' end
      else words (c :: cur) s'
  end.
Definition split_whitespace (s : text) : list text := words [] s.

(** [str::split] on a char. *)
Fixpoint split_on (c : N) (s : text) : list text :=
  match s with
  | [] => [[]]
  | d :: s' =>
      if d =? c then [] :: split_on c s'
      else match split_on c s' with
           | w :: ws => (d :: w) :: ws
           | [] => [[d]]
           end
  end.

(** ** Facts *)

Lemma lit_app a b : lit (a +:+ b) = lit a ++ lit b.
Proof.
  unfold lit. rewrite <- fmap_app. f_equal.
  induction a as [|c a IH]; [done|]. simpl. by f_equal.
Qed.

Lemma strip_prefix_app p s : strip_prefix p (p ++ s) = Some s.
Proof. induction p as [|c p IH]; [by destruct s|]. simpl. by rewrite N.eqb_refl. Qed.

Lemma strip_prefix_Some p s r : strip_prefix p s = Some r <-> s = p ++ r.
Proof.
  split; [|intros ->; apply strip_prefix_app].
  revert s. induction p as [|c p IH]; intros s.
  - by intros [= ->].
  - destruct s as [|d s]; [done|]. simpl. destruct (N.eqb_spec c d) as [->|]; [|done].
    intros Hr. simpl. f_equal. by apply IH.
Qed.

Lemma split_first_Some p s a b : split_first p s = Some (a, b) -> s = a ++ p ++ b.
Proof.
  revert a b. induction s as [|c s IH]; intros a b; cbn [split_first].
  - destruct (strip_prefix p []) eqn:E; [|done]. intros ?; simplify_eq. by apply (strip_prefix_Some p).
  - destruct (strip_prefix p (c :: s)) eqn:E.
    + intros ?; simplify_eq. by apply (strip_prefix_Some p).
    + destruct (split_first p s) as [[a' b']|] eqn:E'; [|done].
      intros [= <- <-]. simpl. f_equal. by apply IH.
Qed.

Lemma split_last_None c s : split_last c s = None <-> c ∉ s.
Proof.
  induction s as [|d s IH]; simpl.
  - split; [intros _; apply not_elem_of_nil | done].
  - rewrite not_elem_of_cons. destruct (split_last c s) as [[a b]|] eqn:E.
    + split; [done|]. intros [_ Hn]. by apply IH in Hn.
    + destruct (N.eqb_spec d c); [split; [done|intros []; congruence]|].
      split; [|done]. intros _. split; [done|by apply IH].
Qed.

(** The split at the last occurrence: the char does not occur after it. *)
Lemma split_last_app c a b : c ∉ b -> split_last c (a ++ c :: b) = Some (a, b).
Proof.
  intros Hb. induction a as [|d a IH]; simpl.
  - rewrite (proj2 (split_last_None c b) Hb). by rewrite N.eqb_refl.
  - by rewrite IH.
Qed.

Lemma split_char_app c a b : c ∉ a -> split_char c (a ++ c :: b) = Some (a, b).
Proof.
  intros Ha. unfold split_char. rewrite span_prefix; [done| |].
  - apply Forall_forall. intros d Hd. apply negb_true_iff, N.eqb_neq. naive_solver.
  - by rewrite N.eqb_refl.
Qed.

Lemma split_char_None c s : c ∉ s -> split_char c s = None.
Proof.
  intros Hs. unfold split_char. rewrite <- (app_nil_r s), span_prefix; [done| |done].
  apply Forall_forall. intros d Hd. apply negb_true_iff, N.eqb_neq. naive_solver.
Qed.

Lemma split_char_None_inv c s : split_char c s = None -> c ∉ s.
Proof.
  unfold split_char. intros H.
  pose proof (span_app (fun d => negb (d =? c)) s) as Happ.
  pose proof (span_all (fun d => negb (d =? c)) s) as Hall.
  destruct (span _ s) as [a [|d b]]; [|done]. simpl in *. rewrite app_nil_r in Happ. subst a.
  intros Hc. eapply Forall_forall in Hall; [|exact Hc]. simpl in Hall.
  by rewrite N.eqb_refl in Hall.
Qed.

Lemma split_char_Some c s a b : split_char c s = Some (a, b) -> s = a ++ c :: b /\ c ∉ a.
Proof.
  unfold split_char. intros H.
  pose proof (span_app (fun d => negb (d =? c)) s) as Happ.
  pose proof (span_all (fun d => negb (d =? c)) s) as Hall.
  destruct (span _ s) as [a' [|d b']] eqn:E; [done|]. injection H as [= -> ->].
  assert (negb (d =? c) = false) as Hd.
  { apply (span_stop (fun e => negb (e =? c)) s d b). by rewrite E. }
  btest. subst d. simpl in *. split; [done|].
  intros Hc. eapply Forall_forall in Hall; [|exact Hc]. simpl in Hall.
  by rewrite N.eqb_refl in Hall.
Qed.

Lemma split_first_char c s : split_first [c] s = split_char c s.
Proof.
  unfold split_char. induction s as [|d s IH]; [done|]. simpl.
  destruct (N.eqb_spec c d) as [->|Hne].
  - by rewrite N.eqb_refl.
  - rewrite (proj2 (N.eqb_neq d c)) by done. simpl. rewrite IH.
    by destruct (span _ s) as [a [|e b]].
Qed.

Lemma first_line_crlf s rest :
  s <> [] -> LF ∉ s -> first_line (s ++ CRLF ++ rest) = Some s.
Proof.
  intros Hne Hs. unfold first_line.
  replace (s ++ CRLF ++ rest) with ((s ++ [CR]) ++ LF :: rest) by by rewrite <- app_assoc.
  rewrite split_char_app.
  - rewrite reverse_snoc. simpl. rewrite reverse_involutive. by destruct s.
  - rewrite not_elem_of_app, list_elem_of_singleton. done.
Qed.

Lemma words_app cur w s :
  Forall (fun c => is_whitespace c = false) w -> words cur (w ++ s) = words (reverse w ++ cur) s.
Proof.
  intros Hw. revert cur. induction Hw as [|c w Hc _ IH]; intros cur; [done|].
  simpl. rewrite Hc, IH. by rewrite reverse_cons, <- app_assoc.
Qed.

(** A word at the front of a string, ended by whitespace or by the end. *)
Lemma split_whitespace_word w s :
  w <> [] -> Forall (fun c => is_whitespace c = false) w ->
  (match s with [] => True | c :: _ => is_whitespace c = true end) ->
  split_whitespace (w ++ s) = w :: split_whitespace (tail s).
Proof.
  intros Hne Hw Hs. unfold split_whitespace. rewrite words_app, app_nil_r by done.
  destruct (reverse w) as [|c r] eqn:E.
  - apply (f_equal reverse) in E. rewrite reverse_involutive in E. done.
  - rewrite <- (reverse_involutive w), E. destruct s as [|d s]; [done|].
    simpl. by rewrite Hs.
Qed.

Lemma trim_none s :
  (match s with [] => True | c :: _ => is_whitespace c = false end) ->
  (match last s with None => True | Some c => is_whitespace c = false end) ->
  trim s = s.
Proof.
  intros Hs Hl. unfold trim, trim_start. rewrite (drop_while_none _ s) by done.
  rewrite drop_while_none; [apply reverse_involutive|].
  destruct (reverse s) as [|c r] eqn:E; [done|].
  apply (f_equal reverse) in E. rewrite reverse_involutive, reverse_cons in E.
  by rewrite E, last_snoc in Hl.
Qed.

Lemma make_ascii_lowercase_app a b :
  make_ascii_lowercase (a ++ b) = make_ascii_lowercase a ++ make_ascii_lowercase b.
Proof. apply fmap_app. Qed.

Lemma make_ascii_lowercase_idem s :
  make_ascii_lowercase (make_ascii_lowercase s) = make_ascii_lowercase s.
Proof.
  unfold make_ascii_lowercase. rewrite <- list_fmap_compose. apply list_fmap_ext.
  intros _ c _. unfold compose, ascii_lowercase_char.
  destruct ((65 <=? c) && (c <=? 90)) eqn:E; [|by rewrite E]. btest.
  test_false (c + 32 <=? 90). by rewrite andb_false_r.
Qed.

Lemma to_lowercase_cons c s : to_lowercase (c :: s) = char_to_lowercase c ++ to_lowercase s.
Proof. done. Qed.

(** On ASCII strings the Unicode lowercase mapping is the ASCII one. *)
Lemma to_lowercase_ascii s :
  is_ascii s = true -> to_lowercase s = make_ascii_lowercase s.
Proof.
  intros Hs%forallb_Forall. induction Hs as [|c s Hc _ IH]; [done|].
  rewrite to_lowercase_cons, IH. unfold char_to_lowercase. by rewrite Hc.
Qed.

Lemma is_ascii_app a b : is_ascii (a ++ b) = is_ascii a && is_ascii b.
Proof. apply forallb_app. Qed.

#[export] Hint Rewrite strip_prefix_app make_ascii_lowercase_app is_ascii_app : len.
