(* ===== verification/Numbers.v ===== *)
(** Printing and parsing of integers, as [Display] and [FromStr] do it. *)

From S2P Require Import Prelude.
From S2P Require Import Text.
From S2P Require Import Strings.

(** * Printing *)

Definition digit_char (d : N) : N := ch "0" + d.

(** The decimal digits of [n], most significant first; [fuel] bounds their
    number. *)
Fixpoint dec_digits (fuel : nat) (n : N) : text :=
  match fuel with
  | O => []
  | S fuel' =>
      if n <? 10 then [digit_char n]
      else dec_digits fuel' (n / 10) ++ [digit_char (n mod 10)]
  end.

(** [format!("{}", n)] for an unsigned integer. A number has at most as many
    decimal digits as binary ones. *)
Definition dec (n : N) : text := dec_digits (S (N.size_nat n)) n.

(** * Parsing *)

(** [char::to_digit]. *)
Definition digit_val (radix c : N) : option N :=
  let d :=
    if (ch "0" <=? c) && (c <=? ch "9") then c - ch "0"
    else if (ch "a" <=? c) && (c <=? ch "z") then c - ch "a" + 10
    else if (ch "A" <=? c) && (c <=? ch "Z") then c - ch "A" + 10
    else radix in
  if d <? radix then Some d else None.

(** The digit loop: [None] at a char that is no digit, and as soon as the value
    overflows [max]. *)
Fixpoint parse_digits (radix max acc : N) (s : text) : option N :=
  match s with
  | [] => Some acc
  | c :: s' =>
      d ← digit_val radix c;
      if acc * radix + d <=? max then parse_digits radix max (acc * radix + d) s' else None
  end.

(** [from_str_radix] on an unsigned type whose largest value is [max]: one or
    more digits, after an optional [+]. *)
Definition from_str_radix (radix max : N) (s : text) : option N :=
  match s with
  | [] => None
  | c :: s' =>
      if c =? ch "+" then
        match s' with [] => None | _ => parse_digits radix max 0 s' end
      else parse_digits radix max 0 s
  end.

Definition u16_MAX : N := 2 ^ 16 - 1.
Definition u32_MAX : N := 2 ^ 32 - 1.
Definition u64_MAX : N := 2 ^ 64 - 1.

Definition parse_u16 : text -> option N := from_str_radix 10 u16_MAX.
Definition parse_u32 : text -> option N := from_str_radix 10 u32_MAX.
Definition parse_u64 : text -> option N := from_str_radix 10 u64_MAX.
Definition parse_usize : text -> option N := from_str_radix 10 usize_MAX.

(** [str::parse::<i32>]. *)
Definition parse_i32 (s : text) : option Z :=
  match s with
  | [] => None
  | c :: s' =>
      if c =? ch "-" then
        match s' with
        | [] => None
        | _ => n ← parse_digits 10 (2 ^ 31) 0 s'; Some (- Z.of_N n)%Z
        end
      else n ← from_str_radix 10 (2 ^ 31 - 1) s; Some (Z.of_N n)
  end.

(** ** Facts *)

Lemma digit_val_char d : d < 10 -> digit_val 10 (digit_char d) = Some d.
Proof.
  intros Hd. unfold digit_val, digit_char.
  replace ((48 <=? 48 + d) && (48 + d <=? 57)) with true
    by (symmetry; apply andb_true_intro; split; decide_test).
  replace (48 + d - 48) with d by lia. by rewrite (proj2 (N.ltb_lt _ _) Hd).
Qed.

Lemma parse_digits_app radix max acc a b :
  parse_digits radix max acc (a ++ b)
  = acc' ← parse_digits radix max acc a; parse_digits radix max acc' b.
Proof.
  revert acc. induction a as [|c a IH]; intros acc; [done|]. simpl.
  destruct (digit_val radix c); [|done]. simpl. case_match; [apply IH|done].
Qed.

Lemma parse_digits_bound radix max acc s n :
  acc <= max -> parse_digits radix max acc s = Some n -> n <= max.
Proof.
  revert acc. induction s as [|c s IH]; intros acc Hacc; simpl; [by intros [= <-]|].
  destruct (digit_val radix c) as [d|]; [|done]. simpl.
  destruct (N.leb_spec (acc * radix + d) max); [|done]. by apply IH.
Qed.

Lemma dec_digits_S fuel n :
  dec_digits (S fuel) n =
  if n <? 10 then [digit_char n] else dec_digits fuel (n / 10) ++ [digit_char (n mod 10)].
Proof. done. Qed.

Lemma size_nat_size n : N.of_nat (N.size_nat n) = N.size n.
Proof. destruct n as [|p]; [done|]. simpl. induction p; simpl in *; lia. Qed.

(** A property of all printed numbers, by the digits from the left. *)
Lemma dec_ind (P : N -> text -> Prop) :
  (forall d, d < 10 -> P d [digit_char d]) ->
  (forall n d s, 0 < n -> d < 10 -> P n s -> P (n * 10 + d) (s ++ [digit_char d])) ->
  forall n, P n (dec n).
Proof.
  intros Hd Hs n. unfold dec.
  assert (n < 2 ^ N.of_nat (N.size_nat n)) as Hn by (rewrite size_nat_size; apply N.size_gt).
  revert Hn. generalize (N.size_nat n). intros fuel. revert n.
  induction fuel as [|fuel IH]; intros n Hn; rewrite dec_digits_S.
  - simpl in Hn. test_true (n <? 10). apply Hd. lia.
  - destruct (N.ltb_spec n 10) as [Hlt|Hge]; [by apply Hd|].
    rewrite (N.div_mod' n 10) at 1. rewrite N.mul_comm. apply Hs.
    + apply N.div_str_pos. lia.
    + by apply N.mod_lt.
    + apply IH. rewrite Nat2N.inj_succ, N.pow_succ_r' in Hn.
      apply N.Div0.div_lt_upper_bound. lia.
Qed.

Lemma parse_digits_dec n max : n <= max -> parse_digits 10 max 0 (dec n) = Some n.
Proof.
  apply (dec_ind (fun n s => n <= max -> parse_digits 10 max 0 s = Some n)).
  - intros d Hd Hm. simpl. rewrite digit_val_char by done. simpl.
    test_true (0 * 10 + d <=? max). by f_equal.
  - intros m d s Hm Hd IH Hmax. rewrite parse_digits_app, IH by lia. simpl.
    rewrite digit_val_char by done. simpl. by test_true (m * 10 + d <=? max).
Qed.

Lemma dec_all_digits n : Forall (fun c => ch "0" <= c <= ch "9") (dec n).
Proof.
  apply (dec_ind (fun _ s => Forall (fun c => ch "0" <= c <= ch "9") s)).
  - intros d Hd. constructor; [unfold digit_char; lia|constructor].
  - intros m d s _ Hd IH. apply Forall_app. split; [done|].
    constructor; [unfold digit_char; lia|constructor].
Qed.

(** A 64-bit number has at most 65 digits. *)
Lemma dec_length n : n < 2 ^ 64 -> len (dec n) <= 65.
Proof.
  intros Hn. assert (forall fuel m, length (dec_digits fuel m) <= fuel)%nat as Hd.
  { induction fuel as [|fuel IH]; intros m; [done|]. rewrite dec_digits_S.
    destruct (m <? 10); [simpl; lia|]. rewrite length_app. specialize (IH (m / 10)). simpl. lia. }
  unfold len, dec. specialize (Hd (S (N.size_nat n)) n).
  assert (N.size n <= 64); [|pose proof (size_nat_size n); lia].
  destruct (N.eq_dec n 0) as [->|Hz]; [by vm_compute|].
  rewrite N.size_log2 by done. apply N.le_succ_l, N.log2_lt_pow2; lia.
Qed.

Lemma trim_dec n : trim (dec n) = dec n.
Proof.
  assert (forall c, c ∈ dec n -> is_whitespace c = false) as Hd.
  { intros c Hc. pose proof (dec_all_digits n) as Hd. rewrite Forall_forall in Hd.
    apply Hd in Hc. change (48 <= c <= 57) in Hc. apply not_true_iff_false. unfold is_whitespace.
    rewrite !orb_true_iff, !andb_true_iff, !N.leb_le, !N.eqb_eq. lia. }
  apply trim_none.
  - destruct (dec n) as [|c s]; [done|]. apply Hd. by left.
  - destruct (last (dec n)) as [c|] eqn:E; [|done]. by apply Hd, last_Some_elem_of.
Qed.

Lemma dec_not_nil n : dec n <> [].
Proof.
  apply (dec_ind (fun _ s => s <> [])); [done|]. intros m d s _ _ _. by destruct s.
Qed.

Lemma dec_not_in n c : c < ch "0" \/ ch "9" < c -> c ∉ dec n.
Proof.
  intros Hc Hin. pose proof (dec_all_digits n) as Hall.
  rewrite Forall_forall in Hall. apply Hall in Hin. lia.
Qed.

Lemma dec_ascii n : is_ascii (dec n) = true.
Proof.
  apply forallb_Forall. eapply Forall_impl; [apply dec_all_digits|].
  intros c Hc. simpl in *. decide_test.
Qed.

(** Printing an unsigned integer and parsing it back, at every width. *)
Lemma from_str_radix_dec n max : n <= max -> from_str_radix 10 max (dec n) = Some n.
Proof.
  intros Hn. unfold from_str_radix. pose proof (parse_digits_dec n max Hn) as Hp.
  pose proof (dec_not_in n (ch "+")) as Hplus.
  destruct (dec n) as [|c s] eqn:E; [by destruct (dec_not_nil n)|].
  destruct (N.eqb_spec c (ch "+")) as [->|]; [|done].
  destruct Hplus; [lia|constructor].
Qed.

Lemma parse_i32_dec n : n < 2 ^ 31 -> parse_i32 (dec n) = Some (Z.of_N n).
Proof.
  intros Hn. unfold parse_i32.
  pose proof (from_str_radix_dec n (2 ^ 31 - 1) ltac:(lia)) as Hp.
  pose proof (dec_not_in n (ch "-")) as Hminus.
  destruct (dec n) as [|c s] eqn:E; [by destruct (dec_not_nil n)|].
  destruct (N.eqb_spec c (ch "-")) as [->|]; [destruct Hminus; [lia|constructor]|].
  by rewrite Hp.
Qed.

Lemma from_str_radix_bound radix max s n : from_str_radix radix max s = Some n -> n <= max.
Proof.
  unfold from_str_radix. intros H. repeat case_match; try done;
    eapply parse_digits_bound in H; done || lia.
Qed.

#[export] Hint Resolve dec_not_nil dec_ascii dec_all_digits : minreq.
