(* ===== verification/Errors.v ===== *)
(** [src/error.rs]: the error type of the library, its messages and sources.
    The errors of other libraries (serde_json, rustls) are known to this code by
    the message they print, and stand for themselves as that message. *)

From S2P Require Import Prelude.
From S2P Require Import Text.
From S2P Require Import Numbers.

(** [std::io::ErrorKind], as far as the code names its values; the others are
    numbered. *)
Inductive ErrorKind : Type :=
| TimedOut
| WouldBlock
| Other_kind
| Kind (code : N).

(** [std::io::Error]: its kind and what it prints. *)
Record io_error : Type := mkIoError {
  io_kind : ErrorKind;
  io_message : text;
}.

Inductive Error : Type :=
| SerdeJsonError (message : text)
| InvalidUtf8InBody (err : Utf8Error)
| RustlsCreateConnection (message : text)
| IoError (err : io_error)
| MalformedChunkLength
| MalformedChunkEnd
| MalformedContentLength
| HeadersOverflow
| StatusLineOverflow
| AddressNotFound
| RedirectLocationMissing
| InfiniteRedirectionLoop
| TooManyRedirections
| InvalidUtf8InResponse
| PunycodeConversionFailed
| HttpsFeatureNotEnabled
| PunycodeFeatureNotEnabled
| BadProxy
| BadProxyCreds
| ProxyConnect
| InvalidProxyCreds
| Other (message : text).

#[export] Instance ErrorKind_eq_dec : EqDecision ErrorKind.
Proof. solve_decision. Defined.
#[export] Instance io_error_eq_dec : EqDecision io_error.
Proof. solve_decision. Defined.
#[export] Instance Utf8Error_eq_dec : EqDecision Utf8Error.
Proof. solve_decision. Defined.
#[export] Instance Error_eq_dec : EqDecision Error.
Proof. solve_decision. Defined.

(** [Display] of [std::str::Utf8Error]. *)
Definition Utf8Error_display (e : Utf8Error) : text :=
  match error_len e with
  | Some n => lit "invalid utf-8 sequence of " ++ dec n ++ lit " bytes from index "
              ++ dec (valid_up_to e)
  | None => lit "incomplete utf-8 byte sequence from index " ++ dec (valid_up_to e)
  end.

(** [fmt::Display for Error]. *)
Definition Error_display (e : Error) : text :=
  match e with
  | SerdeJsonError err => err
  | IoError err => io_message err
  | InvalidUtf8InBody err => Utf8Error_display err
  | RustlsCreateConnection err => lit "error creating rustls connection: " ++ err
  | MalformedChunkLength => lit "non-usize chunk length with transfer-encoding: chunked"
  | MalformedChunkEnd => lit "chunk did not end after reading the expected amount of bytes"
  | MalformedContentLength => lit "non-usize content length"
  | HeadersOverflow => lit "the headers' total size surpassed max_headers_size"
  | StatusLineOverflow => lit "the status line length surpassed max_status_line_length"
  | AddressNotFound => lit "could not resolve host to a socket address"
  | RedirectLocationMissing => lit "redirection location header missing"
  | InfiniteRedirectionLoop => lit "infinite redirection loop detected"
  | TooManyRedirections => lit "too many redirections (over the max)"
  | InvalidUtf8InResponse =>
      lit "response contained invalid utf-8 where valid utf-8 was expected"
  | HttpsFeatureNotEnabled =>
      lit "request url contains https:// but the https feature is not enabled"
  | PunycodeFeatureNotEnabled =>
      lit "non-ascii urls needs to be converted into punycode, and the feature is missing"
  | PunycodeConversionFailed => lit "non-ascii url conversion to punycode failed"
  | BadProxy => lit "the provided proxy information is malformed"
  | BadProxyCreds => lit "the provided proxy credentials are malformed"
  | ProxyConnect => lit "could not connect to the proxy server"
  | InvalidProxyCreds => lit "the provided proxy credentials are invalid"
  | Other msg =>
      lit "error in minreq: please open an issue in the minreq repo, include the following: '"
      ++ msg ++ lit "'"
  end.

(** [error::Error::source]: the inner error, for the variants that wrap one. *)
Definition Error_source (e : Error) : option text :=
  match e with
  | SerdeJsonError err => Some err
  | IoError err => Some (io_message err)
  | InvalidUtf8InBody err => Some (Utf8Error_display err)
  | RustlsCreateConnection err => Some err
  | _ => None
  end.

(** [From<io::Error> for Error]: what [?] does to an I/O error. *)
Definition Error_from (other : io_error) : Error := IoError other.

(** A result of this library. *)
Abbreviation result A := (outcome Error A) (only parsing).
(** An [io::Result]. *)
Abbreviation io_result A := (outcome io_error A) (only parsing).

(** [result.map_err(Error::from)], what [?] does to a call that fails with an
    I/O error. *)
Definition from_io {A} (m : io_result A) : result A := map_err Error_from m.
