(* ===== verification/Roots.v ===== *)
(** [src/connection.rs], the static variables of the rustls builds: the root
    certificates set by hand and the configuration made of them. *)

From S2P Require Import Prelude.
From S2P Require Import Errors.

(** What rustls and its companions provide: certificates, whether
    [RootCertStore::add] takes one, the roots of [webpki_roots], and those
    [rustls_native_certs] finds on the system. *)
Class RootStore : Type := {
  Certificate : Type;
  store_accepts : Certificate -> bool;
  TLS_SERVER_ROOTS : list Certificate;
  load_native_certs : list Certificate;
}.

Section Roots.
Context `{Build} `{RootStore}.

(** A [Lazy] value: not yet asked for, made, or lost to a panic of its
    initialisation. *)
Inductive LazyConfig : Type :=
| Unforced
| Forced (root_certificates : list Certificate)
| Poisoned.

(** The static variables; the configuration is known by its root certificates. *)
Record Statics : Type := mkStatics {
  MANUAL_ROOTS : option (list Certificate);
  CONFIG : LazyConfig;
}.
Definition initial_statics : Statics := mkStatics None Unforced.

(** [MANUAL_ROOTS.set(certs)], whose failure is ignored. *)
Definition set_manual_roots (certs : list Certificate) (st : Statics) : Statics :=
  match MANUAL_ROOTS st with
  | Some _ => st
  | None => mkStatics (Some certs) (CONFIG st)
  end.

(** The initialisation of [CONFIG]. *)
Definition make_config (manual_roots : option (list Certificate))
    : outcome Error (list Certificate) :=
  if feature_manual_roots then
    match manual_roots with
    | Some certs => if forallb store_accepts certs then Ok certs else Panic
    | None => Panic
    end
  else
    Ok (TLS_SERVER_ROOTS
          ++ if feature_probe then List.filter store_accepts load_native_certs else []).

(** [CONFIG.clone()]. *)
Definition force_config (st : Statics) : outcome Error (list Certificate) * Statics :=
  match CONFIG st with
  | Forced certs => (Ok certs, st)
  | Poisoned => (Panic, st)
  | Unforced =>
      match make_config (MANUAL_ROOTS st) with
      | Ok certs => (Ok certs, mkStatics (MANUAL_ROOTS st) (Forced certs))
      | r => (r, mkStatics (MANUAL_ROOTS st) Poisoned)
      end
  end.

(** What a program does to the static variables: it sets roots, or it sends a request
    over https, which asks for the configuration. *)
Inductive Use : Type :=
| SetRoots (certs : list Certificate)
| AskConfig.

Definition use (st : Statics) (u : Use) : Statics :=
  match u with
  | SetRoots certs => set_manual_roots certs st
  | AskConfig => (force_config st).2
  end.
Definition run (uses : list Use) (st : Statics) : Statics := foldl use st uses.

(** What a program gets that asks for the configuration after [uses]. *)
Definition asked_after (uses : list Use) : outcome Error (list Certificate) :=
  (force_config (run uses initial_statics)).1.
End Roots.

Module RootsFacts.
Section Facts.
Context `{Build} `{RootStore}.

(** The roots that are set before the configuration is first asked for, in order. *)
Fixpoint sets_before (uses : list Use) : list (list Certificate) :=
  match uses with
  | SetRoots certs :: uses => certs :: sets_before uses
  | _ => []
  end.

(** The configuration, once asked for, stays; roots, once set, stay. *)
Lemma run_forced uses st :
  CONFIG st <> Unforced -> (force_config (run uses st)).1 = (force_config st).1.
Proof.
  revert st. induction uses as [|u uses IH]; intros st Hst; [done|].
  assert (CONFIG (use st u) = CONFIG st) as Hu.
  { destruct u; cbn [use]; [unfold set_manual_roots; by destruct (MANUAL_ROOTS st)|].
    unfold force_config. by destruct (CONFIG st) eqn:?. }
  change (run (u :: uses) st) with (run uses (use st u)).
  rewrite IH by (by rewrite Hu). unfold force_config. rewrite Hu. by destruct (CONFIG st).
Qed.

Lemma force_config_forces st : CONFIG (force_config st).2 <> Unforced.
Proof.
  unfold force_config. destruct (CONFIG st) eqn:E; simpl; rewrite ?E; try done.
  by destruct (make_config _).
Qed.

Lemma make_config_no_error manual e : make_config manual <> Err e.
Proof. unfold make_config. by repeat case_match. Qed.

Lemma force_config_again st : (force_config (force_config st).2).1 = (force_config st).1.
Proof.
  unfold force_config. destruct (CONFIG st) eqn:E; simpl; rewrite ?E; try done.
  pose proof (make_config_no_error (MANUAL_ROOTS st)) as Hne.
  by destruct (make_config _) as [|e|]; [|by destruct (Hne e)|].
Qed.

Lemma run_unforced uses st :
  CONFIG st = Unforced ->
  (force_config (run uses st)).1
  = make_config (match MANUAL_ROOTS st with Some m => Some m | None => head (sets_before uses) end).
Proof.
  revert st. induction uses as [|[certs|] uses IH]; intros st Hst.
  - cbn. unfold force_config. rewrite Hst.
    by destruct (MANUAL_ROOTS st), (make_config _).
  - change (run (?u :: uses) st) with (run uses (use st u)). cbn [use sets_before head].
    unfold set_manual_roots. destruct (MANUAL_ROOTS st) as [m|] eqn:Hm.
    + rewrite IH, Hm by done. done.
    + by rewrite IH.
  - change (run (?u :: uses) st) with (run uses (use st u)). cbn [use sets_before head].
    rewrite run_forced by apply force_config_forces. rewrite force_config_again.
    unfold force_config. rewrite Hst. by destruct (MANUAL_ROOTS st), (make_config _).
Qed.

(** C32. Which certificates are trusted, after any sequence of calls that set roots and
    requests that ask for the configuration. In a build with manual roots it is the
    first call of [set_manual_roots] that counts, if it comes before the configuration
    is first asked for: its certificates are trusted when the store takes all of them,
    and asking panics when it does not, or when there was no such call. In another
    build the built-in certificates are trusted, and those of the system that the
    store takes with the feature for it, whatever was set. And this is fixed when the
    configuration is first asked for: nothing later changes it, nor repairs a
    configuration whose initialisation panicked. *)
Theorem trusted_roots_fixed uses :
  asked_after uses
  = (if feature_manual_roots then
       match sets_before uses with
       | certs :: _ =>
           if decide (Forall (fun c => store_accepts c = true) certs) then Ok certs else Panic
       | [] => Panic
       end
     else
       Ok (TLS_SERVER_ROOTS
           ++ if feature_probe then List.filter store_accepts load_native_certs else [])) /\
  (forall later, asked_after (uses ++ AskConfig :: later) = asked_after uses).
Proof.
  assert (forall uses, asked_after uses = make_config (head (sets_before uses))) as Hasked.
  { intros us. unfold asked_after. rewrite run_unforced by done. by destruct (head _). }
  split.
  - rewrite Hasked. unfold make_config. destruct feature_manual_roots; [|done].
    destruct (sets_before uses) as [|certs rest]; [done|]. cbn [head].
    by case_decide as Hc; rewrite <- forallb_Forall in Hc; destruct (forallb _ _).
  - intros later. rewrite !Hasked. f_equal. induction uses as [|[certs|] uses IH]; [done| |done].
    done.
Qed.
End Facts.
End RootsFacts.

Module RootsExamples.
(** Certificates that are numbers, of which the store takes the even ones. *)
#[local] Instance even_roots : RootStore := {|
  Certificate := N;
  store_accepts := N.even;
  TLS_SERVER_ROOTS := [0];
  load_native_certs := [1; 2];
|}.
#[local] Existing Instance full_build.

(** Roots are set, and set again, and a request is sent; then other roots are set. *)
Example first_set_counts :
  asked_after [SetRoots [4]; SetRoots [6]; AskConfig; SetRoots [8]] = Ok [4].
Proof. reflexivity. Qed.

(** A request sent before any roots are set spoils the configuration, and so does a
    certificate that the store does not take. *)
Example too_early : asked_after [AskConfig; SetRoots [4]] = Panic.
Proof. reflexivity. Qed.
Example not_taken : asked_after [SetRoots [4; 5]; AskConfig; SetRoots [4]] = Panic.
Proof. reflexivity. Qed.
End RootsExamples.
