(* ===== verification/Proxies.v ===== *)
(** [src/proxy.rs]: proxy configurations, the CONNECT request and the check of
    the proxy's answer. *)

From S2P Require Import Prelude.
From S2P Require Import Text.
From S2P Require Import Strings.
From S2P Require Import Numbers.
From S2P Require Import Errors.
From S2P Require Import Url.

(** Replacement for [str::split_once]: [splitn(2, pattern)]. *)
Definition split_once (string pattern : text) : option (text * text) :=
  split_first pattern string.

(** Replacement for [str::rsplit_once]: [rsplitn(2, pattern)], on the one-char
    patterns the code uses. *)
Definition rsplit_once (string : text) (pattern : N) : option (text * text) :=
  split_last pattern string.

(** What the CONNECT request of a proxy needs of the request that goes through
    it. *)
Class Proxied (R : Type) : Type := proxied_url : R -> HttpUrl.HttpUrl.

Module Proxy.
Inductive ProxyKind : Type := Basic.

Record Proxy : Type := mkProxy {
  server : text;
  port : N;
  user : option text;
  password : option text;
  kind : ProxyKind;
}.

#[global] Instance ProxyKind_eq_dec : EqDecision ProxyKind.
Proof. solve_decision. Defined.
#[global] Instance Proxy_eq_dec : EqDecision Proxy.
Proof. solve_decision. Defined.

Definition parse_creds (creds : text) : option text * option text :=
  match split_once creds [ch ":"] with
  | Some (user, pass) => (Some user, Some pass)
  | None => (Some creds, None)
  end.

Definition parse_address (host : text) : result (text * option N) :=
  match split_once host [ch ":"] with
  | Some (host, port) =>
      port ← ok_or (parse_u32 port) BadProxy;
      Ok (host, Some port)
  | None => Ok (host, None)
  end.

Definition new (proxy : text) : result Proxy :=
  authority ←
    match split_once proxy (lit "://") with
    | Some (proto, auth) => if decide (proto = lit "http") then Ok auth else Err BadProxy
    | None => Ok proxy
    end;
  let '(user, password, host) :=
    match rsplit_once authority (ch "@") with
    | Some (userinfo, host) =>
        let '(user, password) := parse_creds userinfo in (user, password, host)
    | None => (None, None, authority)
    end in
  '(host, port) ← parse_address host;
  Ok (mkProxy host (default 8080 port) user password Basic).

(** The value of the Proxy-Authorization header. *)
Definition authorization `{Externals} (self : Proxy) : text :=
  match user self with
  | Some user =>
      match kind self with
      | Basic =>
          let creds :=
            match password self with
            | Some password => base64_encode (utf8 (user ++ [ch ":"] ++ password))
            | None => base64_encode (utf8 user)
            end in
          lit "Proxy-Authorization: Basic " ++ creds ++ CRLF
      end
  | None => []
  end.

Definition connect `{Externals} `{Proxied R} (self : Proxy) (proxied_req : R) : text :=
  let host := HttpUrl.host (proxied_url proxied_req) in
  let port := Port.port (HttpUrl.port (proxied_url proxied_req)) in
  lit "CONNECT " ++ host ++ [ch ":"] ++ dec port ++ lit " HTTP/1.1" ++ CRLF
    ++ authorization self ++ CRLF.

(** The answer to a status code. *)
Definition classify_status (status_code : text) : result unit :=
  if decide (status_code = lit "200") then Ok tt
  else if bool_decide (status_code = lit "401") || bool_decide (status_code = lit "407")
  then Err InvalidProxyCreds
  else Err BadProxy.

Definition verify_response (response : bytes) : result unit :=
  let response_string := from_utf8_lossy response in
  top_line ← ok_or (first_line response_string) ProxyConnect;
  status_code ← ok_or (split_whitespace top_line !! 1%nat) BadProxy;
  classify_status status_code.
End Proxy.

(** * Facts *)

Module ProxyFacts.
Import Proxy.

(** A configuration as the string of [Proxy::new]'s documentation. *)
Definition userinfo (p : Proxy) : text :=
  match user p with
  | Some u => u ++ (match password p with Some w => ch ":" :: w | None => [] end) ++ [ch "@"]
  | None => []
  end.
Definition port_part (with_port : bool) (p : Proxy) : text :=
  if with_port then ch ":" :: dec (port p) else [].
Definition display (with_scheme with_port : bool) (p : Proxy) : text :=
  (if with_scheme then lit "http://" else []) ++ userinfo p ++ server p ++ port_part with_port p.

(** The configurations the format can express. *)
Record proxy_wf (p : Proxy) : Prop := {
  wf_proxy_server : (ch ":" ∉ server p) /\ (ch "@" ∉ server p);
  wf_proxy_port : port p <= u32_MAX;
  wf_proxy_user : match user p with Some u => ch ":" ∉ u | None => password p = None end;
}.

Lemma split_once_colon a b : ch ":" ∉ a -> split_once (a ++ (ch ":" :: b)) [ch ":"] = Some (a, b).
Proof. intros Ha. unfold split_once. rewrite split_first_char. by apply split_char_app. Qed.

Lemma parse_address_display with_port p :
  proxy_wf p ->
  parse_address (server p ++ port_part with_port p)
  = Ok (server p, if with_port then Some (port p) else None).
Proof.
  intros [[Hs _] Hp _]. unfold parse_address, port_part. destruct with_port.
  - rewrite split_once_colon by done. unfold parse_u32. by rewrite from_str_radix_dec.
  - rewrite app_nil_r. unfold split_once. by rewrite split_first_char, split_char_None.
Qed.

Lemma parse_creds_display u w :
  ch ":" ∉ u ->
  parse_creds (u ++ match w with Some w => ch ":" :: w | None => [] end) = (Some u, w).
Proof.
  intros Hu. unfold parse_creds. destruct w as [w|].
  - by rewrite split_once_colon.
  - rewrite app_nil_r. unfold split_once. by rewrite split_first_char, split_char_None.
Qed.

Lemma server_no_at with_port p : proxy_wf p -> ch "@" ∉ server p ++ port_part with_port p.
Proof.
  intros [[_ Hs] _ _]. unfold port_part. destruct with_port; [|by rewrite app_nil_r].
  rewrite not_elem_of_app, not_elem_of_cons. split_and!; [done..|].
  apply dec_not_in. lia.
Qed.

(** The configuration read from an authority. *)
Definition new_of_authority (authority : text) : result Proxy :=
  let '(user, password, host) :=
    match rsplit_once authority (ch "@") with
    | Some (userinfo, host) =>
        let '(user, password) := parse_creds userinfo in (user, password, host)
    | None => (None, None, authority)
    end in
  '(host, port) ← parse_address host;
  Ok (mkProxy host (default 8080 port) user password Basic).

Lemma new_eq proxy :
  new proxy =
  match split_once proxy (lit "://") with
  | Some (proto, auth) =>
      if decide (proto = lit "http") then new_of_authority auth else Err BadProxy
  | None => new_of_authority proxy
  end.
Proof.
  unfold new, new_of_authority.
  destruct (split_once _ _) as [[proto auth]|]; [case_decide|]; done.
Qed.

Lemma new_of_authority_display (with_port : bool) p :
  proxy_wf p -> (with_port = false -> port p = 8080) ->
  new_of_authority (userinfo p ++ server p ++ port_part with_port p) = Ok p.
Proof.
  intros Hwf Hdef. pose proof (server_no_at with_port p Hwf) as Hat.
  pose proof (parse_address_display with_port p Hwf) as Haddr.
  assert (default 8080 (if with_port then Some (port p) else None) = port p) as Hport
    by (destruct with_port; [done|by rewrite Hdef]).
  destruct Hwf as [_ _ Hu]. unfold new_of_authority, userinfo, rsplit_once.
  destruct p as [s n u w []]. simpl in *. destruct u as [u|].
  - rewrite <- !app_assoc. rewrite (app_assoc u). simpl.
    rewrite split_last_app by done. rewrite parse_creds_display by done.
    rewrite Haddr. cbn [mbind outcome_bind]. by rewrite Hport.
  - subst w. simpl. rewrite (proj2 (split_last_None _ _)) by done.
    rewrite Haddr. cbn [mbind outcome_bind]. by rewrite Hport.
Qed.

(** C38. [Proxy::new] reads back every configuration written in its documented format
    [[http://][user[:password]@]host[:port]]: with or without the scheme, with or
    without credentials, and with or without the port, which is then 8080. The host
    holds no colon and no at-sign, the user no colon, and the password any characters;
    but without the scheme no [://] may come of it, which would be taken for one. *)
Theorem new_display (with_scheme with_port : bool) p :
  proxy_wf p -> (with_port = false -> port p = 8080) ->
  (with_scheme = false -> contains (lit "://") (display false with_port p) = false) ->
  new (display with_scheme with_port p) = Ok p.
Proof.
  intros Hwf Hport Hno. rewrite new_eq. destruct with_scheme.
  - by apply new_of_authority_display.
  - specialize (Hno eq_refl). unfold contains in Hno. unfold split_once.
    destruct (split_first _ (display false _ p)); [done|]. by apply new_of_authority_display.
Qed.

Lemma new_display_witness :
  new (lit "user:p@ssw0rd@localhost:9999")
  = Ok (mkProxy (lit "localhost") 9999 (Some (lit "user")) (Some (lit "p@ssw0rd")) Basic) /\
  new (lit "http://user:://@localhost")
  = Ok (mkProxy (lit "localhost") 8080 (Some (lit "user")) (Some (lit "://")) Basic).
Proof.
  split.
  - apply (new_display false true (mkProxy (lit "localhost") 9999 (Some (lit "user"))
      (Some (lit "p@ssw0rd")) Basic)); [|done|by intros _; vm_compute].
    split; [split; by_compute | by_compute | by_compute].
  - apply (new_display true false (mkProxy (lit "localhost") 8080 (Some (lit "user"))
      (Some (lit "://")) Basic)); [|done|done].
    split; [split; by_compute | by_compute | by_compute].
Defined.

(** The same password without the scheme is taken for one, which is refused. *)
Example scheme_in_password : new (lit "user:://@localhost") = Err BadProxy.
Proof. reflexivity. Qed.

(** A proxy string is refused, with [BadProxy] and nothing else, exactly when
    it names a scheme other than [http] or when a port that is no [u32] follows
    the first colon of the address. *)
Lemma new_refuses proxy :
  (exists p, new proxy = Ok p) \/
  new proxy = Err BadProxy /\
  let authority := match split_once proxy (lit "://") with Some (_, a) => a | None => proxy end in
  let address := match rsplit_once authority (ch "@") with Some (_, h) => h | None => authority end in
  (exists proto auth, split_once proxy (lit "://") = Some (proto, auth) /\ proto <> lit "http")
  \/ (exists host port, split_once address [ch ":"] = Some (host, port) /\ parse_u32 port = None).
Proof.
  rewrite new_eq.
  assert (forall a, (exists p, new_of_authority a = Ok p) \/
    new_of_authority a = Err BadProxy /\
    let address := match rsplit_once a (ch "@") with Some (_, h) => h | None => a end in
    exists host port, split_once address [ch ":"] = Some (host, port) /\ parse_u32 port = None)
    as Ha.
  { intros a. unfold new_of_authority, parse_address.
    destruct (rsplit_once a _) as [[i h]|]; [destruct (parse_creds i)|];
      (destruct (split_once _ _) as [[host port]|]; [|left; by eexists]);
      (destruct (parse_u32 port) as [n|] eqn:Ep; [left; by eexists|]);
      right; (split; [done|]); by eexists _, _. }
  destruct (split_once proxy (lit "://")) as [[proto auth]|] eqn:E.
  - case_decide as Hp.
    + destruct (Ha auth) as [?|[? ?]]; [by left|right]. split; [done|]. by right.
    + right. split; [done|]. left. by eexists _, _.
  - destruct (Ha proxy) as [?|[? ?]]; [by left|right]. split; [done|]. by right.
Qed.

(** The answer of a proxy is judged by the second word of its first line
    alone, whatever the reason phrase and whatever bytes follow the line: [200]
    is success, [401] and [407] are refused credentials, the rest is a bad proxy. *)
Lemma verify_response_status version code reason rest :
  version <> [] -> code <> [] ->
  Forall (fun c => is_whitespace c = false) version ->
  Forall (fun c => is_whitespace c = false) code ->
  is_text (version ++ code ++ reason) -> LF ∉ reason ->
  verify_response (utf8 (version ++ ch " " :: code ++ ch " " :: reason ++ CRLF) ++ rest)
  = classify_status code.
Proof.
  intros Hv Hc Hvw Hcw Htext Hlf. unfold verify_response.
  apply is_text_app in Htext as [Ht1 Htext]. apply is_text_app in Htext as [Ht2 Ht3].
  assert (forall w, Forall (fun c => is_whitespace c = false) w -> LF ∉ w) as Hnolf.
  { intros w Hw Hin. rewrite Forall_forall in Hw. by specialize (Hw _ Hin). }
  rewrite from_utf8_lossy_app.
  2: { apply is_text_app. split; [done|]. constructor; [done|]. apply is_text_app. split; [done|].
       constructor; [done|]. apply is_text_app. split; [done|]. by repeat constructor. }
  set (line := version ++ ch " " :: code ++ ch " " :: reason).
  replace ((version ++ ch " " :: code ++ ch " " :: reason ++ CRLF) ++ from_utf8_lossy rest)
    with (line ++ CRLF ++ from_utf8_lossy rest)
    by (unfold line; rewrite <- !app_assoc; simpl; by rewrite <- !app_assoc; simpl; rewrite <- app_assoc).
  rewrite first_line_crlf; [| |].
  - simpl. unfold line. rewrite split_whitespace_word by done. simpl.
    by rewrite split_whitespace_word by done.
  - unfold line. by destruct version.
  - unfold line. rewrite not_elem_of_app, not_elem_of_cons, not_elem_of_app, not_elem_of_cons.
    split_and!; [by apply Hnolf|done|by apply Hnolf|done|done].
Qed.

Lemma verify_response_status_witness :
  verify_response (lit "HTTP/1.1 407 Proxy Authentication Required" ++ CRLF ++ replicate 8 0)
  = Err InvalidProxyCreds.
Proof.
  apply (verify_response_status (lit "HTTP/1.1") (lit "407") (lit "Proxy Authentication Required")
    (replicate 8 0)); by_compute.
Defined.

(** The errors [verify_response] can give. *)
Lemma verify_response_errors response :
  verify_response response = Err ProxyConnect <-> response = [].
Proof.
  split; [|by intros ->]. unfold verify_response, from_utf8_lossy.
  destruct response as [|b r]; [done|].
  assert (utf8_chunks (b :: r) <> []) as Hne.
  { cbn [utf8_chunks]. by repeat case_match. }
  destruct (utf8_chunks (b :: r)) as [|c cs]; [done|]. rewrite fmap_cons.
  unfold first_line. destruct (split_char _ _) as [[l ?]|].
  - destruct (reverse l) as [|d l']; [|destruct (d =? CR)]; simpl;
      (destruct (split_whitespace _ !! 1%nat); [|done]); simpl; unfold classify_status;
      repeat case_match; done.
  - simpl. destruct (split_whitespace _ !! 1%nat); [|done]. simpl. unfold classify_status.
    repeat case_match; done.
Qed.
End ProxyFacts.
