(* ===== verification/Requests.v ===== *)
(** [src/request.rs]: requests and their builder methods, the parsed request,
    its serialisation, and redirection. *)

From S2P Require Import Prelude.
From S2P Require Import Text.
From S2P Require Import Strings.
From S2P Require Import Numbers.
From S2P Require Import Errors.
From S2P Require Import Url.
From S2P Require Import Proxies.

Module Method.
Inductive Method : Type :=
| Get | Head | Post | Put | Delete | Connect | Options | Trace | Patch
| Custom (s : text).

#[global] Instance Method_eq_dec : EqDecision Method.
Proof. solve_decision. Defined.

(** [fmt::Display for Method]. *)
Definition fmt (self : Method) : text :=
  match self with
  | Get => lit "GET"
  | Head => lit "HEAD"
  | Post => lit "POST"
  | Put => lit "PUT"
  | Delete => lit "DELETE"
  | Connect => lit "CONNECT"
  | Options => lit "OPTIONS"
  | Trace => lit "TRACE"
  | Patch => lit "PATCH"
  | Custom s => s
  end.
End Method.

Module Request.
Record Request : Type := mkRequest {
  method : Method.Method;
  url : text;
  params : text;
  headers : gmap text text;
  body : option bytes;
  timeout : option N;
  max_headers_size : option N;
  max_status_line_len : option N;
  max_redirects : N;
  proxy : option Proxy.Proxy;
}.

Definition new (method : Method.Method) (url : text) : Request :=
  mkRequest method url [] ∅ None None None None 100 None.

Definition set_headers (self : Request) (h : gmap text text) : Request :=
  mkRequest (method self) (url self) (params self) h (body self) (timeout self)
    (max_headers_size self) (max_status_line_len self) (max_redirects self) (proxy self).

Definition with_headers (self : Request) (hs : list (text * text)) : Request :=
  set_headers self (foldl (fun m kv => <[kv.1 := kv.2]> m) (headers self) hs).

Definition with_header (self : Request) (key value : text) : Request :=
  set_headers self (<[key := value]> (headers self)).

Definition with_body (self : Request) (b : bytes) : Request :=
  let body_length := len b in
  let self := mkRequest (method self) (url self) (params self) (headers self) (Some b)
    (timeout self) (max_headers_size self) (max_status_line_len self) (max_redirects self)
    (proxy self) in
  with_header self (lit "Content-Length") (dec body_length).

Section Params.
Context `{Build} `{Externals}.

(** A key or value as it is put in the query. *)
Definition encode_param (s : text) : text :=
  if feature_urlencoding then urlencoding_encode s else s.

Definition with_param (self : Request) (key value : text) : Request :=
  let key := encode_param key in
  let value := encode_param value in
  let ps := match params self with [] => [] | ps => ps ++ [ch "&"] end in
  mkRequest (method self) (url self) (ps ++ key ++ [ch "="] ++ value) (headers self)
    (body self) (timeout self) (max_headers_size self) (max_status_line_len self)
    (max_redirects self) (proxy self).
End Params.

(** [to_string] is [serde_json::to_string] at the type of the body. *)
Definition with_json {T} (to_string : T -> outcome text text) (self : Request) (b : T)
    : result Request :=
  let self := with_header self (lit "Content-Type") (lit "application/json; charset=UTF-8") in
  match to_string b with
  | Ok json => Ok (with_body self (utf8 json))
  | Err err => Err (SerdeJsonError err)
  | Panic => Panic
  end.

Definition with_timeout (self : Request) (t : N) : Request :=
  mkRequest (method self) (url self) (params self) (headers self) (body self) (Some t)
    (max_headers_size self) (max_status_line_len self) (max_redirects self) (proxy self).

Definition with_max_redirects (self : Request) (n : N) : Request :=
  mkRequest (method self) (url self) (params self) (headers self) (body self) (timeout self)
    (max_headers_size self) (max_status_line_len self) n (proxy self).

Definition with_max_headers_size (self : Request) (n : option N) : Request :=
  mkRequest (method self) (url self) (params self) (headers self) (body self) (timeout self)
    n (max_status_line_len self) (max_redirects self) (proxy self).

Definition with_max_status_line_length (self : Request) (n : option N) : Request :=
  mkRequest (method self) (url self) (params self) (headers self) (body self) (timeout self)
    (max_headers_size self) n (max_redirects self) (proxy self).

Definition with_proxy (self : Request) (p : Proxy.Proxy) : Request :=
  mkRequest (method self) (url self) (params self) (headers self) (body self) (timeout self)
    (max_headers_size self) (max_status_line_len self) (max_redirects self) (Some p).

Definition set_method (self : Request) (m : Method.Method) : Request :=
  mkRequest m (url self) (params self) (headers self) (body self) (timeout self)
    (max_headers_size self) (max_status_line_len self) (max_redirects self) (proxy self).

(** The aliases of [Request::new], one per method. *)
Definition get : text -> Request := new Method.Get.
Definition head : text -> Request := new Method.Head.
Definition post : text -> Request := new Method.Post.
Definition put : text -> Request := new Method.Put.
Definition delete : text -> Request := new Method.Delete.
Definition connect : text -> Request := new Method.Connect.
Definition options : text -> Request := new Method.Options.
Definition trace : text -> Request := new Method.Trace.
Definition patch : text -> Request := new Method.Patch.
End Request.

Module ParsedRequest.
Record ParsedRequest : Type := mkParsedRequest {
  url : HttpUrl.HttpUrl;
  redirects : list HttpUrl.HttpUrl;
  config : Request.Request;
}.

#[global] Instance ParsedRequest_proxied : Proxied ParsedRequest := url.

(** [url.path_and_query] with the parameters of the request appended. *)
Definition add_params (path_and_query params : text) : text :=
  match params with
  | [] => path_and_query
  | _ =>
      path_and_query
        ++ (if contains [ch "?"] path_and_query then [ch "&"] else [ch "?"]) ++ params
  end.

Definition set_path (u : HttpUrl.HttpUrl) (path_and_query : text) : HttpUrl.HttpUrl :=
  HttpUrl.mkHttpUrl (HttpUrl.https u) (HttpUrl.host u) (HttpUrl.port u) path_and_query
    (HttpUrl.fragment u).

Section New.
Context `{Build} `{Environment}.

(** [env::var(name).map_err(|_| env::var(fallback))]: the value of the fallback
    ends up in the error. *)
Definition env_var_map_err (name fallback : text) : outcome (option text) text :=
  map_err (fun _ => env_var fallback) (ok_or (env_var name) tt).

(** [if let Ok(proxy) = Proxy::new(proxy) { config.proxy = Some(proxy) }]. *)
Definition set_proxy_from (proxy : text) (config : Request.Request) : Request.Request :=
  match Proxy.new proxy with
  | Ok proxy => Request.with_proxy config proxy
  | _ => config
  end.

(** The default proxy of the environment, for a request without one. *)
Definition default_proxy (https : bool) (config : Request.Request) : Request.Request :=
  match Request.proxy config with
  | Some _ => config
  | None =>
      if https then
        match env_var_map_err (lit "https_proxy") (lit "HTTPS_PROXY") with
        | Ok proxy => set_proxy_from proxy config
        | _ => config
        end
      else
        match env_var (lit "http_proxy") with
        | Some proxy => set_proxy_from proxy config
        | None =>
            match env_var_map_err (lit "all_proxy") (lit "ALL_PROXY") with
            | Ok proxy => set_proxy_from proxy config
            | _ => config
            end
        end
  end.

Definition new (config : Request.Request) : result ParsedRequest :=
  url ← HttpUrl.parse (Request.url config) None;
  let url := set_path url (add_params (HttpUrl.path_and_query url) (Request.params config)) in
  let config :=
    if feature_proxy then default_proxy (HttpUrl.https url) config else config in
  Ok (mkParsedRequest url [] config).
End New.

Section Head.
Context `{HashOrder}.

(** A header name that announces no body length. *)
Definition not_length (key : text) : bool :=
  let key := to_lowercase key in
  negb (bool_decide (key = lit "content-length"))
  && negb (bool_decide (key = lit "transfer-encoding")).

Definition header_line (kv : text * text) : text := kv.1 ++ lit ": " ++ kv.2 ++ CRLF.

Definition request_line (self : ParsedRequest) : text :=
  Method.fmt (Request.method (config self)) ++ lit " "
    ++ HttpUrl.path_and_query (url self) ++ lit " HTTP/1.1" ++ CRLF.

Definition host_line (self : ParsedRequest) : text :=
  lit "Host: " ++ HttpUrl.host (url self)
    ++ (match HttpUrl.port (url self) with
        | Port.Explicit port => [ch ":"] ++ dec port
        | _ => []
        end) ++ CRLF.

(** The methods whose requests get a [Content-Length] when they have none. *)
Definition method_has_body (m : Method.Method) : bool :=
  bool_decide (m = Method.Post) || bool_decide (m = Method.Put)
  || bool_decide (m = Method.Patch).

Definition length_line (self : ParsedRequest) : text :=
  if method_has_body (Request.method (config self)) then
    if forallb not_length (hm_iter (Request.headers (config self))).*1
    then lit "Content-Length: 0" ++ CRLF else []
  else [].

Definition get_http_head (self : ParsedRequest) : text :=
  request_line self ++ host_line self
    ++ (hm_iter (Request.headers (config self)) ≫= header_line)
    ++ length_line self ++ CRLF.

Definition as_bytes (self : ParsedRequest) : bytes :=
  utf8 (get_http_head self) ++ default [] (Request.body (config self)).
End Head.

Section Redirect.
Context `{Build}.

(** The URL a [Location] stands for: with a [://] an absolute one, else a
    resource of the current host. *)
Definition redirect_target (self : ParsedRequest) (loc : text) : result HttpUrl.HttpUrl :=
  if contains (lit "://") loc then
    map_err (fun _ => HttpUrl.invalid_protocol) (HttpUrl.parse loc (Some (url self)))
  else
    let absolute_url := HttpUrl.write_base_url_to (url self) [] ++ loc in
    HttpUrl.parse absolute_url (Some (url self)).

(** The result, and the request after the call: the URL is replaced, and the old
    one recorded, before the checks. *)
Definition redirect_to (self : ParsedRequest) (loc : text) : result unit * ParsedRequest :=
  match redirect_target self loc with
  | Ok u =>
      let self := mkParsedRequest u (redirects self ++ [url self]) (config self) in
      if Request.max_redirects (config self) <? len (redirects self) then
        (Err TooManyRedirections, self)
      else if existsb (fun redirect_url => bool_decide (redirect_url = url self)) (redirects self)
      then (Err InfiniteRedirectionLoop, self)
      else (Ok tt, self)
  | Err e => (Err e, self)
  | Panic => (Panic, self)
  end.
End Redirect.
End ParsedRequest.

(** * Facts *)

Module RequestFacts.
Import ParsedRequest.

(** ** Query parameters *)

(** The query of a list of parameters: [k=v] joined with [&]. *)
Fixpoint join_params (kvs : list (text * text)) : text :=
  match kvs with
  | [] => []
  | [(k, v)] => k ++ ch "=" :: v
  | (k, v) :: kvs' => k ++ ch "=" :: v ++ ch "&" :: join_params kvs'
  end.

Section ParamFacts.
Context `{Build} `{Externals} `{Environment}.

Definition encode_kv (kv : text * text) : text * text :=
  (Request.encode_param kv.1, Request.encode_param kv.2).

Lemma join_params_cons k v kvs :
  kvs <> [] -> join_params ((k, v) :: kvs) = k ++ (ch "=" :: v ++ ch "&" :: join_params kvs).
Proof. by destruct kvs. Qed.

Lemma join_params_ne kvs : kvs <> [] -> join_params kvs <> [].
Proof.
  destruct kvs as [|[k v] kvs]; [done|]. intros _. simpl. destruct kvs; by destruct k.
Qed.

Lemma join_params_snoc kvs k v :
  join_params (kvs ++ [(k, v)])
  = (match join_params kvs with [] => [] | q => q ++ [ch "&"] end) ++ k ++ ch "=" :: v.
Proof.
  induction kvs as [|[k' v'] kvs IH]; [done|]. rewrite <- app_comm_cons.
  rewrite join_params_cons by by destruct kvs. rewrite IH.
  destruct (decide (kvs = [])) as [->|Hne].
  - simpl. destruct k' as [|c k']; simpl; repeat (rewrite <- ?app_assoc; simpl); done.
  - rewrite (join_params_cons k' v' kvs) by done. pose proof (join_params_ne kvs Hne) as Hj.
    destruct (join_params kvs) as [|d q]; [done|].
    destruct k' as [|c k']; simpl; repeat (rewrite <- ?app_assoc; simpl); done.
Qed.

Definition with_params (r : Request.Request) (kvs : list (text * text)) : Request.Request :=
  foldl (fun r kv => Request.with_param r kv.1 kv.2) r kvs.

Lemma with_params_params r kvs :
  Request.params r = [] ->
  Request.params (with_params r kvs) = join_params (encode_kv <$> kvs).
Proof.
  intros Hr. induction kvs as [|[k v] kvs IH] using rev_ind; [done|].
  unfold with_params in *. rewrite foldl_snoc, fmap_app. simpl.
  unfold encode_kv at 2. simpl. rewrite join_params_snoc. f_equal. by rewrite <- IH.
Qed.

Lemma with_params_rest r kvs :
  Request.url (with_params r kvs) = Request.url r /\
  Request.headers (with_params r kvs) = Request.headers r /\
  Request.method (with_params r kvs) = Request.method r.
Proof.
  unfold with_params. revert r. induction kvs as [|[k v] kvs IH]; intros r; [done|].
  simpl. destruct (IH (Request.with_param r k v)) as (-> & -> & ->). done.
Qed.

(** C31. The query that is sent: the path and query of the request's URL,
    followed by the parameters in the order they were added, each encoded, joined
    by [&] and introduced by [?], or by [&] when the URL had a query. *)
Theorem params_in_query m u kvs :
  new (with_params (Request.new m u) kvs) =
  (fun parsed => mkParsedRequest
     (set_path parsed
        (HttpUrl.path_and_query parsed ++
         match kvs with
         | [] => []
         | _ => (if contains [ch "?"] (HttpUrl.path_and_query parsed) then [ch "&"] else [ch "?"])
                ++ join_params (encode_kv <$> kvs)
         end))
     [] (if feature_proxy
         then default_proxy (HttpUrl.https parsed) (with_params (Request.new m u) kvs)
         else with_params (Request.new m u) kvs))
  <$> HttpUrl.parse u None.
Proof.
  assert (forall p, add_params p (join_params (encode_kv <$> kvs)) =
    p ++ match kvs with
         | [] => []
         | _ => (if contains [ch "?"] p then [ch "&"] else [ch "?"])
                ++ join_params (encode_kv <$> kvs)
         end) as Hq.
  { intros p. unfold add_params. destruct kvs as [|kv kvs]; [simpl; by rewrite app_nil_r|].
    assert (join_params (encode_kv <$> kv :: kvs) <> []) as Hne
      by (apply join_params_ne; simpl; discriminate).
    by destruct (join_params (encode_kv <$> kv :: kvs)). }
  unfold new. rewrite with_params_params by done.
  destruct (with_params_rest (Request.new m u) kvs) as (-> & _ & _).
  change (Request.url (Request.new m u)) with u.
  destruct (HttpUrl.parse u None) as [parsed| |]; [|done..].
  unfold mbind, outcome_bind, fmap, outcome_fmap. by rewrite Hq.
Qed.
End ParamFacts.

(** ** The head of a request *)

Section HeadFacts.
Context `{HashOrder}.

(** The body length is announced: [with_body] sets the [Content-Length]
    header to the decimal length of the body, which parses back to it. *)
Lemma with_body_length r b :
  len b <= usize_MAX ->
  Request.body (Request.with_body r b) = Some b /\
  exists v, Request.headers (Request.with_body r b) !! lit "Content-Length" = Some v /\
    parse_usize v = Some (len b).
Proof.
  intros Hb. split; [done|]. exists (dec (len b)). simpl. split.
  - apply lookup_insert_eq.
  - by apply from_str_radix_dec.
Qed.

(** [Content-Length: 0] is added by the serialiser exactly for POST, PUT and
    PATCH requests none of whose header names is, up to case, [content-length] or
    [transfer-encoding]; whatever order the hash map lists its entries in. *)
Lemma length_line_iff self :
  length_line self = lit "Content-Length: 0" ++ CRLF /\
    method_has_body (Request.method (config self)) = true /\
    (forall k v, Request.headers (config self) !! k = Some v ->
       to_lowercase k <> lit "content-length" /\ to_lowercase k <> lit "transfer-encoding")
  \/ length_line self = [] /\
    (method_has_body (Request.method (config self)) = false \/
     exists k v, Request.headers (config self) !! k = Some v /\
       (to_lowercase k = lit "content-length" \/ to_lowercase k = lit "transfer-encoding")).
Proof.
  unfold length_line. destruct (method_has_body _); [|right; by eauto].
  destruct (forallb _ _) eqn:E.
  - left. split_and!; [done..|]. intros k v Hk%hm_iter_elem.
    apply forallb_Forall in E. rewrite Forall_fmap, Forall_forall in E.
    specialize (E _ Hk). unfold not_length in E. simpl in E. btest.
    split; by eapply bool_decide_eq_false_1.
  - right. split; [done|]. right.
    apply forallb_Exists, Exists_exists in E as (k & Hin & Hn).
    apply list_elem_of_fmap in Hin as ([k' v] & -> & Hin). apply hm_iter_elem in Hin.
    exists k', v. split; [done|]. simpl in Hn. unfold not_length in Hn.
    destruct (decide (to_lowercase k' = lit "content-length")); [by left|right].
    destruct (decide (to_lowercase k' = lit "transfer-encoding")); [done|].
    by rewrite !bool_decide_eq_false_2 in Hn.
Qed.
End HeadFacts.

(** ** Redirection *)

Section RedirectFacts.
Context `{Build}.

(** What a chain of redirections preserves: the URLs visited, the current one
    included, are distinct and well-formed, and no more than allowed. *)
Record redirects_ok (self : ParsedRequest) : Prop := {
  rd_nodup : NoDup (redirects self ++ [url self]);
  rd_bound : len (redirects self) <= Request.max_redirects (config self);
}.

Lemma redirect_target_wf self loc u :
  redirect_target self loc = Ok u -> UrlGrammar.url_wf u.
Proof.
  unfold redirect_target. destruct (contains _ loc).
  - destruct (HttpUrl.parse _ _) eqn:E; [|done..]. intros [= <-].
    by eapply UrlFacts.parse_well_formed.
  - apply UrlFacts.parse_well_formed.
Qed.

(** The check for a loop is membership. *)
Lemma existsb_visited (u : HttpUrl.HttpUrl) (l : list HttpUrl.HttpUrl) :
  existsb (fun redirect_url => bool_decide (redirect_url = u)) l = bool_decide (u ∈ l).
Proof.
  apply eq_true_iff_eq. rewrite existsb_exists, bool_decide_eq_true. split.
  - intros (x & Hx & Hb%bool_decide_eq_true_1). subst. by apply list_elem_of_In.
  - intros Hin. exists u. split; [by apply list_elem_of_In|by apply bool_decide_eq_true_2].
Qed.

(** The call, on success: one more URL, none of them twice, within the limit. *)
Lemma redirect_to_ok self loc self' :
  redirect_to self loc = (Ok tt, self') ->
  redirect_target self loc = Ok (url self') /\
  redirects self' = redirects self ++ [url self] /\ config self' = config self /\
  len (redirects self') <= Request.max_redirects (config self) /\
  url self' ∉ redirects self'.
Proof.
  unfold redirect_to. destruct (redirect_target self loc) as [u| |]; [|done..]. simpl.
  destruct (_ <? _) eqn:Eb; [done|]. rewrite existsb_visited. case_bool_decide; [done|].
  intros [= <-]. simpl. btest. by split_and!.
Qed.

Lemma redirect_target_no_panic self loc : redirect_target self loc <> Panic.
Proof.
  unfold redirect_target, HttpUrl.parse.
  destruct (contains _ loc); by destruct (HttpUrl.strip_scheme _) as [[? ?]|].
Qed.

Lemma redirect_to_no_panic self loc : (redirect_to self loc).1 <> Panic.
Proof.
  unfold redirect_to. pose proof (redirect_target_no_panic self loc) as Hn.
  destruct (redirect_target self loc); [|done..]. destruct (_ <? _); [done|].
  by destruct (existsb _ _).
Qed.

Lemma new_https `{Environment} req parsed u :
  new req = Ok parsed -> HttpUrl.parse (Request.url req) None = Ok u ->
  HttpUrl.https (url parsed) = HttpUrl.https u.
Proof. unfold new. intros Hn Hu. rewrite Hu in Hn. simpl in Hn. by injection Hn as <-. Qed.

(** C12. The redirection guard: every redirection that is followed leads to a URL
    not visited before in this chain, keeps the number of redirections within
    [max_redirects], and changes nothing of the request but its URL. *)
Theorem redirect_to_invariant self loc self' :
  redirects_ok self -> redirect_to self loc = (Ok tt, self') ->
  redirects_ok self' /\ config self' = config self /\
  redirects self' = redirects self ++ [url self] /\ UrlGrammar.url_wf (url self').
Proof.
  intros [Hnd _] Hr. apply redirect_to_ok in Hr as (Ht & Hrs & Hc & Hlen & Hnew).
  split_and!; [|done|done|by eapply redirect_target_wf].
  split; [|by rewrite Hc]. apply NoDup_app. split_and!; [by rewrite Hrs| |].
  - intros x Hx Hu%list_elem_of_singleton. by subst.
  - apply NoDup_singleton.
Qed.

(** What stops a chain: exceeding the limit is reported before a loop, a
    loop is reported exactly when the new URL was visited, and a [Location] that
    does not parse leaves the request as it was. *)
Lemma redirect_to_errors self loc :
  match redirect_target self loc with
  | Ok u =>
      (redirect_to self loc).1 =
      if Request.max_redirects (config self) <? len (redirects self) + 1
      then Err TooManyRedirections
      else if decide (u ∈ redirects self ++ [url self])
      then Err InfiniteRedirectionLoop else Ok tt
  | Err e => redirect_to self loc = (Err e, self) /\ e = HttpUrl.invalid_protocol
  | Panic => False
  end.
Proof.
  unfold redirect_to. destruct (redirect_target self loc) as [u|e|] eqn:E; simpl.
  - autorewrite with len. change (0 + 1) with 1.
    destruct (_ <? _); [done|]. rewrite existsb_visited. by repeat case_decide.
  - split; [done|]. unfold redirect_target, HttpUrl.parse in E.
    destruct (contains _ loc); destruct (HttpUrl.strip_scheme _) as [[? ?]|]; by simplify_eq/=.
  - unfold redirect_target, HttpUrl.parse in E.
    destruct (contains _ loc); by destruct (HttpUrl.strip_scheme _) as [[? ?]|].
Qed.

Lemma write_base_url_to_app u rest :
  HttpUrl.write_base_url_to u [] ++ rest =
  lit "http" ++ (if HttpUrl.https u then lit "s" else []) ++ lit "://" ++ HttpUrl.host u
    ++ UrlFacts.port_part (UrlFacts.port_text (HttpUrl.port u)) ++ rest.
Proof.
  unfold HttpUrl.write_base_url_to, UrlFacts.port_part, UrlFacts.port_text.
  destruct (HttpUrl.port u) as [| |p]; simpl; rewrite <- ?app_assoc; [done..|].
  destruct (dec p) eqn:E; [by destruct (dec_not_nil p)|]. simpl. by rewrite <- ?app_assoc.
Qed.

(** The resource of the current host that a relative [Location] names. *)
Lemma redirect_target_relative self c loc :
  UrlGrammar.url_wf (url self) -> UrlGrammar.authority_end c = true ->
  contains (lit "://") (c :: loc) = false ->
  exists path f, redirect_target self (c :: loc) =
    Ok (HttpUrl.mkHttpUrl (HttpUrl.https (url self)) (HttpUrl.host (url self))
          (HttpUrl.port (url self)) path f) /\
    path = UrlGrammar.escape (UrlGrammar.split_fragment (c :: loc)).1.
Proof.
  intros [Hh Hp Hi _ _] Hc Hno. unfold redirect_target. rewrite Hno.
  rewrite write_base_url_to_app, UrlFacts.parse_eq_grammar. unfold UrlGrammar.parse_grammar.
  rewrite UrlFacts.strip_scheme_base, UrlFacts.split_url_parts; [|done| |by eexists _, _].
  - destruct (UrlFacts.split_fragment_head c loc Hc) as (path & Hpath & _).
    destruct (UrlGrammar.split_fragment (c :: loc)) as [q f]. simpl in Hpath. subst q.
    eexists _, _. split; [|done]. do 2 f_equal.
    destruct (HttpUrl.port (url self)) as [| |p]; simpl in *; rewrite ?Hi; [done..|].
    unfold parse_u16. by rewrite from_str_radix_dec.
  - destruct (HttpUrl.port (url self)); [constructor..|]. apply UrlFacts.dec_not_authority_end.
Qed.

(** A [Location] that begins with [/] or [?] stays on the server: scheme,
    host and port of the current URL are kept, and only the resource is taken
    from it. *)
Lemma relative_redirect_same_host self c loc self' :
  UrlGrammar.url_wf (url self) -> c = ch "/" \/ c = ch "?" ->
  contains (lit "://") (c :: loc) = false ->
  redirect_to self (c :: loc) = (Ok tt, self') ->
  HttpUrl.https (url self') = HttpUrl.https (url self) /\
  HttpUrl.host (url self') = HttpUrl.host (url self) /\
  HttpUrl.port (url self') = HttpUrl.port (url self) /\
  HttpUrl.path_and_query (url self')
    = UrlGrammar.escape (UrlGrammar.split_fragment (c :: loc)).1.
Proof.
  intros Hwf Hc Hno Hr. apply redirect_to_ok in Hr as (Ht & _).
  assert (UrlGrammar.authority_end c = true) as He by by destruct Hc as [-> | ->].
  destruct (redirect_target_relative self c loc Hwf He Hno) as (path & f & Hok & Hp).
  rewrite Hok in Ht. injection Ht as <-. by simpl.
Qed.

(** A [Location] that is neither absolute nor begins with a delimiter is
    glued to the host: a redirection to [w] from [http://h/...] goes to the host
    [hw], not to a resource of [h]. *)
Lemma relative_redirect_extends_host self w u :
  UrlGrammar.url_wf (url self) -> UrlFacts.port_text (HttpUrl.port (url self)) = [] ->
  Forall (fun c => UrlGrammar.host_end c = false) w -> contains (lit "://") w = false ->
  redirect_target self w = Ok u ->
  HttpUrl.host u = HttpUrl.host (url self) ++ w.
Proof.
  intros [Hh _ _ _ _] Hport Hw Hno. unfold redirect_target. rewrite Hno.
  rewrite write_base_url_to_app, Hport, UrlFacts.parse_eq_grammar.
  unfold UrlGrammar.parse_grammar. rewrite UrlFacts.strip_scheme_base. simpl.
  unfold UrlGrammar.split_url.
  rewrite <- (app_nil_r (HttpUrl.host (url self) ++ w)), span_prefix; [| |done].
  - intros Hu. simpl in Hu. injection Hu as <-. simpl. by rewrite app_nil_r.
  - apply Forall_app. split.
    + eapply Forall_impl; [exact Hh|]. by intros x ->.
    + eapply Forall_impl; [exact Hw|]. by intros x ->.
Qed.

(** A [Location] that begins with [/] or [?] and has a [://] anywhere, in a
    query for instance, is taken for an absolute URL and refused. *)
Lemma relative_redirect_with_scheme_inside self c loc :
  c = ch "/" \/ c = ch "?" -> contains (lit "://") (c :: loc) = true ->
  redirect_to self (c :: loc) = (Err HttpUrl.invalid_protocol, self).
Proof.
  intros Hc Hin. unfold redirect_to, redirect_target. rewrite Hin.
  by destruct Hc as [-> | ->].
Qed.
End RedirectFacts.

(** ** Proxies of the environment *)

(** The default proxy depends on three variables only: [https_proxy] for an
    https URL, [http_proxy] and, when that one is unset, [all_proxy] for an http
    URL. Whatever [HTTPS_PROXY] and [ALL_PROXY] hold is never used. *)
Lemma default_proxy_variables (e1 e2 : Environment) https config :
  (https = true -> @env_var e1 (lit "https_proxy") = @env_var e2 (lit "https_proxy")) ->
  (https = false -> @env_var e1 (lit "http_proxy") = @env_var e2 (lit "http_proxy") /\
                    @env_var e1 (lit "all_proxy") = @env_var e2 (lit "all_proxy")) ->
  @default_proxy e1 https config = @default_proxy e2 https config.
Proof.
  intros Hs Hp. unfold default_proxy, env_var_map_err.
  destruct (Request.proxy config); [done|]. destruct https.
  - rewrite Hs by done. by destruct (@env_var e2 (lit "https_proxy")).
  - destruct Hp as [-> ->]; [done|]. destruct (@env_var e2 (lit "http_proxy")); [done|].
    by destruct (@env_var e2 (lit "all_proxy")).
Qed.
End RequestFacts.

(** * Examples: the theorems at concrete requests *)

Module RequestExamples.
Import ParsedRequest RequestFacts.
#[local] Existing Instance default_build.
#[local] Existing Instance canonical_order.

Definition page (host path : text) : HttpUrl.HttpUrl :=
  HttpUrl.mkHttpUrl false host Port.ImplicitHttp path None.

(** A request to [http://a/x], before any redirection. *)
Definition first_request : ParsedRequest :=
  mkParsedRequest (page (lit "a") (lit "/x")) [] (Request.get (lit "http://a/x")).

Lemma first_request_wf : UrlGrammar.url_wf (url first_request).
Proof. split; simpl; [by_compute|done|done|by eexists _, _|by_compute]. Qed.

(** The request after the redirection. *)
Definition second_request (u : HttpUrl.HttpUrl) : ParsedRequest :=
  mkParsedRequest u [page (lit "a") (lit "/x")] (Request.get (lit "http://a/x")).

Lemma redirect_to_invariant_witness :
  redirects_ok (second_request (page (lit "b") (lit "/y"))) /\
  config (second_request (page (lit "b") (lit "/y"))) = config first_request /\
  redirects (second_request (page (lit "b") (lit "/y")))
  = redirects first_request ++ [url first_request] /\
  UrlGrammar.url_wf (url (second_request (page (lit "b") (lit "/y")))).
Proof.
  apply (redirect_to_invariant first_request (lit "http://b/y")); [|vm_compute; reflexivity].
  split; by_compute.
Defined.

Lemma relative_redirect_same_host_witness :
  HttpUrl.https (page (lit "a") (lit "/y?z")) = false /\
  HttpUrl.host (page (lit "a") (lit "/y?z")) = lit "a" /\
  HttpUrl.port (page (lit "a") (lit "/y?z")) = Port.ImplicitHttp /\
  HttpUrl.path_and_query (page (lit "a") (lit "/y?z"))
  = UrlGrammar.escape (UrlGrammar.split_fragment (lit "/y?z")).1.
Proof.
  apply (relative_redirect_same_host first_request (ch "/") (lit "y?z")
           (second_request (page (lit "a") (lit "/y?z"))));
    [apply first_request_wf|by left|reflexivity|vm_compute; reflexivity].
Defined.

(** A [Location: y.com] sends the client to the host [ay.com]. *)
Lemma relative_redirect_extends_host_witness :
  HttpUrl.host (page (lit "ay.com") (lit "/")) = lit "ay.com".
Proof.
  apply (relative_redirect_extends_host first_request (lit "y.com")
           (page (lit "ay.com") (lit "/")));
    [apply first_request_wf|reflexivity|by_compute|reflexivity|vm_compute; reflexivity].
Defined.

(** An environment with one variable. *)
Definition one_variable (name value : text) : Environment := fun v =>
  if decide (v = name) then Some value else None.

Lemma default_proxy_variables_witness :
  @default_proxy (one_variable (lit "HTTPS_PROXY") (lit "proxy:8080")) true
    (Request.get (lit "https://a"))
  = @default_proxy (fun _ => None) true (Request.get (lit "https://a")).
Proof.
  apply (default_proxy_variables (one_variable (lit "HTTPS_PROXY") (lit "proxy:8080"))
           (fun _ => None) true); [intros _; vm_compute; reflexivity|done].
Defined.
End RequestExamples.
