(* ===== verification/Lines.v ===== *)
(** [src/response.rs], the reading of lines: the byte stream of a connection,
    [read_line_async] and [read_line]. *)

From S2P Require Import Prelude.
From S2P Require Import Text.
From S2P Require Import Strings.
From S2P Require Import Errors.

(** * The stream *)

(** [HttpStreamBytes] is known by the answers its [poll_next] will give, in
    order; after the last one it is at its end, and stays there. *)
Inductive event : Type :=
| EvPending
| EvChunk (chunk : bytes)
| EvError (err : io_error).
Abbreviation HttpStreamBytes := (list event) (only parsing).

Definition poll_stream (s : HttpStreamBytes)
    : poll (option (io_result bytes)) * HttpStreamBytes :=
  match s with
  | [] => (Ready None, [])
  | EvPending :: s' => (Pending, s')
  | EvChunk chunk :: s' => (Ready (Some (Ok chunk)), s')
  | EvError err :: s' => (Ready (Some (Err err)), s')
  end.

(** [stream.next().await]: polled until it is ready. *)
Fixpoint next (s : HttpStreamBytes) : option (io_result bytes) * HttpStreamBytes :=
  match s with
  | [] => (None, [])
  | EvPending :: s' => next s'
  | EvChunk chunk :: s' => (Some (Ok chunk), s')
  | EvError err :: s' => (Some (Err err), s')
  end.

(** What is left to read, whatever its chunks: the bytes up to the end or the
    first error, and that error. *)
Fixpoint flat (s : HttpStreamBytes) : bytes * option io_error :=
  match s with
  | [] => ([], None)
  | EvPending :: s' => flat s'
  | EvChunk chunk :: s' => let r := flat s' in (chunk ++ r.1, r.2)
  | EvError err :: _ => ([], Some err)
  end.

Abbreviation Trailing := (list N) (only parsing).

(** Bytes already taken from the stream, and the stream. *)
Definition input (prefix : Trailing) (s : HttpStreamBytes) : bytes * option io_error :=
  (prefix ++ (flat s).1, (flat s).2).

(** * The two line readers *)

(** The local variables of the readers: the line so far, whether its end is
    still to come, and the bytes behind it. *)
Record LineState : Type := mkLineState {
  ls_bytes : bytes;
  new_line_flag : bool;
  ls_trailing : Trailing;
}.
Definition initial_line : LineState := mkLineState [] true [].

(** [if let Some(b'\r') = bytes.last() { bytes.pop(); }]. *)
Definition pop_cr (l : bytes) : bytes :=
  match reverse l with
  | c :: r => if c =? CR then reverse r else l
  | [] => l
  end.

(** One byte, once the length is known to be allowed. *)
Definition push_byte (st : LineState) (byte : N) : LineState :=
  if new_line_flag st then
    if byte =? LF then mkLineState (pop_cr (ls_bytes st)) false (ls_trailing st)
    else mkLineState (ls_bytes st ++ [byte]) true (ls_trailing st)
  else mkLineState (ls_bytes st) false (ls_trailing st ++ [byte]).

(** The loop over the bytes in [read_line_async], with its check before each byte
    of the line. *)
Fixpoint push_bytes_capped (max_len : N) (overflow_error : Error) (st : LineState) (l : bytes)
    : result LineState :=
  match l with
  | [] => Ok st
  | byte :: l' =>
      if new_line_flag st && (max_len <=? len (ls_bytes st)) then Err overflow_error
      else push_bytes_capped max_len overflow_error (push_byte st byte) l'
  end.

(** The loop over the bytes in [read_line]: no check. *)
Definition push_bytes (st : LineState) (l : bytes) : LineState := foldl push_byte st l.

Definition finish_line (st : LineState) : result (text * Trailing) :=
  match from_utf8 (ls_bytes st) with
  | Ok line => Ok (line, ls_trailing st)
  | _ => Err InvalidUtf8InResponse
  end.

(** The loop over the chunks in [read_line_async], [next] unfolded. *)
Fixpoint read_line_async_loop (max_len : N) (overflow_error : Error) (st : LineState)
    (s : HttpStreamBytes) : result LineState * HttpStreamBytes :=
  match s with
  | [] => (Ok st, [])
  | EvPending :: s' => read_line_async_loop max_len overflow_error st s'
  | EvError err :: s' => (Err (IoError err), s')
  | EvChunk chunk :: s' =>
      match push_bytes_capped max_len overflow_error st chunk with
      | Ok st' =>
          if new_line_flag st' then read_line_async_loop max_len overflow_error st' s'
          else (Ok st', s')
      | r => (r, s')
      end
  end.

Definition read_line_async (s : HttpStreamBytes) (max_len : option N) (overflow_error : Error)
    (prefix : Trailing) : result (text * Trailing) * HttpStreamBytes :=
  let max_len := default usize_MAX max_len in
  match push_bytes_capped max_len overflow_error initial_line prefix with
  | Ok st =>
      let '(r, s') :=
        if new_line_flag st then read_line_async_loop max_len overflow_error st s
        else (Ok st, s) in
      (st ← r; finish_line st, s')
  | Err e => (Err e, s)
  | Panic => (Panic, s)
  end.

(** [read_line]: the same inside a [poll] function; the cap is checked once for
    every chunk, before its bytes. *)
Fixpoint read_line_loop (max_len : option N) (overflow_error : Error) (st : LineState)
    (s : HttpStreamBytes) : poll (result LineState) * HttpStreamBytes :=
  match s with
  | [] => (Ready (Ok st), [])
  | EvPending :: s' => (Pending, s')
  | EvError err :: s' => (Ready (Err (IoError err)), s')
  | EvChunk chunk :: s' =>
      if (match max_len with Some m => m <=? len (ls_bytes st) | None => false end)
      then (Ready (Err overflow_error), s')
      else
        let st' := push_bytes st chunk in
        if new_line_flag st' then read_line_loop max_len overflow_error st' s'
        else (Ready (Ok st'), s')
  end.

Definition read_line (s : HttpStreamBytes) (max_len : option N) (overflow_error : Error)
    (prefix : Trailing) : poll (result (text * Trailing)) * HttpStreamBytes :=
  let st := push_bytes initial_line prefix in
  let '(r, s') :=
    if new_line_flag st then read_line_loop max_len overflow_error st s
    else (Ready (Ok st), s) in
  (match r with
   | Ready r => Ready (st ← r; finish_line st)
   | Pending => Pending
   end, s').

(** * The specification *)

(** A line of a byte string, read at once: up to the first [\n], without the
    [\r] before it, refused when the [\n] is not among the first [max_len] bytes;
    without a [\n], all the bytes, if they are not more than [max_len] and the
    stream ended properly. *)
Definition raw_line (max_len : N) (overflow_error : Error) (inp : bytes * option io_error)
    : result (bytes * (bytes * option io_error)) :=
  match split_char LF inp.1 with
  | Some (l, rest) =>
      if max_len <=? len l then Err overflow_error else Ok (pop_cr l, (rest, inp.2))
  | None =>
      if max_len <? len inp.1 then Err overflow_error
      else match inp.2 with
           | None => Ok (inp.1, ([], None))
           | Some err => Err (IoError err)
           end
  end.

Definition line_spec (max_len : N) (overflow_error : Error) (inp : bytes * option io_error)
    : result (text * (bytes * option io_error)) :=
  '(raw, rest) ← raw_line max_len overflow_error inp;
  match from_utf8 raw with
  | Ok line => Ok (line, rest)
  | _ => Err InvalidUtf8InResponse
  end.

Module LineFacts.

Lemma pop_cr_snoc l : pop_cr (l ++ [CR]) = l.
Proof. unfold pop_cr. rewrite reverse_snoc. simpl. apply reverse_involutive. Qed.

Lemma push_bytes_trailing b t l :
  push_bytes (mkLineState b false t) l = mkLineState b false (t ++ l).
Proof.
  unfold push_bytes. revert t. induction l as [|c l IH]; intros t; simpl; [by rewrite app_nil_r|].
  unfold push_byte. simpl. by rewrite IH, <- app_assoc.
Qed.

(** The byte loop against [split_char]: the line ends at the first [\n]. *)
Lemma push_bytes_line b l :
  push_bytes (mkLineState b true []) l =
  match split_char LF l with
  | Some (a, rest) => mkLineState (pop_cr (b ++ a)) false rest
  | None => mkLineState (b ++ l) true []
  end.
Proof.
  revert b. induction l as [|c l IH]; intros b; [by rewrite app_nil_r|].
  unfold push_bytes in *. simpl. unfold push_byte at 2. simpl. unfold split_char. simpl.
  destruct (c =? LF); simpl.
  - fold (push_bytes (mkLineState (pop_cr b) false []) l).
    by rewrite push_bytes_trailing, app_nil_r.
  - rewrite IH. unfold split_char. destruct (span _ l) as [a [|d r]]; by rewrite <- app_assoc.
Qed.

Lemma push_capped_trailing m e b t l :
  push_bytes_capped m e (mkLineState b false t) l = Ok (mkLineState b false (t ++ l)).
Proof.
  revert t. induction l as [|c l IH]; intros t; simpl; [by rewrite app_nil_r|].
  unfold push_byte. simpl. by rewrite IH, <- app_assoc.
Qed.

(** The same with the cap: the first [max_len] bytes must hold the [\n], if they
    are followed by more. *)
Lemma push_capped_line m e b l :
  len b <= m ->
  push_bytes_capped m e (mkLineState b true []) l =
  match split_char LF l with
  | Some (a, rest) =>
      if m <=? len (b ++ a) then Err e else Ok (mkLineState (pop_cr (b ++ a)) false rest)
  | None => if m <? len (b ++ l) then Err e else Ok (mkLineState (b ++ l) true [])
  end.
Proof.
  revert b. induction l as [|c l IH]; intros b Hb; simpl.
  { rewrite app_nil_r. by test_false (m <? len b). }
  unfold split_char. simpl. destruct (N.leb_spec m (len b)) as [Hge|Hlt].
  - destruct (c =? LF); simpl.
    + rewrite app_nil_r. by test_true (m <=? len b).
    + destruct (span _ l) as [a [|d r]]; autorewrite with len.
      * by test_true (m <? len b + (len l + 1)).
      * by test_true (m <=? len b + (len a + 1)).
  - unfold push_byte. simpl. destruct (c =? LF); simpl.
    + rewrite app_nil_r. test_false (m <=? len b). apply push_capped_trailing.
    + rewrite IH by (autorewrite with len; lia).
      unfold split_char. by destruct (span _ l) as [a [|d r]]; rewrite <- app_assoc.
Qed.

Lemma split_char_app_l c b x :
  c ∉ b -> split_char c (b ++ x) = (fun ar => (b ++ ar.1, ar.2)) <$> split_char c x.
Proof.
  intros Hb. destruct (split_char c x) as [[a r]|] eqn:E.
  - apply split_char_Some in E as [-> Ha]. rewrite app_assoc, split_char_app; [done|].
    rewrite not_elem_of_app. done.
  - apply split_char_None_inv in E. apply split_char_None. rewrite not_elem_of_app. done.
Qed.

Lemma split_char_app_r c x y a r :
  split_char c x = Some (a, r) -> split_char c (x ++ y) = Some (a, r ++ y).
Proof.
  intros [-> Ha]%split_char_Some. rewrite <- app_assoc, <- app_comm_cons. by apply split_char_app.
Qed.

(** What a reader hands over: the line and a view of the remaining input. *)
Definition delivers (r : result LineState) (s' : HttpStreamBytes)
    (spec : result (bytes * (bytes * option io_error))) : Prop :=
  match r with
  | Ok st => spec = Ok (ls_bytes st, input (ls_trailing st) s')
  | Err e => spec = Err e
  | Panic => False
  end.

Lemma read_line_async_loop_spec m e b s :
  len b <= m -> LF ∉ b ->
  let '(r, s') := read_line_async_loop m e (mkLineState b true []) s in
  delivers r s' (raw_line m e (input b s)).
Proof.
  revert b. induction s as [|[|chunk|err] s IH]; intros b Hb Hlf; cbn [read_line_async_loop].
  - unfold delivers, raw_line, input. simpl. rewrite app_nil_r, split_char_None by done.
    by test_false (m <? len b).
  - by apply IH.
  - rewrite push_capped_line by done. unfold raw_line, input. cbn [flat fst snd].
    rewrite split_char_app_l by done.
    destruct (split_char LF chunk) as [[a rest]|] eqn:E.
    + rewrite (split_char_app_r _ _ _ _ _ E). simpl.
      destruct (m <=? len (b ++ a)); done.
    + pose proof (split_char_None_inv _ _ E) as Hc.
      destruct (N.ltb_spec m (len (b ++ chunk))) as [Hlt|Hge].
      * simpl. rewrite split_char_app_l by done.
        destruct (split_char LF (flat s).1) as [[a rest]|]; simpl.
        -- rewrite (proj2 (N.leb_le _ _)); [done|]. autorewrite with len in *. lia.
        -- rewrite (proj2 (N.ltb_lt _ _)); [done|]. autorewrite with len in *. lia.
      * specialize (IH (b ++ chunk) Hge). simpl.
        destruct (read_line_async_loop _ _ _ s) as [r s'].
        unfold raw_line, input in IH. simpl in IH.
        rewrite <- split_char_app_l by done. rewrite app_assoc. apply IH.
        rewrite not_elem_of_app. done.
  - unfold delivers, raw_line, input. simpl. rewrite app_nil_r, split_char_None by done.
    by test_false (m <? len b).
Qed.

(** The bytes handed over from the previous line are one more chunk. *)
Lemma read_line_async_eq s max_len e prefix :
  read_line_async s max_len e prefix =
  let '(r, s') := read_line_async_loop (default usize_MAX max_len) e initial_line
                    (EvChunk prefix :: s) in
  (st ← r; finish_line st, s').
Proof.
  unfold read_line_async. cbn [read_line_async_loop].
  destruct (push_bytes_capped _ _ _ prefix) as [st| |]; [|done..].
  by destruct (new_line_flag st).
Qed.

Lemma read_line_async_spec s max_len e prefix :
  let '(r, s') := read_line_async s max_len e prefix in
  match r with
  | Ok (line, trailing) =>
      line_spec (default usize_MAX max_len) e (input prefix s) = Ok (line, input trailing s')
  | Err err => line_spec (default usize_MAX max_len) e (input prefix s) = Err err
  | Panic => False
  end.
Proof.
  rewrite read_line_async_eq.
  pose proof (read_line_async_loop_spec (default usize_MAX max_len) e [] (EvChunk prefix :: s))
    as Hloop. unfold initial_line.
  destruct (read_line_async_loop _ _ _ _) as [r s']. specialize (Hloop ltac:(apply N.le_0_l)).
  specialize (Hloop (not_elem_of_nil _)). unfold line_spec.
  change (input [] (EvChunk prefix :: s)) with (input prefix s) in Hloop.
  destruct r as [st|err|]; simpl in *; [|by rewrite Hloop|done].
  rewrite Hloop. unfold finish_line. simpl. by destruct (from_utf8 (ls_bytes st)).
Qed.

(** C10. [read_line_async] refines the reading of a line from the bytes of the
    connection: however the network cut them into chunks, and however often it
    made the reader wait, the line, the error and what remains to be read are
    those of [line_spec], which knows only the bytes. *)
Theorem read_line_async_refines s max_len e prefix :
  let '(r, s') := read_line_async s max_len e prefix in
  match r with
  | Ok (line, trailing) =>
      line_spec (default usize_MAX max_len) e (input prefix s) = Ok (line, input trailing s')
  | Err err => line_spec (default usize_MAX max_len) e (input prefix s) = Err err
  | Panic => False
  end.
Proof. apply read_line_async_spec. Qed.

(** ** The reader inside [poll] functions *)

(** The line of the input with no cap: one above the bytes there are. *)
Definition uncapped_line (inp : bytes * option io_error)
    : result (bytes * (bytes * option io_error)) :=
  match split_char LF inp.1 with
  | Some (l, rest) => Ok (pop_cr l, (rest, inp.2))
  | None => match inp.2 with None => Ok (inp.1, ([], None)) | Some err => Err (IoError err) end
  end.

Lemma read_line_loop_spec max_len e b s :
  LF ∉ b ->
  let '(r, s') := read_line_loop max_len e (mkLineState b true []) s in
  match r with
  | Pending => EvPending ∈ s
  | Ready (Err err) => err = e \/ uncapped_line (input b s) = Err err
  | Ready r => delivers r s' (uncapped_line (input b s))
  end.
Proof.
  revert b. induction s as [|[|chunk|err] s IH]; intros b Hlf; cbn [read_line_loop].
  - unfold delivers, uncapped_line, input. simpl. by rewrite app_nil_r, split_char_None.
  - constructor.
  - destruct (match max_len with Some _ => _ | None => _ end); [by left|].
    rewrite push_bytes_line. unfold uncapped_line, input. cbn [flat fst snd].
    rewrite split_char_app_l by done.
    destruct (split_char LF chunk) as [[a rest]|] eqn:E.
    + by rewrite (split_char_app_r _ _ _ _ _ E).
    + pose proof (split_char_None_inv _ _ E) as Hc. specialize (IH (b ++ chunk)). simpl.
      destruct (read_line_loop _ _ _ s) as [r s'].
      unfold uncapped_line, input in IH. simpl in IH. rewrite <- app_assoc in IH.
      rewrite <- (split_char_app_l _ b) by done.
      assert (LF ∉ b ++ chunk) as Hbc by (rewrite not_elem_of_app; done). specialize (IH Hbc).
      destruct r as [[]|]; [done..|]. by constructor.
  - unfold delivers, uncapped_line, input. simpl. rewrite app_nil_r, split_char_None by done.
    by right.
Qed.

Definition uncapped_spec (inp : bytes * option io_error)
    : result (text * (bytes * option io_error)) :=
  '(raw, rest) ← uncapped_line inp;
  match from_utf8 raw with
  | Ok line => Ok (line, rest)
  | _ => Err InvalidUtf8InResponse
  end.

(** [read_line] gives, when it is ready, the line of the bytes of the
    connection, in any chunks; its cap is no bound on the line: an overflow is
    reported only for a line whose end was not in the bytes already read, and a
    line that was is accepted at any length. It never panics. *)
Lemma read_line_spec s max_len e prefix :
  let '(r, s') := read_line s max_len e prefix in
  match r with
  | Pending => EvPending ∈ s /\ LF ∉ prefix
  | Ready (Ok (line, trailing)) => uncapped_spec (input prefix s) = Ok (line, input trailing s')
  | Ready (Err err) => err = e /\ LF ∉ prefix \/ uncapped_spec (input prefix s) = Err err
  | Ready Panic => False
  end.
Proof.
  unfold read_line, initial_line. rewrite push_bytes_line. simpl.
  unfold uncapped_spec, finish_line.
  destruct (split_char LF prefix) as [[a rest]|] eqn:E; simpl.
  - unfold uncapped_line, input. simpl. rewrite (split_char_app_r _ _ _ _ _ E). simpl.
    destruct (from_utf8 (pop_cr a)); [done|by right..].
  - apply split_char_None_inv in E.
    pose proof (read_line_loop_spec max_len e prefix s E) as Hloop.
    destruct (read_line_loop _ _ _ s) as [[[st|err|]|] s']; simpl in *; [| | |done].
    + rewrite Hloop. simpl. destruct (from_utf8 (ls_bytes st)); [done|by right..].
    + destruct Hloop as [|Hs]; [by left|right]. by rewrite Hs.
    + done.
Qed.
End LineFacts.
