(* ===== verification/Metadata.v ===== *)
(** [src/response.rs], the head of a response: status line, headers, and the
    choice of how the body is read. *)

From S2P Require Import Prelude.
From S2P Require Import Text.
From S2P Require Import Strings.
From S2P Require Import Numbers.
From S2P Require Import Errors.
From S2P Require Import Lines.

(** How the body is read. *)
Inductive HttpStreamState : Type :=
| EndOnClose
| ContentLength (length : N)
| Chunked (expecting_more_chunks : bool) (chunk_length content_length : N).

Record ResponseMetadata : Type := mkResponseMetadata {
  md_status_code : Z;
  md_reason_phrase : text;
  md_headers : gmap text text;
  md_state : HttpStreamState;
  md_max_trailing_headers_size : option N;
  md_trailing_content : Trailing;
}.

(** * The status line *)

(** The loop over the characters of the status line. *)
Record StatusLineState : Type := mkStatusLineState {
  sl_status_code : text;
  sl_reason_phrase : text;
  sl_spaces : N;
}.

Definition status_line_char (st : StatusLineState) (c : N) : StatusLineState :=
  let '(mkStatusLineState status_code reason_phrase spaces) := st in
  let reason_phrase := if 2 <=? spaces then reason_phrase ++ [c] else reason_phrase in
  if c =? ch " " then mkStatusLineState status_code reason_phrase (spaces + 1)
  else if spaces =? 1 then mkStatusLineState (status_code ++ [c]) reason_phrase spaces
  else mkStatusLineState status_code reason_phrase spaces.

Definition parse_status_line (line : text) : Z * text :=
  let st := foldl status_line_char (mkStatusLineState [] [] 0) line in
  match parse_i32 (sl_status_code st) with
  | Some status_code => (status_code, sl_reason_phrase st)
  | None => (503%Z, lit "Server did not provide a status line")
  end.

(** * Headers *)

(** [line.get(i..i + 1)], for the rest of the line from [i]: a char boundary is
    at [i + 1] when the first character takes one byte. *)
Definition get_one_byte (rest : text) : option text :=
  match rest with
  | c :: _ => if len (encode_utf8 c) =? 1 then Some [c] else None
  | [] => None
  end.

Definition parse_header (line : text) : option (text * text) :=
  match split_char (ch ":") line with
  | Some (name, rest) =>
      let value :=
        match get_one_byte rest with
        | Some sp => if bool_decide (sp = [ch " "]) then tail rest else rest
        | None => rest
        end in
      Some (make_ascii_lowercase name, value)
  | None => None
  end.

Section Metadata.
Context `{Build} `{HashOrder}.

(** [*max_headers_size -= line.len() + 2], when there is a cap. *)
Definition shrink_cap (max_headers_size : option N) (line : text) : result (option N) :=
  match max_headers_size with
  | Some m =>
      used ← usize_add (str_len line) 2;
      m ← usize_sub m used;
      Ok (Some m)
  | None => Ok None
  end.

Definition insert_header (headers : gmap text text) (line : text) : gmap text text :=
  match parse_header line with
  | Some (key, value) => <[key := value]> headers
  | None => headers
  end.

(** The loop that reads the headers; [fuel] bounds the number of lines. *)
Fixpoint read_headers (fuel : nat) (s : HttpStreamBytes) (max_headers_size : option N)
    (headers : gmap text text) (trailing : Trailing)
    : option (result (gmap text text * option N * Trailing) * HttpStreamBytes) :=
  match fuel with
  | O => None
  | S fuel' =>
      let '(r, s') := read_line_async s max_headers_size HeadersOverflow trailing in
      match r with
      | Ok ([], trailing) => Some (Ok (headers, max_headers_size, trailing), s')
      | Ok (line, trailing) =>
          match shrink_cap max_headers_size line with
          | Ok max_headers_size =>
              read_headers fuel' s' max_headers_size (insert_header headers line) trailing
          | Err e => Some (Err e, s')
          | Panic => Some (Panic, s')
          end
      | Err e => Some (Err e, s')
      | Panic => Some (Panic, s')
      end
  end.

(** The loop over the headers that looks for the two that frame the body. *)
Fixpoint scan_headers (headers : list (text * text)) (chunked : bool) (content_length : option N)
    : result (bool * option N) :=
  match headers with
  | [] => Ok (chunked, content_length)
  | (header, value) :: headers' =>
      let chunked :=
        if bool_decide (trim (to_lowercase header) = lit "transfer-encoding")
           && bool_decide (trim (to_lowercase value) = lit "chunked")
        then true else chunked in
      if bool_decide (trim (to_lowercase header) = lit "content-length") then
        match parse_usize (trim value) with
        | Some length => scan_headers headers' chunked (Some length)
        | None => Err MalformedContentLength
        end
      else scan_headers headers' chunked content_length
  end.

Definition body_state (chunked : bool) (content_length : option N) : HttpStreamState :=
  if chunked then Chunked true 0 0
  else match content_length with
       | Some length => ContentLength length
       | None => EndOnClose
       end.

(** Enough fuel for the header loop: every line it goes on after takes at least
    one byte. *)
Definition header_fuel (trailing : Trailing) (s : HttpStreamBytes) : nat :=
  S (length (input trailing s).1).

Definition read_metadata (s : HttpStreamBytes) (max_headers_size max_status_line_len : option N)
    : option (result ResponseMetadata * HttpStreamBytes) :=
  let '(r, s) := read_line_async s max_status_line_len StatusLineOverflow [] in
  match r with
  | Ok (line, trailing) =>
      let '(status_code, reason_phrase) := parse_status_line line in
      '(r, s) ← read_headers (header_fuel trailing s) s max_headers_size ∅ trailing;
      Some (
        '(headers, max_headers_size, trailing) ← r;
        '(chunked, content_length) ← scan_headers (hm_iter headers) false None;
        Ok (mkResponseMetadata status_code reason_phrase headers
              (body_state chunked content_length) max_headers_size trailing), s)
  | Err e => Some (Err e, s)
  | Panic => Some (Panic, s)
  end.
End Metadata.

(** * The specification: a head read from the bytes of the connection *)

Section Spec.
Context `{Build} `{HashOrder}.

Fixpoint headers_spec (fuel : nat) (inp : bytes * option io_error) (max_headers_size : option N)
    (headers : gmap text text)
    : option (result (gmap text text * option N * (bytes * option io_error))) :=
  match fuel with
  | O => None
  | S fuel' =>
      match line_spec (default usize_MAX max_headers_size) HeadersOverflow inp with
      | Ok ([], inp) => Some (Ok (headers, max_headers_size, inp))
      | Ok (line, inp) =>
          match shrink_cap max_headers_size line with
          | Ok max_headers_size =>
              headers_spec fuel' inp max_headers_size (insert_header headers line)
          | Err e => Some (Err e)
          | Panic => Some Panic
          end
      | Err e => Some (Err e)
      | Panic => Some Panic
      end
  end.

(** The metadata, without the bytes read ahead, and the input that is left. *)
Definition metadata_spec (inp : bytes * option io_error)
    (max_headers_size max_status_line_len : option N)
    : option (result (ResponseMetadata * (bytes * option io_error))) :=
  match line_spec (default usize_MAX max_status_line_len) StatusLineOverflow inp with
  | Ok (line, inp) =>
      let '(status_code, reason_phrase) := parse_status_line line in
      r ← headers_spec (S (length inp.1)) inp max_headers_size ∅;
      Some (
        '(headers, max_headers_size, inp) ← r;
        '(chunked, content_length) ← scan_headers (hm_iter headers) false None;
        Ok (mkResponseMetadata status_code reason_phrase headers
              (body_state chunked content_length) max_headers_size [], inp))
  | Err e => Some (Err e)
  | Panic => Some Panic
  end.

(** What a caller of [read_metadata] can see: the metadata, and what is left to
    read, in the buffer and in the stream together. *)
Definition observe (md : ResponseMetadata) (s : HttpStreamBytes)
    : ResponseMetadata * (bytes * option io_error) :=
  (mkResponseMetadata (md_status_code md) (md_reason_phrase md) (md_headers md) (md_state md)
     (md_max_trailing_headers_size md) [], input (md_trailing_content md) s).
End Spec.

Module MetadataFacts.
Section Facts.
Context `{Build} `{HashOrder}.

(** ** The status line *)

Lemma status_line_version code reason v :
  Forall (fun c => c <> ch " ") v ->
  foldl status_line_char (mkStatusLineState code reason 0) v = mkStatusLineState code reason 0.
Proof.
  induction 1 as [|c v Hc _ IH]; [done|]. simpl. by test_false (c =? 32).
Qed.

Lemma status_line_code code reason v :
  Forall (fun c => c <> ch " ") v ->
  foldl status_line_char (mkStatusLineState code reason 1) v
  = mkStatusLineState (code ++ v) reason 1.
Proof.
  intros Hv. revert code. induction Hv as [|c v Hc _ IH]; intros code; [by rewrite app_nil_r|].
  simpl. test_false (c =? 32). by rewrite IH, <- app_assoc.
Qed.

Lemma status_line_reason code reason n v :
  2 <= n ->
  exists n', foldl status_line_char (mkStatusLineState code reason n) v
             = mkStatusLineState code (reason ++ v) n'.
Proof.
  revert reason n. induction v as [|c v IH]; intros reason n Hn.
  { exists n. by rewrite app_nil_r. }
  simpl. test_true (2 <=? n). destruct (c =? 32).
  - destruct (IH (reason ++ [c]) (n + 1)) as [n' Hn']; [lia|]. exists n'.
    by rewrite Hn', <- app_assoc.
  - test_false (n =? 1). destruct (IH (reason ++ [c]) n) as [n' Hn']; [lia|]. exists n'.
    by rewrite Hn', <- app_assoc.
Qed.

Lemma dec_no_space n : Forall (fun c => c <> ch " ") (dec n).
Proof.
  eapply Forall_impl; [apply dec_all_digits|]. simpl. intros c Hc. lia.
Qed.

(** The status line of a response. *)
Definition status_line (version : text) (code : N) (reason : text) : text :=
  version ++ ch " " :: dec code ++ ch " " :: reason.

Lemma parse_status_line_of version code reason :
  Forall (fun c => c <> ch " ") version -> code < 2 ^ 31 ->
  parse_status_line (status_line version code reason) = (Z.of_N code, reason).
Proof.
  intros Hv Hc. unfold parse_status_line, status_line.
  rewrite foldl_app, status_line_version by done. cbn [foldl].
  unfold status_line_char at 2. simpl. rewrite foldl_app, status_line_code by apply dec_no_space.
  cbn [foldl]. unfold status_line_char at 2. simpl.
  destruct (status_line_reason (dec code) [] (1 + 1) reason) as [n' ->]; [lia|]. simpl.
  by rewrite parse_i32_dec.
Qed.

(** A status line is read back: the code and the reason phrase, whatever
    spaces the phrase holds; and a line whose second word is no [i32] is reported
    as status 503. *)
Lemma parse_status_line_roundtrip version code reason :
  Forall (fun c => c <> ch " ") version ->
  (code < 2 ^ 31 ->
   parse_status_line (status_line version code reason) = (Z.of_N code, reason)) /\
  (forall word, Forall (fun c => c <> ch " ") word -> parse_i32 word = None ->
   parse_status_line (version ++ ch " " :: word ++ ch " " :: reason)
   = (503%Z, lit "Server did not provide a status line")).
Proof.
  intros Hv. split; [by apply parse_status_line_of|]. intros word Hw Hn.
  unfold parse_status_line. rewrite foldl_app, status_line_version by done. cbn [foldl].
  unfold status_line_char at 2. simpl. rewrite foldl_app, status_line_code by done.
  cbn [foldl]. unfold status_line_char at 2. simpl.
  destruct (status_line_reason word [] (1 + 1) reason) as [n' ->]; [lia|]. simpl. by rewrite Hn.
Qed.

(** ** Header lines *)

Lemma parse_header_of key value :
  ch ":" ∉ key ->
  parse_header (key ++ ch ":" :: ch " " :: value) = Some (make_ascii_lowercase key, value).
Proof. intros Hk. unfold parse_header. by rewrite split_char_app. Qed.

(** A header line is read back with its name in lower case and its value
    untouched but for one space after the colon: [name: value] and, when the
    value does not begin with a space, [name:value] give the same. A line without
    a colon is no header. *)
Lemma parse_header_roundtrip key value :
  ch ":" ∉ key ->
  parse_header (key ++ ch ":" :: ch " " :: value) = Some (make_ascii_lowercase key, value) /\
  (head value <> Some (ch " ") ->
   parse_header (key ++ ch ":" :: value) = Some (make_ascii_lowercase key, value)) /\
  parse_header key = None.
Proof.
  intros Hk. split_and!.
  - by apply parse_header_of.
  - intros Hv. unfold parse_header. rewrite split_char_app by done. unfold get_one_byte.
    destruct value as [|c v]; [done|]. simpl in Hv.
    destruct (len (encode_utf8 c) =? 1); [|done]. case_bool_decide as Hc; [|done].
    by simplify_eq.
  - unfold parse_header. by rewrite split_char_None.
Qed.

(** ** Refinement: chunks do not matter *)

Lemma read_headers_spec fuel s max headers trailing :
  headers_spec fuel (input trailing s) max headers =
  '(r, s') ← read_headers fuel s max headers trailing;
  Some ('(h, m, tr) ← r; Ok (h, m, input tr s')).
Proof.
  revert s max headers trailing. induction fuel as [|fuel IH]; intros s max headers trailing; [done|].
  simpl. pose proof (LineFacts.read_line_async_spec s max HeadersOverflow trailing) as Hl.
  destruct (read_line_async s max HeadersOverflow trailing) as [[[line tr]|e|] s'];
    [|by rewrite Hl|done]. rewrite Hl.
  destruct line as [|c line]; [done|].
  destruct (shrink_cap max (c :: line)) as [max'| |]; [|done..]. by rewrite IH.
Qed.

Lemma read_metadata_spec s max_headers max_status :
  metadata_spec (flat s) max_headers max_status =
  '(r, s') ← read_metadata s max_headers max_status;
  Some (md ← r; Ok (observe md s')).
Proof.
  unfold metadata_spec, read_metadata.
  pose proof (LineFacts.read_line_async_spec s max_status StatusLineOverflow []) as Hl.
  change (input [] s) with ((flat s).1, (flat s).2) in Hl. rewrite <- surjective_pairing in Hl.
  destruct (read_line_async s max_status StatusLineOverflow []) as [[[line tr]|e|] s'];
    [|by rewrite Hl|done]. rewrite Hl.
  destruct (parse_status_line line) as [code reason]. rewrite read_headers_spec.
  unfold header_fuel.
  destruct (read_headers _ s' max_headers ∅ tr) as [[[[[h m] tr']|e|] s'']|]; [|done..].
  simpl. destruct (scan_headers (hm_iter h) false None) as [[ck cl]| |]; done.
Qed.

(** ** Termination *)

Lemma split_char_length c l a r : split_char c l = Some (a, r) -> (length r < length l)%nat.
Proof. intros [-> _]%split_char_Some. rewrite length_app. simpl. lia. Qed.

Lemma line_spec_progress m e inp line rest :
  line_spec m e inp = Ok (line, rest) -> line <> [] -> (length rest.1 < length inp.1)%nat.
Proof.
  unfold line_spec, raw_line. intros Hl Hne.
  destruct (split_char LF inp.1) as [[a r]|] eqn:E.
  - apply split_char_length in E. destruct (m <=? len a); [done|]. simpl in Hl.
    destruct (from_utf8 (pop_cr a)); by simplify_eq.
  - destruct (m <? len inp.1); [done|]. destruct inp.2; [done|]. simpl in Hl.
    destruct (from_utf8 inp.1) as [t| |] eqn:Eu; simplify_eq. simpl.
    apply from_utf8_ok in Eu as [-> _]. destruct line as [|c t]; [done|].
    rewrite utf8_cons, length_app. unfold encode_utf8. repeat case_match; simpl; lia.
Qed.

Lemma headers_spec_total fuel inp max headers :
  (length inp.1 < fuel)%nat -> is_Some (headers_spec fuel inp max headers).
Proof.
  revert inp max headers. induction fuel as [|fuel IH]; intros inp max headers Hf; [lia|].
  simpl. destruct (line_spec _ _ inp) as [[line rest]| |] eqn:E; [|by eexists..].
  destruct line as [|c line]; [by eexists|].
  destruct (shrink_cap max (c :: line)); [|by eexists..]. apply IH.
  apply line_spec_progress in E; [lia|done].
Qed.

Lemma metadata_spec_total inp max_headers max_status :
  is_Some (metadata_spec inp max_headers max_status).
Proof.
  unfold metadata_spec. destruct (line_spec _ _ inp) as [[line rest]| |]; [|by eexists..].
  destruct (parse_status_line line).
  destruct (headers_spec_total (S (length rest.1)) rest max_headers ∅) as [r ->]; [lia|].
  by eexists.
Qed.

(** C9. [read_metadata] refines its specification on the bytes of the
    connection and always answers: two streams that carry the same bytes, cut and
    delayed in any way, give the same status, headers, body framing and error,
    and leave the same input for the body. *)
Theorem read_metadata_refines s max_headers max_status :
  exists r s', read_metadata s max_headers max_status = Some (r, s') /\
    metadata_spec (flat s) max_headers max_status = Some (md ← r; Ok (observe md s')).
Proof.
  pose proof (read_metadata_spec s max_headers max_status) as Hs.
  destruct (metadata_spec_total (flat s) max_headers max_status) as [x Hx]. rewrite Hx in Hs.
  destruct (read_metadata s max_headers max_status) as [[r s']|]; [|done].
  exists r, s'. split; [done|]. by rewrite Hx, Hs.
Qed.

(** ** Heads as servers send them *)

(** A header line without its line ending, and the bytes of a line. *)
Definition header_text (kv : text * text) : text := kv.1 ++ ch ":" :: ch " " :: kv.2.
Definition line_bytes (line : text) : bytes := utf8 line ++ CRLF.
Definition headers_bytes (hs : list (text * text)) : bytes :=
  (hs ≫= (fun kv => line_bytes (header_text kv))) ++ CRLF.

Record header_wf (kv : text * text) : Prop := {
  wf_key : is_text kv.1 /\ (ch ":" ∉ kv.1) /\ (LF ∉ kv.1);
  wf_value : is_text kv.2 /\ (LF ∉ kv.2);
}.

(** The same, decided. *)
Definition header_ok (kv : text * text) : bool :=
  bool_decide (is_text kv.1) && bool_decide (ch ":" ∉ kv.1) && bool_decide (LF ∉ kv.1)
  && bool_decide (is_text kv.2) && bool_decide (LF ∉ kv.2).

Lemma headers_ok hs : forallb header_ok hs = true -> Forall header_wf hs.
Proof.
  intros Hok%forallb_Forall. eapply Forall_impl; [exact Hok|]. intros kv Hkv. unfold header_ok in Hkv.
  btest. repeat match goal with Hb : bool_decide _ = true |- _ => apply bool_decide_eq_true in Hb end.
  by split.
Qed.

(** The size of the lines, as the documentation of the cap counts it: with the
    line endings. *)
Fixpoint headers_size (hs : list (text * text)) : N :=
  match hs with
  | [] => 0
  | kv :: hs' => str_len (header_text kv) + 2 + headers_size hs'
  end.

Definition fits (max : option N) (n : N) : bool :=
  match max with Some m => n <=? m | None => true end.

Definition insert_headers (m : gmap text text) (hs : list (text * text)) : gmap text text :=
  foldl (fun m kv => <[make_ascii_lowercase kv.1 := kv.2]> m) m hs.

Lemma header_text_wf kv :
  header_wf kv -> is_text (header_text kv) /\ (LF ∉ header_text kv) /\ header_text kv <> [].
Proof.
  intros [(Hk & _ & Hkn) (Hv & Hvn)]. unfold header_text. split_and!.
  - apply is_text_app. split; [done|]. by repeat constructor.
  - rewrite not_elem_of_app, !not_elem_of_cons. done.
  - by destruct kv.1.
Qed.

Lemma insert_header_text m kv :
  header_wf kv ->
  insert_header m (header_text kv) = <[make_ascii_lowercase kv.1 := kv.2]> m.
Proof.
  intros [(_ & Hk & _) _]. unfold insert_header, header_text. by rewrite parse_header_of.
Qed.

(** A line that ends in [\r\n] is accepted when, with both, it is within the cap. *)
Lemma line_spec_crlf m e line rest err :
  is_text line -> LF ∉ line ->
  line_spec m e (line_bytes line ++ rest, err)
  = if m <=? str_len line + 1 then Err e else Ok (line, (rest, err)).
Proof.
  intros Ht Hlf. unfold line_spec, raw_line, line_bytes. simpl fst. simpl snd.
  replace ((utf8 line ++ CRLF) ++ rest) with ((utf8 line ++ [CR]) ++ LF :: rest)
    by by rewrite <- !app_assoc.
  rewrite split_char_app.
  2: { rewrite not_elem_of_app, list_elem_of_singleton. split; [by apply utf8_not_in|done]. }
  change (len (utf8 line ++ [CR])) with (len (utf8 line ++ [CR])).
  autorewrite with len. rewrite N.add_0_l. unfold str_len.
  destruct (m <=? len (utf8 line) + 1); [done|]. simpl.
  by rewrite LineFacts.pop_cr_snoc, from_utf8_utf8.
Qed.

Lemma shrink_cap_fits max line :
  (match max with Some m => str_len line + 2 <= m <= usize_MAX | None => True end) ->
  shrink_cap max line = Ok ((fun m => m - (str_len line + 2)) <$> max).
Proof.
  intros Hm. unfold shrink_cap. destruct max as [m|]; [|done].
  rewrite usize_add_fits by lia. simpl.
  by rewrite usize_sub_fits by lia.
Qed.

Lemma headers_spec_lines hs fuel max headers body err :
  (length hs < fuel)%nat -> Forall header_wf hs -> headers_size hs + 2 <= usize_MAX ->
  (match max with Some m => m <= usize_MAX | None => True end) ->
  headers_spec fuel (headers_bytes hs ++ body, err) max headers
  = Some (if fits max (headers_size hs + 2)
          then Ok (insert_headers headers hs, (fun m => m - headers_size hs) <$> max, (body, err))
          else Err HeadersOverflow).
Proof.
  revert fuel max headers. induction hs as [|kv hs IH]; intros fuel max headers Hf Hwf Hsz Hmax.
  - destruct fuel as [|fuel]; [simpl in Hf; lia|]. simpl.
    pose proof (line_spec_crlf (default usize_MAX max) HeadersOverflow [] body err) as Hl.
    unfold headers_bytes. simpl. unfold line_bytes, str_len in Hl. simpl in Hl.
    rewrite Hl; [|constructor|apply not_elem_of_nil].
    change (len []) with 0. unfold fits. destruct max as [m|]; simpl; [|done].
    destruct (N.leb_spec m (0 + 1)); [by test_false (0 + 2 <=? m)|].
    test_true (0 + 2 <=? m). by rewrite N.sub_0_r.
  - destruct fuel as [|fuel]; [simpl in Hf; lia|].
    inversion_clear Hwf as [|? ? Hkv Hwf']. cbn [headers_size] in *.
    destruct (header_text_wf kv Hkv) as (Ht & Hlf & Hne).
    cbn [headers_spec]. unfold headers_bytes. rewrite bind_cons, <- !app_assoc.
    rewrite line_spec_crlf by done. rewrite (app_assoc (hs ≫= _)). fold (headers_bytes hs).
    assert (default usize_MAX max <= usize_MAX) by by destruct max.
    destruct (N.leb_spec (default usize_MAX max) (str_len (header_text kv) + 1)) as [Hle|Hgt].
    + destruct max as [m|]; simpl in *; [|lia].
      by test_false (str_len (header_text kv) + 2 + headers_size hs + 2 <=? m).
    + destruct (header_text kv) as [|c line] eqn:E; [done|]. rewrite <- E in *. clear E.
      rewrite shrink_cap_fits by (destruct max; simpl in *; lia).
      rewrite insert_header_text by done. rewrite IH; [|simpl in Hf; lia|done|lia|].
      * f_equal. unfold insert_headers at 2. simpl. fold (insert_headers).
        destruct max as [m|]; simpl in *; [|done].
        destruct (N.leb_spec (headers_size hs + 2) (m - (str_len (header_text kv) + 2))).
        -- test_true (str_len (header_text kv) + 2 + headers_size hs + 2 <=? m).
           unfold insert_headers. by rewrite <- N.sub_add_distr.
        -- by test_false (str_len (header_text kv) + 2 + headers_size hs + 2 <=? m).
      * destruct max; simpl in *; lia.
Qed.

(** The head of a response. *)
Definition head_bytes (line : text) (hs : list (text * text)) : bytes :=
  line_bytes line ++ headers_bytes hs.

Lemma headers_bytes_length hs : (length hs < length (headers_bytes hs))%nat.
Proof.
  unfold headers_bytes, line_bytes. induction hs as [|kv hs IH]; [simpl; lia|].
  rewrite bind_cons, <- !app_assoc, !length_app in *. simpl in *. lia.
Qed.

(** The specification on the head of a response, with caps that it may exceed. *)
Lemma metadata_spec_head max_headers max_status line hs body err :
  is_text line -> LF ∉ line -> str_len line + 2 <= usize_MAX ->
  Forall header_wf hs -> headers_size hs + 2 <= usize_MAX ->
  (match max_headers with Some m => m <= usize_MAX | None => True end) ->
  metadata_spec (head_bytes line hs ++ body, err) max_headers max_status =
  Some (
    if negb (fits max_status (str_len line + 2)) then Err StatusLineOverflow
    else if negb (fits max_headers (headers_size hs + 2)) then Err HeadersOverflow
    else
      '(chunked, content_length) ← scan_headers (hm_iter (insert_headers ∅ hs)) false None;
      Ok (mkResponseMetadata (parse_status_line line).1 (parse_status_line line).2
            (insert_headers ∅ hs) (body_state chunked content_length)
            ((fun m => m - headers_size hs) <$> max_headers) [], (body, err))).
Proof.
  intros Ht Hlf Hsz Hwf Hhs Hmax. unfold metadata_spec, head_bytes.
  rewrite <- app_assoc, line_spec_crlf by done.
  assert ((default usize_MAX max_status <=? str_len line + 1)
          = negb (fits max_status (str_len line + 2))) as ->.
  { unfold fits. destruct max_status as [m|]; simpl; [|decide_test].
    destruct (N.leb_spec (str_len line + 2) m); simpl; decide_test. }
  destruct (fits max_status _); cbn [negb]; [|done].
  destruct (parse_status_line line) as [code reason]. rewrite headers_spec_lines; [|..|done|done|done].
  - simpl. by destruct (fits max_headers _).
  - cbn [fst]. rewrite length_app. pose proof (headers_bytes_length hs). lia.
Qed.

Lemma scan_headers_result l chunked content_length :
  match scan_headers l chunked content_length with
  | Ok _ => True
  | Err e => e = MalformedContentLength
  | Panic => False
  end.
Proof.
  revert chunked content_length.
  induction l as [|[k v] l IH]; intros chunked content_length; simpl; [done|].
  destruct (bool_decide (trim (to_lowercase k) = lit "content-length")); [|apply IH].
  destruct (parse_usize (trim v)); [apply IH|done].
Qed.

(** ** Framing *)

Definition is_content_length (kv : text * text) : Prop :=
  trim (to_lowercase kv.1) = lit "content-length".
Definition is_chunked (kv : text * text) : Prop :=
  trim (to_lowercase kv.1) = lit "transfer-encoding" /\ trim (to_lowercase kv.2) = lit "chunked".

(** What the scan says of the headers it has seen, from the values it began
    with. *)
Lemma scan_headers_spec l chunked content_length :
  match scan_headers l chunked content_length with
  | Ok (c, cl) =>
      (c = true <-> chunked = true \/ exists kv, kv ∈ l /\ is_chunked kv) /\
      (forall kv, kv ∈ l -> is_content_length kv -> is_Some (parse_usize (trim kv.2))) /\
      ((exists kv, kv ∈ l /\ is_content_length kv /\ parse_usize (trim kv.2) = cl /\ cl <> None) \/
       (forall kv, kv ∈ l -> ~ is_content_length kv) /\ cl = content_length)
  | Err e =>
      e = MalformedContentLength /\
      exists kv, kv ∈ l /\ is_content_length kv /\ parse_usize (trim kv.2) = None
  | Panic => False
  end.
Proof.
  revert chunked content_length. induction l as [|[k v] l IH]; intros ck cl; cbn [scan_headers].
  { split_and!; [|intros kv Hkv; by apply not_elem_of_nil in Hkv|].
    - split; [by left|]. intros [|(kv & Hkv & _)]; [done|by apply not_elem_of_nil in Hkv].
    - right. split; [|done]. intros kv Hkv. by apply not_elem_of_nil in Hkv. }
  set (ck' := if _ && _ then true else ck).
  assert (ck' = true <-> ck = true \/ is_chunked (k, v)) as Hck.
  { subst ck'. unfold is_chunked. cbn [fst snd]. repeat case_bool_decide; simpl; tauto. }
  assert (forall c, (c = true <-> ck' = true \/ exists kv, kv ∈ l /\ is_chunked kv) ->
    c = true <-> ck = true \/ exists kv, kv ∈ (k, v) :: l /\ is_chunked kv) as Hstep.
  { intros c ->. rewrite Hck. split.
    - intros [[?|?]|(kv & ? & ?)]; [by left|right; exists (k, v)|right; exists kv];
        (split; [by constructor|done]).
    - intros [?|(kv & [->|?]%elem_of_cons & ?)]; [by left; left|by left; right|right; by eauto]. }
  case_bool_decide as Hk.
  - destruct (parse_usize (trim v)) as [n|] eqn:En.
    2: { split; [done|]. exists (k, v). split_and!; [by left|done|done]. }
    specialize (IH ck' (Some n)). destruct (scan_headers l ck' (Some n)) as [[c cl']|e|]; [| |done].
    + destruct IH as (IH1 & IH2 & IH3). split_and!; [by apply Hstep| |].
      * intros kv [->|Hin]%elem_of_cons Hcl; [cbn [snd]; by rewrite En|by apply IH2].
      * left. destruct IH3 as [(kv & ? & ? & ? & ?)|[_ ->]].
        -- exists kv. split_and!; [by right|done..].
        -- exists (k, v). split_and!; [by left|done|cbn [snd]; by rewrite En|done].
    + destruct IH as (-> & kv & ? & ? & ?). split; [done|]. exists kv. split_and!; [by right|done..].
  - specialize (IH ck' cl). destruct (scan_headers l ck' cl) as [[c cl']|e|]; [| |done].
    + destruct IH as (IH1 & IH2 & IH3). split_and!; [by apply Hstep| |].
      * intros kv [->|Hin]%elem_of_cons Hcl; [done|by apply IH2].
      * destruct IH3 as [(kv & ? & ? & ? & ?)|[Hno ->]].
        -- left. exists kv. split_and!; [by right|done..].
        -- right. split; [|done]. intros kv [->|Hin]%elem_of_cons; [done|by apply Hno].
    + destruct IH as (-> & kv & ? & ? & ?). split; [done|]. exists kv. split_and!; [by right|done..].
Qed.

(** C16. How the body is framed does not depend on the order of the hash map,
    where it can be told: it is chunked exactly when a header [transfer-encoding]
    has the value [chunked], up to case and surrounding space; the response is
    refused exactly when a [content-length] header is no [usize]; otherwise the
    length is that of such a header, and there is none only without one. *)
Theorem framing_of_headers (m : gmap text text) :
  match scan_headers (hm_iter m) false None with
  | Ok (chunked, content_length) =>
      (chunked = true <-> exists k v, m !! k = Some v /\ is_chunked (k, v)) /\
      (forall k v, m !! k = Some v -> is_content_length (k, v) ->
         is_Some (parse_usize (trim v))) /\
      match content_length with
      | Some n => exists k v, m !! k = Some v /\ is_content_length (k, v) /\
                    parse_usize (trim v) = Some n
      | None => forall k v, m !! k = Some v -> ~ is_content_length (k, v)
      end
  | Err e =>
      e = MalformedContentLength /\
      exists k v, m !! k = Some v /\ is_content_length (k, v) /\ parse_usize (trim v) = None
  | Panic => False
  end.
Proof.
  pose proof (scan_headers_spec (hm_iter m) false None) as Hs.
  destruct (scan_headers _ _ _) as [[c cl]|e|]; [| |done].
  - destruct Hs as (H1 & H2 & H3). split_and!.
    + rewrite H1. split.
      * intros [|([k v] & Hin%hm_iter_elem & Hc)]; [done|by eauto].
      * intros (k & v & Hin%hm_iter_elem & Hc). right. by eauto.
    + intros k v Hin%hm_iter_elem. apply (H2 (k, v) Hin).
    + destruct H3 as [([k v] & Hin%hm_iter_elem & Hc & Hp & Hn)|[Hno ->]].
      * destruct cl as [n|]; [by eauto|done].
      * intros k v Hin%hm_iter_elem. by apply Hno.
  - destruct Hs as (-> & [k v] & Hin%hm_iter_elem & Hc & Hp). by eauto 6.
Qed.

(** The headers announce a body of length [framed], or, without a length, one that
    ends with the connection. *)
Definition framed_by (m : gmap text text) (framed : option N) : Prop :=
  (forall k v, m !! k = Some v -> ~ is_chunked (k, v)) /\
  match framed with
  | Some n =>
      (exists v, m !! lit "content-length" = Some v /\ parse_usize (trim v) = Some n) /\
      (forall k v, m !! k = Some v -> is_content_length (k, v) -> k = lit "content-length")
  | None => forall k v, m !! k = Some v -> ~ is_content_length (k, v)
  end.

Lemma framed_scan m framed :
  framed_by m framed -> scan_headers (hm_iter m) false None = Ok (false, framed).
Proof.
  intros [Hck Hcl]. pose proof (scan_headers_spec (hm_iter m) false None) as Hs.
  destruct (scan_headers _ _ _) as [[c cl]|e|]; [| |done].
  - destruct Hs as (H1 & _ & H3). destruct c.
    { destruct H1 as [[|([k v] & Hin%hm_iter_elem & Hc)] _]; [done|done|]. by destruct (Hck k v). }
    do 2 f_equal. destruct H3 as [([k v] & Hin%hm_iter_elem & Hc & Hp & Hn)|[Hno ->]].
    + destruct framed as [n|]; [|by destruct (Hcl k v)].
      destruct Hcl as [(v' & Hv' & Hp') Hu]. rewrite (Hu k v Hin Hc) in Hin.
      cbn [snd] in Hp. congruence.
    + destruct framed as [n|]; [|done]. destruct Hcl as [(v' & Hv' & _) _].
      destruct (Hno (lit "content-length", v')); [by apply hm_iter_elem|reflexivity].
  - destruct Hs as (_ & [k v] & Hin%hm_iter_elem & Hc & Hp). destruct framed as [n|].
    + destruct Hcl as [(v' & Hv' & Hp') Hu]. rewrite (Hu k v Hin Hc) in Hin.
      cbn [snd] in Hp. congruence.
    + by destruct (Hcl k v).
Qed.

(** How the body behind headers is found: by its length, by the end of the connection,
    in chunks, or not at all. *)
Inductive Framing : Type :=
| ByLength (n : N)
| ToTheEnd
| InChunks
| Malformed.

#[global] Instance framing_eq_dec : EqDecision Framing.
Proof. solve_decision. Defined.

Definition framed_as (m : gmap text text) (f : Framing) : Prop :=
  match f with
  | ByLength n => framed_by m (Some n)
  | ToTheEnd => framed_by m None
  | InChunks =>
      (exists k v, m !! k = Some v /\ is_chunked (k, v)) /\
      (forall k v, m !! k = Some v -> is_content_length (k, v) -> is_Some (parse_usize (trim v)))
  | Malformed => exists k v, m !! k = Some v /\ is_content_length (k, v) /\ parse_usize (trim v) = None
  end.

#[global] Instance is_content_length_dec kv : Decision (is_content_length kv).
Proof. unfold is_content_length. apply _. Defined.
#[global] Instance is_chunked_dec kv : Decision (is_chunked kv).
Proof. unfold is_chunked. apply _. Defined.

(** The quantifiers of the framing range over the headers that are there. *)
#[global] Instance framed_by_dec m framed : Decision (framed_by m framed).
Proof.
  apply and_dec; [exact (_ : Decision (map_Forall (fun k v => ~ is_chunked (k, v)) m))|].
  destruct framed as [n|];
    [|exact (_ : Decision (map_Forall (fun k v => ~ is_content_length (k, v)) m))].
  apply and_dec;
    [|exact (_ : Decision (map_Forall (fun k v => is_content_length (k, v) ->
                                                  k = lit "content-length") m))].
  destruct (m !! lit "content-length") as [v|].
  - destruct (decide (parse_usize (trim v) = Some n)); [left; by exists v|].
    right. by intros (v' & [= <-] & ?).
  - right. by intros (v' & ? & _).
Defined.

#[global] Instance framed_as_dec m f : Decision (framed_as m f).
Proof.
  destruct f as [n| | |]; simpl; [apply _..| |].
  - apply and_dec; [exact (_ : Decision (map_Exists (fun k v => is_chunked (k, v)) m))|].
    exact (_ : Decision (map_Forall (fun k v => is_content_length (k, v) ->
                                                is_Some (parse_usize (trim v))) m)).
  - exact (_ : Decision (map_Exists (fun k v => is_content_length (k, v) /\
                                                parse_usize (trim v) = None) m)).
Defined.

Definition framing_result (f : Framing) : result HttpStreamState :=
  match f with
  | ByLength n => Ok (ContentLength n)
  | ToTheEnd => Ok EndOnClose
  | InChunks => Ok (Chunked true 0 0)
  | Malformed => Err MalformedContentLength
  end.

Lemma framed_as_scan m f :
  framed_as m f ->
  ('(chunked, content_length) ← scan_headers (hm_iter m) false None;
   Ok (body_state chunked content_length)) = framing_result f.
Proof.
  destruct f as [n| | |]; simpl; [by intros ->%framed_scan..| |].
  - intros [(k & v & Hm & Hc) Hall]. pose proof (scan_headers_spec (hm_iter m) false None) as Hs.
    destruct (scan_headers _ _ _) as [[c cl]|e|]; [| |done].
    + destruct Hs as ([_ Hck] & _). destruct c; [done|].
      assert (false = true); [|done]. apply Hck. right. exists (k, v). by rewrite hm_iter_elem.
    + destruct Hs as (_ & [k' v'] & Hin%hm_iter_elem & Hcl & Hp).
      destruct (Hall k' v' Hin Hcl) as [n Hn]. cbn [snd] in Hp. congruence.
  - intros (k & v & Hm & Hc & Hp).
    pose proof (scan_headers_spec (hm_iter m) false None) as Hs.
    destruct (scan_headers _ _ _) as [[c cl]|e|]; [|by destruct Hs as [-> _]|done].
    destruct Hs as (_ & Hall & _). apply hm_iter_elem in Hm. apply Hall in Hm as [n Hn]; [|done].
    cbn [snd] in Hn. congruence.
Qed.

(** C29. The caps are exact on lines ended by [\r\n]: the status line is refused
    exactly when it is longer, with its line ending, than its cap, the headers
    exactly when all of them, line endings and the empty line included, are
    longer than theirs; the arithmetic of the cap never wraps or panics, and what
    is left of it is handed on for the trailers. *)
Theorem caps_are_exact s line hs body err max_headers max_status :
  flat s = (head_bytes line hs ++ body, err) ->
  is_text line -> LF ∉ line -> str_len line + 2 <= usize_MAX ->
  Forall header_wf hs -> headers_size hs + 2 <= usize_MAX -> max_headers <= usize_MAX ->
  exists r s', read_metadata s (Some max_headers) (Some max_status) = Some (r, s') /\
  (r = Err StatusLineOverflow <-> max_status < str_len line + 2) /\
  (r = Err HeadersOverflow <->
     str_len line + 2 <= max_status /\ max_headers < headers_size hs + 2) /\
  (forall md, r = Ok md ->
     md_max_trailing_headers_size md = Some (max_headers - headers_size hs)) /\
  r <> Panic.
Proof.
  intros Hs Ht Hlf Hsz Hwf Hhs Hmax.
  pose proof (read_metadata_spec s (Some max_headers) (Some max_status)) as Hspec.
  rewrite Hs in Hspec. rewrite metadata_spec_head in Hspec by done.
  destruct (read_metadata s (Some max_headers) (Some max_status)) as [[r s']|]; [|done].
  exists r, s'. split; [done|]. injection Hspec as Hspec. unfold fits in Hspec.
  destruct (N.leb_spec (str_len line + 2) max_status); simpl in Hspec.
  2: { destruct r; simplify_eq/=. split_and!; try done; split; try done; lia. }
  destruct (N.leb_spec (headers_size hs + 2) max_headers); simpl in Hspec.
  2: { destruct r; simplify_eq/=. split_and!; try done; split; try done; lia. }
  pose proof (scan_headers_result (hm_iter (insert_headers ∅ hs)) false None) as Hscan.
  destruct (scan_headers _ false None) as [[ck cl]|e|]; simpl in Hspec; [|subst|done];
    destruct r as [md|e|]; simplify_eq/=.
  - split_and!; [split; [done|lia]|split; [done|lia]| |done]. intros md' [= <-]. done.
  - split_and!; [split; [done|lia]|split; [done|lia]|done|done].
Qed.

(** A line that ends in a bare [\n]. *)
Lemma line_spec_lf m e line rest err :
  is_text line -> LF ∉ line -> last (utf8 line) <> Some CR ->
  line_spec m e (utf8 line ++ LF :: rest, err)
  = if m <=? str_len line then Err e else Ok (line, (rest, err)).
Proof.
  intros Ht Hlf Hcr. unfold line_spec, raw_line. simpl fst. simpl snd.
  rewrite split_char_app by by apply utf8_not_in. fold (str_len line).
  destruct (m <=? str_len line); [done|]. simpl.
  assert (pop_cr (utf8 line) = utf8 line) as ->; [|by rewrite from_utf8_utf8].
  unfold pop_cr. destruct (reverse (utf8 line)) as [|c r] eqn:E; [done|].
  apply (f_equal reverse) in E. rewrite reverse_involutive, reverse_cons in E.
  rewrite E, last_snoc in Hcr. destruct (N.eqb_spec c CR); [by subst|done].
Qed.

(** The cap on headers counts two bytes of line ending for every line, but a
    line may end in one: when a line that ends in a bare [\n] uses up the cap, the
    subtraction underflows. Built with overflow checks the client panics; without,
    the cap becomes the largest [usize] and the rest of the headers is unlimited. *)
Lemma bare_newline_breaks_cap s trailing line rest err headers fuel :
  is_text line -> LF ∉ line -> line <> [] -> last (utf8 line) <> Some CR ->
  str_len line + 2 <= usize_MAX ->
  input trailing s = (utf8 line ++ LF :: rest, err) ->
  (overflow_checks = true -> exists s',
     read_headers (S fuel) s (Some (str_len line + 1)) headers trailing = Some (Panic, s')) /\
  (overflow_checks = false -> exists s' trailing',
     read_headers (S fuel) s (Some (str_len line + 1)) headers trailing
     = read_headers fuel s' (Some usize_MAX) (insert_header headers line) trailing' /\
     input trailing' s' = (rest, err)).
Proof.
  intros Ht Hlf Hne Hcr Hsz Hin. cbn [read_headers].
  pose proof (LineFacts.read_line_async_spec s (Some (str_len line + 1)) HeadersOverflow trailing)
    as Hl.
  assert (line_spec (str_len line + 1) HeadersOverflow (input trailing s)
          = Ok (line, (rest, err))) as Hspec.
  { rewrite Hin, line_spec_lf by done. by test_false (str_len line + 1 <=? str_len line). }
  destruct (read_line_async _ _ _ _) as [[[line' tr]| |] s']; cbn [default from_option id] in Hl;
    rewrite ?Hspec in Hl; [|done..].
  injection Hl as <- Hrest Herr. destruct line as [|c line]; [done|].
  unfold shrink_cap. rewrite usize_add_fits by done. cbn [mbind outcome_bind].
  split; intros Hc.
  - exists s'. by rewrite usize_sub_underflow_panics by (done || lia).
  - exists s', tr. rewrite usize_sub_underflow_wraps by (done || lia). cbn [mbind outcome_bind].
    split.
    + f_equal. unfold usize_MAX. f_equal. lia.
    + unfold input. by rewrite <- Hrest, <- Herr.
Qed.

End Facts.
End MetadataFacts.

(** * Examples: the theorems at concrete heads *)

Module MetadataExamples.
Import MetadataFacts.
#[local] Existing Instance canonical_order.

Lemma parse_status_line_roundtrip_witness :
  (404 < 2 ^ 31 ->
   parse_status_line (lit "HTTP/1.1 404 Not Found") = (404%Z, lit "Not Found")) /\
  (forall word, Forall (fun c => c <> ch " ") word -> parse_i32 word = None ->
   parse_status_line (lit "HTTP/1.1 " ++ word ++ lit " Not Found")
   = (503%Z, lit "Server did not provide a status line")).
Proof. apply (parse_status_line_roundtrip (lit "HTTP/1.1") 404 (lit "Not Found")). by_compute. Defined.

(** A head of 17 and 20 bytes, in two pieces. *)
Definition head_stream : HttpStreamBytes :=
  [EvChunk (lit "HTTP/1.1 200 OK" ++ CRLF ++ lit "Content-"); EvPending;
   EvChunk (lit "Type: a" ++ CRLF ++ CRLF ++ lit "body")].

Lemma caps_are_exact_witness :
  exists r s',
    @read_metadata default_build canonical_order head_stream (Some 20) (Some 17) = Some (r, s') /\
    (r = Err StatusLineOverflow <-> 17 < str_len (lit "HTTP/1.1 200 OK") + 2) /\
    (r = Err HeadersOverflow <->
       str_len (lit "HTTP/1.1 200 OK") + 2 <= 17 /\
       20 < headers_size [(lit "Content-Type", lit "a")] + 2) /\
    (forall md, r = Ok md ->
       md_max_trailing_headers_size md = Some (20 - headers_size [(lit "Content-Type", lit "a")])) /\
    r <> Panic.
Proof.
  apply (@caps_are_exact default_build canonical_order head_stream (lit "HTTP/1.1 200 OK")
           [(lit "Content-Type", lit "a")] (lit "body") None 20 17);
    [vm_compute; reflexivity|by_compute|by_compute|by_compute
    |apply headers_ok; vm_compute; reflexivity|by_compute|by_compute].
Defined.

(** A cap of 4 and a line of 3 characters. *)
Lemma bare_newline_breaks_cap_witness :
  (true = true -> exists s',
     @read_headers default_build 9 [EvChunk (lit "a:b" ++ LF :: lit "c")] (Some 4) ∅ []
     = Some (Panic, s')) /\
  (true = false -> exists s' trailing',
     @read_headers default_build 9 [EvChunk (lit "a:b" ++ LF :: lit "c")] (Some 4) ∅ []
     = @read_headers default_build 8 s' (Some usize_MAX) (insert_header ∅ (lit "a:b")) trailing' /\
     input trailing' s' = (lit "c", None)).
Proof.
  apply (@bare_newline_breaks_cap default_build [EvChunk (lit "a:b" ++ LF :: lit "c")] []
           (lit "a:b") (lit "c") None ∅ 8);
    [by_compute|by_compute|done|by_compute|by_compute|vm_compute; reflexivity].
Defined.
End MetadataExamples.
