(* ===== verification/Wire.v ===== *)
(** The request as its server reads it: what [src/request.rs] writes, read by the
    grammar of lines and headers that [src/response.rs] uses for responses. *)

From S2P Require Import Prelude.
From S2P Require Import Text.
From S2P Require Import Strings.
From S2P Require Import Numbers.
From S2P Require Import Errors.
From S2P Require Import Url.
From S2P Require Import Proxies.
From S2P Require Import Requests.
From S2P Require Import Lines.
From S2P Require Import Metadata.

Module Wire.
Import ParsedRequest MetadataFacts.

Section Wire.
Context `{Build} `{HashOrder}.

(** The request line without its end. *)
Definition request_text (self : ParsedRequest) : text :=
  Method.fmt (Request.method (config self)) ++ lit " "
    ++ HttpUrl.path_and_query (url self) ++ lit " HTTP/1.1".

(** The value of the [Host] header. *)
Definition host_text (self : ParsedRequest) : text :=
  HttpUrl.host (url self)
    ++ match HttpUrl.port (url self) with Port.Explicit port => ch ":" :: dec port | _ => [] end.

(** All headers of the request, in the order they are written. *)
Definition sent_headers (self : ParsedRequest) : list (text * text) :=
  (lit "Host", host_text self) :: hm_iter (Request.headers (config self))
    ++ match length_line self with [] => [] | _ => [(lit "Content-Length", lit "0")] end.

Lemma header_line_bytes kv : utf8 (header_line kv) = line_bytes (header_text kv).
Proof.
  destruct kv as [k v]. unfold header_line, header_text, line_bytes. cbn [fst snd].
  rewrite !utf8_app, utf8_cons, utf8_cons. simpl. by rewrite <- !app_assoc.
Qed.

Lemma header_lines_bytes hs :
  utf8 (hs ≫= header_line) = hs ≫= (fun kv => line_bytes (header_text kv)).
Proof.
  induction hs as [|kv hs IH]; [done|]. by rewrite !bind_cons, utf8_app, header_line_bytes, IH.
Qed.

Lemma get_http_head_bytes self :
  utf8 (get_http_head self) = head_bytes (request_text self) (sent_headers self).
Proof.
  unfold get_http_head, head_bytes, headers_bytes, sent_headers.
  rewrite bind_cons, bind_app, !utf8_app, header_lines_bytes.
  assert (utf8 (request_line self) = line_bytes (request_text self)) as ->.
  { unfold request_line, request_text, line_bytes. rewrite !utf8_app.
    by rewrite <- !app_assoc. }
  assert (utf8 (host_line self) = line_bytes (header_text (lit "Host", host_text self))) as ->.
  { rewrite <- header_line_bytes. f_equal. unfold host_line, header_line, host_text. cbn [fst snd].
    change (lit "Host: ") with (lit "Host" ++ lit ": ").
    by destruct (HttpUrl.port (url self)); simpl; rewrite <- ?app_assoc. }
  assert (utf8 (length_line self)
          = match length_line self with [] => [] | _ => [(lit "Content-Length", lit "0")] end
              ≫= (fun kv => line_bytes (header_text kv))) as ->.
  { unfold length_line. destruct (method_has_body _); [|done]. by destruct (forallb _ _). }
  by rewrite <- !app_assoc.
Qed.

(** A request whose bytes can be told apart: neither the request line nor a header
    holds a line end, and their sizes can be counted. *)
Record sendable (self : ParsedRequest) : Prop := {
  sd_text : is_text (request_text self);
  sd_line : LF ∉ request_text self;
  sd_size : str_len (request_text self) + 2 <= usize_MAX;
  sd_headers : Forall header_wf (sent_headers self);
  sd_headers_size : headers_size (sent_headers self) + 2 <= usize_MAX;
}.

(** The headers as they are written, in their order, from the lines up to one that is
    none: a name, and the value behind a colon and a space. *)
Definition header_fields (line : text) : option (text * text) :=
  '(name, value) ← split_char (ch ":") line;
  Some (name, match value with c :: value' => if c =? ch " " then value' else value | [] => [] end).

Fixpoint header_list (fuel : nat) (b : bytes) : list (text * text) :=
  match fuel with
  | O => []
  | S fuel =>
      match line_spec usize_MAX InvalidUtf8InResponse (b, None) with
      | Ok (line, (rest, _)) =>
          match header_fields line with
          | Some header => header :: header_list fuel rest
          | None => []
          end
      | _ => []
      end
  end.

Lemma header_list_lines hs fuel body :
  (length hs < fuel)%nat -> Forall header_wf hs -> headers_size hs + 2 <= usize_MAX ->
  header_list fuel (headers_bytes hs ++ body) = hs.
Proof.
  revert fuel. induction hs as [|[k v] hs IH]; intros [|fuel] Hf Hwf Hsz; try (simpl in Hf; lia).
  - cbn [header_list]. change (headers_bytes [] ++ body) with (line_bytes [] ++ body).
    by rewrite line_spec_crlf by (constructor || apply not_elem_of_nil).
  - apply Forall_cons in Hwf as [Hkv Hwf]. cbn [headers_size] in Hsz.
    destruct (header_text_wf (k, v) Hkv) as (Ht & Hlf & _).
    cbn [header_list]. unfold headers_bytes. rewrite bind_cons, <- !app_assoc, line_spec_crlf by done.
    test_false (usize_MAX <=? str_len (header_text (k, v)) + 1).
    unfold header_fields, header_text at 1. cbn [fst snd]. rewrite split_char_app by apply Hkv.
    cbn [mbind option_bind]. f_equal. rewrite (app_assoc (hs ≫= _)). apply IH; [|done|lia].
    simpl in Hf. lia.
Qed.

(** The grammar at the bytes of a request, whatever follows them. *)
Lemma as_bytes_spec self e rest :
  sendable self ->
  exists inp,
    line_spec usize_MAX e (as_bytes self ++ rest, None) = Ok (request_text self, inp) /\
    header_list (S (length inp.1)) inp.1 = sent_headers self /\
    headers_spec (S (length inp.1)) inp None ∅ =
      Some (Ok (insert_headers ∅ (sent_headers self), None,
                (default [] (Request.body (config self)) ++ rest, None))).
Proof.
  intros [Ht Hlf Hsz Hwf Hhs]. unfold as_bytes. rewrite get_http_head_bytes.
  unfold head_bytes. rewrite <- !app_assoc, line_spec_crlf by done.
  test_false (usize_MAX <=? str_len (request_text self) + 1). eexists. split; [done|].
  pose proof (headers_bytes_length (sent_headers self)). cbn [fst]. rewrite length_app.
  split; [apply header_list_lines|rewrite headers_spec_lines]; done || lia.
Qed.

(** C4. A server reads back the request that is sent: when neither the request line
    nor a header holds a line end, the first line of the bytes is the method, the
    path and query, and the version; the headers behind it are [Host], those of the
    request, and the [Content-Length] the serialiser adds; and the body follows,
    untouched. *)
Theorem request_round_trip self e :
  is_text (request_text self) -> LF ∉ request_text self ->
  str_len (request_text self) + 2 <= usize_MAX ->
  Forall header_wf (sent_headers self) -> headers_size (sent_headers self) + 2 <= usize_MAX ->
  exists inp,
    line_spec usize_MAX e (as_bytes self, None) = Ok (request_text self, inp) /\
    headers_spec (S (length inp.1)) inp None ∅ =
      Some (Ok (insert_headers ∅ (sent_headers self), None,
                (default [] (Request.body (config self)), None))).
Proof.
  intros. destruct (as_bytes_spec self e []) as (inp & Hl & _ & Hh); [done|].
  rewrite !app_nil_r in *. by exists inp.
Qed.

(** What a server has of a request it has read: the headers both as a map, with
    lower-case names, and as they were written. *)
Record Received : Type := mkReceived {
  line : text;
  fields : gmap text text;
  written : list (text * text);
  content : bytes;
}.

(** A server reads a request by the grammar this client reads responses with: a line,
    headers, and what is behind them. *)
Definition read_request (b : bytes) : option Received :=
  match line_spec usize_MAX InvalidUtf8InResponse (b, None) with
  | Ok (line, inp) =>
      match headers_spec (S (length inp.1)) inp None ∅ with
      | Some (Ok (fields, _, (content, _))) =>
          Some (mkReceived line fields (header_list (S (length inp.1)) inp.1) content)
      | _ => None
      end
  | _ => None
  end.

(** What it has of a request it can read. *)
Definition as_received (self : ParsedRequest) : Received :=
  mkReceived (request_text self) (insert_headers ∅ (sent_headers self)) (sent_headers self)
    (default [] (Request.body (config self))).

Lemma read_request_sendable self :
  sendable self -> read_request (as_bytes self) = Some (as_received self).
Proof.
  intros Hs. destruct (as_bytes_spec self InvalidUtf8InResponse [] Hs) as (inp & Hl & Hw & Hh).
  rewrite !app_nil_r in *. unfold read_request. by rewrite Hl, Hh, Hw.
Qed.

(** Header values are written as they are: one that holds a line end is written as two
    headers. *)
Lemma header_injection k a k' b :
  header_line (k, a ++ CRLF ++ k' ++ lit ": " ++ b) = header_line (k, a) ++ header_line (k', b).
Proof. unfold header_line. simpl. rewrite <- !app_assoc. simpl. by rewrite <- !app_assoc. Qed.
End Wire.
End Wire.

Module WireExamples.
Import ParsedRequest MetadataFacts.
#[local] Existing Instance canonical_order.

(** [minreq::post("http://a:81/x").with_body("hi")]. *)
Definition post_request : ParsedRequest :=
  mkParsedRequest
    (HttpUrl.mkHttpUrl false (lit "a") (Port.Explicit 81) (lit "/x") None) []
    (Request.with_body (Request.post (lit "http://a:81/x")) (lit "hi")).

Example post_request_bytes :
  as_bytes post_request
  = lit "POST /x HTTP/1.1" ++ CRLF ++ lit "Host: a:81" ++ CRLF ++ lit "Content-Length: 2" ++ CRLF
      ++ CRLF ++ lit "hi".
Proof. vm_compute. reflexivity. Qed.

(** The server reads a header that is no header of the request. *)
Definition injecting_request : ParsedRequest :=
  mkParsedRequest (HttpUrl.mkHttpUrl false (lit "a") Port.ImplicitHttp (lit "/") None) []
    (Request.with_header (Request.get (lit "http://a/")) (lit "X") (lit "1" ++ CRLF ++ lit "Y: 2")).

Example injected :
  Request.headers (config injecting_request) !! lit "Y" = None /\
  (fun received => Wire.fields received !! lit "y")
    <$> @Wire.read_request default_build (as_bytes injecting_request) = Some (Some (lit "2")).
Proof. split; vm_compute; reflexivity. Qed.

Lemma request_round_trip_witness :
  exists inp,
    line_spec usize_MAX Errors.StatusLineOverflow (as_bytes post_request, None)
    = Ok (lit "POST /x HTTP/1.1", inp) /\
    @headers_spec default_build (S (length inp.1)) inp None ∅ =
      Some (Ok (insert_headers ∅ (Wire.sent_headers post_request), None, (lit "hi", None))).
Proof.
  apply (@Wire.request_round_trip default_build canonical_order post_request StatusLineOverflow);
    [by_compute|by_compute|by_compute|apply headers_ok; vm_compute; reflexivity|by_compute].
Defined.
End WireExamples.
