(* ===== verification/Bodies.v ===== *)
(** [src/response.rs], the body of a response: the three ways it is read, the
    lazy response as a stream and as an [AsyncRead], and the loaded response. *)

From S2P Require Import Prelude.
From S2P Require Import Text.
From S2P Require Import Strings.
From S2P Require Import Numbers.
From S2P Require Import Errors.
From S2P Require Import Lines.
From S2P Require Import Metadata.

Definition MAX_CONTENT_LENGTH : N := 16 * 1024.

(** What a body reader answers to [poll_next]: a chunk with the number of bytes
    to reserve for it, the end, or that it has to wait. *)
Abbreviation Item := (result (bytes * N)) (only parsing).

Definition process_prefix (prefix : bytes) : poll (option Item) :=
  Ready (Some (Ok (prefix, len prefix))).

(** The answer of the stream as it is, with the length of the chunk. *)
Definition raw_chunk (r : poll (option (io_result bytes))) : poll (option Item) :=
  match r with
  | Ready (Some (Ok chunk)) => Ready (Some (Ok (chunk, len chunk)))
  | Ready (Some (Err err)) => Ready (Some (Err (IoError err)))
  | Ready (Some Panic) => Ready (Some Panic)
  | Ready None => Ready None
  | Pending => Pending
  end.

Definition read_until_closed (prefix : Trailing) (bytes : HttpStreamBytes)
    : poll (option Item) * HttpStreamBytes :=
  if 0 <? len prefix then (process_prefix prefix, bytes)
  else
    let '(r, bytes) := poll_stream bytes in
    (raw_chunk r, bytes).

Section Readers.
Context `{Build}.

(** The answer, the stream and the content length that is left. *)
Definition read_with_content_length (prefix : Trailing) (bytes : HttpStreamBytes)
    (content_length : N) : poll (option Item) * HttpStreamBytes * N :=
  let prefix_len := len prefix in
  if 0 <? prefix_len then
    match usize_sub content_length prefix_len with
    | Ok content_length => (process_prefix prefix, bytes, content_length)
    | Err e => (Ready (Some (Err e)), bytes, content_length)
    | Panic => (Ready (Some Panic), bytes, content_length)
    end
  else if 0 <? content_length then
    match poll_stream bytes with
    | (Ready (Some (Ok chunk)), bytes) =>
        match usize_sub content_length (len chunk) with
        | Ok content_length =>
            (Ready (Some (
               expected ← usize_add (N.min content_length MAX_CONTENT_LENGTH) (len chunk);
               Ok (chunk, expected))), bytes, content_length)
        | Err e => (Ready (Some (Err e)), bytes, content_length)
        | Panic => (Ready (Some Panic), bytes, content_length)
        end
    | (r, bytes) => (raw_chunk r, bytes, content_length)
    end
  else (Ready None, bytes, content_length).

(** The loop over the lines behind the last chunk. The result, the stream and the
    headers; [fuel] bounds the number of lines. The cap is a copy. *)
Fixpoint read_trailers (fuel : nat) (bytes : HttpStreamBytes) (headers : gmap text text)
    (max_headers_size : option N) (trailing : Trailing)
    : option (poll (result unit) * HttpStreamBytes * gmap text text) :=
  match fuel with
  | O => None
  | S fuel' =>
      match read_line bytes max_headers_size HeadersOverflow trailing with
      | (Ready (Ok (trailer_line, trailing)), bytes) =>
          match shrink_cap max_headers_size trailer_line with
          | Ok max_headers_size =>
              match parse_header trailer_line with
              | Some (header, value) =>
                  read_trailers fuel' bytes (<[header := value]> headers) max_headers_size trailing
              | None => Some (Ready (Ok tt), bytes, headers)
              end
          | Err e => Some (Ready (Err e), bytes, headers)
          | Panic => Some (Ready Panic, bytes, headers)
          end
      | (Ready (Err e), bytes) => Some (Ready (Err e), bytes, headers)
      | (Ready Panic, bytes) => Some (Ready Panic, bytes, headers)
      | (Pending, bytes) => Some (Pending, bytes, headers)
      end
  end.

(** The size announced by a chunk-size line. *)
Definition chunk_size (length_line : text) : result N :=
  match length_line with
  | [] => Ok 0
  | _ =>
      let length :=
        match split_char (ch ";") length_line with
        | Some (before, _) => trim before
        | None => trim length_line
        end in
      ok_or (from_str_radix 16 usize_MAX length) MalformedChunkLength
  end.

(** The variables of [read_chunked] that outlive a call. *)
Record ChunkState : Type := mkChunkState {
  ck_headers : gmap text text;
  expecting_more_chunks : bool;
  chunk_length : N;
  content_length : N;
}.

(** The end of [read_chunked]: one chunk of the stream, whatever its size, counts
    as one byte of the chunk. *)
Definition read_chunk (bytes : HttpStreamBytes) (st : ChunkState)
    : poll (option Item) * HttpStreamBytes * ChunkState :=
  if 0 <? chunk_length st then
    let st := mkChunkState (ck_headers st) (expecting_more_chunks st) (chunk_length st - 1)
                (content_length st) in
    let '(r, bytes) := poll_stream bytes in
    (raw_chunk r, bytes, st)
  else (Ready None, bytes, st).

Definition read_chunked (fuel : nat) (prefix : Trailing) (bytes : HttpStreamBytes)
    (st : ChunkState) (max_trailing_headers_size : option N)
    : option (poll (option Item) * HttpStreamBytes * ChunkState) :=
  if negb (expecting_more_chunks st) && (chunk_length st =? 0) then Some (Ready None, bytes, st)
  else if chunk_length st =? 0 then
    match read_line bytes (Some 1024) MalformedChunkLength prefix with
    | (Ready (Ok (length_line, trailing)), bytes) =>
        match chunk_size length_line with
        | Ok incoming_length =>
            if incoming_length =? 0 then
              '(r, bytes, headers) ←
                read_trailers fuel bytes (ck_headers st) max_trailing_headers_size trailing;
              let st' := mkChunkState headers (expecting_more_chunks st) (chunk_length st)
                           (content_length st) in
              Some (match r with
                    | Ready (Ok _) =>
                        (Ready None, bytes,
                         mkChunkState
                           (delete (lit "transfer-encoding")
                              (<[lit "content-length" := dec (content_length st)]> headers))
                           false (chunk_length st) (content_length st))
                    | Ready (Err e) => (Ready (Some (Err e)), bytes, st')
                    | Ready Panic => (Ready (Some Panic), bytes, st')
                    | Pending => (Pending, bytes, st')
                    end)
            else
              match usize_add (content_length st) incoming_length with
              | Ok content_length =>
                  Some (read_chunk bytes (mkChunkState (ck_headers st) (expecting_more_chunks st)
                                            incoming_length content_length))
              | Err e => Some (Ready (Some (Err e)), bytes, st)
              | Panic =>
                  Some (Ready (Some Panic), bytes,
                        mkChunkState (ck_headers st) (expecting_more_chunks st)
                          incoming_length (content_length st))
              end
        | Err e => Some (Ready (Some (Err e)), bytes, st)
        | Panic => Some (Ready (Some Panic), bytes, st)
        end
    | (Ready (Err e), bytes) => Some (Ready (Some (Err e)), bytes, st)
    | (Ready Panic, bytes) => Some (Ready (Some Panic), bytes, st)
    | (Pending, bytes) => Some (Pending, bytes, st)
    end
  else Some (read_chunk bytes st).
End Readers.

Module ResponseLazy.
Record ResponseLazy : Type := mkResponseLazy {
  status_code : Z;
  reason_phrase : text;
  headers : gmap text text;
  url : text;
  stream : HttpStreamBytes;
  state : HttpStreamState;
  max_trailing_headers_size : option N;
  trailing_content : option Trailing;
}.

(** The same response after a call: its stream, headers and state are new, the
    bytes read ahead are used up. *)
Definition update (self : ResponseLazy) (s : HttpStreamBytes) (h : gmap text text)
    (st : HttpStreamState) : ResponseLazy :=
  mkResponseLazy (status_code self) (reason_phrase self) h (url self) s st
    (max_trailing_headers_size self) None.

(** [self.url = url]. *)
Definition set_url (self : ResponseLazy) (url : text) : ResponseLazy :=
  mkResponseLazy (status_code self) (reason_phrase self) (headers self) url (stream self)
    (state self) (max_trailing_headers_size self) (trailing_content self).

Section Lazy.
Context `{Build} `{HashOrder}.

Definition from_stream (s : HttpStreamBytes) (max_headers_size max_status_line_len : option N)
    : option (result ResponseLazy) :=
  '(r, s) ← read_metadata s max_headers_size max_status_line_len;
  Some (
    md ← r;
    let trailing_content :=
      if len (md_trailing_content md) =? 0 then None else Some (md_trailing_content md) in
    Ok (mkResponseLazy (md_status_code md) (md_reason_phrase md) (md_headers md) [] s
          (md_state md) (md_max_trailing_headers_size md) trailing_content)).

(** Enough fuel for the trailers: every line that is a header takes a byte. *)
Definition trailer_fuel (prefix : Trailing) (s : HttpStreamBytes) : nat :=
  S (length (input prefix s).1).

(** [Stream::poll_next]. *)
Definition poll_next (self : ResponseLazy) : option (poll (option Item) * ResponseLazy) :=
  let prefix := default [] (trailing_content self) in
  match state self with
  | EndOnClose =>
      let '(r, s) := read_until_closed prefix (stream self) in
      Some (r, update self s (headers self) EndOnClose)
  | ContentLength length =>
      let '(r, s, length) := read_with_content_length prefix (stream self) length in
      Some (r, update self s (headers self) (ContentLength length))
  | Chunked expecting_chunks length content_length =>
      '(r, s, st) ←
        read_chunked (trailer_fuel prefix (stream self)) prefix (stream self)
          (mkChunkState (headers self) expecting_chunks length content_length)
          (max_trailing_headers_size self);
      Some (r, update self s (ck_headers st)
                 (Chunked (expecting_more_chunks st) (chunk_length st) (Bodies.content_length st)))
  end.
End Lazy.

(** [AsyncRead::poll_read] on a buffer with [remaining] free bytes: the result,
    the bytes put into the buffer, and the response. [put_slice] panics when the
    slice does not fit. *)
Definition put_slice (remaining : N) (buf slice : bytes) : outcome io_error bytes :=
  if len slice <=? remaining - len buf then Ok (buf ++ slice) else Panic.

Definition poll_read (self : ResponseLazy) (remaining : N)
    : poll (io_result unit) * bytes * ResponseLazy :=
  match put_slice remaining [] (default [] (trailing_content self)) with
  | Ok buf =>
      let '(r, s) := poll_stream (stream self) in
      let self := update self s (headers self) (state self) in
      match r with
      | Ready (Some (Ok chunk)) =>
          let n := N.min (remaining - len buf) (len chunk) in
          match put_slice remaining buf (take (N.to_nat n) chunk) with
          | Ok buf => (Ready (Ok tt), buf, self)
          | Err e => (Ready (Err e), buf, self)
          | Panic => (Ready Panic, buf, self)
          end
      | Ready (Some (Err e)) => (Ready (Err e), buf, self)
      | Ready (Some Panic) => (Ready Panic, buf, self)
      | Ready None => (Ready (Ok tt), buf, self)
      | Pending => (Pending, buf, self)
      end
  | Err e => (Ready (Err e), [], self)
  | Panic => (Ready Panic, [], self)
  end.
End ResponseLazy.

Module Response.
Record Response : Type := mkResponse {
  status_code : Z;
  reason_phrase : text;
  headers : gmap text text;
  url : text;
  body : bytes;
}.

Section Create.
Context `{Build} `{HashOrder}.

(** [while let Some(chunk) = parent.next().await]: polled until the end; [fuel]
    bounds the number of polls. *)
Fixpoint load (fuel : nat) (parent : ResponseLazy.ResponseLazy) (body : bytes)
    : option (result (bytes * ResponseLazy.ResponseLazy)) :=
  match fuel with
  | O => None
  | S fuel' =>
      '(r, parent) ← ResponseLazy.poll_next parent;
      match r with
      | Pending => load fuel' parent body
      | Ready None => Some (Ok (body, parent))
      | Ready (Some (Ok (bytes, _))) => load fuel' parent (body ++ bytes)
      | Ready (Some (Err e)) => Some (Err e)
      | Ready (Some Panic) => Some Panic
      end
  end.

(** Every poll but the last takes an answer of the stream or the bytes read
    ahead. *)
Definition load_fuel (parent : ResponseLazy.ResponseLazy) : nat :=
  S (S (length (ResponseLazy.stream parent))).

Definition no_body (parent : ResponseLazy.ResponseLazy) (is_head : bool) : bool :=
  is_head || (ResponseLazy.status_code parent =? 204)%Z
  || (ResponseLazy.status_code parent =? 304)%Z.

Definition create (parent : ResponseLazy.ResponseLazy) (is_head : bool)
    : option (result Response) :=
  r ← (if no_body parent is_head then Some (Ok ([], parent))
       else load (load_fuel parent) parent []);
  Some (
    '(body, parent) ← r;
    Ok (mkResponse (ResponseLazy.status_code parent) (ResponseLazy.reason_phrase parent)
          (ResponseLazy.headers parent) (ResponseLazy.url parent) body)).
End Create.

Definition as_str (self : Response) : result text :=
  match from_utf8 (body self) with
  | Ok s => Ok s
  | Err err => Err (InvalidUtf8InBody err)
  | Panic => Panic
  end.

Definition as_bytes (self : Response) : bytes := body self.
Definition into_bytes (self : Response) : bytes := body self.

(** [from_str] is [serde_json::from_str] at the type asked for. *)
Definition json {T} (from_str : text -> outcome text T) (self : Response) : result T :=
  match as_str self with
  | Ok str =>
      match from_str str with
      | Ok json => Ok json
      | Err err => Err (SerdeJsonError err)
      | Panic => Panic
      end
  | Err _ => Err InvalidUtf8InResponse
  | Panic => Panic
  end.
End Response.
