(* ===== verification/Loading.v ===== *)
(** Theorems about [src/response.rs]: what each of the three body readers gives, that
    loading ends, and the round trip of a whole response. *)

From S2P Require Import Prelude.
From S2P Require Import Text.
From S2P Require Import Strings.
From S2P Require Import Numbers.
From S2P Require Import Errors.
From S2P Require Import Lines.
From S2P Require Import Metadata.
From S2P Require Import Bodies.

(** * Facts *)

Module BodyFacts.
Import ResponseLazy.

(** ** Progress: a call of [poll_next] ends, and the body ends *)

Lemma poll_stream_length s r s' :
  poll_stream s = (r, s') -> (r = Ready None /\ s' = []) \/ (length s' < length s)%nat.
Proof. destruct s as [|[] s]; intros [= <- <-]; [by left|right; simpl; lia..]. Qed.

Lemma read_line_loop_length max e st s r s' :
  read_line_loop max e st s = (r, s') ->
  (length s' <= length s)%nat /\ (r = Pending -> (length s' < length s)%nat).
Proof.
  revert st. induction s as [|[|chunk|err] s IH]; intros st; cbn [read_line_loop].
  - by intros [= <- <-].
  - intros [= <- <-]. simpl. lia.
  - destruct (match max with Some _ => _ | None => _ end).
    { intros [= <- <-]. simpl. split; [lia|done]. }
    destruct (new_line_flag _).
    + intros [? Hp]%IH. simpl. split; [lia|]. intros ?%Hp. lia.
    + intros [= <- <-]. simpl. split; [lia|done].
  - intros [= <- <-]. simpl. split; [lia|done].
Qed.

Lemma read_line_length s max e prefix r s' :
  read_line s max e prefix = (r, s') ->
  (length s' <= length s)%nat /\ (r = Pending -> (length s' < length s)%nat).
Proof.
  unfold read_line. destruct (new_line_flag _).
  - destruct (read_line_loop _ _ _ s) as [r0 s0] eqn:E. intros [= <- <-].
    apply read_line_loop_length in E as [? Hp]. split; [done|]. by destruct r0; auto.
  - by intros [= <- <-].
Qed.

(** A line that is not empty takes bytes from the input. *)
Lemma read_line_progress s max e prefix line tr s' :
  read_line s max e prefix = (Ready (Ok (line, tr)), s') -> line <> [] ->
  (length (input tr s').1 < length (input prefix s).1)%nat.
Proof.
  intros Hr Hne. pose proof (LineFacts.read_line_spec s max e prefix) as Hs. rewrite Hr in Hs.
  assert (line_spec (len (input prefix s).1 + 1) e (input prefix s)
          = LineFacts.uncapped_spec (input prefix s)) as Heq.
  { unfold line_spec, LineFacts.uncapped_spec, raw_line, LineFacts.uncapped_line.
    destruct (split_char LF (input prefix s).1) as [[a rest]|] eqn:E.
    - apply split_char_Some in E as [-> _]. autorewrite with len.
      by test_false (len a + (len rest + 1) + 1 <=? len a).
    - by test_false (len (input prefix s).1 + 1 <? len (input prefix s).1). }
  rewrite <- Heq in Hs. by eapply MetadataFacts.line_spec_progress in Hs.
Qed.

Section Progress.
Context `{Build} `{HashOrder}.

Lemma read_trailers_length fuel s h max tr r s' h' :
  read_trailers fuel s h max tr = Some (r, s', h') ->
  (length s' <= length s)%nat /\ (r = Pending -> (length s' < length s)%nat).
Proof.
  revert s h max tr. induction fuel as [|fuel IH]; intros s h max tr; [done|].
  cbn [read_trailers]. destruct (read_line s max HeadersOverflow tr) as [r0 s0] eqn:E.
  apply read_line_length in E as [Hle Hp].
  destruct r0 as [[[line tr']|e|]|].
  - destruct (shrink_cap max line).
    + destruct (parse_header line) as [[k v]|].
      * intros [? Hp']%IH. split; [lia|]. intros ?%Hp'. lia.
      * by intros [= <- <- <-].
    + by intros [= <- <- <-].
    + by intros [= <- <- <-].
  - by intros [= <- <- <-].
  - by intros [= <- <- <-].
  - intros [= <- <- <-]. auto.
Qed.

Lemma read_trailers_total fuel s h max tr :
  (length (input tr s).1 < fuel)%nat -> is_Some (read_trailers fuel s h max tr).
Proof.
  revert s h max tr. induction fuel as [|fuel IH]; intros s h max tr Hf; [lia|].
  cbn [read_trailers]. destruct (read_line s max HeadersOverflow tr) as [r0 s0] eqn:E.
  destruct r0 as [[[line tr']|e|]|]; [|by eexists..].
  destruct (shrink_cap max line); [|by eexists..].
  destruct (parse_header line) as [[k v]|] eqn:Eh; [|by eexists].
  apply IH. apply read_line_progress in E; [lia|]. by intros ->.
Qed.

(** The bytes read ahead count for one poll. *)
Definition measure (p : ResponseLazy) : nat :=
  length (stream p) + (match default [] (trailing_content p) with [] => 0 | _ => 1 end).

Definition continues (r : poll (option Item)) : bool :=
  match r with Pending => true | Ready (Some (Ok _)) => true | _ => false end.

Lemma raw_chunk_continues s r s' :
  poll_stream s = (r, s') -> continues (raw_chunk r) = true -> (length s' < length s)%nat.
Proof. intros [[-> _]|?]%poll_stream_length; [done|auto]. Qed.

Lemma read_chunked_progress fuel prefix s st max :
  (length (input prefix s).1 < fuel)%nat ->
  exists r s' st', read_chunked fuel prefix s st max = Some (r, s', st') /\
    (continues r = true -> (length s' < length s)%nat).
Proof.
  intros Hf. unfold read_chunked.
  assert (forall s st, exists r s' st', read_chunk s st = (r, s', st') /\
    (continues r = true -> (length s' < length s)%nat)) as Hck.
  { intros s0 st0. unfold read_chunk. destruct (_ <? _); [|by eexists _, _, _].
    destruct (poll_stream s0) as [r s'] eqn:E. eexists _, _, _. split; [done|].
    by apply raw_chunk_continues. }
  destruct (_ && _); [by eexists _, _, _|]. destruct (_ =? _).
  2: { destruct (Hck s st) as (r & s' & st' & -> & ?). by eexists _, _, _. }
  destruct (read_line s (Some 1024) MalformedChunkLength prefix) as [r0 s0] eqn:E.
  pose proof (read_line_length _ _ _ _ _ _ E) as [Hle Hp].
  destruct r0 as [[[line tr]|e|]|]; [|by eexists _, _, _..|].
  2: { eexists _, _, _. split; [done|]. auto. }
  destruct (chunk_size line) as [n|e|]; [|by eexists _, _, _..].
  destruct (n =? 0).
  - destruct (read_trailers_total fuel s0 (ck_headers st) max tr) as [[[r s'] h] Hr].
    { pose proof (LineFacts.read_line_spec s (Some 1024) MalformedChunkLength prefix) as Hs.
      rewrite E in Hs. unfold LineFacts.uncapped_spec, LineFacts.uncapped_line in Hs.
      destruct (split_char LF (input prefix s).1) as [[a rest]|] eqn:Es.
      - apply MetadataFacts.split_char_length in Es. cbn [mbind outcome_bind] in Hs.
        destruct (from_utf8 _); [|done..]. injection Hs as _ Hs1 Hs2. unfold input at 1. cbn [fst]. rewrite <- Hs1. lia.
      - destruct (input prefix s).2; [done|]. cbn [mbind outcome_bind] in Hs.
        destruct (from_utf8 _); [|done..]. injection Hs as _ Hs1 Hs2. unfold input at 1. cbn [fst]. rewrite <- Hs1. simpl. lia. }
    rewrite Hr. cbn [mbind option_bind]. apply read_trailers_length in Hr as [? Hp'].
    destruct r as [[]|]; eexists _, _, _; (split; [done|]); simpl; try done.
    intros _. specialize (Hp' eq_refl). lia.
  - destruct (usize_add _ n) as [c|e|]; [|by eexists _, _, _..].
    match goal with |- context [Some (read_chunk ?s0 ?st0)] =>
      destruct (Hck s0 st0) as (r & s' & st' & -> & Hc) end.
    eexists _, _, _. split; [done|]. intros ?%Hc. lia.
Qed.

Lemma poll_next_progress p :
  exists r p', poll_next p = Some (r, p') /\ trailing_content p' = None /\
    (continues r = true -> (measure p' < measure p)%nat).
Proof.
  unfold poll_next, measure. destruct (state p) as [|length|b k c].
  - unfold read_until_closed. destruct (default [] (trailing_content p)) as [|c prefix].
    + change (0 <? len []) with false.
      destruct (poll_stream (stream p)) as [r s] eqn:E. eexists _, _. split_and!; [done..|].
      intros Hc. apply (raw_chunk_continues _ _ _ E) in Hc. simpl. lia.
    + change (0 <? len (c :: prefix)) with true. eexists _, _. split_and!; [done..|]. simpl. lia.
  - unfold read_with_content_length. destruct (default [] (trailing_content p)) as [|c prefix].
    + change (0 <? len []) with false. destruct (0 <? length); [|by eexists _, _].
      destruct (poll_stream (stream p)) as [r s] eqn:E.
      pose proof (raw_chunk_continues _ _ _ E) as Hc.
      destruct r as [[[chunk| |]|]|];
        [|eexists _, _; split_and!; [done..|]; intros ?%Hc; simpl; lia..].
      specialize (Hc eq_refl).
      destruct (usize_sub length (len chunk)); eexists _, _; (split_and!; [done..|]); simpl; lia.
    + change (0 <? len (c :: prefix)) with true.
      destruct (usize_sub length (len (c :: prefix))); eexists _, _; (split_and!; [done..|]);
        simpl; [lia|done..].
  - destruct (read_chunked_progress (trailer_fuel (default [] (trailing_content p)) (stream p))
                (default [] (trailing_content p)) (stream p)
                (mkChunkState (headers p) b k c)
                (max_trailing_headers_size p)) as (r & s & st & -> & Hc).
    { unfold trailer_fuel. lia. }
    eexists _, _. split_and!; [done..|]. intros ?%Hc. simpl. lia.
Qed.

Lemma load_total fuel p body :
  (measure p < fuel)%nat -> is_Some (Response.load fuel p body).
Proof.
  revert p body. induction fuel as [|fuel IH]; intros p body Hf; [lia|].
  cbn [Response.load]. destruct (poll_next_progress p) as (r & p' & -> & _ & Hp).
  cbn [mbind option_bind].
  destruct r as [[[[chunk n]|e|]|]|]; [|by eexists..|]; apply IH; specialize (Hp eq_refl); lia.
Qed.

Lemma load_fuel_enough p : (measure p < Response.load_fuel p)%nat.
Proof. unfold measure, Response.load_fuel. destruct (default [] _); lia. Qed.

(** C28. Loading a response always comes to an end: with the fuel it is given,
    [Response::create] returns a response or an error or panics, whatever the
    server sends and however it is cut into pieces. *)
Theorem create_total p is_head :
  exists r, Response.create p is_head = Some r.
Proof.
  unfold Response.create. destruct (Response.no_body p is_head); [by eexists|].
  destruct (load_total (Response.load_fuel p) p [] (load_fuel_enough p)) as [r ->]. by eexists.
Qed.

(** No body is read for a HEAD request, nor behind the statuses 204 and 304,
    whatever the headers announce and the server sends. *)
Lemma create_without_body p is_head :
  is_head = true \/ status_code p = 204%Z \/ status_code p = 304%Z ->
  Response.create p is_head =
    Some (Ok (Response.mkResponse (status_code p) (reason_phrase p) (headers p) (url p) [])).
Proof.
  intros Hn. unfold Response.create.
  assert (Response.no_body p is_head = true) as ->; [|done].
  unfold Response.no_body. destruct Hn as [->|[-> | ->]]; [done|by destruct is_head..].
Qed.
End Progress.

Section Loading.
Context `{Build} `{HashOrder}.

(** A step of [load], once the answer of [poll_next] is known. *)
Lemma load_S fuel p body :
  Response.load (S fuel) p body =
    '(r, parent) ← poll_next p;
    match r with
    | Pending => Response.load fuel parent body
    | Ready None => Some (Ok (body, parent))
    | Ready (Some (Ok (bytes, _))) => Response.load fuel parent (body ++ bytes)
    | Ready (Some (Err e)) => Some (Err e)
    | Ready (Some Panic) => Some Panic
    end.
Proof. done. Qed.

(** Bytes read ahead that are none do not matter. *)
Lemma load_no_prefix fuel p body :
  default [] (trailing_content p) = [] ->
  Response.load fuel p body
  = Response.load fuel (update p (stream p) (headers p) (state p)) body.
Proof.
  intros Ht. destruct fuel as [|fuel]; [done|]. rewrite !load_S. f_equal.
  unfold poll_next. rewrite Ht. done.
Qed.

(** The bytes that are left, as a body: all of them, or the error they end in. *)
Definition rest_of (s : HttpStreamBytes) (body : bytes) (p : ResponseLazy)
    : result (bytes * ResponseLazy) :=
  match (flat s).2 with
  | None => Ok (body ++ (flat s).1, p)
  | Some err => Err (IoError err)
  end.

Lemma rest_of_chunk chunk s body p :
  rest_of (EvChunk chunk :: s) body p = rest_of s (body ++ chunk) p.
Proof. unfold rest_of. simpl. by rewrite app_assoc. Qed.

(** ** Bodies that end with the connection *)

Lemma load_end_on_close s fuel p h body :
  (length s < fuel)%nat ->
  Response.load fuel (update p s h EndOnClose) body
  = Some (rest_of s body (update p [] h EndOnClose)).
Proof.
  revert fuel body. induction s as [|[|chunk|err] s IH]; intros [|fuel] body Hf; simpl in Hf;
    try lia; rewrite load_S; cbn -[Response.load].
  - unfold rest_of. simpl. by rewrite app_nil_r.
  - apply IH. lia.
  - rewrite rest_of_chunk. apply IH. lia.
  - done.
Qed.

(** A body without a length is read to the end: it is the bytes read ahead and all
    that follow up to the close of the connection, and an error of the connection is
    handed on. *)
Lemma create_end_on_close p :
  state p = EndOnClose -> Response.no_body p false = false ->
  Response.create p false =
    Some (match (input (default [] (trailing_content p)) (stream p)) with
          | (bytes, None) =>
              Ok (Response.mkResponse (status_code p) (reason_phrase p) (headers p) (url p) bytes)
          | (_, Some err) => Err (IoError err)
          end).
Proof.
  intros Hst Hb. unfold Response.create, Response.load_fuel. rewrite Hb.
  destruct (default [] (trailing_content p)) as [|c prefix] eqn:Et.
  - rewrite load_no_prefix, Hst, load_end_on_close by (done || lia).
    unfold rest_of, input. by destruct (flat (stream p)).2.
  - rewrite load_S. unfold poll_next, read_until_closed, input. rewrite Hst, Et.
    change (0 <? len (c :: prefix)) with true. cbn -[Response.load flat].
    rewrite load_end_on_close by lia. unfold rest_of. by destruct (flat (stream p)).2.
Qed.

(** ** Bodies with a length *)

(** What becomes of a body of announced length [n] when the input is [inp]. *)
Definition length_result (inp : bytes * option io_error) (n : N) (r : result bytes) : Prop :=
  match r with
  | Ok b => b = take (N.to_nat n) inp.1 /\ (n <= len inp.1 \/ inp.2 = None)
  | Err e => len inp.1 < n /\ exists err, inp.2 = Some err /\ e = IoError err
  | Panic => n < len inp.1
  end.

(** A result of [load] that keeps everything but the body, the stream and the
    state. *)
Definition loaded (p : ResponseLazy) (h : gmap text text)
    (r : option (result (bytes * ResponseLazy))) (q : result bytes -> Prop) : Prop :=
  match r with
  | Some (Ok (b, p')) => q (Ok b) /\ exists s st, p' = update p s h st
  | Some (Err e) => q (Err e)
  | Some Panic => q Panic
  | None => False
  end.

Lemma loaded_impl p h r (q q' : result bytes -> Prop) :
  loaded p h r q -> (forall x, q x -> q' x) -> loaded p h r q'.
Proof.
  intros Hl Hq. destruct r as [[[b p']|e|]|]; simpl in *; [|by auto..].
  destruct Hl as [? ?]. auto.
Qed.

Lemma take_app_len (a b : bytes) n :
  len a <= n -> take (N.to_nat n) (a ++ b) = a ++ take (N.to_nat (n - len a)) b.
Proof.
  intros Hle. rewrite take_app, take_ge by (unfold len in *; lia). do 2 f_equal.
  unfold len in *. lia.
Qed.

(** One more piece of a body within its length. *)
Lemma length_result_app a inp n r :
  len a <= n ->
  length_result inp (n - len a) r ->
  length_result (a ++ inp.1, inp.2) n ((fun b => a ++ b) <$> r).
Proof.
  intros Hle. destruct r as [b|e|]; simpl; autorewrite with len.
  - intros [-> Hn]. rewrite take_app_len by done. split; [done|]. destruct Hn; [left; lia|by right].
  - intros (? & ?). split; [lia|done].
  - lia.
Qed.

Lemma load_content_length s fuel p h n body :
  (length s < fuel)%nat -> n <= usize_MAX ->
  (overflow_checks = true \/ len (flat s).1 <= n) ->
  loaded p h (Response.load fuel (update p s h (ContentLength n)) body)
    (fun r => exists r', length_result (flat s) n r' /\ r = (fun b => body ++ b) <$> r').
Proof.
  revert fuel n body. induction s as [|ev s IH]; intros [|fuel] n body Hf Hn Hover; simpl in Hf;
    try lia; rewrite load_S; unfold poll_next, read_with_content_length; cbn -[Response.load flat];
    change (0 <? len (@nil N)) with false; cbv iota;
    (destruct (0 <? n) eqn:E0; btest;
     [|assert (n = 0) as -> by lia; simpl; split; [|by eexists _, _];
       exists (Ok []); simpl; rewrite app_nil_r; repeat split; left; lia]).
  { split; [|by eexists _, _]. exists (Ok []). simpl. by rewrite app_nil_r, take_nil; auto. }
  destruct ev as [|chunk|err]; cbn -[Response.load flat].
  - apply IH; [lia|done..].
  - cbn [flat fst snd] in Hover |- *. autorewrite with len in Hover.
    destruct (N.leb_spec (len chunk) n) as [Hle|Hgt].
    + rewrite usize_sub_fits by done. cbn -[Response.load flat].
      rewrite usize_add_fits by (unfold MAX_CONTENT_LENGTH; lia). cbn -[Response.load flat].
      eapply loaded_impl; [apply IH; [lia|lia|destruct Hover; [by left|right; lia]]|].
      intros r (r' & Hr' & ->). exists ((fun b => chunk ++ b) <$> r').
      split; [by apply length_result_app|]. destruct r'; simpl; by rewrite ?app_assoc.
    + destruct Hover as [Hc|]; [|lia]. rewrite usize_sub_underflow_panics by done. simpl.
      exists Panic. simpl. split; [autorewrite with len; lia|done].
  - exists (Err (IoError err)). simpl. split; [|done]. split; [done|by eexists].
Qed.

(** The same with the bytes read ahead in front. *)
Lemma load_content_length_prefix p n :
  state p = ContentLength n -> n <= usize_MAX ->
  let inp := input (default [] (trailing_content p)) (stream p) in
  (overflow_checks = true \/ len inp.1 <= n) ->
  loaded p (headers p) (Response.load (Response.load_fuel p) p []) (length_result inp n).
Proof.
  intros Hst Hn inp Hover. unfold Response.load_fuel, inp, input in *.
  destruct (default [] (trailing_content p)) as [|c prefix] eqn:Et.
  - rewrite load_no_prefix, Hst by done.
    eapply loaded_impl; [apply load_content_length; [lia|done|done]|].
    intros r (r' & Hr & ->). simpl. rewrite <- surjective_pairing. by destruct r'.
  - rewrite load_S. unfold poll_next, read_with_content_length. rewrite Hst, Et.
    change (0 <? len (c :: prefix)) with true. cbn -[Response.load flat len usize_sub].
    cbn [fst] in Hover. rewrite len_app in Hover.
    destruct (N.leb_spec (len (c :: prefix)) n) as [Hle|Hgt].
    + rewrite usize_sub_fits by done. cbn -[Response.load flat len].
      eapply loaded_impl; [apply load_content_length; [lia|lia|destruct Hover; [by left|right; lia]]|].
      intros r (r' & Hr & ->).
      exact (length_result_app (c :: prefix) (flat (stream p)) n r' Hle Hr).
    + destruct Hover as [Hc|]; [|lia]. rewrite usize_sub_underflow_panics by done.
      simpl. autorewrite with len in *. lia.
Qed.

Lemma create_loaded p (q : result bytes -> Prop) :
  Response.no_body p false = false ->
  loaded p (headers p) (Response.load (Response.load_fuel p) p []) q ->
  match Response.create p false with
  | Some (Ok r) =>
      q (Ok (Response.body r)) /\ Response.status_code r = status_code p /\
      Response.reason_phrase r = reason_phrase p /\ Response.headers r = headers p /\
      Response.url r = url p
  | Some (Err e) => q (Err e)
  | Some Panic => q Panic
  | None => False
  end.
Proof.
  intros Hb Hl. unfold Response.create. rewrite Hb.
  destruct (Response.load _ p []) as [[[b p']|e|]|]; [|done..]. simpl in *.
  by destruct Hl as [? (s & st & ->)].
Qed.

(** C14. A body of announced length [n], for a response that is to have one: when
    the server sends at most [n] bytes, or the build checks for overflow, the body
    is the first [n] bytes, and nothing beyond. Exactly [n] bytes are always
    accepted, in any pieces. Fewer bytes before an error of the connection report
    that error; fewer bytes before its close are accepted as they are. A panic
    happens only when the server sends more. *)
Theorem content_length_body p n :
  let inp := input (default [] (trailing_content p)) (stream p) in
  state p = ContentLength n -> n <= usize_MAX -> Response.no_body p false = false ->
  overflow_checks = true \/ len inp.1 <= n ->
  match Response.create p false with
  | Some (Ok r) =>
      Response.body r = take (N.to_nat n) inp.1 /\ (n <= len inp.1 \/ inp.2 = None) /\
      Response.status_code r = status_code p /\ Response.headers r = headers p
  | Some (Err e) => len inp.1 < n /\ exists err, inp.2 = Some err /\ e = IoError err
  | Some Panic => n < len inp.1
  | None => False
  end.
Proof.
  intros inp Hst Hn Hb Hover.
  pose proof (create_loaded p _ Hb (load_content_length_prefix p n Hst Hn Hover)) as Hc.
  destruct (Response.create p false) as [[r|e|]|]; [|done..].
  by destruct Hc as ([? ?] & ? & _ & ? & _).
Qed.

(** ** More than was announced *)

(** The pieces in which a connection brings its bytes. *)
Fixpoint pieces (s : HttpStreamBytes) : list bytes :=
  match s with
  | [] => []
  | EvPending :: s => pieces s
  | EvChunk chunk :: s => chunk :: pieces s
  | EvError _ :: _ => []
  end.

(** One of the pieces ends [n] bytes behind the head; [prefix] came with the head. *)
Definition cut_at (prefix : bytes) (s : HttpStreamBytes) (n : N) : Prop :=
  exists before after, pieces s = before ++ after /\ len (prefix ++ mjoin before) = n.

Lemma flat_pieces s : (flat s).1 = mjoin (pieces s).
Proof. induction s as [|[|chunk|err] s IH]; simpl; by rewrite ?IH. Qed.

Lemma cut_at_here s : cut_at [] s 0.
Proof. by exists [], (pieces s). Qed.

Lemma cut_at_behind prefix s n : cut_at [] s n -> cut_at prefix s (len prefix + n).
Proof.
  intros (before & after & Hs & Hn). exists before, after. split; [done|].
  by rewrite len_app, <- Hn.
Qed.

Lemma cut_at_chunk chunk s n : cut_at chunk s n -> cut_at [] (EvChunk chunk :: s) n.
Proof.
  intros (before & after & Hs & Hn). exists (chunk :: before), after. split; [|done].
  simpl. by rewrite Hs.
Qed.

Lemma load_done fuel p s h body :
  Response.load (S fuel) (update p s h (ContentLength 0)) body
  = Some (Ok (body, update p s h (ContentLength 0))).
Proof. done. Qed.

(** Where a piece ends with the body, reading stops. *)
Lemma load_cut s fuel p h n body before after :
  (length s < fuel)%nat -> n <= usize_MAX ->
  pieces s = before ++ after -> len (mjoin before) = n ->
  exists s', Response.load fuel (update p s h (ContentLength n)) body
             = Some (Ok (body ++ mjoin before, update p s' h (ContentLength 0))).
Proof.
  revert fuel n body before. induction s as [|ev s IH];
    intros [|fuel] n body before Hf Hn Hs Hlen; simpl in Hf; try lia;
    (destruct (decide (n = 0)) as [->|Hn0];
     [apply len_0_inv in Hlen; rewrite load_done, Hlen, app_nil_r; by eexists|]).
  { destruct before; [|done]. by subst n. }
  rewrite load_S. unfold poll_next, read_with_content_length. cbn -[Response.load flat].
  change (0 <? len (@nil N)) with false. test_true (0 <? n).
  destruct ev as [|chunk|err]; cbn -[Response.load flat].
  - eapply IH; [lia|done..].
  - destruct before as [|b before]; [by subst n|]. simpl in Hs. injection Hs as <- Hs.
    simpl in Hlen. rewrite len_app in Hlen. rewrite usize_sub_fits by lia.
    cbn -[Response.load flat]. rewrite usize_add_fits by (unfold MAX_CONTENT_LENGTH; lia).
    cbn -[Response.load flat]. rewrite app_assoc. apply (IH fuel _ _ before); [lia|lia|done|lia].
  - destruct before; [|done]. by subst n.
Qed.

(** A body whose rest is at least as long as what still comes. *)
Lemma load_short s fuel p h n body :
  (length s < fuel)%nat -> n <= usize_MAX -> len (flat s).1 < n ->
  loaded p h (Response.load fuel (update p s h (ContentLength n)) body)
    (fun r => r = match (flat s).2 with
                  | None => Ok (body ++ (flat s).1)
                  | Some err => Err (IoError err)
                  end).
Proof.
  intros Hf Hn Hlt.
  eapply loaded_impl; [apply load_content_length; [done|done|right; lia]|].
  intros r (r' & Hr & ->). destruct r' as [b|e|]; simpl in Hr |- *.
  - destruct Hr as [-> [?|Hend]]; [lia|]. rewrite Hend, take_ge; [done|]. unfold len in *. lia.
  - destruct Hr as (_ & err & Herr & ->). by rewrite Herr.
  - lia.
Qed.

(** What becomes of a body when a piece crosses its end, [inp] being all that comes. *)
Definition crossing_result (inp : bytes * option io_error) : result bytes :=
  if overflow_checks then Panic
  else match inp.2 with None => Ok inp.1 | Some err => Err (IoError err) end.

(** The piece that crosses: the length that is left underflows. *)
Lemma load_crossed s fuel p h n chunk body :
  (length s < fuel)%nat -> n < len chunk -> len chunk + len (flat s).1 <= usize_MAX ->
  loaded p h
    (match usize_sub n (len chunk) with
     | Ok m => Response.load fuel (update p s h (ContentLength m)) (body ++ chunk)
     | Err e => Some (Err e)
     | Panic => Some Panic
     end)
    (fun r => r = (fun b => body ++ b) <$> crossing_result (chunk ++ (flat s).1, (flat s).2)).
Proof.
  intros Hf Hlt Hmax. unfold crossing_result, usize_MAX in *.
  destruct overflow_checks eqn:Hc; [by rewrite usize_sub_underflow_panics by done|].
  rewrite usize_sub_underflow_wraps by (done || (unfold usize_MAX; lia)).
  eapply loaded_impl; [apply load_short; unfold usize_MAX; [done|lia|lia]|].
  intros r ->. simpl. destruct (flat s).2; [done|]. simpl. by rewrite app_assoc.
Qed.

Lemma usize_sub_add_unchecked n a b c m :
  usize_sub (E:=Error) n a = Ok m -> n < a -> exists x, usize_add (E:=Error) b c = Ok x.
Proof.
  intros Hs Hlt. revert Hs. unfold usize_sub, usize_add. test_false (a <=? n).
  destruct overflow_checks; [done|]. intros _. destruct (_ <=? _); by eexists.
Qed.

(** Where no piece ends with the body, and more comes, one crosses its end. *)
Lemma load_uncut s fuel p h n body :
  (length s < fuel)%nat -> n < len (flat s).1 -> len (flat s).1 <= usize_MAX ->
  ~ cut_at [] s n ->
  loaded p h (Response.load fuel (update p s h (ContentLength n)) body)
    (fun r => r = (fun b => body ++ b) <$> crossing_result (flat s)).
Proof.
  revert fuel n body. induction s as [|ev s IH]; intros [|fuel] n body Hf Hn Hmax Hcut;
    simpl in Hf; try lia; (destruct (decide (n = 0)) as [->|Hn0]; 
      [by destruct Hcut; apply cut_at_here|]).
  { unfold len in Hn. simpl in Hn. lia. }
  rewrite load_S. unfold poll_next, read_with_content_length. cbn -[Response.load flat].
  change (0 <? len (@nil N)) with false. test_true (0 <? n).
  destruct ev as [|chunk|err]; cbn -[Response.load];
    [apply IH; [lia|done..]| |unfold len in Hn; simpl in Hn; lia].
  cbn [flat fst snd] in Hn, Hmax. rewrite len_app in Hn, Hmax.
  destruct (N.leb_spec (len chunk) n) as [Hle|Hgt].
  - rewrite usize_sub_fits by done. cbn -[Response.load].
    rewrite usize_add_fits by (unfold MAX_CONTENT_LENGTH; lia). cbn -[Response.load].
    eapply loaded_impl; [apply IH; [lia|lia|lia|]|].
    + intros Hc. apply Hcut, cut_at_chunk. replace n with (len chunk + (n - len chunk)) by lia.
      by apply cut_at_behind.
    + intros r ->. unfold crossing_result. destruct overflow_checks; [done|].
      simpl. destruct (flat s) as [b [e|]]; [done|]. simpl. by rewrite app_assoc.
  - pose proof (load_crossed s fuel p h n chunk body ltac:(lia) Hgt ltac:(lia)) as Hx.
    destruct (usize_sub n (len chunk)) as [m|e|] eqn:E; [|exact Hx..]. cbn -[Response.load].
    destruct (usize_sub_add_unchecked _ _ (N.min m MAX_CONTENT_LENGTH) (len chunk) _ E Hgt)
      as [x ->]. exact Hx.
Qed.

Lemma cut_take prefix s n before after :
  pieces s = before ++ after -> len (prefix ++ mjoin before) = n ->
  prefix ++ mjoin before = take (N.to_nat n) (input prefix s).1.
Proof.
  intros Hs <-. unfold input. simpl. rewrite flat_pieces, Hs, join_app, app_assoc.
  unfold len. by rewrite Nat2N.id, take_app_length.
Qed.

Lemma load_more p n :
  let prefix := default [] (trailing_content p) in
  let inp := input prefix (stream p) in
  state p = ContentLength n -> n < len inp.1 -> len inp.1 <= usize_MAX ->
  (cut_at prefix (stream p) n ->
     loaded p (headers p) (Response.load (Response.load_fuel p) p [])
       (fun r => r = Ok (take (N.to_nat n) inp.1))) /\
  (~ cut_at prefix (stream p) n ->
     loaded p (headers p) (Response.load (Response.load_fuel p) p [])
       (fun r => r = crossing_result inp)).
Proof.
  intros prefix inp Hst Hlt Hmax. unfold Response.load_fuel.
  destruct prefix as [|c pre] eqn:Et; subst prefix.
  - rewrite load_no_prefix, Hst by done. unfold inp, input in *. simpl in Hlt, Hmax. split; intros Hcut.
    + destruct Hcut as (before & after & Hs & Hn).
      destruct (load_cut (stream p) (S (S (length (stream p)))) p (headers p) n [] before after)
        as [s' ->]; [lia|lia|done|done|].
      split; [|by eexists _, _]. f_equal. exact (cut_take [] (stream p) n before after Hs Hn).
    + eapply loaded_impl; [apply load_uncut; [lia|done..]|]. intros r ->.
      simpl. rewrite <- surjective_pairing. by destruct (crossing_result _).
  - rewrite load_S. unfold poll_next, read_with_content_length. rewrite Hst, Et.
    change (0 <? len (c :: pre)) with true. set (prefix := c :: pre) in *.
    unfold inp, input in *. cbn [fst snd] in Hlt, Hmax. rewrite len_app in Hlt, Hmax.
    cbn -[Response.load flat].
    destruct (N.leb_spec (len prefix) n) as [Hle|Hgt].
    + rewrite usize_sub_fits by done. cbn -[Response.load flat]. split.
      * intros (before & after & Hs & Hn). pose proof Hn as Hn'. rewrite len_app in Hn.
        destruct (load_cut (stream p) (S (length (stream p))) p (headers p) (n - len prefix)
          prefix before after) as [s' ->]; [lia|lia|done|lia|].
        split; [|by eexists _, _]. f_equal.
        exact (cut_take prefix (stream p) n before after Hs Hn').
      * intros Hcut. eapply loaded_impl; [apply load_uncut; [lia|lia|lia|]|].
        { intros Hc. apply Hcut. replace n with (len prefix + (n - len prefix)) by lia.
          by apply cut_at_behind. }
        intros r ->. unfold crossing_result. destruct overflow_checks; [done|]. simpl.
        by destruct (flat (stream p)).2.
    + split.
      * intros (before & after & _ & Hn). rewrite len_app in Hn. lia.
      * intros _. pose proof (load_crossed (stream p) (S (length (stream p))) p (headers p) n
          prefix [] ltac:(lia) Hgt Hmax) as Hx.
        eapply loaded_impl; [destruct (usize_sub n (len prefix)); exact Hx|].
        intros r ->. by destruct (crossing_result _).
Qed.

(** C39. A server that sends more than it announced. When one of the pieces in which the
    bytes come, those read with the head being the first, ends where the announced
    length does, reading stops there, and the body is what was announced. Otherwise a
    piece crosses that length, and the subtraction from the length that is left
    underflows: built with overflow checks the client panics; without, the length that
    is left becomes huge, and the body is everything the server sends until it closes,
    or the error that the connection ends in. *)
Theorem over_delivery p n :
  let prefix := default [] (trailing_content p) in
  let inp := input prefix (stream p) in
  state p = ContentLength n -> Response.no_body p false = false ->
  n < len inp.1 -> len inp.1 <= usize_MAX ->
  (cut_at prefix (stream p) n ->
     exists r, Response.create p false = Some (Ok r) /\
       Response.body r = take (N.to_nat n) inp.1) /\
  (~ cut_at prefix (stream p) n -> overflow_checks = true ->
     Response.create p false = Some Panic) /\
  (~ cut_at prefix (stream p) n -> overflow_checks = false ->
     match inp.2 with
     | None => exists r, Response.create p false = Some (Ok r) /\ Response.body r = inp.1
     | Some err => Response.create p false = Some (Err (IoError err))
     end).
Proof.
  intros prefix inp Hst Hb Hlt Hmax. destruct (load_more p n Hst Hlt Hmax) as [Hcut Huncut].
  split_and!; intros Hc; [apply Hcut in Hc|apply Huncut in Hc..];
    apply create_loaded in Hc; try done; [|intros Hch..].
  - destruct (Response.create p false) as [[r|e|]|]; [|done..].
    destruct Hc as [[= Hr] _]. by exists r.
  - unfold crossing_result in Hc. rewrite Hch in Hc.
    destruct (Response.create p false) as [[r|e|]|]; [by destruct Hc|done..].
  - unfold crossing_result in Hc. rewrite Hch in Hc. fold prefix inp in Hc.
    destruct inp.2 as [err|]; destruct (Response.create p false) as [[r|e|]|]; try done;
      [by destruct Hc|by injection Hc as ->|]. destruct Hc as [[= Hr] _]. by exists r.
Qed.

(** ** Chunked bodies *)

(** The reader finds a whole line in the bytes it has. *)
Lemma read_line_ahead s max e line rest :
  is_text line -> LF ∉ line ->
  read_line s max e (MetadataFacts.line_bytes line ++ rest) = (Ready (Ok (line, rest)), s).
Proof.
  intros Ht Hlf. unfold read_line, initial_line, MetadataFacts.line_bytes.
  replace ((utf8 line ++ CRLF) ++ rest) with ((utf8 line ++ [CR]) ++ LF :: rest)
    by by rewrite <- !app_assoc.
  rewrite LineFacts.push_bytes_line, split_char_app.
  2: { rewrite not_elem_of_app, list_elem_of_singleton. split; [by apply utf8_not_in|done]. }
  unfold finish_line. simpl. by rewrite LineFacts.pop_cr_snoc, from_utf8_utf8.
Qed.

(** The same when the line comes with the next chunk. *)
Lemma read_line_chunk s m e chunk :
  0 < m -> LF ∈ chunk ->
  read_line (EvChunk chunk :: s) (Some m) e [] = read_line s (Some m) e chunk.
Proof.
  intros Hm Hlf. unfold read_line, initial_line. cbn [push_bytes foldl new_line_flag read_line_loop].
  cbn [ls_bytes]. change (len []) with 0. test_false (m <=? 0). cbv iota.
  rewrite LineFacts.push_bytes_line. destruct (split_char LF chunk) as [[a r]|] eqn:E; [done|].
  by apply split_char_None_inv in E.
Qed.

(** The bytes a reader has at hand: read ahead, or the next chunk. *)
Definition at_hand (p : ResponseLazy) (b : bytes) (s : HttpStreamBytes) : Prop :=
  trailing_content p = Some b /\ stream p = s \/
  default [] (trailing_content p) = [] /\ stream p = EvChunk b :: s.

Lemma read_line_at_hand p line rest s m e :
  is_text line -> LF ∉ line -> 0 < m ->
  at_hand p (MetadataFacts.line_bytes line ++ rest) s ->
  read_line (stream p) (Some m) e (default [] (trailing_content p))
  = (Ready (Ok (line, rest)), s).
Proof.
  intros Ht Hlf Hm [[-> ->]|[-> ->]]; [by apply read_line_ahead|].
  rewrite read_line_chunk; [by apply read_line_ahead|done|].
  unfold MetadataFacts.line_bytes, CRLF. rewrite !elem_of_app, !elem_of_cons. auto 6.
Qed.

(** Behind the size of a chunk the rest of the bytes at hand is dropped. *)
Lemma chunk_size_step p c line rest s n :
  state p = Chunked true 0 c -> is_text line -> LF ∉ line ->
  at_hand p (MetadataFacts.line_bytes line ++ rest) s ->
  chunk_size line = Ok n -> 0 < n -> c + n <= usize_MAX ->
  poll_next p = poll_next (update p s (headers p) (Chunked true n (c + n))).
Proof.
  intros Hst Ht Hlf Hh Hn Hpos Hc. unfold poll_next. rewrite Hst. unfold read_chunked.
  cbn [expecting_more_chunks chunk_length negb andb state update]. change (0 =? 0) with true.
  test_false (n =? 0). cbv iota. erewrite read_line_at_hand; [|done..|exact Hh]. rewrite Hn.
  test_false (n =? 0). cbn [content_length]. by rewrite usize_add_fits.
Qed.

(** While a chunk of [k] bytes is read, [k] answers of the stream are handed on as
    they are. *)
Lemma load_chunk s fuel p h k c body :
  (length s < fuel)%nat -> len s < k ->
  exists st, Response.load fuel (update p s h (Chunked true k c)) body
             = Some (rest_of s body (update p [] h st)).
Proof.
  revert fuel k body. induction s as [|ev s IH]; intros [|fuel] k body Hf Hk; simpl in Hf; try lia;
    rewrite load_S; unfold poll_next, read_chunked;
    cbn [state update expecting_more_chunks chunk_length negb andb];
    test_false (k =? 0); unfold read_chunk; cbn [chunk_length]; test_true (0 <? k).
  { eexists. unfold rest_of. simpl. by rewrite app_nil_r. }
  rewrite len_cons in Hk. destruct ev as [|chunk|err]; cbn -[Response.load flat].
  - apply IH; lia.
  - destruct (IH fuel (k - 1) (body ++ chunk)) as [st Hst]; [lia..|]. exists st.
    by rewrite rest_of_chunk.
  - by exists EndOnClose.
Qed.

(** C25. A chunked body is not decoded. When the size of a chunk has been read,
    what came with it in the same read, [data], is lost; then as many reads as the
    chunk has bytes are handed on raw, so that a connection that closes before is
    taken to hold nothing but the body: the framing of the chunks is in it, and
    the headers still say chunked. *)
Theorem chunked_body_is_raw p c line data s n :
  state p = Chunked true 0 c -> Response.no_body p false = false ->
  is_text line -> LF ∉ line -> at_hand p (MetadataFacts.line_bytes line ++ data) s ->
  chunk_size line = Ok n -> c + n <= usize_MAX -> len s < n -> (flat s).2 = None ->
  Response.create p false =
    Some (Ok (Response.mkResponse (status_code p) (reason_phrase p) (headers p) (url p)
                (flat s).1)).
Proof.
  intros Hst Hb Ht Hlf Hh Hn Hc Hs Hend. unfold Response.create, Response.load_fuel.
  rewrite Hb, load_S, (chunk_size_step p c line data s n) by (done || lia). rewrite <- load_S.
  destruct (load_chunk s (S (S (length (stream p)))) p (headers p) n (c + n) []) as [st ->];
    [|done|].
  - destruct Hh as [[_ ->]|[_ ->]]; simpl; lia.
  - unfold rest_of. by rewrite Hend.
Qed.

(** One read for every byte of a chunk. *)
Definition one_byte_reads (data : bytes) : HttpStreamBytes := (fun b => EvChunk [b]) <$> data.

Lemma load_one_byte_reads data fuel s p h k c body :
  Response.load (length data + fuel)
    (update p (one_byte_reads data ++ s) h (Chunked true (len data + k) c)) body
  = Response.load fuel (update p s h (Chunked true k c)) (body ++ data).
Proof.
  revert body. induction data as [|b data IH]; intros body; [by rewrite app_nil_r|].
  change (length (b :: data) + fuel)%nat with (S (length data + fuel)). rewrite load_S.
  unfold poll_next, read_chunked.
  cbn [state update expecting_more_chunks chunk_length negb andb].
  rewrite len_cons. test_false (len data + 1 + k =? 0).
  unfold read_chunk. cbn [chunk_length]. test_true (0 <? len data + 1 + k).
  replace (len data + 1 + k - 1) with (len data + k) by lia.
  cbn -[Response.load len]. etransitivity; [apply IH|]. by rewrite <- app_assoc.
Qed.

(** The headers once all chunks have been read. *)
Definition dechunked (h : gmap text text) (c : N) : gmap text text :=
  delete (lit "transfer-encoding") (<[lit "content-length" := dec c]> h).

(** The poll that reads a last chunk and its trailers. *)
Lemma last_chunk_step p c line tr s s' h :
  state p = Chunked true 0 c ->
  read_line (stream p) (Some 1024) MalformedChunkLength (default [] (trailing_content p))
  = (Ready (Ok (line, tr)), s) ->
  chunk_size line = Ok 0 ->
  read_trailers (trailer_fuel (default [] (trailing_content p)) (stream p)) s (headers p)
    (max_trailing_headers_size p) tr = Some (Ready (Ok tt), s', h) ->
  poll_next p = Some (Ready None, update p s' (dechunked h c) (Chunked false 0 c)).
Proof.
  intros Hst Hline Hn Htr. unfold poll_next. rewrite Hst. unfold read_chunked.
  cbn [expecting_more_chunks chunk_length negb andb]. change (0 =? 0) with true. cbv iota.
  rewrite Hline, Hn. change (0 =? 0) with true. cbv iota. cbn [ck_headers]. by rewrite Htr.
Qed.

(** What a chunk of [data] ends with, and the last chunk behind it. *)
Definition last_chunk : bytes := CRLF ++ lit "0" ++ CRLF ++ CRLF.

Lemma last_chunk_poll p c :
  state p = Chunked true 0 c -> default [] (trailing_content p) = [] ->
  stream p = [EvChunk last_chunk] \/ stream p = [] ->
  (forall m, max_trailing_headers_size p = Some m -> 3 <= m) ->
  poll_next p = Some (Ready None, update p [] (dechunked (headers p) c) (Chunked false 0 c)).
Proof.
  intros Hst Ht [Hs|Hs] Hcap.
  2: { apply (last_chunk_step p c [] [] []); [done|by rewrite Ht, Hs|done|].
       rewrite Ht, Hs. unfold trailer_fuel. cbn [read_trailers].
       change (read_line [] _ _ _)
         with (@Ready (result (text * Trailing)) (Ok ([], [])), @nil event).
       cbv iota. destruct (max_trailing_headers_size p) as [m|]; [|done].
       unfold shrink_cap. change (usize_add (str_len []) 2) with (@Ok Error N 2).
       cbn [mbind outcome_bind]. rewrite usize_sub_fits; [done|].
       specialize (Hcap m eq_refl). lia. }
  apply (last_chunk_step p c [] (lit "0" ++ CRLF ++ CRLF) []); [done|by rewrite Ht, Hs|done|].
  rewrite Ht, Hs. unfold trailer_fuel. cbn [read_trailers].
  change (read_line [] _ _ _)
    with (@Ready (result (text * Trailing)) (Ok (lit "0", CRLF)), @nil event).
  cbv iota. destruct (max_trailing_headers_size p) as [m|]; [|done].
  unfold shrink_cap. change (usize_add (str_len (lit "0")) 2) with (@Ok Error N 3).
  cbn [mbind outcome_bind]. rewrite usize_sub_fits by auto. done.
Qed.

(** What the reader of chunks does decode: a body sent as one chunk, when its
    size, every one of its bytes, and the end come in reads of their own. The body
    is the data, and the headers afterwards announce its length instead of the
    encoding. And a connection that closes instead of sending the last chunk makes
    no difference: the response is taken for complete. *)
Lemma one_chunk_in_single_bytes p line data ending :
  state p = Chunked true 0 0 -> Response.no_body p false = false ->
  is_text line -> LF ∉ line -> chunk_size line = Ok (len data) -> data <> [] ->
  len data <= usize_MAX ->
  (forall m, max_trailing_headers_size p = Some m -> 3 <= m) ->
  at_hand p (MetadataFacts.line_bytes line) (one_byte_reads data ++ ending) ->
  ending = [EvChunk last_chunk] \/ ending = [] ->
  Response.create p false =
    Some (Ok (Response.mkResponse (status_code p) (reason_phrase p)
                (dechunked (headers p) (len data)) (url p) data)).
Proof.
  intros Hst Hb Ht Hlf Hn Hne Hmax Hcap Hh Hend. unfold Response.create, Response.load_fuel.
  assert (0 < len data) by (destruct data; [done|rewrite len_cons; lia]).
  rewrite <- (app_nil_r (MetadataFacts.line_bytes line)) in Hh.
  rewrite Hb, load_S, (chunk_size_step p 0 line [] _ (len data) Hst Ht Hlf Hh) by (done || lia).
  rewrite <- load_S, N.add_0_l.
  assert (exists fuel, S (S (length (stream p))) = (length data + S (S fuel))%nat) as [fuel ->].
  { exists (length (stream p) - length data)%nat.
    destruct Hh as [[_ ->]|[_ ->]]; unfold one_byte_reads; simpl;
      rewrite length_app, length_fmap; simpl; lia. }
  rewrite <- (N.add_0_r (len data)) at 1.
  rewrite load_one_byte_reads, load_S, (last_chunk_poll _ (len data)) by done. done.
Qed.

(** The cap on trailers, when there is one, covers all their lines. *)
Definition within_cap (max : option N) (n : N) : Prop :=
  match max with Some m => n <= m <= usize_MAX | None => True end.

Lemma read_trailers_lines hs fuel s h max rest :
  (length hs < fuel)%nat -> Forall MetadataFacts.header_wf hs ->
  within_cap max (MetadataFacts.headers_size hs + 2) ->
  read_trailers fuel s h max (MetadataFacts.headers_bytes hs ++ rest)
  = Some (Ready (Ok tt), s, MetadataFacts.insert_headers h hs).
Proof.
  revert fuel h max. induction hs as [|kv hs IH]; intros [|fuel] h max Hf Hwf Hmax; simpl in Hf;
    try lia; cbn [read_trailers].
  - change (MetadataFacts.headers_bytes [] ++ rest) with (MetadataFacts.line_bytes [] ++ rest).
    rewrite read_line_ahead by (constructor || apply not_elem_of_nil). cbv iota.
    rewrite MetadataFacts.shrink_cap_fits; [done|]. by destruct max.
  - inversion_clear Hwf as [|? ? Hkv Hwf'].
    destruct (MetadataFacts.header_text_wf kv Hkv) as (Ht & Hlf & _).
    unfold MetadataFacts.headers_bytes. rewrite bind_cons, <- !app_assoc.
    rewrite read_line_ahead by done. cbn [MetadataFacts.headers_size] in Hmax.
    rewrite MetadataFacts.shrink_cap_fits by (destruct max; simpl in *; [lia|done]).
    unfold MetadataFacts.header_text at 1. destruct Hkv as [(_ & Hk & _) _].
    rewrite MetadataFacts.parse_header_of by done.
    rewrite (app_assoc (hs ≫= _)). fold (MetadataFacts.headers_bytes hs).
    apply IH; [lia|done|]. destruct max; simpl in *; [lia|done].
Qed.

(** The trailers behind the last chunk, when they are at hand and within the
    cap, are added to the headers, which then announce the number of bytes counted
    instead of the encoding; the body ends. *)
Lemma trailers_are_headers p c line hs s :
  state p = Chunked true 0 c -> is_text line -> LF ∉ line -> chunk_size line = Ok 0 ->
  Forall MetadataFacts.header_wf hs ->
  within_cap (max_trailing_headers_size p) (MetadataFacts.headers_size hs + 2) ->
  at_hand p (MetadataFacts.line_bytes line ++ MetadataFacts.headers_bytes hs) s ->
  poll_next p =
    Some (Ready None,
          update p s (dechunked (MetadataFacts.insert_headers (headers p) hs) c)
            (Chunked false 0 c)).
Proof.
  intros Hst Ht Hlf Hn Hwf Hcap Hh.
  eapply last_chunk_step; [done|by eapply read_line_at_hand|done|].
  rewrite <- (app_nil_r (MetadataFacts.headers_bytes hs)).
  apply read_trailers_lines; [|done..]. unfold trailer_fuel.
  pose proof (MetadataFacts.headers_bytes_length hs) as Hlen.
  destruct Hh as [[-> ->]|[-> ->]]; unfold input; simpl; rewrite !length_app; lia.
Qed.

(** The cap on trailers does not hold for lines at hand: they are accepted at
    any length, and the subtraction from the cap underflows. Built with overflow
    checks the client panics; without, the cap is now nearly the largest [usize]. *)
Lemma trailers_break_cap fuel s h m line rest k v :
  is_text line -> LF ∉ line -> parse_header line = Some (k, v) ->
  str_len line + 2 <= usize_MAX -> m < str_len line + 2 ->
  (overflow_checks = true ->
     read_trailers (S fuel) s h (Some m) (MetadataFacts.line_bytes line ++ rest)
     = Some (Ready Panic, s, h)) /\
  (overflow_checks = false ->
     read_trailers (S fuel) s h (Some m) (MetadataFacts.line_bytes line ++ rest)
     = read_trailers fuel s (<[k := v]> h) (Some (m + 2 ^ 64 - (str_len line + 2))) rest).
Proof.
  intros Ht Hlf Hp Hsz Hm. cbn [read_trailers]. rewrite read_line_ahead by done.
  unfold shrink_cap. rewrite usize_add_fits by done. cbn [mbind outcome_bind].
  split; intros Hc.
  - by rewrite usize_sub_underflow_panics by (done || lia).
  - rewrite usize_sub_underflow_wraps by (done || lia). cbn [mbind outcome_bind]. by rewrite Hp.
Qed.

(** A wait in the middle of a chunk-size line loses the bytes of it that were
    read: those at hand, and those of the chunk before the wait. The next poll
    begins with what comes after. *)
Lemma waiting_loses_bytes p c b s :
  state p = Chunked true 0 c -> LF ∉ b -> at_hand p b (EvPending :: s) ->
  poll_next p = Some (Pending, update p s (headers p) (Chunked true 0 c)).
Proof.
  intros Hst Hb Hh. unfold poll_next. rewrite Hst. unfold read_chunked.
  cbn [expecting_more_chunks chunk_length negb andb]. change (0 =? 0) with true. cbv iota.
  assert (read_line (stream p) (Some 1024) MalformedChunkLength (default [] (trailing_content p))
          = (Pending, s)) as ->; [|done].
  unfold read_line, initial_line.
  destruct Hh as [[-> ->]|[-> ->]]; cbn [default from_option id read_line_loop push_bytes foldl];
    cbn [new_line_flag ls_bytes]; rewrite LineFacts.push_bytes_line, split_char_None by done; done.
Qed.

(** ** The response as an [AsyncRead] *)

(** Reading a response through [AsyncRead] neither decodes nor delimits the
    body: whatever its state, a read gives the bytes read ahead and then the next
    chunk of the connection. What does not fit into the buffer is lost: bytes read
    ahead that do not fit make the read panic, and a chunk is cut. *)
Lemma async_read_truncates p remaining chunk s :
  let prefix := default [] (trailing_content p) in
  stream p = EvChunk chunk :: s ->
  (remaining < len prefix -> poll_read p remaining = (Ready Panic, [], p)) /\
  (len prefix <= remaining ->
     poll_read p remaining =
       (Ready (Ok tt), prefix ++ take (N.to_nat (remaining - len prefix)) chunk,
        update p s (headers p) (state p))).
Proof.
  intros prefix Hs. unfold poll_read, put_slice. change (len (@nil N)) with 0.
  rewrite N.sub_0_r. fold prefix. split; intros Hle; [by test_false (len prefix <=? remaining)|].
  test_true (len prefix <=? remaining). rewrite Hs. cbn [poll_stream app].
  assert (take (N.to_nat (N.min (remaining - len prefix) (len chunk))) chunk
          = take (N.to_nat (remaining - len prefix)) chunk) as ->.
  { destruct (N.le_ge_cases (remaining - len prefix) (len chunk)) as [Hc|Hc].
    - by rewrite N.min_l.
    - rewrite N.min_r, !take_ge by (done || (unfold len in *; lia)). done. }
  rewrite (proj2 (N.leb_le _ _)); [done|]. unfold len in *. rewrite length_take. lia.
Qed.

(** ** A whole response *)

(** A response as a server sends it: the bytes, and the conditions under which they
    say what is meant. [framed] is the length the headers announce; without one the
    end of the connection is the end of the body. *)
Definition response_bytes (version : text) (code : N) (reason : text) (hs : list (text * text))
    (body : bytes) : bytes :=
  MetadataFacts.head_bytes (MetadataFacts.status_line version code reason) hs ++ body.

Record head_wf (version : text) (code : N) (reason : text) (hs : list (text * text)) : Prop := {
  hw_text : is_text (MetadataFacts.status_line version code reason);
  hw_line : LF ∉ MetadataFacts.status_line version code reason;
  hw_version : Forall (fun c => c <> ch " ") version;
  hw_code : code < 2 ^ 31;
  hw_line_size : str_len (MetadataFacts.status_line version code reason) + 2 <= usize_MAX;
  hw_headers : Forall MetadataFacts.header_wf hs;
  hw_headers_size : MetadataFacts.headers_size hs + 2 <= usize_MAX;
}.

Record head_sent (version : text) (code : N) (reason : text) (hs : list (text * text))
    (framed : option N) : Prop := {
  hs_wf : head_wf version code reason hs;
  hs_framed : MetadataFacts.framed_by (MetadataFacts.insert_headers ∅ hs) framed;
}.

Record body_sent (code : N) (body : bytes) (err : option io_error) (framed : option N) : Prop := {
  bs_has_body : code <> 204 /\ code <> 304;
  bs_size : len body <= usize_MAX;
  bs_end : match framed with Some n => n = len body | None => err = None end;
}.

Definition well_sent (version : text) (code : N) (reason : text) (hs : list (text * text))
    (body : bytes) (err : option io_error) (framed : option N) : Prop :=
  head_sent version code reason hs framed /\ body_sent code body err framed.

(** The caps leave room for the status line and for the headers. *)
Definition head_fits (max_headers max_status : option N) (line : text) (hs : list (text * text))
    : Prop :=
  MetadataFacts.fits max_status (str_len line + 2) = true /\
  MetadataFacts.fits max_headers (MetadataFacts.headers_size hs + 2) = true /\
  (match max_headers with Some m => m <= usize_MAX | None => True end).

(** What becomes of a head: it is refused by a cap or for its length, or says how the
    body is read. *)
Definition head_result (max_headers max_status : option N) (line : text) (hs : list (text * text))
    (f : MetadataFacts.Framing) : result HttpStreamState :=
  if negb (MetadataFacts.fits max_status (str_len line + 2)) then Err StatusLineOverflow
  else if negb (MetadataFacts.fits max_headers (MetadataFacts.headers_size hs + 2))
  then Err HeadersOverflow
  else MetadataFacts.framing_result f.

(** The lazy response that is read from a head. *)
Record head_is (p : ResponseLazy) (code : N) (reason : text) (hs : list (text * text))
    (st : HttpStreamState) (body : bytes) (err : option io_error) : Prop := {
  hi_code : status_code p = Z.of_N code;
  hi_reason : reason_phrase p = reason;
  hi_headers : headers p = MetadataFacts.insert_headers ∅ hs;
  hi_state : state p = st;
  hi_input : input (default [] (trailing_content p)) (stream p) = (body, err);
}.

Lemma read_head_result s version code reason hs body err max_headers max_status f :
  flat s = (response_bytes version code reason hs body, err) ->
  head_wf version code reason hs ->
  MetadataFacts.framed_as (MetadataFacts.insert_headers ∅ hs) f ->
  (match max_headers with Some m => m <= usize_MAX | None => True end) ->
  match head_result max_headers max_status (MetadataFacts.status_line version code reason) hs f with
  | Ok st =>
      exists p, from_stream s max_headers max_status = Some (Ok p) /\
        head_is p code reason hs st body err /\ url p = []
  | Err e => from_stream s max_headers max_status = Some (Err e)
  | Panic => False
  end.
Proof.
  intros Hs [Ht Hlf Hv Hc Hsz Hwf Hhs] Hfr Hmax. unfold response_bytes in Hs.
  pose proof (MetadataFacts.read_metadata_spec s max_headers max_status) as Hspec. rewrite Hs in Hspec.
  rewrite MetadataFacts.metadata_spec_head, MetadataFacts.parse_status_line_of in Hspec by done.
  unfold from_stream, head_result.
  destruct (read_metadata s max_headers max_status) as [[r s']|]; [|done].
  cbn in Hspec. injection Hspec as Hspec.
  destruct (MetadataFacts.fits max_status _); cbn [negb] in Hspec |- *; [|by destruct r; simplify_eq/=].
  destruct (MetadataFacts.fits max_headers _); cbn [negb] in Hspec |- *; [|by destruct r; simplify_eq/=].
  rewrite <- (MetadataFacts.framed_as_scan _ _ Hfr).
  destruct (scan_headers _ _ _) as [[ck cl]|e|] eqn:Escan; cbn -[body_state input] in Hspec |- *.
  - destruct r as [md| |]; [|done..]. cbn -[body_state input] in Hspec.
    injection Hspec as Hcode Hreason Hheaders Hstate _ Hin Herr.
    eexists. split; [done|]. split; [|done]. split; try done. cbn.
    destruct (N.eqb_spec (len (md_trailing_content md)) 0) as [Hz|]; cbn;
      [|by rewrite Hin, Herr].
    apply len_0_inv in Hz. rewrite Hz in Hin. cbn in Hin. by rewrite Hin, Herr.
  - destruct r; simplify_eq/=. done.
  - pose proof (MetadataFacts.scan_headers_result (hm_iter (MetadataFacts.insert_headers ∅ hs)) false
      None) as Hn. by rewrite Escan in Hn.
Qed.

Lemma read_head s version code reason hs body err max_headers max_status framed :
  flat s = (response_bytes version code reason hs body, err) ->
  head_sent version code reason hs framed ->
  head_fits max_headers max_status (MetadataFacts.status_line version code reason) hs ->
  exists p,
    from_stream s max_headers max_status = Some (Ok p) /\
    head_is p code reason hs
      (match framed with Some n => ContentLength n | None => EndOnClose end) body err /\
    url p = [].
Proof.
  intros Hs [Hwf Hfr] (Hst & Hfit & Hmax).
  pose proof (read_head_result s version code reason hs body err max_headers max_status
    (match framed with Some n => MetadataFacts.ByLength n | None => MetadataFacts.ToTheEnd end)
    Hs Hwf) as Hr.
  unfold head_result in Hr. rewrite Hst, Hfit in Hr. cbn [negb] in Hr.
  destruct framed; by apply Hr.
Qed.

(** What becomes of a body that is no longer than announced: all of it counts, unless
    the connection fails before it is complete. *)
Definition body_result (st : HttpStreamState) (body : bytes) (err : option io_error)
    : result bytes :=
  match err with
  | Some e =>
      if match st with ContentLength n => n <=? len body | _ => false end then Ok body
      else Err (IoError e)
  | None => Ok body
  end.

Definition body_within (st : HttpStreamState) (body : bytes) : Prop :=
  match st with
  | ContentLength n => len body <= n /\ n <= usize_MAX
  | EndOnClose => True
  | Chunked _ _ _ => False
  end.

(** A body that is not longer than announced, as [Response::create] loads it. *)
Lemma create_within p body err :
  input (default [] (trailing_content p)) (stream p) = (body, err) ->
  Response.no_body p false = false -> body_within (state p) body ->
  Response.create p false =
    Some (body ← body_result (state p) body err;
          Ok (Response.mkResponse (status_code p) (reason_phrase p) (headers p) (url p) body)).
Proof.
  intros Hin Hnb Hw. destruct (state p) as [|n|] eqn:Hst; [| |done].
  - rewrite (create_end_on_close p Hst Hnb), Hin. by destruct err.
  - destruct Hw as [Hle Hn].
    pose proof (create_loaded p _ Hnb (load_content_length_prefix p n Hst Hn
      ltac:(right; by rewrite Hin))) as Hcr.
    rewrite Hin in Hcr. destruct (Response.create p false) as [[r|e|]|]; simpl in Hcr; [| |lia|done].
    + destruct r as [sc rp rh ru rb]. simpl in Hcr. destruct Hcr as ([-> He] & -> & -> & -> & ->).
      rewrite take_ge by (unfold len in *; lia). unfold body_result.
      destruct err as [e|]; [|done]. destruct He as [He|]; [|done]. by test_true (n <=? len body).
    + destruct Hcr as (Hlt & err' & -> & ->). simpl. by test_false (n <=? len body).
Qed.

(** The same behind a head. *)
Lemma create_body_result p code reason hs st body err :
  head_is p code reason hs st body err -> code <> 204 /\ code <> 304 -> body_within st body ->
  Response.create p false =
    Some (body ← body_result st body err;
          Ok (Response.mkResponse (status_code p) (reason_phrase p) (headers p) (url p) body)).
Proof.
  intros [Hcode _ _ <- Hin] [H204 H304] Hw. apply create_within; [done| |done].
  unfold Response.no_body. rewrite Hcode.
  by rewrite (proj2 (Z.eqb_neq _ _)), (proj2 (Z.eqb_neq _ _)) by lia.
Qed.

Lemma create_framed p code reason hs body err framed :
  head_is p code reason hs (match framed with Some n => ContentLength n | None => EndOnClose end)
    body err ->
  body_sent code body err framed ->
  Response.create p false =
    Some (Ok (Response.mkResponse (status_code p) (reason_phrase p) (headers p) (url p) body)).
Proof.
  intros Hp [Hb Hsz Hend]. rewrite (create_body_result p _ _ _ _ _ _ Hp Hb).
  - unfold body_result. destruct framed as [n|]; subst; [|done]. destruct err; [|done].
    by rewrite N.leb_refl.
  - destruct framed as [n|]; [|done]. subst. by split.
Qed.

(** C3. What a server sends is what the client returns: a response whose lines end
    in [\r\n], whose headers announce no chunks and either the length of the body
    or none, is read, in any pieces and with any delays, as its status code,
    reason phrase, headers (with lower-case names, the last of equal ones) and
    body, when the caps leave room for the head. *)
Theorem response_round_trip s version code reason hs body err max_headers max_status framed :
  flat s = (response_bytes version code reason hs body, err) ->
  well_sent version code reason hs body err framed ->
  head_fits max_headers max_status (MetadataFacts.status_line version code reason) hs ->
  exists p,
    from_stream s max_headers max_status = Some (Ok p) /\
    Response.create p false =
      Some (Ok (Response.mkResponse (Z.of_N code) reason (MetadataFacts.insert_headers ∅ hs)
                  [] body)).
Proof.
  intros Hs [Hh Hb] Hf. edestruct read_head as (p & Hp & Hi & Hu); [done..|].
  exists p. split; [done|]. rewrite (create_framed p _ _ _ _ _ _ Hi Hb), Hu.
  by destruct Hi as [-> -> -> _ _].
Qed.
End Loading.
End BodyFacts.

(** * Examples: the theorems at concrete responses *)

Module BodyExamples.
Import ResponseLazy BodyFacts.
#[local] Existing Instance canonical_order.

Definition lazy (st : HttpStreamState) (ahead : option Trailing) (s : HttpStreamBytes)
    : ResponseLazy :=
  mkResponseLazy 200 (lit "OK") ∅ [] s st None ahead.

Definition loaded_as (b : bytes) : Response.Response :=
  Response.mkResponse 200 (lit "OK") ∅ [] b.

(** Five bytes announced, three sent before the close: they are the body. *)
Lemma content_length_body_witness :
  match @Response.create default_build
          (lazy (ContentLength 5) (Some (lit "he")) [EvChunk (lit "l")]) false with
  | Some (Ok r) =>
      Response.body r = lit "hel" /\ (5 <= 3 \/ @None io_error = None) /\
      Response.status_code r = 200%Z /\ Response.headers r = ∅
  | Some (Err e) => 3 < 5 /\ exists err, None = Some err /\ e = IoError err
  | Some Panic => 5 < 3
  | None => False
  end.
Proof.
  apply (@content_length_body default_build
           (lazy (ContentLength 5) (Some (lit "he")) [EvChunk (lit "l")]) 5);
    [reflexivity|by_compute|reflexivity|by left].
Defined.

(** Five bytes where two were announced, in a build that does not check for overflow:
    [he] in a piece of its own, and not. *)
Definition cut_hello : ResponseLazy :=
  lazy (ContentLength 2) (Some (lit "h")) [EvChunk (lit "e"); EvChunk (lit "llo")].
Definition uncut_hello : ResponseLazy :=
  lazy (ContentLength 2) (Some (lit "h")) [EvChunk (lit "el"); EvChunk (lit "lo")].

Lemma uncut_hello_crosses :
  ~ cut_at (default [] (trailing_content uncut_hello)) (stream uncut_hello) 2.
Proof.
  intros (before & after & Hs & Hn). cbn in Hs.
  destruct before as [|b1 [|b2 [|]]]; simplify_eq/=; by vm_compute in Hn.
Qed.

Lemma over_delivery_witness :
  (exists r, @Response.create full_build cut_hello false = Some (Ok r) /\
     Response.body r = lit "he") /\
  (exists r, @Response.create full_build uncut_hello false = Some (Ok r) /\
     Response.body r = lit "hello") /\
  @Response.create default_build uncut_hello false = Some Panic.
Proof.
  split_and!.
  - apply (@over_delivery full_build cut_hello 2); [reflexivity|reflexivity|by_compute..|].
    by exists [lit "e"], [lit "llo"].
  - apply (@over_delivery full_build uncut_hello 2);
      [reflexivity|reflexivity|by_compute..|apply uncut_hello_crosses|reflexivity].
  - apply (@over_delivery default_build uncut_hello 2);
      [reflexivity|reflexivity|by_compute..|apply uncut_hello_crosses|reflexivity].
Defined.

(** The body [hello] in one chunk, sent in two pieces: what the client returns is the
    end of the framing. *)
Lemma chunked_body_is_raw_witness :
  @Response.create default_build
    (lazy (Chunked true 0 0) None
       [EvChunk (lit "5" ++ CRLF ++ lit "hello" ++ CRLF); EvChunk (lit "0" ++ CRLF ++ CRLF)]) false
  = Some (Ok (loaded_as (lit "0" ++ CRLF ++ CRLF))).
Proof.
  apply (@chunked_body_is_raw default_build
           (lazy (Chunked true 0 0) None
              [EvChunk (lit "5" ++ CRLF ++ lit "hello" ++ CRLF); EvChunk (lit "0" ++ CRLF ++ CRLF)])
           0 (lit "5") (lit "hello" ++ CRLF) [EvChunk (lit "0" ++ CRLF ++ CRLF)] 5);
    [reflexivity|reflexivity|by_compute|by_compute|by right|reflexivity|by_compute|by_compute
    |reflexivity].
Defined.

(** Two bytes and a close: nobody misses the last chunk. *)
Lemma one_chunk_in_single_bytes_witness :
  @Response.create default_build
    (lazy (Chunked true 0 0) (Some (lit "2;ext" ++ CRLF)) [EvChunk (lit "h"); EvChunk (lit "i")])
    false
  = Some (Ok (Response.mkResponse 200 (lit "OK") (dechunked ∅ 2) [] (lit "hi"))).
Proof.
  apply (@one_chunk_in_single_bytes default_build
           (lazy (Chunked true 0 0) (Some (lit "2;ext" ++ CRLF))
              [EvChunk (lit "h"); EvChunk (lit "i")]) (lit "2;ext") (lit "hi") []);
    [reflexivity|reflexivity|by_compute|by_compute|reflexivity|done|by_compute|done|by left
    |by right].
Defined.

(** The last chunk of seven bytes, with a trailer. *)
Definition last_lazy : ResponseLazy :=
  lazy (Chunked true 0 7) (Some (lit "0" ++ CRLF ++ lit "Sum: 1" ++ CRLF ++ CRLF)) [].

Lemma trailers_are_headers_witness :
  @poll_next default_build last_lazy
  = Some (Ready None,
          update last_lazy []
            (dechunked (MetadataFacts.insert_headers ∅ [(lit "Sum", lit "1")]) 7)
            (Chunked false 0 7)).
Proof.
  apply (@trailers_are_headers default_build last_lazy 7 (lit "0") [(lit "Sum", lit "1")] []);
    [reflexivity|by_compute|by_compute|reflexivity
    |apply MetadataFacts.headers_ok; vm_compute; reflexivity|exact I|by left].
Defined.

(** The size [5] is lost when its line end comes late. *)
Lemma waiting_loses_bytes_witness :
  @poll_next default_build
    (lazy (Chunked true 0 0) (Some (lit "5")) [EvPending; EvChunk (CRLF ++ lit "hello")])
  = Some (Pending,
          update (lazy (Chunked true 0 0) (Some (lit "5")) [EvPending; EvChunk (CRLF ++ lit "hello")])
            [EvChunk (CRLF ++ lit "hello")] ∅ (Chunked true 0 0)).
Proof.
  apply (@waiting_loses_bytes default_build
           (lazy (Chunked true 0 0) (Some (lit "5")) [EvPending; EvChunk (CRLF ++ lit "hello")])
           0 (lit "5") [EvChunk (CRLF ++ lit "hello")]); [reflexivity|by_compute|by left].
Defined.

Lemma async_read_truncates_witness :
  (4 < 2 -> poll_read (lazy EndOnClose (Some (lit "he")) [EvChunk (lit "llo!")]) 4
            = (Ready Panic, [], lazy EndOnClose (Some (lit "he")) [EvChunk (lit "llo!")])) /\
  (2 <= 4 -> poll_read (lazy EndOnClose (Some (lit "he")) [EvChunk (lit "llo!")]) 4
             = (Ready (Ok tt), lit "hell", lazy EndOnClose None [])).
Proof.
  apply (async_read_truncates (lazy EndOnClose (Some (lit "he")) [EvChunk (lit "llo!")]) 4
           (lit "llo!") []). reflexivity.
Defined.

(** A response with its length, in three pieces. *)
Definition hello_stream : HttpStreamBytes :=
  [EvChunk (lit "HTTP/1.1 200 OK" ++ CRLF ++ lit "Content-Le"); EvPending;
   EvChunk (lit "ngth: 5" ++ CRLF ++ CRLF ++ lit "he"); EvPending; EvChunk (lit "llo")].

Lemma hello_framed :
  MetadataFacts.framed_by
    (MetadataFacts.insert_headers ∅ [(lit "Content-Length", lit "5")]) (Some 5).
Proof.
  change (MetadataFacts.insert_headers ∅ [(lit "Content-Length", lit "5")])
    with ({[lit "content-length" := lit "5"]} : gmap text text).
  split_and!.
  - intros k v [<- <-]%lookup_singleton_Some [Hc _]. vm_compute in Hc. done.
  - exists (lit "5"). split; [apply lookup_singleton_eq|reflexivity].
  - by intros k v [<- _]%lookup_singleton_Some _.
Qed.

Lemma hello_sent :
  well_sent (lit "HTTP/1.1") 200 (lit "OK") [(lit "Content-Length", lit "5")] (lit "hello") None
    (Some 5).
Proof.
  split; [split; [split|apply hello_framed]|split; [done|by_compute|reflexivity]];
    first [apply MetadataFacts.headers_ok; vm_compute; reflexivity|by_compute].
Qed.

Lemma response_round_trip_witness :
  exists p,
    @from_stream default_build canonical_order hello_stream (Some 30) None = Some (Ok p) /\
    @Response.create default_build p false =
      Some (Ok (Response.mkResponse 200 (lit "OK")
                  (MetadataFacts.insert_headers ∅ [(lit "Content-Length", lit "5")]) []
                  (lit "hello"))).
Proof.
  apply (@response_round_trip default_build canonical_order hello_stream (lit "HTTP/1.1") 200
           (lit "OK") [(lit "Content-Length", lit "5")] (lit "hello") None (Some 30) None (Some 5));
    [vm_compute; reflexivity|apply hello_sent|].
  split_and!; [reflexivity|reflexivity|by_compute].
Defined.
End BodyExamples.
