(* ===== verification/Chunks.v ===== *)
(** Chunked bodies on a connection that delivers its bytes one at a time, without
    waits: there the reader of chunks ([src/response.rs], [read_chunked]) depends on
    the bytes only. [dechunk] is what it makes of them, and shows which encoding the
    code decodes: one without the line ends behind the chunks. *)

From S2P Require Import Prelude.
From S2P Require Import Text.
From S2P Require Import Strings.
From S2P Require Import Numbers.
From S2P Require Import Errors.
From S2P Require Import Lines.
From S2P Require Import Metadata.
From S2P Require Import Bodies.
From S2P Require Import Loading.

Module Chunks.
Import ResponseLazy BodyFacts.

(** * The specification *)

(** A connection that gives every byte in a read of its own. *)
Definition singles (inp : bytes * option io_error) : HttpStreamBytes :=
  one_byte_reads inp.1 ++ match inp.2 with Some err => [EvError err] | None => [] end.

(** A line of a byte string, with a cap or without. *)
Definition bounded_line (max : option N) (e : Error) (inp : bytes * option io_error)
    : result (bytes * (bytes * option io_error)) :=
  match max with
  | Some m => raw_line m e inp
  | None => LineFacts.uncapped_line inp
  end.

Definition bounded_spec (max : option N) (e : Error) (inp : bytes * option io_error)
    : result (text * (bytes * option io_error)) :=
  '(raw, rest) ← bounded_line max e inp;
  match from_utf8 raw with
  | Ok line => Ok (line, rest)
  | _ => Err InvalidUtf8InResponse
  end.

Section Spec.
Context `{Build}.

(** The headers with the trailers among them: the lines up to the first that is no
    header. *)
Fixpoint trailers_spec (fuel : nat) (inp : bytes * option io_error) (max : option N)
    (headers : gmap text text) : option (result (gmap text text)) :=
  match fuel with
  | O => None
  | S fuel' =>
      match bounded_spec max HeadersOverflow inp with
      | Ok (line, inp) =>
          match shrink_cap max line with
          | Ok max =>
              match parse_header line with
              | Some (header, value) => trailers_spec fuel' inp max (<[header := value]> headers)
              | None => Some (Ok headers)
              end
          | Err e => Some (Err e)
          | Panic => Some Panic
          end
      | Err e => Some (Err e)
      | Panic => Some Panic
      end
  end.

(** The body and the headers: chunk by chunk, each a size line and that many bytes,
    and nothing behind them. [counted] is the sum of the sizes so far. A chunk that is
    cut off by the close of the connection ends the body as it is. *)
Fixpoint dechunk (fuel : nat) (inp : bytes * option io_error) (max : option N)
    (headers : gmap text text) (counted : N) : option (result (bytes * gmap text text)) :=
  match fuel with
  | O => None
  | S fuel' =>
      match bounded_spec (Some 1024) MalformedChunkLength inp with
      | Ok (line, rest) =>
          match chunk_size line with
          | Ok n =>
              if n =? 0 then
                r ← trailers_spec (S (length inp.1)) rest max headers;
                Some (headers ← r; Ok ([], dechunked headers counted))
              else
                match usize_add counted n with
                | Ok counted =>
                    if len rest.1 <? n then
                      Some (match rest.2 with
                            | None => Ok (rest.1, headers)
                            | Some err => Err (IoError err)
                            end)
                    else
                      r ← dechunk fuel' (drop (N.to_nat n) rest.1, rest.2) max headers counted;
                      Some ('(body, headers) ← r; Ok (take (N.to_nat n) rest.1 ++ body, headers))
                | Err e => Some (Err e)
                | Panic => Some Panic
                end
          | Err e => Some (Err e)
          | Panic => Some Panic
          end
      | Err e => Some (Err e)
      | Panic => Some Panic
      end
  end.

(** Every chunk but the last takes a byte. *)
Definition dechunk_all (inp : bytes * option io_error) (max : option N)
    (headers : gmap text text) (counted : N) : option (result (bytes * gmap text text)) :=
  dechunk (S (length inp.1)) inp max headers counted.

(** What is read of a body; there always is a result ([dechunk_total]). *)
Definition decoded (inp : bytes * option io_error) (max : option N) (headers : gmap text text)
    : result (bytes * gmap text text) :=
  default Panic (dechunk_all inp max headers 0).

Definition with_body (p : ResponseLazy) (r : result (bytes * gmap text text))
    : result Response.Response :=
  '(body, headers) ← r;
  Ok (Response.mkResponse (status_code p) (reason_phrase p) headers (url p) body).
End Spec.

(** * Lines *)

Lemma flat_one_byte_reads data s : flat (one_byte_reads data ++ s) = (data ++ (flat s).1, (flat s).2).
Proof.
  induction data as [|b data IH]; simpl; [by rewrite <- surjective_pairing|].
  by rewrite IH.
Qed.

Lemma flat_singles inp : flat (singles inp) = inp.
Proof.
  unfold singles. rewrite flat_one_byte_reads. destruct inp as [b [err|]]; simpl;
    by rewrite app_nil_r.
Qed.

(** The cap is reached, and a byte is still to come. *)
Lemma bounded_line_over m e b c l err :
  LF ∉ b -> m <= len b -> bounded_line (Some m) e (b ++ c :: l, err) = Err e.
Proof.
  intros Hb Hm. unfold bounded_line, raw_line. cbn [fst snd].
  rewrite LineFacts.split_char_app_l by done.
  destruct (split_char LF (c :: l)) as [[a r]|]; cbn [fmap option_fmap option_map fst snd];
    autorewrite with len.
  - by test_true (m <=? len b + len a).
  - by test_true (m <? len b + (len l + 1)).
Qed.

(** The line is complete, or the input is at its end. *)
Lemma bounded_line_found max e b l err :
  LF ∉ b -> (forall m, max = Some m -> len b < m) ->
  bounded_line max e (b ++ LF :: l, err) = Ok (pop_cr b, (l, err)).
Proof.
  intros Hb Hm. unfold bounded_line, raw_line, LineFacts.uncapped_line. cbn [fst snd].
  rewrite split_char_app by done. destruct max as [m|]; [|done].
  specialize (Hm m eq_refl). by test_false (m <=? len b).
Qed.

Lemma bounded_line_end max e b err :
  LF ∉ b -> (forall m, max = Some m -> len b <= m) ->
  bounded_line max e (b, err) =
    match err with None => Ok (b, ([], None)) | Some err => Err (IoError err) end.
Proof.
  intros Hb Hm. unfold bounded_line, raw_line, LineFacts.uncapped_line. cbn [fst snd].
  rewrite split_char_None by done. destruct max as [m|]; [|done].
  specialize (Hm m eq_refl). by test_false (m <? len b).
Qed.

Definition over_cap (max : option N) (b : bytes) : bool :=
  match max with Some m => m <=? len b | None => false end.

Lemma over_cap_false max b : over_cap max b = false -> forall m, max = Some m -> len b < m.
Proof. intros Ho m ->. simpl in Ho. by btest. Qed.

Lemma read_line_loop_singles max e l err b :
  LF ∉ b -> (forall m, max = Some m -> len b <= m) ->
  match bounded_line max e (b ++ l, err) with
  | Ok (raw, rest) =>
      exists flag, read_line_loop max e (mkLineState b true []) (singles (l, err))
                   = (Ready (Ok (mkLineState raw flag [])), singles rest)
  | Err err' =>
      exists s, read_line_loop max e (mkLineState b true []) (singles (l, err))
                = (Ready (Err err'), s)
  | Panic => False
  end.
Proof.
  revert b. induction l as [|c l IH]; intros b Hb Hm.
  { rewrite app_nil_r, bounded_line_end by done. destruct err as [err|]; by eexists. }
  change (singles (c :: l, err)) with (EvChunk [c] :: singles (l, err)).
  cbn [read_line_loop ls_bytes]. fold (over_cap max b). destruct (over_cap max b) eqn:Ho.
  { destruct max as [m|]; [|done]. rewrite bounded_line_over; [by eexists|done|].
    simpl in Ho. by btest. }
  pose proof (over_cap_false _ _ Ho) as Hlt.
  cbn [push_bytes foldl]. unfold push_byte. cbn [new_line_flag ls_bytes ls_trailing].
  destruct (N.eqb_spec c LF) as [->|Hc]; cbn [new_line_flag].
  - rewrite bounded_line_found by done. by eexists.
  - rewrite (cons_middle c b l), app_assoc. apply IH.
    + rewrite not_elem_of_app, list_elem_of_singleton. done.
    + intros m Heq. specialize (Hlt m Heq). autorewrite with len. lia.
Qed.

(** On such a connection [read_line] reads lines as they are in the bytes, with its
    cap, and nothing ahead. *)
Lemma read_line_singles max e inp :
  match bounded_spec max e inp with
  | Ok (line, rest) => read_line (singles inp) max e [] = (Ready (Ok (line, [])), singles rest)
  | Err err => exists s, read_line (singles inp) max e [] = (Ready (Err err), s)
  | Panic => False
  end.
Proof.
  destruct inp as [l err].
  pose proof (read_line_loop_singles max e l err [] (not_elem_of_nil _)
    ltac:(intros; apply N.le_0_l)) as Hl.
  unfold bounded_spec, read_line. cbn [push_bytes foldl initial_line new_line_flag].
  change ([] ++ l) with l in Hl. unfold initial_line.
  destruct (bounded_line max e (l, err)) as [[raw rest]|e'|]; [|by destruct Hl as [s ->]; eexists|done].
  destruct Hl as [flag ->]. cbn [mbind outcome_bind]. unfold finish_line. cbn [ls_bytes ls_trailing].
  destruct (from_utf8 raw); [done|by eexists..].
Qed.

(** * The reader of chunks *)

Section Facts.
Context `{Build} `{HashOrder}.

Lemma read_trailers_singles fuel inp max h :
  match trailers_spec fuel inp max h with
  | Some (Ok h') => exists s, read_trailers fuel (singles inp) h max [] = Some (Ready (Ok tt), s, h')
  | Some (Err e) => exists s h', read_trailers fuel (singles inp) h max [] = Some (Ready (Err e), s, h')
  | Some Panic => exists s h', read_trailers fuel (singles inp) h max [] = Some (Ready Panic, s, h')
  | None => read_trailers fuel (singles inp) h max [] = None
  end.
Proof.
  revert inp max h. induction fuel as [|fuel IH]; intros inp max h; [done|].
  cbn [trailers_spec read_trailers]. pose proof (read_line_singles max HeadersOverflow inp) as Hl.
  destruct (bounded_spec max HeadersOverflow inp) as [[line rest]|e|]; [| |done].
  - rewrite Hl. destruct (shrink_cap max line) as [max'|e|]; [|by eexists _, _..].
    destruct (parse_header line) as [[k v]|]; [|by eexists]. apply IH.
  - destruct Hl as [s ->]. by eexists _, _.
Qed.

(** The poll that reads the size of a chunk goes on as one in the chunk. *)
Lemma size_line_poll p h c inp line rest n c' :
  bounded_spec (Some 1024) MalformedChunkLength inp = Ok (line, rest) ->
  chunk_size line = Ok n -> n <> 0 -> usize_add (E:=Error) c n = Ok c' ->
  poll_next (update p (singles inp) h (Chunked true 0 c))
  = poll_next (update p (singles rest) h (Chunked true n c')).
Proof.
  intros Hl Hn Hne Hc. unfold poll_next, read_chunked.
  cbn [state update stream trailing_content headers default from_option
       expecting_more_chunks chunk_length content_length ck_headers negb andb].
  change (0 =? 0) with true. test_false (n =? 0). cbv iota.
  pose proof (read_line_singles (Some 1024) MalformedChunkLength inp) as Hr. rewrite Hl in Hr.
  rewrite Hr, Hn. test_false (n =? 0). by rewrite Hc.
Qed.

(** The polls in a chunk that is cut off. *)
Lemma load_cut_off p h c inp n body fuel :
  len inp.1 < n -> (length (singles inp) < fuel)%nat ->
  exists st, Response.load fuel (update p (singles inp) h (Chunked true n c)) body
             = Some (rest_of (singles inp) body (update p [] h st)).
Proof.
  destruct inp as [data err]. intros Hn Hf. unfold rest_of. rewrite flat_singles.
  unfold singles in *. cbn [fst snd] in *.
  assert (exists f, fuel = (length data + S f)%nat) as [f ->].
  { exists (fuel - S (length data))%nat. rewrite length_app in Hf. unfold one_byte_reads in Hf.
    rewrite length_fmap in Hf. lia. }
  replace n with (len data + (n - len data)) by lia. rewrite load_one_byte_reads, load_S.
  unfold poll_next, read_chunked.
  cbn [state update expecting_more_chunks chunk_length negb andb].
  test_false (n - len data =? 0). unfold read_chunk. cbn [chunk_length].
  test_true (0 <? n - len data).
  destruct err as [err|]; cbn; [by exists EndOnClose|by eexists].
Qed.

(** What loading gives, with the stream and the state left open. *)
Definition loads_as (p : ResponseLazy) (body : bytes) (r : result (bytes * gmap text text))
    (l : option (result (bytes * ResponseLazy))) : Prop :=
  exists s st, l = Some ('(b, h) ← r; Ok (body ++ b, update p s h st)).

Lemma loads_as_app p body data r l :
  loads_as p (body ++ data) r l ->
  loads_as p body ('(b, h) ← r; Ok (data ++ b, h)) l.
Proof.
  intros (s & st & ->). exists s, st. destruct r as [[b h]|e|]; simpl; by rewrite ?app_assoc.
Qed.

Lemma singles_take inp n :
  n <= len inp.1 ->
  singles inp = one_byte_reads (take (N.to_nat n) inp.1)
                ++ singles (drop (N.to_nat n) inp.1, inp.2) /\
  len (take (N.to_nat n) inp.1) = n.
Proof.
  intros Hn. split.
  - unfold singles, one_byte_reads. cbn [fst snd]. by rewrite app_assoc, <- fmap_app, take_drop.
  - unfold len in *. rewrite length_take. lia.
Qed.

Lemma load_whole_chunk lf p inp h n c body :
  n <= len inp.1 ->
  Response.load (length (take (N.to_nat n) inp.1) + lf)
    (update p (singles inp) h (Chunked true n c)) body
  = Response.load lf
      (update p (singles (drop (N.to_nat n) inp.1, inp.2)) h (Chunked true 0 c))
      (body ++ take (N.to_nat n) inp.1).
Proof.
  intros Hn. destruct (singles_take inp n Hn) as [-> Hlen].
  by rewrite <- load_one_byte_reads, N.add_0_r, Hlen.
Qed.

(** Where a chunk may begin. *)
Ltac at_boundary :=
  rewrite load_S; unfold poll_next, read_chunked;
  cbn [state update stream trailing_content headers default from_option
       expecting_more_chunks chunk_length content_length ck_headers negb andb];
  change (0 =? 0) with true; cbv iota.

Lemma load_singles fuel lf p inp h c body :
  (length (singles inp) + 1 < lf)%nat ->
  match dechunk fuel inp (max_trailing_headers_size p) h c with
  | Some r => loads_as p body r (Response.load lf (update p (singles inp) h (Chunked true 0 c)) body)
  | None => True
  end.
Proof.
  revert lf inp h c body. induction fuel as [|fuel IH]; intros [|lf] inp h c body Hlf; [done|done|lia|].
  cbn [dechunk]. pose proof (read_line_singles (Some 1024) MalformedChunkLength inp) as Hl.
  destruct (bounded_spec (Some 1024) MalformedChunkLength inp) as [[line rest]|e|] eqn:El; [| |done].
  2: { destruct Hl as [s Hl]. at_boundary. rewrite Hl. by eexists s, EndOnClose. }
  destruct (chunk_size line) as [n|e|] eqn:En.
  2,3: by at_boundary; rewrite Hl, En; eexists [], EndOnClose.
  destruct (N.eqb_spec n 0) as [->|Hne].
  - pose proof (read_trailers_singles (S (length inp.1)) rest (max_trailing_headers_size p) h) as Ht.
    destruct (trailers_spec _ _ _ _) as [[h'|e|]|]; [| | |done];
      [destruct Ht as (s & Ht)|destruct Ht as (s & h' & Ht)..];
      at_boundary; rewrite Hl, En; change (0 =? 0) with true; cbv iota;
      unfold trailer_fuel, input; rewrite flat_singles; cbn [app fst update max_trailing_headers_size];
      rewrite Ht; [eexists _, _; cbn; by rewrite app_nil_r|by exists [], EndOnClose..].
  - destruct (usize_add c n) as [c'|e|] eqn:Ec.
    2,3: at_boundary; rewrite Hl, En; test_false (n =? 0); cbv iota; rewrite Ec;
      by eexists [], EndOnClose.
    rewrite load_S, (size_line_poll p h c inp line rest n c') by done. rewrite <- load_S.
    assert (length (singles rest) <= length (singles inp))%nat as Hle.
    { apply read_line_length in Hl. lia. }
    destruct (N.ltb_spec (len rest.1) n) as [Hlt|Hge].
    + destruct (load_cut_off p h c' rest n body (S lf)) as [st ->]; [done|lia|].
      unfold rest_of. rewrite flat_singles.
      destruct rest.2; [by exists [], EndOnClose|by eexists _, _].
    + assert (length (singles rest) = length (take (N.to_nat n) rest.1)
        + length (singles (drop (N.to_nat n) rest.1, rest.2)))%nat as Hs.
      { destruct (singles_take rest n Hge) as [-> _]. unfold one_byte_reads at 1.
        by rewrite length_app, length_fmap. }
      assert (exists lf', S lf = (length (take (N.to_nat n) rest.1) + lf')%nat) as [lf' Heq].
      { exists (S lf - length (take (N.to_nat n) rest.1))%nat. lia. }
      rewrite Heq, load_whole_chunk by done.
      specialize (IH lf' (drop (N.to_nat n) rest.1, rest.2) h c' (body ++ take (N.to_nat n) rest.1)).
      destruct (dechunk fuel _ _ h c') as [r|]; [|done]. apply loads_as_app, IH. lia.
Qed.

(** ** The fuel of the specification *)

Lemma bounded_spec_progress e m inp line rest :
  bounded_spec (Some m) e inp = Ok (line, rest) -> line <> [] ->
  (length rest.1 < length inp.1)%nat.
Proof. apply MetadataFacts.line_spec_progress. Qed.

Lemma bounded_spec_le m e inp line rest :
  bounded_spec (Some m) e inp = Ok (line, rest) -> (length rest.1 <= length inp.1)%nat.
Proof.
  unfold bounded_spec, bounded_line, raw_line.
  destruct (split_char LF inp.1) as [[a r]|] eqn:E.
  - apply MetadataFacts.split_char_length in E. destruct (m <=? len a); [done|]. simpl.
    destruct (from_utf8 _); intros [= <- <-]. simpl. lia.
  - destruct (m <? len inp.1); [done|]. destruct inp.2; [done|]. simpl.
    destruct (from_utf8 _); intros [= <- <-]. simpl. lia.
Qed.

Lemma dechunk_total fuel inp max h c :
  (length inp.1 < fuel)%nat -> is_Some (dechunk fuel inp max h c).
Proof.
  revert inp c. induction fuel as [|fuel IH]; intros inp c Hf; [lia|]. cbn [dechunk].
  pose proof (read_line_singles (Some 1024) MalformedChunkLength inp) as Hl.
  destruct (bounded_spec (Some 1024) MalformedChunkLength inp) as [[line rest]|e|] eqn:El;
    [|by eexists|done].
  destruct (chunk_size line) as [n|e|] eqn:En; [|by eexists..].
  destruct (N.eqb_spec n 0) as [->|Hne].
  - pose proof (read_trailers_singles (S (length inp.1)) rest max h) as Ht.
    destruct (trailers_spec _ _ _ _) as [r|]; [by eexists|].
    destruct (read_trailers_total (S (length inp.1)) (singles rest) h max []) as [x Hx];
      [|by rewrite Ht in Hx].
    unfold input. rewrite flat_singles. cbn [app fst].
    apply bounded_spec_le in El. lia.
  - assert (length rest.1 < length inp.1)%nat as Hlt.
    { apply (bounded_spec_progress _ _ _ _ _ El). intros ->. by injection En as <-. }
    destruct (usize_add c n) as [c'|e|]; [|by eexists..].
    destruct (len rest.1 <? n); [by eexists|].
    destruct (IH (drop (N.to_nat n) rest.1, rest.2) c') as [r ->]; [|by eexists].
    cbn [fst]. rewrite length_drop. lia.
Qed.
(** ** Heads in single bytes *)

(** Where no bytes are read ahead and nothing waits, the two loops are the same. *)
Lemma read_line_async_loop_singles m e b l err :
  let '(r, s) := read_line_async_loop m e (mkLineState b true []) (singles (l, err)) in
  read_line_loop (Some m) e (mkLineState b true []) (singles (l, err)) = (Ready r, s).
Proof.
  revert b. induction l as [|c l IH]; intros b; [by destruct err|].
  change (singles (c :: l, err)) with (EvChunk [c] :: singles (l, err)).
  cbn [read_line_async_loop read_line_loop push_bytes_capped push_bytes foldl new_line_flag andb].
  destruct (m <=? len (ls_bytes _)); [done|]. unfold push_byte.
  cbn [new_line_flag ls_bytes ls_trailing]. destruct (c =? LF); cbn [new_line_flag]; [done|].
  apply IH.
Qed.

Lemma read_line_async_singles max e inp :
  match line_spec (default usize_MAX max) e inp with
  | Ok (line, rest) => read_line_async (singles inp) max e [] = (Ok (line, []), singles rest)
  | Err err => exists s, read_line_async (singles inp) max e [] = (Err err, s)
  | Panic => False
  end.
Proof.
  set (m := default usize_MAX max).
  pose proof (read_line_singles (Some m) e inp) as Hl.
  change (bounded_spec (Some m) e inp) with (line_spec m e inp) in Hl.
  assert (read_line (singles inp) (Some m) e []
          = let '(r, s) := read_line_async (singles inp) max e [] in (Ready r, s)) as Heq.
  { unfold read_line, read_line_async. fold m. destruct inp as [l err].
    cbn [push_bytes foldl push_bytes_capped initial_line new_line_flag].
    pose proof (read_line_async_loop_singles m e [] l err) as Hloop. unfold initial_line.
    destruct (read_line_async_loop _ _ _ _) as [r s]. by rewrite Hloop. }
  rewrite Heq in Hl. destruct (read_line_async _ _ _ _) as [r s].
  destruct (line_spec m e inp) as [[line rest]|err|]; [|destruct Hl as [s' Hl]; exists s|done];
    by injection Hl as -> ->.
Qed.

Lemma read_headers_singles fuel inp max h h' m' rest :
  headers_spec fuel inp max h = Some (Ok (h', m', rest)) ->
  read_headers fuel (singles inp) max h [] = Some (Ok (h', m', []), singles rest).
Proof.
  revert inp max h. induction fuel as [|fuel IH]; intros inp max h; [done|].
  cbn [headers_spec read_headers]. pose proof (read_line_async_singles max HeadersOverflow inp) as Hl.
  destruct (line_spec _ _ inp) as [[line inp']|e|]; [|done..]. rewrite Hl.
  destruct line as [|c line]; [by intros [= -> -> ->]|].
  destruct (shrink_cap max (c :: line)) as [max'| |]; [|done..]. apply IH.
Qed.

(** The head of a response that comes in single bytes: the lazy response has the body
    before it, in single bytes, and nothing read ahead. *)
Lemma from_stream_singles inp max_headers max_status md rest :
  metadata_spec inp max_headers max_status = Some (Ok (md, rest)) ->
  from_stream (singles inp) max_headers max_status
  = Some (Ok (mkResponseLazy (md_status_code md) (md_reason_phrase md) (md_headers md) []
                (singles rest) (md_state md) (md_max_trailing_headers_size md) None)).
Proof.
  unfold metadata_spec, from_stream, read_metadata.
  pose proof (read_line_async_singles max_status StatusLineOverflow inp) as Hl.
  destruct (line_spec _ _ inp) as [[line inp']|e|]; [|done..]. rewrite Hl.
  destruct (parse_status_line line) as [code reason]. unfold header_fuel, input.
  rewrite flat_singles. cbn [app fst].
  destruct (headers_spec _ inp' _ _) as [[[[h m] rest']|e|]|] eqn:Eh; [|done..].
  rewrite (read_headers_singles _ _ _ _ _ _ _ Eh). cbn [mbind option_bind outcome_bind].
  destruct (scan_headers _ _ _) as [[ck cl]|e|]; [|done..]. cbn. by intros [= <- <-].
Qed.

(** ** Encodings *)

Lemma bounded_spec_crlf max e line rest err :
  is_text line -> LF ∉ line -> within_cap max (str_len line + 2) ->
  bounded_spec max e (MetadataFacts.line_bytes line ++ rest, err) = Ok (line, (rest, err)).
Proof.
  intros Ht Hlf Hm. unfold bounded_spec.
  replace (MetadataFacts.line_bytes line ++ rest) with ((utf8 line ++ [CR]) ++ LF :: rest)
    by (unfold MetadataFacts.line_bytes; by rewrite <- !app_assoc).
  rewrite bounded_line_found.
  - cbn [mbind outcome_bind]. by rewrite LineFacts.pop_cr_snoc, from_utf8_utf8.
  - rewrite not_elem_of_app, list_elem_of_singleton. split; [by apply utf8_not_in|done].
  - intros m ->. simpl in Hm. autorewrite with len. unfold str_len in Hm. lia.
Qed.

Lemma trailers_spec_lines hs fuel max h more err :
  (length hs < fuel)%nat -> Forall MetadataFacts.header_wf hs ->
  within_cap max (MetadataFacts.headers_size hs + 2) ->
  trailers_spec fuel (MetadataFacts.headers_bytes hs ++ more, err) max h
  = Some (Ok (MetadataFacts.insert_headers h hs)).
Proof.
  revert fuel h max. induction hs as [|kv hs IH]; intros [|fuel] h max Hf Hwf Hmax; simpl in Hf;
    try lia; cbn [trailers_spec].
  - change (MetadataFacts.headers_bytes []) with (MetadataFacts.line_bytes []).
    rewrite bounded_spec_crlf; [|constructor|apply not_elem_of_nil|done].
    rewrite MetadataFacts.shrink_cap_fits; [done|]. by destruct max.
  - inversion_clear Hwf as [|? ? Hkv Hwf'].
    destruct (MetadataFacts.header_text_wf kv Hkv) as (Ht & Hlf & _).
    cbn [MetadataFacts.headers_size] in Hmax.
    unfold MetadataFacts.headers_bytes. rewrite bind_cons, <- !app_assoc.
    rewrite bounded_spec_crlf by (done || (destruct max; simpl in *; [lia|done])).
    rewrite MetadataFacts.shrink_cap_fits by (destruct max; simpl in *; [lia|done]).
    unfold MetadataFacts.header_text at 1. destruct Hkv as [(_ & Hk & _) _].
    rewrite MetadataFacts.parse_header_of by done.
    rewrite (app_assoc (hs ≫= _)). fold (MetadataFacts.headers_bytes hs).
    apply IH; [lia|done|]. destruct max; simpl in *; [lia|done].
Qed.

(** A chunk: its size line and its data. *)
Record chunk_wf (ck : text * bytes) : Prop := {
  cw_text : is_text ck.1;
  cw_line : LF ∉ ck.1;
  cw_fits : str_len ck.1 + 2 <= 1024;
  cw_data : ck.2 <> [];
  cw_size : chunk_size ck.1 = Ok (len ck.2);
}.

(** A chunk as it is sent, with what closes it. *)
Definition chunk_bytes (close : bytes) (ck : text * bytes) : bytes :=
  MetadataFacts.line_bytes ck.1 ++ ck.2 ++ close.

Definition data_of (cks : list (text * bytes)) : bytes := cks ≫= snd.

Lemma dechunk_chunk fuel ck more err max h c :
  chunk_wf ck -> c + len ck.2 <= usize_MAX ->
  dechunk (S fuel) (chunk_bytes [] ck ++ more, err) max h c
  = (r ← dechunk fuel (more, err) max h (c + len ck.2);
     Some ('(b, h) ← r; Ok (ck.2 ++ b, h))).
Proof.
  intros [Ht Hlf Hfit Hne Hsz] Hc. cbn [dechunk]. unfold chunk_bytes.
  rewrite app_nil_r, <- app_assoc, bounded_spec_crlf by done. rewrite Hsz.
  assert (len ck.2 <> 0) as Hpos by by intros ?%len_0_inv.
  test_false (len ck.2 =? 0). rewrite usize_add_fits by done. cbn [fst snd].
  rewrite len_app. test_false (len ck.2 + len more <? len ck.2).
  unfold len. by rewrite Nat2N.id, drop_app_length, take_app_length.
Qed.

Lemma dechunk_chunks cks fuel more err max h c b h' :
  Forall chunk_wf cks -> c + len (data_of cks) <= usize_MAX ->
  dechunk fuel (more, err) max h (c + len (data_of cks)) = Some (Ok (b, h')) ->
  dechunk (length cks + fuel) ((cks ≫= chunk_bytes []) ++ more, err) max h c
  = Some (Ok (data_of cks ++ b, h')).
Proof.
  revert c. induction cks as [|ck cks IH]; intros c Hwf Hc Hd.
  { simpl in *. by rewrite N.add_0_r in Hd. }
  inversion_clear Hwf as [|? ? Hck Hwf']. unfold data_of in *. rewrite bind_cons, len_app in *.
  change (length (ck :: cks) + fuel)%nat with (S (length cks + fuel)).
  rewrite <- app_assoc, dechunk_chunk by (done || lia).
  rewrite N.add_assoc in Hd. rewrite IH by (done || lia).
  cbn. by rewrite app_assoc.
Qed.

(** A size line that announces no more data. *)
Record last_wf (line : text) : Prop := {
  lw_text : is_text line;
  lw_line : LF ∉ line;
  lw_fits : str_len line + 2 <= 1024;
  lw_size : chunk_size line = Ok 0;
}.

Lemma dechunk_last fuel line inp max h c h' :
  last_wf line ->
  (forall f, (length inp.1 < f)%nat -> trailers_spec f inp max h = Some (Ok h')) ->
  dechunk (S fuel) (MetadataFacts.line_bytes line ++ inp.1, inp.2) max h c
  = Some (Ok ([], dechunked h' c)).
Proof.
  intros [Ht Hlf Hfit Hsz] Htr. cbn [dechunk]. rewrite bounded_spec_crlf by done. rewrite Hsz.
  change (0 =? 0) with true. cbv iota. rewrite <- surjective_pairing, Htr; [done|].
  cbn [fst]. rewrite length_app. lia.
Qed.

Lemma empty_line_last : last_wf [].
Proof. split; [constructor|apply not_elem_of_nil|by_compute|reflexivity]. Qed.

(** Fuel that is enough gives the result. *)
Lemma dechunk_mono fuel fuel' inp max h c r :
  (fuel <= fuel')%nat -> dechunk fuel inp max h c = Some r -> dechunk fuel' inp max h c = Some r.
Proof.
  revert fuel' inp c r. induction fuel as [|fuel IH]; intros [|fuel'] inp c r Hle; [done|done|lia|].
  cbn [dechunk]. destruct (bounded_spec _ _ inp) as [[line rest]| |]; [|done..].
  destruct (chunk_size line) as [n| |]; [|done..]. destruct (n =? 0); [done|].
  destruct (usize_add c n) as [c'| |]; [|done..]. destruct (len rest.1 <? n); [done|].
  destruct (dechunk fuel _ _ _ _) as [r'|] eqn:E; [|done].
  by rewrite (IH fuel' _ _ r') by (done || lia).
Qed.

Lemma dechunk_enough fuel inp max h c r :
  dechunk fuel inp max h c = Some r -> dechunk_all inp max h c = Some r.
Proof.
  intros Hr. destruct (dechunk_total (S (length inp.1)) inp max h c) as [r' Hr']; [lia|].
  unfold dechunk_all. rewrite Hr', <- Hr. symmetry.
  destruct (Nat.le_ge_cases fuel (S (length inp.1))) as [Hle|Hge].
  - rewrite Hr. rewrite (dechunk_mono _ _ _ _ _ _ _ Hle Hr) in Hr'. done.
  - by rewrite (dechunk_mono _ _ _ _ _ _ _ Hge Hr').
Qed.

Lemma create_singles p inp c :
  state p = Chunked true 0 c -> trailing_content p = None -> stream p = singles inp ->
  Response.no_body p false = false ->
  exists r, dechunk_all inp (max_trailing_headers_size p) (headers p) c = Some r /\
    Response.create p false = Some (with_body p r).
Proof.
  intros Hst Ht Hs Hb.
  destruct (dechunk_total (S (length inp.1)) inp (max_trailing_headers_size p) (headers p) c)
    as [r Hr]; [lia|]. exists r. split; [done|].
  pose proof (load_singles (S (length inp.1)) (Response.load_fuel p) p inp (headers p) c []) as Hl.
  rewrite Hr in Hl. destruct Hl as (s & st & Hl).
  { unfold Response.load_fuel. rewrite Hs. lia. }
  unfold Response.create. rewrite Hb, load_no_prefix, Hst, Hs, Hl by by rewrite Ht.
  by destruct r as [[b h]|e|].
Qed.

Lemma create_dechunked p inp c b h :
  state p = Chunked true 0 c -> trailing_content p = None -> stream p = singles inp ->
  Response.no_body p false = false ->
  dechunk_all inp (max_trailing_headers_size p) (headers p) c = Some (Ok (b, h)) ->
  Response.create p false =
    Some (Ok (Response.mkResponse (status_code p) (reason_phrase p) h (url p) b)).
Proof.
  intros Hst Ht Hs Hb Hd. destruct (create_singles p inp c Hst Ht Hs Hb) as (r & Hr & ->).
  rewrite Hd in Hr. by injection Hr as <-.
Qed.

(** What is known of a lazy response that came in single bytes. *)
Record single_is (p : ResponseLazy) (max_headers : option N) (hs : list (text * text))
    (body : bytes) (err : option io_error) : Prop := {
  si_stream : stream p = singles (body, err);
  si_trailing : trailing_content p = None;
  si_max : max_trailing_headers_size p
           = (fun m => m - MetadataFacts.headers_size hs) <$> max_headers;
}.

Lemma read_head_singles version code reason hs body err max_headers max_status f st :
  head_wf version code reason hs ->
  MetadataFacts.framed_as (MetadataFacts.insert_headers ∅ hs) f ->
  (match max_headers with Some m => m <= usize_MAX | None => True end) ->
  head_result max_headers max_status (MetadataFacts.status_line version code reason) hs f = Ok st ->
  exists p,
    from_stream (singles (response_bytes version code reason hs body, err)) max_headers max_status
    = Some (Ok p) /\
    head_is p code reason hs st body err /\ url p = [] /\ single_is p max_headers hs body err.
Proof.
  intros Hwf Hfr Hmax Hres.
  pose proof (read_head_result _ version code reason hs body err max_headers max_status f
    (flat_singles _) Hwf Hfr Hmax) as Hread. rewrite Hres in Hread.
  destruct Hread as (p & Hp & Hi & Hu). exists p. split_and!; [done..|].
  destruct Hwf as [Ht Hlf _ _ Hsz Hhs Hhsz].
  pose proof (MetadataFacts.metadata_spec_head max_headers max_status
    (MetadataFacts.status_line version code reason) hs body err Ht Hlf Hsz Hhs Hhsz Hmax) as Hmd.
  unfold head_result in Hres.
  destruct (negb (MetadataFacts.fits max_status _)); [done|].
  destruct (negb (MetadataFacts.fits max_headers _)); [done|].
  rewrite <- (MetadataFacts.framed_as_scan _ _ Hfr) in Hres.
  destruct (scan_headers _ _ _) as [[ck cl]|e|]; [|done..].
  apply from_stream_singles in Hmd. unfold response_bytes in Hp. rewrite Hmd in Hp.
  by injection Hp as <-.
Qed.

(** C21. A chunked response that comes in single bytes, without waits, is read as the
    specification says, which knows only its bytes: the head is that of
    [metadata_spec], and the body, the headers that the trailers make of the head's,
    every error and every panic are those of [dechunk]. *)
Theorem chunked_in_single_bytes inp max_headers max_status md rest :
  metadata_spec inp max_headers max_status = Some (Ok (md, rest)) ->
  md_state md = Chunked true 0 0 ->
  md_status_code md <> 204%Z -> md_status_code md <> 304%Z ->
  exists p r,
    from_stream (singles inp) max_headers max_status = Some (Ok p) /\
    dechunk_all rest (md_max_trailing_headers_size md) (md_headers md) 0 = Some r /\
    Response.create p false =
      Some ('(body, headers) ← r;
            Ok (Response.mkResponse (md_status_code md) (md_reason_phrase md) headers [] body)).
Proof.
  intros Hmd Hst H204 H304. eexists.
  pose proof (from_stream_singles _ _ _ _ _ Hmd) as Hp.
  match type of Hp with _ = Some (Ok ?p) =>
    destruct (create_singles p rest 0) as (r & Hr & Hc); [done..| |] end.
  { unfold Response.no_body. cbn. by rewrite (proj2 (Z.eqb_neq _ _)), (proj2 (Z.eqb_neq _ _)). }
  exists r. by split_and!.
Qed.

(** C27. The encoding that the reader of chunks decodes, from a connection that delivers
    single bytes, is not the one of the standard: behind the data of a chunk there is
    no line end. A body in this encoding arrives complete, with the trailers among the
    headers, which announce its length, and what follows is not read. *)
Theorem chunks_without_line_ends p cks last hs more err :
  state p = Chunked true 0 0 -> Response.no_body p false = false -> trailing_content p = None ->
  stream p = singles ((cks ≫= chunk_bytes []) ++ MetadataFacts.line_bytes last
                      ++ MetadataFacts.headers_bytes hs ++ more, err) ->
  Forall chunk_wf cks -> len (data_of cks) <= usize_MAX -> last_wf last ->
  Forall MetadataFacts.header_wf hs ->
  within_cap (max_trailing_headers_size p) (MetadataFacts.headers_size hs + 2) ->
  Response.create p false =
    Some (Ok (Response.mkResponse (status_code p) (reason_phrase p)
                (dechunked (MetadataFacts.insert_headers (headers p) hs) (len (data_of cks)))
                (url p) (data_of cks))).
Proof.
  intros Hst Hb Ht Hs Hcks Hlen Hlast Hhs Hcap.
  eapply create_dechunked; [done..|]. apply (dechunk_enough (length cks + 1)).
  rewrite <- (app_nil_r (data_of cks)) at 1. apply dechunk_chunks; [done..|].
  apply (dechunk_last 0 last (MetadataFacts.headers_bytes hs ++ more, err)); [done|].
  intros f Hf. apply trailers_spec_lines; [|done..]. cbn [fst] in Hf. rewrite length_app in Hf.
  pose proof (MetadataFacts.headers_bytes_length hs). lia.
Qed.

(** C26. Of a body in the encoding of the standard, where a line end follows the data of
    every chunk, only the first chunk arrives, without an error: the line end is read
    as the size of a last chunk, and the next line, be it the size of a second chunk
    or of the last, as the end of the trailers. What follows is not read, and the
    headers announce the length of the first chunk as that of the body. *)
Theorem only_first_chunk_arrives p ck line more err :
  state p = Chunked true 0 0 -> Response.no_body p false = false -> trailing_content p = None ->
  stream p = singles (chunk_bytes CRLF ck ++ MetadataFacts.line_bytes line ++ more, err) ->
  chunk_wf ck -> len ck.2 <= usize_MAX ->
  is_text line -> LF ∉ line -> ch ":" ∉ line ->
  within_cap (max_trailing_headers_size p) (str_len line + 2) ->
  Response.create p false =
    Some (Ok (Response.mkResponse (status_code p) (reason_phrase p)
                (dechunked (headers p) (len ck.2)) (url p) ck.2)).
Proof.
  intros Hst Hb Ht Hs Hck Hlen Hl Hlf Hcolon Hcap.
  eapply create_dechunked; [done..|]. apply (dechunk_enough 2).
  assert (chunk_bytes CRLF ck ++ MetadataFacts.line_bytes line ++ more
          = chunk_bytes [] ck ++ MetadataFacts.line_bytes []
            ++ MetadataFacts.line_bytes line ++ more) as ->.
  { unfold chunk_bytes. by rewrite app_nil_r, <- !app_assoc. }
  rewrite dechunk_chunk by (done || lia). rewrite N.add_0_l.
  rewrite (dechunk_last 0 [] (MetadataFacts.line_bytes line ++ more, err) _ (headers p) _ (headers p)
    empty_line_last).
  { cbn. by rewrite app_nil_r. }
  intros [|f] Hf; [lia|]. cbn [trailers_spec]. rewrite bounded_spec_crlf by done.
  rewrite MetadataFacts.shrink_cap_fits by by destruct (max_trailing_headers_size p).
  unfold parse_header. by rewrite split_char_None.
Qed.
End Facts.
End Chunks.

(** * Examples: the theorems at concrete responses *)

Module ChunkExamples.
Import ResponseLazy BodyFacts BodyExamples Chunks.
#[local] Existing Instance canonical_order.

Definition hello_chunk : text * bytes := (lit "5", lit "hello").
Definition world_chunk : text * bytes := (lit "6;part=2", lit " world").

Lemma hello_chunk_wf : chunk_wf hello_chunk.
Proof. split; first [done|by_compute]. Qed.
Lemma world_chunk_wf : chunk_wf world_chunk.
Proof. split; first [done|by_compute]. Qed.
Lemma zero_last_wf : last_wf (lit "0").
Proof. split; first [done|by_compute]. Qed.

(** Two chunks of the standard encoding behind a head, in single bytes: [hello] is what
    arrives. *)
Definition two_chunks : bytes :=
  lit "HTTP/1.1 200 OK" ++ CRLF ++ lit "Transfer-Encoding: chunked" ++ CRLF ++ CRLF
  ++ chunk_bytes CRLF hello_chunk ++ chunk_bytes CRLF world_chunk ++ lit "0" ++ CRLF ++ CRLF.

Definition two_chunks_md : ResponseMetadata :=
  mkResponseMetadata 200 (lit "OK") {[lit "transfer-encoding" := lit "chunked"]}
    (Chunked true 0 0) None [].

Lemma chunked_in_single_bytes_witness :
  exists p r,
    @from_stream default_build canonical_order (singles (two_chunks, None)) None None
    = Some (Ok p) /\
    @dechunk_all default_build
      (chunk_bytes CRLF hello_chunk ++ chunk_bytes CRLF world_chunk ++ lit "0" ++ CRLF ++ CRLF, None)
      None {[lit "transfer-encoding" := lit "chunked"]} 0 = Some r /\
    @Response.create default_build p false =
      Some ('(body, headers) ← r; Ok (Response.mkResponse 200 (lit "OK") headers [] body)).
Proof.
  apply (@chunked_in_single_bytes default_build canonical_order (two_chunks, None) None None
           two_chunks_md
           (chunk_bytes CRLF hello_chunk ++ chunk_bytes CRLF world_chunk ++ lit "0" ++ CRLF ++ CRLF,
            None)); [vm_compute; reflexivity|reflexivity|done|done].
Defined.

Example two_chunks_arrive :
  @dechunk_all default_build
    (chunk_bytes CRLF hello_chunk ++ chunk_bytes CRLF world_chunk ++ lit "0" ++ CRLF ++ CRLF, None)
    None ∅ 0 = Some (Ok (lit "hello", {[lit "content-length" := lit "5"]})).
Proof. vm_compute. reflexivity. Qed.

(** The same chunks without the line ends behind them arrive complete. *)
Lemma chunks_without_line_ends_witness :
  let p := lazy (Chunked true 0 0) None
             (singles (([hello_chunk; world_chunk] ≫= chunk_bytes [])
                       ++ MetadataFacts.line_bytes (lit "0")
                       ++ MetadataFacts.headers_bytes [(lit "Sum", lit "1")] ++ lit "rest", None)) in
  @Response.create default_build p false =
    Some (Ok (Response.mkResponse 200 (lit "OK")
                (dechunked (MetadataFacts.insert_headers ∅ [(lit "Sum", lit "1")]) 11)
                [] (lit "hello world"))).
Proof.
  intros p.
  apply (@chunks_without_line_ends default_build p [hello_chunk; world_chunk] (lit "0")
           [(lit "Sum", lit "1")] (lit "rest") None);
    [reflexivity|reflexivity|reflexivity|reflexivity
    |repeat constructor; first [apply hello_chunk_wf|apply world_chunk_wf]|by_compute
    |apply zero_last_wf|apply MetadataFacts.headers_ok; vm_compute; reflexivity|exact I].
Defined.

Lemma only_first_chunk_arrives_witness :
  let p := lazy (Chunked true 0 0) None
             (singles (chunk_bytes CRLF hello_chunk ++ MetadataFacts.line_bytes (lit "6;part=2")
                       ++ lit " world" ++ last_chunk, None)) in
  @Response.create default_build p false =
    Some (Ok (Response.mkResponse 200 (lit "OK") (dechunked ∅ 5) [] (lit "hello"))).
Proof.
  intros p.
  apply (@only_first_chunk_arrives default_build p hello_chunk (lit "6;part=2")
           (lit " world" ++ last_chunk) None);
    [reflexivity|reflexivity|reflexivity|reflexivity|apply hello_chunk_wf|by_compute|by_compute
    |by_compute|by_compute|exact I].
Defined.
End ChunkExamples.
