(* ===== verification/Segments.v ===== *)
(** Streams up to their pieces: connections that bring the same bytes, however these are
    cut and whatever the waits. What is read of a response without chunks depends on the
    bytes only, as long as there are not more than announced. *)

From S2P Require Import Prelude.
From S2P Require Import Text.
From S2P Require Import Strings.
From S2P Require Import Numbers.
From S2P Require Import Errors.
From S2P Require Import Lines.
From S2P Require Import Metadata.
From S2P Require Import Bodies.
From S2P Require Import Loading.
From S2P Require Import Chunks.

Module Segments.
Import ResponseLazy BodyFacts Chunks.

(** * Streams *)

Definition same_bytes (s s' : HttpStreamBytes) : Prop := flat s = flat s'.
Declare Scope stream_scope.
Infix "≈" := same_bytes (at level 70) : stream_scope.
#[local] Open Scope stream_scope.

#[export] Instance same_bytes_equiv : Equivalence same_bytes.
Proof.
  split; [done| |].
  - intros s s' Hs. symmetry. exact Hs.
  - intros s1 s2 s3 H12 H23. unfold same_bytes in *. by rewrite H12.
Qed.

Lemma flat_app s s' :
  flat (s ++ s') =
  match (flat s).2 with
  | Some err => flat s
  | None => ((flat s).1 ++ (flat s').1, (flat s').2)
  end.
Proof.
  induction s as [|[|chunk|err] s IH]; simpl; [apply surjective_pairing|done| |done].
  rewrite IH. destruct (flat s).2 eqn:E; simpl; rewrite ?E; by rewrite ?app_assoc.
Qed.

#[export] Instance app_same : Proper (same_bytes ==> same_bytes ==> same_bytes) (@app event).
Proof. intros s1 s2 Hs t1 t2 Ht. unfold same_bytes in *. by rewrite !flat_app, Hs, Ht. Qed.

#[export] Instance cons_same ev : Proper (same_bytes ==> same_bytes) (cons ev).
Proof. intros s s' Hs. by apply (app_same [ev] [ev] eq_refl s s' Hs). Qed.

#[export] Instance input_same : Proper (eq ==> same_bytes ==> eq) input.
Proof. intros b b' <- s s' Hs. unfold input. by rewrite Hs. Qed.

(** Waits and cuts are invisible. *)
Lemma wait_same s : EvPending :: s ≈ s.
Proof. done. Qed.
Lemma cut_same a b s : EvChunk a :: EvChunk b :: s ≈ EvChunk (a ++ b) :: s.
Proof. unfold same_bytes. simpl. by rewrite app_assoc. Qed.
Lemma nothing_same s : EvChunk [] :: s ≈ s.
Proof. unfold same_bytes. simpl. by rewrite <- surjective_pairing. Qed.
Lemma singles_same s : singles (flat s) ≈ s.
Proof. apply flat_singles. Qed.

(** * Lazy responses *)

(** What a lazy response shows of itself: everything but what of its bytes is read
    ahead, and how the others come. *)
Definition view (p : ResponseLazy) :=
  (status_code p, reason_phrase p, headers p, url p, state p, max_trailing_headers_size p,
   input (default [] (trailing_content p)) (stream p)).

Definition same_lazy (p p' : ResponseLazy) : Prop := view p = view p'.

#[export] Instance same_lazy_equiv : Equivalence same_lazy.
Proof.
  split; [done| |].
  - intros p p' Hp. symmetry. exact Hp.
  - intros p1 p2 p3 H12 H23. unfold same_lazy in *. by rewrite H12.
Qed.

Section Facts.
Context `{Build} `{HashOrder}.

#[local] Instance Ok_inj {E A} : Inj (=) (=) (@Ok E A).
Proof. by intros a b [= ->]. Qed.

Lemma from_stream_view s max_headers max_status :
  (fun r => view <$> r) <$> from_stream s max_headers max_status =
  (fun r =>
     '(md, rest) ← r;
     Ok (md_status_code md, md_reason_phrase md, md_headers md, [], md_state md,
         md_max_trailing_headers_size md, rest))
  <$> metadata_spec (flat s) max_headers max_status.
Proof.
  rewrite MetadataFacts.read_metadata_spec. unfold from_stream.
  destruct (read_metadata s max_headers max_status) as [[[md|e|] s']|]; [|done..].
  cbn -[input]. do 2 f_equal. unfold view, same_lazy. cbn -[input].
  destruct (N.eqb_spec (len (md_trailing_content md)) 0) as [Hz|]; [|done].
  apply len_0_inv in Hz. by rewrite Hz.
Qed.

(** The head is read alike from streams that bring the same bytes. *)
Lemma from_stream_same s s' max_headers max_status r :
  s ≈ s' -> from_stream s max_headers max_status = Some r ->
  exists r', from_stream s' max_headers max_status = Some r' /\
    match r, r' with
    | Ok p, Ok p' => same_lazy p p'
    | Err e, Err e' => e = e'
    | Panic, Panic => True
    | _, _ => False
    end.
Proof.
  intros Hs Hr. pose proof (from_stream_view s max_headers max_status) as Hv.
  rewrite Hs, <- from_stream_view, Hr in Hv.
  destruct (from_stream s' max_headers max_status) as [r'|]; [|done]. exists r'. split; [done|].
  injection Hv as Hv. destruct r, r'; simpl in Hv; try done; [by apply (inj Ok) in Hv|].
  by injection Hv.
Qed.

(** There are not more bytes than announced. *)
Definition within (p : ResponseLazy) : Prop :=
  body_within (state p) (input (default [] (trailing_content p)) (stream p)).1.

Lemma same_lazy_inv p p' :
  same_lazy p p' ->
  (status_code p, reason_phrase p, headers p, url p) = (status_code p', reason_phrase p', headers p', url p') /\
  state p = state p' /\
  input (default [] (trailing_content p)) (stream p)
  = input (default [] (trailing_content p')) (stream p').
Proof.
  intros Hp. split_and!; [exact (f_equal (fun v => v.1.1.1) Hp)|exact (f_equal (fun v => v.1.1.2) Hp)
                         |exact (f_equal snd Hp)].
Qed.

Lemma create_same p p' is_head :
  same_lazy p p' -> within p -> Response.create p is_head = Response.create p' is_head.
Proof.
  intros ([= Hc Hr Hh Hu] & Hst & Hin)%same_lazy_inv Hw.
  assert (within p') as Hw' by (unfold within in *; by rewrite <- Hst, <- Hin).
  assert (Response.no_body p' is_head = Response.no_body p is_head) as Hn
    by (unfold Response.no_body; by rewrite Hc).
  destruct (Response.no_body p is_head) eqn:Eb.
  - unfold Response.create. rewrite Eb, Hn. simpl. by rewrite Hc, Hr, Hh, Hu.
  - assert (is_head = false) as -> by by destruct is_head.
    rewrite (create_within p _ _ (surjective_pairing _) Eb Hw).
    rewrite (create_within p' _ _ (surjective_pairing _) Hn Hw').
    by rewrite Hc, Hr, Hh, Hu, Hst, Hin.
Qed.

(** C11. How a response without chunks is cut does not matter: two connections that bring
    the same bytes, and end the same, in whatever pieces and with whatever waits, give
    lazy responses that load to the same result, when there are not more bytes than the
    headers announce; and the same error or panic, when the head is refused. *)
Theorem segments_do_not_matter s s' max_headers max_status r is_head :
  same_bytes s s' -> from_stream s max_headers max_status = Some r ->
  exists r', from_stream s' max_headers max_status = Some r' /\
    match r, r' with
    | Ok p, Ok p' =>
        same_lazy p p' /\ (within p -> Response.create p is_head = Response.create p' is_head)
    | Err e, Err e' => e = e'
    | Panic, Panic => True
    | _, _ => False
    end.
Proof.
  intros Hs Hr. destruct (from_stream_same s s' _ _ r Hs Hr) as (r' & Hr' & Hv).
  exists r'. split; [done|]. destruct r, r'; try done. split; [done|]. by apply create_same.
Qed.
End Facts.
End Segments.

(** * Examples *)

Module SegmentExamples.
Import ResponseLazy BodyFacts BodyExamples Segments.
#[local] Existing Instances canonical_order full_build.

(** The response of [BodyExamples] in three pieces and in one. *)
Definition in_one_piece : HttpStreamBytes :=
  [EvChunk (lit "HTTP/1.1 200 OK" ++ CRLF ++ lit "Content-Length: 5" ++ CRLF ++ CRLF ++ lit "hello")].

Lemma hello_same : same_bytes hello_stream in_one_piece.
Proof. unfold hello_stream. rewrite !wait_same, !cut_same. reflexivity. Qed.

Definition hello_lazy (ahead : option bytes) (s : HttpStreamBytes) : ResponseLazy :=
  mkResponseLazy 200 (lit "OK") {[lit "content-length" := lit "5"]} [] s (ContentLength 5) None ahead.

Lemma segments_do_not_matter_witness :
  exists r', from_stream in_one_piece None None = Some r' /\
    match r' with
    | Ok p' =>
        same_lazy (hello_lazy (Some (lit "he")) [EvPending; EvChunk (lit "llo")]) p' /\
        (within (hello_lazy (Some (lit "he")) [EvPending; EvChunk (lit "llo")]) ->
         Response.create (hello_lazy (Some (lit "he")) [EvPending; EvChunk (lit "llo")]) false
         = Response.create p' false)
    | _ => False
    end.
Proof.
  apply (segments_do_not_matter hello_stream in_one_piece None None
           (Ok (hello_lazy (Some (lit "he")) [EvPending; EvChunk (lit "llo")])) false);
    [exact hello_same|vm_compute; reflexivity].
Defined.

(** It does matter when there are more bytes than announced: a build that checks for
    overflow panics or not. *)
Example more_than_announced :
  same_bytes [EvChunk (lit "he"); EvChunk (lit "llo")] [EvChunk (lit "hello")] /\
  @Response.create default_build (lazy (ContentLength 2) None [EvChunk (lit "he"); EvChunk (lit "llo")])
    false = Some (Ok (loaded_as (lit "he"))) /\
  @Response.create default_build (lazy (ContentLength 2) None [EvChunk (lit "hello")]) false
  = Some Panic.
Proof. split_and!; vm_compute; reflexivity. Qed.

(** And it matters for chunks. *)
Example chunks_depend_on_pieces :
  let body := lit "5" ++ CRLF ++ lit "hello" ++ last_chunk in
  same_bytes (Chunks.singles (body, None)) [EvChunk body] /\
  Response.body <$> (r ← @Response.create default_build
                           (lazy (Chunked true 0 0) None (Chunks.singles (body, None))) false;
                     match r with Ok r => Some r | _ => None end) = Some (lit "hello") /\
  Response.body <$> (r ← @Response.create default_build
                           (lazy (Chunked true 0 0) None [EvChunk body]) false;
                     match r with Ok r => Some r | _ => None end) = Some [].
Proof. split_and!; vm_compute; reflexivity. Qed.
End SegmentExamples.
