(* ===== verification/Runtime.v ===== *)
(** The runtime the client runs on: sockets, name resolution, the clock and TLS
    sessions, which are code of other crates, and the monad of the programs that
    use them. *)

From S2P Require Import Prelude.
From S2P Require Import Errors.
From S2P Require Import Lines.
From S2P Require Import Roots.

(** * What tokio, the TLS library and the system provide

    An operation is known by what it answers in a state of the outside world and
    the state it leaves. Times are in nanoseconds. *)
Class Runtime : Type := {
  World : Type;
  SocketAddr : Type;
  TcpStream : Type;
  TlsStream : Type;
  (** [Instant::now], and the last instant that can be represented *)
  now : World -> N;
  instant_MAX : N;
  (** [ToSocketAddrs::to_socket_addrs] on a host and a port *)
  to_socket_addrs : text -> N -> World -> io_result (list SocketAddr) * World;
  (** [TcpStream::connect], [writable], [try_write], [write_all], [flush] and
      [read] with the size of the buffer *)
  tcp_stream_connect : SocketAddr -> World -> io_result TcpStream * World;
  tcp_writable : TcpStream -> World -> io_result unit * World;
  tcp_try_write : TcpStream -> bytes -> World -> io_result N * World;
  tcp_write_all : TcpStream -> bytes -> World -> io_result unit * World;
  tcp_flush : TcpStream -> World -> io_result unit * World;
  tcp_read : TcpStream -> N -> World -> io_result bytes * World;
  (** everything the connection will still deliver, and the world once the head of
      a response has been read from it *)
  received : TcpStream -> World -> HttpStreamBytes;
  head_read : TcpStream -> World -> World;
  (** certificates, and the static variables of the program as a part of the world *)
  runtime_roots :: RootStore;
  statics : World -> Statics;
  set_statics : Statics -> World -> World;
  (** the connector of the native TLS library, the check of a server name by rustls,
      the handshake for a host, with the trusted roots if rustls makes it, and
      [write_all] *)
  native_connector : World -> io_result unit * World;
  tls_server_name : text -> World -> io_result unit * World;
  tls_handshake : option (list Certificate) -> text -> TcpStream -> World ->
    io_result TlsStream * World;
  tls_write_all : TlsStream -> bytes -> World -> io_result unit * World;
  (** of a run from the first world to the second, which goes past a deadline:
      whether it waits for something at the deadline or behind it, and the world it
      leaves when it is dropped there *)
  suspended : World -> World -> N -> bool;
  cancelled : World -> World -> N -> World;
}.

Section Monad.
Context `{Runtime}.

(** A program: a result and the world it leaves, or [None] when the fuel of one of
    its loops is not enough. *)
Definition M (A : Type) : Type := World -> option (result A * World).

#[export] Instance M_ret : MRet M := fun _ a w => Some (Ok a, w).
#[export] Instance M_bind : MBind M := fun _ _ f m w =>
  match m w with
  | Some (Ok a, w') => f a w'
  | Some (Err e, w') => Some (Err e, w')
  | Some (Panic, w') => Some (Panic, w')
  | None => None
  end.

(** A result already known. *)
Definition known {A} (r : result A) : M A := fun w => Some (r, w).

(** A computation that has its own fuel. *)
Definition computed {A} (o : option (result A)) : M A := fun w =>
  match o with Some r => Some (r, w) | None => None end.

Definition out_of_fuel {A} : M A := fun _ => None.

(** An operation followed by [?]. *)
Definition call {A} (op : World -> io_result A * World) : M A := fun w =>
  let '(r, w') := op w in Some (from_io r, w').

(** An operation whose result is looked at. *)
Definition attempt {A} (op : World -> io_result A * World) : M (io_result A) := fun w =>
  let '(r, w') := op w in
  match r with Panic => Some (Panic, w') | r => Some (Ok r, w') end.

(** An operation followed by [map_err(|e| io::Error::new(ErrorKind::Other, e))?]. *)
Definition call_other {A} (op : World -> io_result A * World) : M A := fun w =>
  let '(r, w') := op w in
  Some (from_io (map_err (fun e => mkIoError Other_kind (io_message e)) r), w').

(** [tokio::time::timeout]: [elapsed] when the program is not done in time. The
    timer is looked at when the program waits: a program that is late without
    waiting any more is not stopped. *)
Definition timeout {A} (duration : N) (m : M A) (elapsed : result A) : M A := fun w =>
  let deadline := now w + duration in
  match m w with
  | Some (r, w') =>
      if (now w' <=? deadline) || negb (suspended w w' deadline) then Some (r, w')
      else Some (elapsed, cancelled w w' deadline)
  | None => None
  end.

Lemma M_bind_Some {A B} (m : M A) (f : A -> M B) w b w' :
  (m ≫= f) w = Some (Ok b, w') -> exists a w1, m w = Some (Ok a, w1) /\ f a w1 = Some (Ok b, w').
Proof.
  unfold mbind, M_bind. destruct (m w) as [[[a| |] w1]|]; [|done..]. intros Hf. by exists a, w1.
Qed.

Lemma M_bind_Err {A B} (m : M A) (f : A -> M B) w e w' :
  (m ≫= f) w = Some (Err e, w') ->
  m w = Some (Err e, w') \/ exists a w1, m w = Some (Ok a, w1) /\ f a w1 = Some (Err e, w').
Proof.
  unfold mbind, M_bind. destruct (m w) as [[[a|e'|] w1]|]; [|intros [= -> ->]; by left|done..].
  intros Hf. right. by exists a, w1.
Qed.

Lemma M_bind_ok {A B} (m : M A) (f : A -> M B) w a w1 :
  m w = Some (Ok a, w1) -> (m ≫= f) w = f a w1.
Proof. intros Hm. unfold mbind, M_bind. by rewrite Hm. Qed.

Lemma M_bind_fail {A B} (m : M A) (f : A -> M B) w e w' :
  m w = Some (Err e, w') -> (m ≫= f) w = Some (Err e, w').
Proof. intros Hm. unfold mbind, M_bind. by rewrite Hm. Qed.

Lemma timeout_Ok {A} d (m : M A) elapsed w a w' :
  timeout d m elapsed w = Some (Ok a, w') ->
  elapsed = Ok a \/
  m w = Some (Ok a, w') /\ (now w' <= now w + d \/ suspended w w' (now w + d) = false).
Proof.
  unfold timeout. destruct (m w) as [[r w1]|]; [|done]. destruct (_ || _) eqn:E.
  - intros [= -> ->]. right. split; [done|].
    apply orb_true_iff in E as [?|?%negb_true_iff]; [left; by btest|by right].
  - intros [= -> _]. by left.
Qed.

(** Programs that do the same before the deadline and after. *)
Lemma timeout_ext {A} d (m m' : M A) elapsed w :
  m w = m' w -> timeout d m elapsed w = timeout d m' elapsed w.
Proof. unfold timeout. by intros ->. Qed.

Lemma M_bind_ext {A B} (m m' : M A) (f f' : A -> M B) w :
  m w = m' w -> (forall a w1, m' w = Some (Ok a, w1) -> f a w1 = f' a w1) ->
  (m ≫= f) w = (m' ≫= f') w.
Proof.
  unfold mbind, M_bind. intros -> Hf. destruct (m' w) as [[[a| |] w1]|]; [|done..]. by apply Hf.
Qed.
(** Programs that answer, in every world they can be started in. *)
Definition answers {A} (m : M A) : Prop := forall w, is_Some (m w).

Lemma answers_bind {A B} (m : M A) (f : A -> M B) :
  answers m -> (forall a, answers (f a)) -> answers (m ≫= f).
Proof.
  intros Hm Hf w. unfold mbind, M_bind. destruct (Hm w) as [[[a| |] w'] ->]; [apply Hf|done..].
Qed.

Lemma answers_ret {A} (a : A) : answers (mret (M:=M) a).
Proof. intros w. by eexists. Qed.
Lemma answers_known {A} (r : result A) : answers (known r).
Proof. intros w. by eexists. Qed.
Lemma answers_call {A} (op : World -> io_result A * World) : answers (call op).
Proof. intros w. unfold call. destruct (op w). by eexists. Qed.
Lemma answers_call_other {A} (op : World -> io_result A * World) : answers (call_other op).
Proof. intros w. unfold call_other. destruct (op w). by eexists. Qed.
Lemma answers_attempt {A} (op : World -> io_result A * World) : answers (attempt op).
Proof. intros w. unfold attempt. destruct (op w) as [[] ?]; by eexists. Qed.
Lemma answers_timeout {A} d (m : M A) elapsed : answers m -> answers (timeout d m elapsed).
Proof.
  intros Hm w. unfold timeout. destruct (Hm w) as [[r w'] ->]. destruct (_ || _); by eexists.
Qed.
End Monad.

#[export] Hint Resolve answers_bind answers_ret answers_known answers_call answers_call_other
  answers_attempt answers_timeout : minreq.
