(* ===== verification/Connections.v ===== *)
(** [src/connection.rs]: timeouts, name resolution and proxies, sending a request
    and following redirections. *)

From S2P Require Import Prelude.
From S2P Require Import Text.
From S2P Require Import Strings.
From S2P Require Import Numbers.
From S2P Require Import Errors.
From S2P Require Import Url.
From S2P Require Import Proxies.
From S2P Require Import Requests.
From S2P Require Import Lines.
From S2P Require Import Metadata.
From S2P Require Import Bodies.
From S2P Require Import Roots.
From S2P Require Import Runtime.

Definition timeout_err : io_error :=
  mkIoError TimedOut (lit "the timeout of the request was reached").

(** [current] is [Instant::now()]. *)
Definition timeout_at_to_duration (current : N) (timeout_at : option N) : io_result (option N) :=
  match timeout_at with
  | Some timeout_at =>
      if current <=? timeout_at then Ok (Some (timeout_at - current)) else Err timeout_err
  | None => Ok None
  end.

(** [Duration::from_secs], in nanoseconds. *)
Definition from_secs (secs : N) : N := secs * 10 ^ 9.

Section Hosts.
Context `{Build} `{Externals}.

(** The loop over the labels of a host, [acc] so far. *)
Fixpoint ascii_labels (acc : text) (labels : list text) : result text :=
  match labels with
  | [] => Ok acc
  | s :: labels =>
      if is_ascii s then ascii_labels (acc ++ s ++ [ch "."]) labels
      else
        match punycode_encode s with
        | Some s => ascii_labels (acc ++ lit "xn--" ++ s ++ [ch "."]) labels
        | None => Err PunycodeConversionFailed
        end
  end.

(** The dot behind the last label is removed again. *)
Definition ensure_ascii_host (host : text) : result text :=
  if is_ascii host then Ok host
  else if feature_punycode then
    acc ← ascii_labels [] (split_on (ch ".") host);
    Ok (take (length acc - 1) acc)
  else Err PunycodeFeatureNotEnabled.
End Hosts.

Module Connection.
Record Connection : Type := mkConnection {
  request : ParsedRequest.ParsedRequest;
  timeout_at : option N;
}.

Inductive NextHop : Type :=
| Redirect (connection : result Connection)
| Destination (connection : Connection).

Definition url (self : Connection) : HttpUrl.HttpUrl := ParsedRequest.url (request self).
Definition config (self : Connection) : Request.Request := ParsedRequest.config (request self).

(** [self.request.url.host = host]. *)
Definition set_host (self : Connection) (host : text) : Connection :=
  let u := url self in
  mkConnection
    (ParsedRequest.mkParsedRequest
       (HttpUrl.mkHttpUrl (HttpUrl.https u) host (HttpUrl.port u) (HttpUrl.path_and_query u)
          (HttpUrl.fragment u))
       (ParsedRequest.redirects (request self)) (config self))
    (timeout_at self).

(** [connection.request.config.method = method]. *)
Definition set_method (self : Connection) (method : Method.Method) : Connection :=
  mkConnection
    (ParsedRequest.mkParsedRequest (url self) (ParsedRequest.redirects (request self))
       (Request.set_method (config self) method))
    (timeout_at self).

(** The method of the request that follows a [303 See Other]. *)
Definition see_other_method (m : Method.Method) : Method.Method :=
  match m with
  | Method.Post | Method.Put | Method.Delete => Method.Get
  | m => m
  end.

Definition is_redirect (status_code : Z) : bool :=
  (status_code =? 301)%Z || (status_code =? 302)%Z || (status_code =? 303)%Z
  || (status_code =? 307)%Z.

Section Hops.
Context `{Build}.

Definition get_redirect (connection : Connection) (status_code : Z) (location : option text)
    : NextHop :=
  if is_redirect status_code then
    match location with
    | None => Redirect (Err RedirectLocationMissing)
    | Some location =>
        match ParsedRequest.redirect_to (request connection) location with
        | (Ok _, request) =>
            let connection := mkConnection request (timeout_at connection) in
            let connection :=
              if (status_code =? 303)%Z
              then set_method connection (see_other_method (Request.method (config connection)))
              else connection in
            Redirect (Ok connection)
        | (Err err, _) => Redirect (Err err)
        | (Panic, _) => Redirect Panic
        end
    end
  else Destination connection.
End Hops.

(** What the bytes of a response are read from. *)
Inductive HttpStream `{Runtime} : Type :=
| Unsecured (stream : TcpStream) (timeout_at : option N)
| Secured (stream : TlsStream) (timeout_at : option N).

Section Connection.
Context `{Build} `{Externals} `{Environment} `{HashOrder} `{Runtime}.

(** [AsyncRead::poll_read] for [HttpStream]: a plain stream answers as the TCP
    stream does; for any other there is a [todo!()]. *)
Definition poll_read (self : HttpStream) (w : World) : result HttpStreamBytes :=
  match self with
  | Unsecured stream _ => Ok (received stream w)
  | Secured _ _ => Panic
  end.

(** Reading the head of a response. It begins with a read. *)
Definition from_stream (stream : HttpStream) (max_headers_size max_status_line_len : option N)
    : M ResponseLazy.ResponseLazy := fun w =>
  match poll_read stream w with
  | Ok s =>
      r ← ResponseLazy.from_stream s max_headers_size max_status_line_len;
      Some (r, match stream with Unsecured tcp _ => head_read tcp w | Secured _ _ => w end)
  | Err e => Some (Err e, w)
  | Panic => Some (Panic, w)
  end.

(** The timeout of the request, in seconds, else that of the environment. *)
Definition effective_timeout (request : ParsedRequest.ParsedRequest) : option N :=
  match Request.timeout (ParsedRequest.config request) with
  | Some t => Some t
  | None => t ← env_var (lit "MINREQ_TIMEOUT"); parse_u64 t
  end.

(** [Connection::new]; [Instant + Duration] panics when it overflows. *)
Definition new (request : ParsedRequest.ParsedRequest) : M Connection := fun w =>
  match effective_timeout request with
  | Some t =>
      let at_ := now w + from_secs t in
      if at_ <=? instant_MAX then Some (Ok (mkConnection request (Some at_)), w)
      else Some (Panic, w)
  | None => Some (Ok (mkConnection request None), w)
  end.

(** [self.timeout()?]. *)
Definition remaining (self : Connection) : M (option N) := fun w =>
  Some (from_io (timeout_at_to_duration (now w) (timeout_at self)), w).

(** One attempt to connect, within the time that remains. *)
Definition connect_attempt (self : Connection) (addr : SocketAddr) : M (io_result TcpStream) :=
  duration ← remaining self;
  match duration with
  | Some duration =>
      Runtime.timeout duration (attempt (tcp_stream_connect addr)) (Ok (Err timeout_err))
  | None => attempt (tcp_stream_connect addr)
  end.

(** The loop over the resolved addresses, from the [i]-th. *)
Fixpoint try_addrs (self : Connection) (addrs_count i : N) (addrs : list SocketAddr)
    : M TcpStream :=
  match addrs with
  | [] => known (Err AddressNotFound)
  | addr :: addrs =>
      stream ← connect_attempt self addr;
      if is_ok stream || (i =? addrs_count - 1) then known (from_io stream)
      else try_addrs self addrs_count (i + 1) addrs
  end.

Definition tcp_connect (self : Connection) (host : text) (port : N) : M TcpStream :=
  addrs ← call (to_socket_addrs host port);
  try_addrs self (len addrs) 0 addrs.

(** The loop that reads a proxy's answer: the whole buffer of 256 bytes is kept,
    zeros behind the bytes read included. *)
Fixpoint read_proxy_response (fuel : nat) (tcp : TcpStream) (proxy_response : bytes) : M bytes :=
  match fuel with
  | O => out_of_fuel
  | S fuel' =>
      data ← call (tcp_read tcp 256);
      let total := len data in
      let proxy_response := proxy_response ++ data ++ replicate (256 - length data) 0 in
      if total <? 256 then mret proxy_response
      else read_proxy_response fuel' tcp proxy_response
  end.

Definition connect_direct (self : Connection) : M TcpStream :=
  tcp_connect self (HttpUrl.host (url self)) (Port.port (HttpUrl.port (url self))).

(** [fuel] bounds the number of reads of the proxy's answer. *)
Definition connect (fuel : nat) (self : Connection) : M TcpStream :=
  if feature_proxy then
    match Request.proxy (config self) with
    | Some proxy =>
        tcp ← tcp_connect self (Proxy.server proxy) (Proxy.port proxy mod 2 ^ 16);
        let connect_payload := Proxy.connect proxy (request self) in
        call_other (tcp_write_all tcp (utf8 connect_payload));;
        call (tcp_flush tcp);;
        proxy_response ← read_proxy_response fuel tcp [];
        known (Proxy.verify_response proxy_response);;
        mret tcp
    | None => connect_direct self
    end
  else connect_direct self.

(** The loop that writes the request: repeated while the socket would block, left
    after the first write, whatever it wrote. *)
Fixpoint write_request (fuel : nat) (tcp : TcpStream) (b : bytes) : M unit :=
  match fuel with
  | O => out_of_fuel
  | S fuel' =>
      call (tcp_writable tcp);;
      r ← attempt (tcp_try_write tcp b);
      match r with
      | Ok _ => mret tt
      | Err e =>
          if decide (io_kind e = WouldBlock) then write_request fuel' tcp b
          else known (Err (IoError e))
      | Panic => known Panic
      end
  end.

(** [response.url], written at the destination. *)
Definition with_url (response : ResponseLazy.ResponseLazy) (u : HttpUrl.HttpUrl)
    : ResponseLazy.ResponseLazy :=
  ResponseLazy.set_url response
    (HttpUrl.write_resource_to u (HttpUrl.write_base_url_to u (ResponseLazy.url response))).

(** The functions below call each other through [handle_redirects]; [next_hop] is
    the call it makes for the next URL, [fuel] that of the loops above. *)
Section Send.
Variable fuel : nat.
Variable next_hop : Connection -> M ResponseLazy.ResponseLazy.

Definition handle_redirects (connection : Connection) (response : ResponseLazy.ResponseLazy)
    : M ResponseLazy.ResponseLazy :=
  let status_code := ResponseLazy.status_code response in
  let url_ := ResponseLazy.headers response !! lit "location" in
  match get_redirect connection status_code url_ with
  | Redirect connection => connection ← known connection; next_hop connection
  | Destination connection => mret (with_url response (url connection))
  end.

Definition send_without_timeout (self : Connection) : M ResponseLazy.ResponseLazy :=
  host ← known (ensure_ascii_host (HttpUrl.host (url self)));
  let self := set_host self host in
  let bytes := ParsedRequest.as_bytes (request self) in
  tcp ← connect fuel self;
  write_request fuel tcp bytes;;
  let stream := Unsecured tcp (timeout_at self) in
  response ← from_stream stream (Request.max_headers_size (config self))
               (Request.max_status_line_len (config self));
  handle_redirects self response.

Definition with_remaining (self : Connection) (m : M ResponseLazy.ResponseLazy)
    : M ResponseLazy.ResponseLazy :=
  duration ← remaining self;
  match duration with
  | None => m
  | Some duration => Runtime.timeout duration m (Err (IoError timeout_err))
  end.

Definition send (self : Connection) : M ResponseLazy.ResponseLazy :=
  with_remaining self (send_without_timeout self).

(** [TlsConnector::from(CONFIG.clone())]: the roots it trusts. *)
Definition rustls_connector : M (list Certificate) := fun w =>
  let '(r, st) := force_config (statics w) in Some (r, set_statics st w).

(** The two TLS libraries wrap their errors at different calls. *)
Definition tls_session (roots : option (list Certificate)) (host : text) (tcp : TcpStream)
    : M TlsStream :=
  if feature_rustls then call (tls_handshake roots host tcp)
  else call_other (tls_handshake roots host tcp).

Definition send_https_without_timeout (self : Connection) : M ResponseLazy.ResponseLazy :=
  host ← known (ensure_ascii_host (HttpUrl.host (url self)));
  let self := set_host self host in
  let bytes := ParsedRequest.as_bytes (request self) in
  roots ←
    (if feature_rustls then
       call_other (tls_server_name host);; roots ← rustls_connector; mret (Some roots)
     else mret None);
  tcp ← connect fuel self;
  tls ← tls_session roots host tcp;
  call (tls_write_all tls bytes);;
  let stream := Secured tls (timeout_at self) in
  response ← from_stream stream (Request.max_headers_size (config self))
               (Request.max_status_line_len (config self));
  handle_redirects self response.

(** With rustls the connector is made inside the timeout, with the native library
    before it. *)
Definition send_https (self : Connection) : M ResponseLazy.ResponseLazy :=
  if feature_rustls then with_remaining self (send_https_without_timeout self)
  else
    duration ← remaining self;
    call_other native_connector;;
    match duration with
    | Some duration =>
        Runtime.timeout duration (send_https_without_timeout self) (Err (IoError timeout_err))
    | None => send_https_without_timeout self
    end.

(** The choice by the scheme of the URL. *)
Definition send_by_scheme (self : Connection) : M ResponseLazy.ResponseLazy :=
  if HttpUrl.https (url self) then
    if feature_tls then send_https self else known (Err HttpsFeatureNotEnabled)
  else send self.
End Send.

(** [hops] requests of a chain of redirections. *)
Fixpoint send_chain (fuel hops : nat) (self : Connection) : M ResponseLazy.ResponseLazy :=
  match hops with
  | O => out_of_fuel
  | S hops => send_by_scheme fuel (send_chain fuel hops) self
  end.

(** Enough requests for a chain: the first one and one for every redirection that
    is still allowed. *)
Definition chain_hops (self : Connection) : nat :=
  S (N.to_nat (Request.max_redirects (config self) - len (ParsedRequest.redirects (request self)))).
End Connection.
End Connection.

(** * [Request::send] and [Request::send_lazy] *)

Module Client.
Section Client.
Context `{Build} `{Externals} `{Environment} `{HashOrder} `{Runtime}.

(** The part both share: a new connection to the server of the URL; [fuel] is that
    of the loops of a connection. *)
Definition send_parsed (fuel : nat) (parsed_request : ParsedRequest.ParsedRequest)
    : M ResponseLazy.ResponseLazy :=
  if HttpUrl.https (ParsedRequest.url parsed_request) then
    if feature_tls then
      connection ← Connection.new parsed_request;
      Connection.send_https fuel
        (Connection.send_chain fuel (pred (Connection.chain_hops connection))) connection
    else known (Err HttpsFeatureNotEnabled)
  else
    connection ← Connection.new parsed_request;
    Connection.send fuel
      (Connection.send_chain fuel (pred (Connection.chain_hops connection))) connection.

Definition send_lazy (fuel : nat) (self : Request.Request) : M ResponseLazy.ResponseLazy :=
  parsed_request ← known (ParsedRequest.new self);
  send_parsed fuel parsed_request.

Definition send (fuel : nat) (self : Request.Request) : M Response.Response :=
  parsed_request ← known (ParsedRequest.new self);
  let is_head :=
    bool_decide (Request.method (ParsedRequest.config parsed_request) = Method.Head) in
  response ← send_parsed fuel parsed_request;
  computed (Response.create response is_head).
End Client.
End Client.
