(* ===== verification/Chains.v ===== *)
(** Theorems about [src/connection.rs]: redirections and the end of their chain, https,
    deadlines, connecting, writing, ASCII hosts, and what [Request::send] makes of it. *)

From S2P Require Import Prelude.
From S2P Require Import Text.
From S2P Require Import Strings.
From S2P Require Import Numbers.
From S2P Require Import Errors.
From S2P Require Import Url.
From S2P Require Import Proxies.
From S2P Require Import Requests.
From S2P Require Import Lines.
From S2P Require Import Metadata.
From S2P Require Import Bodies.
From S2P Require Import Loading.
From S2P Require Import Roots.
From S2P Require Import Runtime.
From S2P Require Import Connections.

(** * Facts *)

Module ConnectionFacts.
Import Connection.

(** ** Redirections *)

Section HopFacts.
Context `{Build}.

(** The statuses whose [Location] is followed. *)
Definition redirect_status (code : Z) : Prop := (code = 301 \/ code = 302 \/ code = 303 \/ code = 307)%Z.

(** The request [c'] follows [c] behind an answer with this status and this [Location]:
    it is the same but for its URL, a URL not visited before, and, behind a 303, for
    POST, PUT and DELETE, which become GET. *)
Record follows (c : Connection) (code : Z) (location : text) (c' : Connection) : Prop := {
  follows_code : redirect_status code;
  follows_url : ParsedRequest.redirect_target (request c) location = Ok (url c');
  follows_timeout : timeout_at c' = timeout_at c;
  follows_config :
    config c' = Request.set_method (config c)
      (if (code =? 303)%Z then see_other_method (Request.method (config c))
       else Request.method (config c));
  follows_redirects :
    ParsedRequest.redirects (request c') = ParsedRequest.redirects (request c) ++ [url c];
  follows_limit : len (ParsedRequest.redirects (request c')) <= Request.max_redirects (config c);
  follows_new : url c' ∉ ParsedRequest.redirects (request c');
}.

Lemma is_redirect_true code : is_redirect code = true <-> redirect_status code.
Proof. unfold is_redirect, redirect_status. rewrite !orb_true_iff, !Z.eqb_eq. tauto. Qed.

Lemma is_redirect_false code : is_redirect code = false <-> ~ redirect_status code.
Proof. rewrite <- is_redirect_true. by destruct (is_redirect code). Qed.

Lemma get_redirect_cases c code location :
  match get_redirect c code location with
  | Destination c' => c' = c /\ ~ redirect_status code
  | Redirect (Ok c') => exists loc, location = Some loc /\ follows c code loc c'
  | Redirect (Err e) =>
      redirect_status code /\
      (location = None /\ e = RedirectLocationMissing \/
       exists loc, location = Some loc /\ (ParsedRequest.redirect_to (request c) loc).1 = Err e)
  | Redirect Panic => False
  end.
Proof.
  unfold get_redirect. destruct (is_redirect code) eqn:E.
  2: { split; [done|]. by apply is_redirect_false. }
  apply is_redirect_true in E. destruct location as [loc|]; [|by split; [|left]].
  pose proof (RequestFacts.redirect_to_no_panic (request c) loc) as Hp.
  destruct (ParsedRequest.redirect_to (request c) loc) as [[[]|e|] r] eqn:Er; [| |done].
  2: { split; [done|]. right. exists loc. by rewrite Er. }
  apply RequestFacts.redirect_to_ok in Er as (Ht & Hrs & Hc & Hlen & Hnew).
  exists loc. split; [done|].
  destruct (code =? 303)%Z eqn:E303; (split; simpl; unfold config, url; rewrite ?E303; simpl).
  all: try done; unfold config; simpl; rewrite Hc; by destruct (ParsedRequest.config (request c)).
Qed.


(** The redirections a connection may still follow. *)
Definition hops_left (c : Connection) : N :=
  Request.max_redirects (config c) - len (ParsedRequest.redirects (request c)).

Lemma get_redirect_next c code location c' :
  get_redirect c code location = Redirect (Ok c') ->
  hops_left c' < hops_left c /\ timeout_at c' = timeout_at c.
Proof.
  intros Hg. pose proof (get_redirect_cases c code location) as Hc. rewrite Hg in Hc.
  destruct Hc as (loc & _ & [_ _ Ht Hcfg Hrs Hlen _]). split; [|done].
  unfold hops_left. rewrite Hcfg, Hrs in *. autorewrite with len in *.
  change (Request.max_redirects (Request.set_method ?r _)) with (Request.max_redirects r). lia.
Qed.

Lemma hops_left_set_host c host : hops_left (set_host c host) = hops_left c.
Proof. done. Qed.
End HopFacts.

Section Chain.
Context `{Build} `{Externals} `{Environment} `{HashOrder} `{Runtime}.

(** ** The end of a chain *)

(** The functions of a connection look at [next_hop] only where a redirection is
    followed, and there fewer redirections are left. *)
Definition agree (c : Connection) (k k' : Connection -> M ResponseLazy.ResponseLazy) : Prop :=
  forall c' w, hops_left c' < hops_left c -> k c' w = k' c' w.

Lemma handle_redirects_agree k k' c response w :
  agree c k k' -> handle_redirects k c response w = handle_redirects k' c response w.
Proof.
  intros Hk. unfold handle_redirects.
  destruct (get_redirect _ _ _) as [[c'|e|]|c'] eqn:E; [|done..].
  apply Hk. by apply get_redirect_next in E as [? _].
Qed.

Ltac agree_step :=
  first [ apply M_bind_ext; [|intros ? ? ?] | apply timeout_ext ].

Lemma send_without_timeout_agree fuel k k' c w :
  agree c k k' -> send_without_timeout fuel k c w = send_without_timeout fuel k' c w.
Proof.
  intros Hk. unfold send_without_timeout. repeat (agree_step; try done).
  by apply handle_redirects_agree.
Qed.

Lemma send_https_without_timeout_agree fuel k k' c w :
  agree c k k' -> send_https_without_timeout fuel k c w = send_https_without_timeout fuel k' c w.
Proof.
  intros Hk. unfold send_https_without_timeout. by repeat (agree_step; try done).
Qed.

Lemma send_by_scheme_agree fuel k k' c w :
  agree c k k' -> send_by_scheme fuel k c w = send_by_scheme fuel k' c w.
Proof.
  intros Hk. unfold send_by_scheme, send_https, send, with_remaining.
  pose proof (fun w => send_without_timeout_agree fuel k k' c w Hk) as H1'.
  pose proof (fun w => send_https_without_timeout_agree fuel k k' c w Hk) as H2'.
  repeat case_match; try done; repeat (agree_step; try done); case_match; try done;
    by apply timeout_ext.
Qed.

Lemma send_chain_enough fuel hops c w :
  (N.to_nat (hops_left c) < hops)%nat ->
  send_chain fuel hops c w = send_chain fuel (chain_hops c) c w.
Proof.
  unfold chain_hops. fold (hops_left c).
  remember (N.to_nat (hops_left c)) as n eqn:En.
  revert hops c w En. induction n as [n IH] using lt_wf_ind. intros [|hops] c w -> Hlt; [lia|].
  cbn [send_chain]. apply send_by_scheme_agree. intros c' w' Hc'.
  assert (N.to_nat (hops_left c') < N.to_nat (hops_left c))%nat as Hlt' by lia.
  rewrite (IH _ Hlt' hops) by (done || lia). symmetry. by apply (IH _ Hlt').
Qed.

(** The loops of a connection end within the fuel: no socket says it is writable
    and then would block, and no proxy sends buffers full of answer, that often in a
    row. *)
Record loops_end (fuel : nat) : Prop := {
  write_ends : forall tcp b, answers (write_request fuel tcp b);
  proxy_ends : forall tcp acc, answers (read_proxy_response fuel tcp acc);
}.

Lemma remaining_answers c : answers (remaining c).
Proof. intros w. by eexists. Qed.

Lemma connect_attempt_answers c addr : answers (connect_attempt c addr).
Proof.
  unfold connect_attempt. apply answers_bind; [apply remaining_answers|].
  intros [d|]; eauto with minreq.
Qed.

Lemma tcp_connect_answers c host port : answers (tcp_connect c host port).
Proof.
  apply answers_bind; [eauto with minreq|]. intros addrs. generalize 0, (len addrs).
  induction addrs as [|addr addrs IH]; intros i n; [apply answers_known|].
  apply answers_bind; [apply connect_attempt_answers|]. intros stream.
  destruct (_ || _); [apply answers_known|apply IH].
Qed.

Lemma connect_answers fuel c : loops_end fuel -> answers (connect fuel c).
Proof.
  intros [_ Hp]. unfold connect, connect_direct. pose proof tcp_connect_answers.
  destruct feature_proxy; [|done]. destruct (Request.proxy (config c)); [|done].
  eauto 10 with minreq.
Qed.

Lemma from_stream_answers stream mh ms : answers (from_stream stream mh ms).
Proof.
  intros w. unfold from_stream. destruct (poll_read stream w) as [s| |]; [|by eexists..].
  unfold ResponseLazy.from_stream.
  pose proof (MetadataFacts.read_metadata_spec s mh ms) as Hs.
  destruct (MetadataFacts.metadata_spec_total (flat s) mh ms) as [x Hx]. rewrite Hx in Hs.
  destruct (read_metadata s mh ms) as [[r s']|]; [by eexists|done].
Qed.

(** [k] answers wherever fewer redirections are left than for [c]. *)
Definition answers_below (c : Connection) (k : Connection -> M ResponseLazy.ResponseLazy) : Prop :=
  forall c', hops_left c' < hops_left c -> answers (k c').

Lemma handle_redirects_answers k c response :
  answers_below c k -> answers (handle_redirects k c response).
Proof.
  intros Hk. unfold handle_redirects.
  destruct (get_redirect _ _ _) as [[c'|e|]|c'] eqn:E; intros w; [|by eexists..].
  apply Hk. by apply get_redirect_next in E as [? _].
Qed.

Lemma send_without_timeout_answers fuel k c :
  loops_end fuel -> answers_below c k -> answers (send_without_timeout fuel k c).
Proof.
  intros Hf Hk. apply answers_bind; [apply answers_known|]. intros host.
  apply answers_bind; [by apply connect_answers|]. intros tcp.
  apply answers_bind; [by apply write_ends|]. intros _.
  apply answers_bind; [apply from_stream_answers|]. intros response.
  by apply handle_redirects_answers.
Qed.

Lemma rustls_connector_answers : answers rustls_connector.
Proof. intros w. unfold rustls_connector. destruct (force_config _). by eexists. Qed.

Lemma send_https_without_timeout_answers fuel k c :
  loops_end fuel -> answers_below c k -> answers (send_https_without_timeout fuel k c).
Proof.
  intros Hf Hk. apply answers_bind; [apply answers_known|]. intros host.
  apply answers_bind.
  { pose proof rustls_connector_answers. destruct feature_rustls; eauto 10 with minreq. }
  intros roots.
  apply answers_bind; [by apply connect_answers|]. intros tcp.
  apply answers_bind; [unfold tls_session; destruct feature_rustls; eauto with minreq|].
  intros tls. apply answers_bind; [eauto with minreq|]. intros _.
  apply answers_bind; [apply from_stream_answers|]. intros response.
  by apply handle_redirects_answers.
Qed.

Lemma send_by_scheme_answers fuel k c :
  loops_end fuel -> answers_below c k -> answers (send_by_scheme fuel k c).
Proof.
  intros Hf Hk. unfold send_by_scheme, send_https, send, with_remaining.
  pose proof (send_without_timeout_answers fuel k c Hf Hk).
  pose proof (send_https_without_timeout_answers fuel k c Hf Hk).
  pose proof (remaining_answers c).
  repeat (case_match || (apply answers_bind; [done|intros]) || eauto with minreq).
Qed.

(** C7. A chain of redirections ends, whatever the servers answer, when the loops that
    wait for sockets and proxies end: sending a request gives a response, an error or a
    panic. Every redirection that is followed nests the next request in the one before;
    [hops] is the number of nested requests that the stack has room for. Room for one
    more than the redirections still allowed is enough, and more room makes no
    difference. (The documentation of [with_max_redirects] warns that about 1000 may be
    more than the stack of a thread holds.) *)
Theorem send_chain_ends fuel hops c w :
  loops_end fuel -> (chain_hops c <= hops)%nat ->
  is_Some (send_chain fuel hops c w) /\
  send_chain fuel hops c w = send_chain fuel (chain_hops c) c w.
Proof.
  intros Hf Hh. unfold chain_hops in Hh. fold (hops_left c) in Hh.
  rewrite send_chain_enough by lia. split; [|done].
  unfold chain_hops. fold (hops_left c).
  remember (N.to_nat (hops_left c)) as n eqn:En. clear Hh hops.
  revert c w En. induction n as [n IH] using lt_wf_ind. intros c w ->.
  apply send_by_scheme_answers; [done|]. intros c' Hc' w'.
  rewrite send_chain_enough by lia. unfold chain_hops. fold (hops_left c').
  apply (IH (N.to_nat (hops_left c'))); [lia|done].
Qed.

(** ** HTTPS *)

Ltac bind_inv H :=
  apply M_bind_Some in H; let a := fresh "a" in let w := fresh "w" in destruct H as (a & w & _ & H).

Lemma https_without_timeout_fails fuel k c w r w' :
  send_https_without_timeout fuel k c w <> Some (Ok r, w').
Proof.
  unfold send_https_without_timeout. intros Hs. do 5 bind_inv Hs.
  apply M_bind_Some in Hs as (a4 & w5 & Hs & _). done.
Qed.

Lemma send_https_fails fuel k c w r w' : send_https fuel k c w <> Some (Ok r, w').
Proof.
  unfold send_https, with_remaining. intros Hs.
  destruct feature_rustls.
  - bind_inv Hs. destruct a as [d|]; [apply timeout_Ok in Hs as [|[Hs _]]; [done|]|];
      by apply https_without_timeout_fails in Hs.
  - do 2 bind_inv Hs. destruct a as [d|]; [apply timeout_Ok in Hs as [|[Hs _]]; [done|]|];
      by apply https_without_timeout_fails in Hs.
Qed.

Lemma send_by_scheme_Ok fuel k c w r w' :
  send_by_scheme fuel k c w = Some (Ok r, w') ->
  HttpUrl.https (url c) = false /\ send fuel k c w = Some (Ok r, w').
Proof.
  unfold send_by_scheme. destruct (HttpUrl.https (url c)); [|done]. destruct feature_tls; [|done].
  intros Hs. by apply send_https_fails in Hs.
Qed.

(** ** What a chain delivers *)

Lemma from_stream_url stream mh ms w p w' :
  from_stream stream mh ms w = Some (Ok p, w') -> ResponseLazy.url p = [].
Proof.
  unfold from_stream. destruct (poll_read stream w) as [s| |]; [|done..].
  unfold ResponseLazy.from_stream. destruct (read_metadata s mh ms) as [[[md| |] s']|]; [|done..].
  by intros [= <- _].
Qed.

(** A request of a chain is made: from the world [w] the connection [c] resolves its
    host to [c1], connects, writes its request, and reads the head [p] of an answer. *)
Inductive asks (fuel : nat) (c : Connection) (w : World)
    : Connection -> ResponseLazy.ResponseLazy -> World -> Prop :=
| asks_intro host c1 tcp w1 w2 p w3 :
    HttpUrl.https (url c) = false ->
    ensure_ascii_host (HttpUrl.host (url c)) = Ok host -> c1 = set_host c host ->
    connect fuel c1 w = Some (Ok tcp, w1) ->
    write_request fuel tcp (ParsedRequest.as_bytes (request c1)) w1 = Some (Ok tt, w2) ->
    from_stream (Unsecured tcp (timeout_at c1)) (Request.max_headers_size (config c1))
      (Request.max_status_line_len (config c1)) w2 = Some (Ok p, w3) ->
    asks fuel c w c1 p w3.

(** A chain of requests from [c]: the last, for the URL [u], is answered by [p], which
    is no redirection; each before it by a redirection to the next. *)
Inductive chain_to (fuel : nat) (c : Connection) (w : World) (u : HttpUrl.HttpUrl)
    (p : ResponseLazy.ResponseLazy) (w' : World) : Prop :=
| chain_last c1 :
    asks fuel c w c1 p w' -> ~ redirect_status (ResponseLazy.status_code p) -> u = url c1 ->
    chain_to fuel c w u p w'
| chain_next c1 p1 w1 location c2 :
    asks fuel c w c1 p1 w1 -> ResponseLazy.headers p1 !! lit "location" = Some location ->
    follows c1 (ResponseLazy.status_code p1) location c2 ->
    chain_to fuel c2 w1 u p w' -> chain_to fuel c w u p w'.

(** The response [r] at the end of a chain: the last answer, with its URL. *)
Definition delivered (fuel : nat) (c : Connection) (w : World) (r : ResponseLazy.ResponseLazy)
    (w' : World) : Prop :=
  exists u p, chain_to fuel c w u p w' /\
    r = ResponseLazy.set_url p (UrlGrammar.display u).

Lemma asks_http fuel c w c1 p w' : asks fuel c w c1 p w' -> HttpUrl.https (url c1) = false.
Proof. by destruct 1; subst. Qed.

Lemma chain_to_http fuel c w u p w' :
  chain_to fuel c w u p w' ->
  HttpUrl.https u = false /\ ~ redirect_status (ResponseLazy.status_code p).
Proof. induction 1 as [? ? ? ? ? c1 Ha%asks_http Hs ->|]; [by split|done]. Qed.

Lemma send_delivers fuel k c w r w' :
  (forall c' w1 r' w2, k c' w1 = Some (Ok r', w2) -> delivered fuel c' w1 r' w2) ->
  HttpUrl.https (url c) = false ->
  send fuel k c w = Some (Ok r, w') -> delivered fuel c w r w'.
Proof.
  intros Hk Hh Hs. unfold send, with_remaining, remaining in Hs.
  apply M_bind_Some in Hs as (a & w0 & Ha & Hs). injection Ha as Ha <-.
  assert (send_without_timeout fuel k c w = Some (Ok r, w')) as Hs'.
  { destruct a as [d|]; [|done]. by apply timeout_Ok in Hs as [|[Hs _]]. }
  clear Hs. unfold send_without_timeout in Hs'.
  apply M_bind_Some in Hs' as (host & w1 & Hhost & Hs'). injection Hhost as Hhost <-.
  apply M_bind_Some in Hs' as (tcp & w2 & Htcp & Hs').
  apply M_bind_Some in Hs' as ([] & w3 & Hw & Hs').
  apply M_bind_Some in Hs' as (p & w5 & Hp & Hs').
  assert (asks fuel c w (set_host c host) p w5) as Hasks by by econstructor.
  apply from_stream_url in Hp. unfold handle_redirects in Hs'.
  pose proof (get_redirect_cases (set_host c host) (ResponseLazy.status_code p)
    (ResponseLazy.headers p !! lit "location")) as Hg.
  destruct (get_redirect _ _ _) as [[c'|e|]|c']; [|done..|].
  - destruct Hg as (loc & Hloc & Hf). apply Hk in Hs' as (u & p' & Hc & ->).
    exists u, p'. split; [by eapply chain_next|done].
  - destruct Hg as [-> Hr]. injection Hs' as <- <-. exists (url (set_host c host)), p.
    split; [by eapply chain_last|]. unfold with_url. by rewrite Hp.
Qed.

Lemma send_chain_delivers fuel hops c w r w' :
  send_chain fuel hops c w = Some (Ok r, w') -> delivered fuel c w r w'.
Proof.
  revert c w r w'. induction hops as [|hops IH]; intros c w r w'; [done|]. cbn [send_chain].
  intros [Hh Hs]%send_by_scheme_Ok. eapply send_delivers; [|done|done].
  intros c' w1 r' w2. apply IH.
Qed.

(** ** Timeouts *)

(** A request that is answered is answered in time, if it waits at all. *)
Lemma send_Ok_in_time fuel k c w t p w' :
  timeout_at c = Some t -> send fuel k c w = Some (Ok p, w') ->
  now w' <= t \/ suspended w w' t = false.
Proof.
  intros Ht. unfold send, with_remaining, remaining, mbind, M_bind, timeout_at_to_duration.
  rewrite Ht. destruct (N.leb_spec (now w) t) as [Hle|Hgt]; simpl; [|done].
  intros [|[_ Hn]]%timeout_Ok; [done|]. by replace (now w + (t - now w)) with t in Hn by lia.
Qed.

(** C17. The timeout of a request bounds all of it: once it has passed, the request
    fails without anything being sent; and a response that is delivered, with all
    redirections, is delivered before, unless the run goes past the end of the
    timeout without waiting for anything any more. *)
Theorem send_meets_deadline fuel k c w t r w' :
  timeout_at c = Some t -> send fuel k c w = Some (r, w') ->
  (t < now w -> r = Err (IoError timeout_err) /\ w' = w) /\
  (forall p, r = Ok p -> now w' <= t \/ suspended w w' t = false).
Proof.
  intros Ht Hs. split; [|intros p ->; by eapply send_Ok_in_time].
  intros Hlate. revert Hs. unfold send, with_remaining, remaining, mbind, M_bind,
    timeout_at_to_duration. rewrite Ht. test_false (now w <=? t). simpl. by intros [= <- <-].
Qed.

(** ** Connecting *)

(** Attempts that all fail, in order, and the world behind the last. *)
Inductive all_fail (c : Connection)
    : list SocketAddr -> World -> list io_error -> World -> Prop :=
| fail_nil w : all_fail c [] w [] w
| fail_cons addr addrs w e w1 es w2 :
    connect_attempt c addr w = Some (Ok (Err e), w1) -> all_fail c addrs w1 es w2 ->
    all_fail c (addr :: addrs) w (e :: es) w2.

(** Without a timeout. *)
Lemma connect_attempt_untimed c addr w :
  timeout_at c = None -> connect_attempt c addr w = attempt (tcp_stream_connect addr) w.
Proof.
  intros Ht. unfold connect_attempt. rewrite (M_bind_ok (remaining c) _ w None w); [done|].
  unfold remaining. by rewrite Ht.
Qed.

Lemma try_addrs_skip c l w es w1 rest n i :
  all_fail c l w es w1 -> rest <> [] -> n = i + len l + len rest ->
  try_addrs c n i (l ++ rest) w = try_addrs c n (i + len l) rest w1.
Proof.
  intros Hf Hne. revert i. induction Hf as [w|addr addrs w e w1 es w2 Ha _ IH]; intros i ->.
  { f_equal. rewrite N.add_0_r. done. }
  cbn [try_addrs app]. rewrite (M_bind_ok _ _ _ _ _ Ha). cbn [is_ok orb].
  assert (0 < len rest) by (destruct rest; [done|autorewrite with len; lia]).
  rewrite (proj2 (N.eqb_neq _ _)) by (autorewrite with len; lia).
  rewrite IH by (autorewrite with len; lia). f_equal. autorewrite with len. lia.
Qed.

Lemma tcp_connect_first c host port w w0 l addr rest es w1 tcp w2 :
  to_socket_addrs host port w = (Ok (l ++ addr :: rest), w0) -> all_fail c l w0 es w1 ->
  connect_attempt c addr w1 = Some (Ok (Ok tcp), w2) ->
  tcp_connect c host port w = Some (Ok tcp, w2).
Proof.
  intros Hr Hf Ha. unfold tcp_connect. erewrite M_bind_ok; [|unfold call; by rewrite Hr].
  erewrite try_addrs_skip; [|done|done|by rewrite len_app].
  cbn [try_addrs]. by rewrite (M_bind_ok _ _ _ _ _ Ha).
Qed.

(** C30. The addresses of a host are tried in order, each with the time that is
    left: the connection is the first that succeeds, and no later address is
    touched; when all fail the error is that of the last; and a host without
    addresses is reported as such. *)
Theorem tcp_connect_in_order c host port w addrs w0 :
  to_socket_addrs host port w = (Ok addrs, w0) ->
  (addrs = [] -> tcp_connect c host port w = Some (Err AddressNotFound, w0)) /\
  (forall l addr rest es w1 tcp w2,
     addrs = l ++ addr :: rest -> all_fail c l w0 es w1 ->
     connect_attempt c addr w1 = Some (Ok (Ok tcp), w2) ->
     tcp_connect c host port w = Some (Ok tcp, w2)) /\
  (forall l addr es w1 e w2,
     addrs = l ++ [addr] -> all_fail c l w0 es w1 ->
     connect_attempt c addr w1 = Some (Ok (Err e), w2) ->
     tcp_connect c host port w = Some (Err (IoError e), w2)).
Proof.
  intros Hr. split_and!.
  2: { intros l addr rest es w1 tcp w2 ->. intros. by eapply tcp_connect_first. }
  all: unfold tcp_connect; rewrite (M_bind_ok (call (to_socket_addrs host port)) _ w addrs w0)
    by (unfold call; by rewrite Hr).
  - by intros ->.
  - intros l addr es w1 e w2 -> Hf Ha.
    erewrite try_addrs_skip; [|done|done|by rewrite len_app].
    cbn [try_addrs]. rewrite (M_bind_ok _ _ _ _ _ Ha). cbn [is_ok orb].
    rewrite (proj2 (N.eqb_eq _ _)) by (autorewrite with len; lia). done.
Qed.

Lemma try_addrs_no_proxy_error c n i addrs w w' :
  try_addrs c n i addrs w <> Some (Err ProxyConnect, w').
Proof.
  revert i w. induction addrs as [|addr addrs IH]; intros i w; [done|]. cbn [try_addrs].
  intros [Ha|(stream & w1 & _ & Hs)]%M_bind_Err.
  - unfold connect_attempt in Ha. apply M_bind_Err in Ha as [Hr|(d & w1 & _ & Ha)].
    + unfold remaining, timeout_at_to_duration in Hr.
      destruct (timeout_at c); [|done]. by destruct (_ <=? _).
    + assert (forall w w', attempt (tcp_stream_connect addr) w <> Some (Err ProxyConnect, w')) as Hn.
      { intros w2 w3. unfold attempt. by destruct (tcp_stream_connect addr w2) as [[| |] ?]. }
      destruct d as [d|]; [|by apply Hn in Ha]. unfold Runtime.timeout in Ha.
      destruct (attempt _ w1) as [[r w2]|] eqn:E; [|done].
      destruct (_ || _); [|done]. injection Ha as -> ->. by apply Hn in E.
  - destruct (_ || _); [|by apply IH in Hs]. by destruct stream.
Qed.

Lemma call_no_proxy_error {A} (op : World -> io_result A * World) w w' :
  call op w <> Some (Err ProxyConnect, w').
Proof. unfold call. by destruct (op w) as [[| |] ?]. Qed.

Lemma read_proxy_response_answer fuel tcp acc w :
  match read_proxy_response fuel tcp acc w with
  | Some (Ok b, _) => b <> []
  | Some (Err e, _) => e <> ProxyConnect
  | _ => True
  end.
Proof.
  revert acc w. induction fuel as [|fuel IH]; intros acc w; [done|].
  cbn [read_proxy_response]. unfold mbind at 1, M_bind at 1, call.
  destruct (tcp_read tcp 256 w) as [[data|e|] w1]; [|done..]. simpl.
  destruct (len data <? 256) eqn:E; [|apply IH]. btest. simpl.
  destruct acc, data; simpl; try done.
Qed.

(** A proxy that cannot be reached behind its socket is never reported as
    [ProxyConnect]: the answer that is checked is filled up with zeros, so that it
    has a first line even when the proxy closed without a word. *)
Lemma no_proxy_connect_error fuel c w w' :
  connect fuel c w <> Some (Err ProxyConnect, w').
Proof.
  assert (forall h p w w', tcp_connect c h p w <> Some (Err ProxyConnect, w')) as Htcp.
  { intros h p w1 w2 [Hr|(addrs & w3 & _ & Ha)]%M_bind_Err.
    - by apply call_no_proxy_error in Hr.
    - by apply try_addrs_no_proxy_error in Ha. }
  unfold connect, connect_direct. destruct feature_proxy; [|done].
  destruct (Request.proxy (config c)) as [proxy|]; [|done].
  intros [Hc|(tcp & w1 & _ & Hc)]%M_bind_Err; [by apply Htcp in Hc|].
  apply M_bind_Err in Hc as [Hc|([] & w2 & _ & Hc)].
  { unfold call_other in Hc. by destruct (tcp_write_all _ _ _) as [[| |] ?]. }
  apply M_bind_Err in Hc as [Hc|([] & w3 & _ & Hc)]; [by apply call_no_proxy_error in Hc|].
  pose proof (read_proxy_response_answer fuel tcp [] w3) as Ha.
  apply M_bind_Err in Hc as [Hc|(b & w4 & Hb & Hc)]; [by rewrite Hc in Ha|].
  rewrite Hb in Ha. apply M_bind_Err in Hc as [Hc|(? & ? & _ & Hc)]; [|done].
  injection Hc as Hc _. by apply ProxyFacts.verify_response_errors in Hc.
Qed.

(** ** Writing the request *)

(** The socket says it is writable, and then would block, [n] times. *)
Inductive blocked (tcp : TcpStream) (b : bytes) : nat -> World -> World -> Prop :=
| blocked_not w : blocked tcp b 0 w w
| blocked_once n w w1 w2 e w3 :
    tcp_writable tcp w = (Ok tt, w1) -> tcp_try_write tcp b w1 = (Err e, w2) ->
    io_kind e = WouldBlock -> blocked tcp b n w2 w3 -> blocked tcp b (S n) w w3.

(** The request is offered to the socket again and again while it would block,
    and is taken for sent after the first write that succeeds, even of a part of
    it: [n] may be anything, and the rest is not written. *)
Lemma write_request_once fuel tcp b k w w1 w2 n w3 :
  blocked tcp b k w w1 -> (k < fuel)%nat ->
  tcp_writable tcp w1 = (Ok tt, w2) -> tcp_try_write tcp b w2 = (Ok n, w3) ->
  write_request fuel tcp b w = Some (Ok tt, w3).
Proof.
  intros Hb Hk Hw Ht. revert fuel Hk.
  induction Hb as [w1|k w w1' w2' e w3' Hw' Ht' He _ IH]; intros [|fuel] Hk; try lia;
    cbn [write_request]; unfold mbind at 1, M_bind at 1, call.
  - rewrite Hw. unfold mbind, M_bind, attempt. by rewrite Ht.
  - rewrite Hw'. unfold mbind at 1, M_bind at 1, attempt. rewrite Ht', decide_True by done.
    apply IH; [done..|lia].
Qed.
End Chain.

(** ** Hosts *)

Section HostFacts.
Context `{Build} `{Externals}.

(** A label of a host as it is sent. *)
Definition label_sent (s s' : text) : Prop :=
  if is_ascii s then s' = s else exists p, punycode_encode s = Some p /\ s' = lit "xn--" ++ p.

(** Labels with dots between them. *)
Fixpoint join_labels (labels : list text) : text :=
  match labels with
  | [] => []
  | [s] => s
  | s :: labels => s ++ ch "." :: join_labels labels
  end.

Lemma ascii_labels_sent labels acc h :
  ascii_labels acc labels = Ok h -> labels <> [] ->
  exists labels', Forall2 label_sent labels labels' /\ h = acc ++ join_labels labels' ++ [ch "."].
Proof.
  revert acc. induction labels as [|s labels IH]; intros acc; [done|]. cbn [ascii_labels].
  assert (forall s', label_sent s s' -> ascii_labels (acc ++ s' ++ [ch "."]) labels = Ok h ->
    exists labels', Forall2 label_sent (s :: labels) labels' /\
      h = acc ++ join_labels labels' ++ [ch "."]) as Hstep.
  { intros s' Hs Hl. destruct (decide (labels = [])) as [->|Hne].
    - injection Hl as <-. exists [s']. by repeat constructor.
    - destruct (IH _ Hl Hne) as (labels' & Hall & ->). exists (s' :: labels').
      split; [by constructor|]. destruct Hall; [done|].
      cbn [join_labels]. by rewrite <- !app_assoc. }
  unfold label_sent in Hstep at 1. destruct (is_ascii s).
  - intros Hl _. by apply (Hstep s).
  - destruct (punycode_encode s) as [p|]; [|done]. intros Hl _. apply (Hstep (lit "xn--" ++ p)).
    + by exists p.
    + by rewrite <- app_assoc.
Qed.

Lemma split_on_not_nil c s : split_on c s <> [].
Proof. destruct s as [|d s]; [done|]. simpl. destruct (d =? c); [done|]. by destruct (split_on c s). Qed.

Lemma join_labels_ascii labels :
  Forall (fun s => is_ascii s = true) labels -> is_ascii (join_labels labels) = true.
Proof.
  induction 1 as [|s labels Hs Hall IH]; [done|]. destruct labels as [|s' labels]; [done|].
  cbn [join_labels]. change (ch "." :: ?x) with ([ch "."] ++ x).
  rewrite is_ascii_app, Hs. exact IH.
Qed.

(** C37. The host that is connected to and named in the request is ASCII, when
    punycode is: an ASCII host is left as it is, and of another the labels that are
    not ASCII, and only they, are replaced by their punycode. *)
Theorem ensure_ascii_host_ascii host h :
  (forall s p, punycode_encode s = Some p -> is_ascii p = true) ->
  ensure_ascii_host host = Ok h ->
  is_ascii h = true /\ (is_ascii host = true -> h = host) /\
  (is_ascii host = false ->
     exists labels, Forall2 label_sent (split_on (ch ".") host) labels /\ h = join_labels labels).
Proof.
  intros Hp. unfold ensure_ascii_host. destruct (is_ascii host) eqn:Eh.
  { intros [= <-]. by split_and!. }
  destruct feature_punycode; [|done].
  destruct (ascii_labels [] (split_on (ch ".") host)) as [acc| |] eqn:E; [|done..].
  intros [= <-]. apply ascii_labels_sent in E as (labels & Hall & ->); [|apply split_on_not_nil].
  cbn [app]. rewrite length_app, Nat.add_sub, take_app_length. split_and!; [|done|by eauto].
  apply join_labels_ascii. induction Hall as [|s s' ss ss' Hs _ IH]; constructor; [|done].
  unfold label_sent in Hs. destruct (is_ascii s) eqn:Es; [by subst|].
  destruct Hs as (p & Hs & ->). rewrite is_ascii_app. by rewrite (Hp _ _ Hs).
Qed.
End HostFacts.
End ConnectionFacts.

Module ClientFacts.
Import Connection ConnectionFacts BodyFacts.

Section Facts.
Context `{Build} `{Externals} `{Environment} `{HashOrder} `{Runtime}.

Lemma new_request parsed w c w' :
  Connection.new parsed w = Some (Ok c, w') -> request c = parsed /\ w' = w.
Proof. unfold Connection.new. intros Hc. by repeat case_match; simplify_eq. Qed.

Lemma send_parsed_Ok fuel parsed w r w' :
  Client.send_parsed fuel parsed w = Some (Ok r, w') ->
  HttpUrl.https (ParsedRequest.url parsed) = false /\
  exists c, request c = parsed /\ Connection.new parsed w = Some (Ok c, w) /\
    delivered fuel c w r w'.
Proof.
  unfold Client.send_parsed. destruct (HttpUrl.https _) eqn:Eh.
  - destruct feature_tls; [|done]. intros Hs. apply M_bind_Some in Hs as (c & w1 & _ & Hs).
    by apply send_https_fails in Hs.
  - intros Hs. split; [done|]. apply M_bind_Some in Hs as (c & w1 & Hc & Hs).
    destruct (new_request _ _ _ _ Hc) as [Hr ->]. exists c. split_and!; [done..|].
    eapply send_delivers; [|  |exact Hs].
    + intros c' w2 r' w3. apply send_chain_delivers.
    + unfold url. by rewrite Hr.
Qed.

Lemma send_Ok_http fuel req u w r w' :
  HttpUrl.parse (Request.url req) None = Ok u ->
  Client.send fuel req w = Some (Ok r, w') -> HttpUrl.https u = false.
Proof.
  intros Hu Hs. unfold Client.send in Hs.
  apply M_bind_Some in Hs as (parsed & w1 & Hp & Hs). injection Hp as Hp _.
  apply M_bind_Some in Hs as (p & w2 & Hs & _). apply send_parsed_Ok in Hs as [Hh _].
  by rewrite (RequestFacts.new_https _ _ _ Hp Hu) in Hh.
Qed.

(** C24. HTTPS never succeeds: a response is never read from a TLS session, because
    reading from one is not implemented and panics. Whatever features are built in
    and whatever the servers do, a request for an https URL gives no response. *)
Theorem https_never_succeeds fuel req u w r w' :
  HttpUrl.parse (Request.url req) None = Ok u ->
  Client.send fuel req w = Some (Ok r, w') -> HttpUrl.https u = false.
Proof. apply send_Ok_http. Qed.

(** C23. What is delivered: the answer to the last request of a chain that begins with
    the request that is sent, in which every answer but the last is a 301, 302, 303 or
    307 with a [Location] that leads to the next request, and the last is none of them.
    The URL of the response is that of the last request, written out: the scheme, which
    is http, the host in ASCII, an explicit port, the path and query, and the
    fragment. *)
Theorem delivered_response fuel req w r w' :
  Client.send_lazy fuel req w = Some (Ok r, w') ->
  exists parsed c u p,
    ParsedRequest.new req = Ok parsed /\ Connection.new parsed w = Some (Ok c, w) /\
    request c = parsed /\ chain_to fuel c w u p w' /\
    (ResponseLazy.status_code r <> 301 /\ ResponseLazy.status_code r <> 302 /\
     ResponseLazy.status_code r <> 303 /\ ResponseLazy.status_code r <> 307)%Z /\
    HttpUrl.https u = false /\
    ResponseLazy.url r
    = lit "http://" ++ HttpUrl.host u ++ UrlFacts.port_part (UrlFacts.port_text (HttpUrl.port u))
      ++ HttpUrl.path_and_query u
      ++ (match HttpUrl.fragment u with Some f => ch "#" :: f | None => [] end) /\
    r = ResponseLazy.set_url p (ResponseLazy.url r).
Proof.
  intros Hs. apply M_bind_Some in Hs as (parsed & w1 & Hp & Hs). injection Hp as Hp <-.
  apply send_parsed_Ok in Hs as (_ & c & Hr & Hc & u & p & Hchain & ->).
  destruct (chain_to_http _ _ _ _ _ _ Hchain) as [Hh Hst]. exists parsed, c, u, p.
  split_and!; try done; try (intros E; apply Hst; unfold redirect_status; tauto).
  unfold ResponseLazy.set_url. simpl. rewrite UrlFacts.display_eq, Hh. by destruct (HttpUrl.fragment u).
Qed.

End Facts.
End ClientFacts.

(** * Examples: the theorems on a scripted network *)

Module ConnectionExamples.
Import Connection ConnectionFacts BodyExamples.
#[local] Existing Instance canonical_order.

(** A network whose hosts have the addresses [addrs], of which only 1 accepts, and
    whose servers take every request and answer [s] of the time. The world is its
    clock; to connect takes a nanosecond, and the head of a response comes after
    [pause]. *)
Definition served (pause : N) (addrs : list N) (s : N -> HttpStreamBytes) : Runtime := {|
  World := N;
  SocketAddr := N;
  TcpStream := unit;
  TlsStream := unit;
  now := fun w => w;
  instant_MAX := 2 ^ 90;
  to_socket_addrs := fun _ _ w => (Ok addrs, w);
  tcp_stream_connect := fun addr w =>
    (if addr =? 1 then Ok tt else Err (mkIoError (Kind addr) (lit "connection refused")), w + 1);
  tcp_writable := fun _ w => (Ok tt, w);
  tcp_try_write := fun _ b w => (Ok (len b), w);
  tcp_write_all := fun _ _ w => (Ok tt, w);
  tcp_flush := fun _ w => (Ok tt, w);
  tcp_read := fun _ _ w => (Ok [], w);
  received := fun _ w => s w;
  head_read := fun _ w => pause + w;
  runtime_roots := RootsExamples.even_roots;
  statics := fun _ => initial_statics;
  set_statics := fun _ w => w;
  native_connector := fun w => (Ok tt, w);
  tls_server_name := fun _ w => (Ok tt, w);
  tls_handshake := fun _ _ _ w => (Ok tt, w);
  tls_write_all := fun _ _ w => (Ok tt, w);
  suspended := fun _ _ _ => true;
  cancelled := fun _ _ deadline => deadline;
|}.

Definition paused (pause : N) (addrs : list N) (s : HttpStreamBytes) : Runtime :=
  served pause addrs (fun _ => s).
Definition scripted : list N -> HttpStreamBytes -> Runtime := paused 0.

(** Other crates, as far as the examples need them: [tda] is the punycode of the
    label of one u with dots. *)
#[local] Instance example_externals : Externals := {|
  urlencoding_encode := fun s => s;
  punycode_encode := fun _ => Some (lit "tda");
  base64_encode := fun b => b;
|}.
#[local] Instance no_variables : Environment := fun _ => None.

Definition get_request : Request.Request := Request.get (lit "http://a/x").
Definition get_parsed : ParsedRequest.ParsedRequest := RequestExamples.first_request.
Definition get_connection (timeout_at : option N) : Connection := mkConnection get_parsed timeout_at.

Lemma ensure_ascii_host_ascii_witness :
  is_ascii (lit "xn--tda.com") = true /\
  (is_ascii (0xFC :: lit ".com") = true -> lit "xn--tda.com" = 0xFC :: lit ".com") /\
  (is_ascii (0xFC :: lit ".com") = false ->
     exists labels, Forall2 label_sent (split_on (ch ".") (0xFC :: lit ".com")) labels /\
       lit "xn--tda.com" = join_labels labels).
Proof.
  apply (@ensure_ascii_host_ascii full_build example_externals (0xFC :: lit ".com"));
    [by intros s p [= <-]|reflexivity].
Defined.

(** Witnesses are run in the default build. *)
#[local] Existing Instance default_build.

(** A server that redirects, and again. *)
Definition moved_stream : HttpStreamBytes :=
  [EvChunk (lit "HTTP/1.1 302 Found" ++ CRLF ++ lit "Location: /y" ++ CRLF ++ CRLF)].

Lemma scripted_loops_end addrs s : @loops_end (scripted addrs s) 1.
Proof. split; intros ? ? w; unfold is_Some; vm_compute; by eexists. Qed.

Lemma send_chain_ends_witness :
  is_Some (@send_chain _ _ _ (scripted [1] moved_stream) 1 200 (get_connection None) 0) /\
  @send_chain _ _ _ (scripted [1] moved_stream) 1 200 (get_connection None) 0
  = @send_chain _ _ _ (scripted [1] moved_stream) 1 (chain_hops (get_connection None))
      (get_connection None) 0.
Proof.
  apply (@send_chain_ends _ _ _ (scripted [1] moved_stream) 1 200 (get_connection None) 0);
    [apply scripted_loops_end|by_compute].
Defined.

(** The second URL leads to itself. *)
Example moved_for_ever :
  @send_chain _ _ _ (scripted [1] moved_stream) 1 200 (get_connection None) 0
  = Some (Err InfiniteRedirectionLoop, 2).
Proof. vm_compute. reflexivity. Qed.

(** Every request is redirected to another page. With three redirections allowed, the
    stack must have room for four requests. *)
Definition next_page (w : N) : HttpStreamBytes :=
  [EvChunk (lit "HTTP/1.1 302 Found" ++ CRLF ++ lit "Location: /" ++ dec w ++ CRLF ++ CRLF)].
Definition three_redirects : Connection :=
  mkConnection (ParsedRequest.mkParsedRequest (ParsedRequest.url get_parsed) []
    (Request.with_max_redirects get_request 3)) None.
Example nested_requests :
  @send_chain _ _ _ (served 0 [1] next_page) 1 3 three_redirects 0 = None /\
  @send_chain _ _ _ (served 0 [1] next_page) 1 4 three_redirects 0
  = Some (Err TooManyRedirections, 4).
Proof. by split; vm_compute. Qed.

(** The first of two addresses refuses. *)
Definition hello_network : Runtime := scripted [0; 1] hello_stream.

(** The first answer is a redirection to [/y], the second is the page. *)
Definition moved_network : Runtime :=
  served 0 [1] (fun w => if w =? 1 then moved_stream else hello_stream).

Lemma send_meets_deadline_witness :
  (5 < 10 -> @Err Error ResponseLazy.ResponseLazy (IoError timeout_err)
             = Err (IoError timeout_err) /\ 10 = 10) /\
  (forall p, @Err Error ResponseLazy.ResponseLazy (IoError timeout_err) = Ok p ->
     10 <= 5 \/ @suspended hello_network 10 10 5 = false).
Proof.
  apply (@send_meets_deadline _ _ _ hello_network 1 (@send_chain _ _ _ hello_network 1 0)
           (get_connection (Some 5)) 10 5 (Err (IoError timeout_err)) 10);
    [reflexivity|vm_compute; reflexivity].
Defined.

Lemma tcp_connect_in_order_witness :
  ([0; 1] = @nil N ->
   @tcp_connect hello_network (get_connection None) (lit "a") 80 0
   = Some (Err AddressNotFound, 0)) /\
  (forall l addr rest es w1 tcp w2,
     [0; 1] = l ++ addr :: rest -> @all_fail hello_network (get_connection None) l 0 es w1 ->
     @connect_attempt hello_network (get_connection None) addr w1 = Some (Ok (Ok tcp), w2) ->
     @tcp_connect hello_network (get_connection None) (lit "a") 80 0 = Some (Ok tcp, w2)) /\
  (forall l addr es w1 e w2,
     [0; 1] = l ++ [addr] -> @all_fail hello_network (get_connection None) l 0 es w1 ->
     @connect_attempt hello_network (get_connection None) addr w1 = Some (Ok (Err e), w2) ->
     @tcp_connect hello_network (get_connection None) (lit "a") 80 0 = Some (Err (IoError e), w2)).
Proof.
  apply (@tcp_connect_in_order hello_network (get_connection None) (lit "a") 80 0 [0; 1] 0).
  reflexivity.
Defined.

(** What [send_lazy] returns behind the redirection, and [send] without one. *)
Definition moved_lazy : ResponseLazy.ResponseLazy :=
  match @Client.send_lazy _ _ _ _ moved_network 1 get_request 0 with
  | Some (Ok r, _) => r
  | _ => lazy EndOnClose None []
  end.
Definition hello_response : Response.Response :=
  Response.mkResponse 200 (lit "OK")
    (MetadataFacts.insert_headers ∅ [(lit "Content-Length", lit "5")]) (lit "http://a/x")
    (lit "hello").

Lemma https_never_succeeds_witness :
  HttpUrl.https (RequestExamples.page (lit "a") (lit "/x")) = false.
Proof.
  apply (@ClientFacts.https_never_succeeds _ _ _ _ hello_network 1 get_request
           (RequestExamples.page (lit "a") (lit "/x")) 0 hello_response 2);
    vm_compute; reflexivity.
Defined.

Lemma delivered_response_witness :
  ResponseLazy.url moved_lazy = lit "http://a/y" /\
  exists parsed c u p,
    ParsedRequest.new get_request = Ok parsed /\
    @Connection.new _ moved_network parsed 0 = Some (Ok c, 0) /\ request c = parsed /\
    @chain_to _ _ _ moved_network 1 c 0 u p 2 /\
    (ResponseLazy.status_code moved_lazy <> 301 /\ ResponseLazy.status_code moved_lazy <> 302 /\
     ResponseLazy.status_code moved_lazy <> 303 /\ ResponseLazy.status_code moved_lazy <> 307)%Z /\
    HttpUrl.https u = false /\
    ResponseLazy.url moved_lazy
    = lit "http://" ++ HttpUrl.host u ++ UrlFacts.port_part (UrlFacts.port_text (HttpUrl.port u))
      ++ HttpUrl.path_and_query u
      ++ (match HttpUrl.fragment u with Some f => ch "#" :: f | None => [] end) /\
    moved_lazy = ResponseLazy.set_url p (ResponseLazy.url moved_lazy).
Proof.
  split; [vm_compute; reflexivity|].
  apply (@ClientFacts.delivered_response _ _ _ _ moved_network 1 get_request 0 moved_lazy 2).
  vm_compute. reflexivity.
Defined.

End ConnectionExamples.
