(* ===== verification/Panics.v ===== *)
(** Panics: a client that is built without overflow checks and without TLS never
    panics, whatever the servers and proxies send, if the runtime does not and the
    clock can represent the timeout. *)

From S2P Require Import Prelude.
From S2P Require Import Text.
From S2P Require Import Strings.
From S2P Require Import Errors.
From S2P Require Import Url.
From S2P Require Import Proxies.
From S2P Require Import Requests.
From S2P Require Import Lines.
From S2P Require Import Metadata.
From S2P Require Import Bodies.
From S2P Require Import Roots.
From S2P Require Import Runtime.
From S2P Require Import Connections.
From S2P Require Import Chains.

Module Panics.
Import Connection ConnectionFacts.

(** A result that is no panic. *)
Definition calm {E A} (r : outcome E A) : Prop := r <> Panic.

Lemma calm_Ok {E A} (a : A) : calm (E:=E) (Ok a).
Proof. done. Qed.
Lemma calm_Err {E A} (e : E) : calm (A:=A) (Err e).
Proof. done. Qed.
Lemma calm_bind {E A B} (r : outcome E A) (f : A -> outcome E B) :
  calm r -> (forall a, calm (f a)) -> calm (r ≫= f).
Proof. unfold calm. destruct r; simpl; auto. Qed.
Lemma calm_ok_or {E A} (o : option A) (e : E) : calm (ok_or o e).
Proof. by destruct o. Qed.
Lemma calm_from_io {A} (r : io_result A) : calm r -> calm (from_io r).
Proof. by destruct r. Qed.
Lemma calm_map_err {E E' A} (f : E -> E') (r : outcome E A) : calm r -> calm (map_err f r).
Proof. by destruct r. Qed.

Create HintDb calm.
#[local] Hint Resolve calm_Ok calm_Err calm_bind calm_ok_or calm_from_io calm_map_err : calm.

(** ** Without overflow checks the readers do not panic *)

Section Readers.
Context `{Build} `{HashOrder}.
Hypothesis unchecked : overflow_checks = false.

Lemma usize_add_calm {E} a b : calm (E:=E) (usize_add a b).
Proof. unfold usize_add. rewrite unchecked. by destruct (_ <=? _). Qed.
Lemma usize_sub_calm {E} a b : calm (E:=E) (usize_sub a b).
Proof. unfold usize_sub. rewrite unchecked. by destruct (_ <=? _). Qed.
#[local] Hint Resolve usize_add_calm usize_sub_calm : calm.

Lemma shrink_cap_calm max line : calm (shrink_cap max line).
Proof. unfold shrink_cap. destruct max; auto 6 with calm. Qed.

Lemma read_line_async_calm s max e prefix : calm (read_line_async s max e prefix).1.
Proof.
  pose proof (LineFacts.read_line_async_spec s max e prefix) as Hs.
  destruct (read_line_async _ _ _ _) as [[[] | |] ?]; by simpl.
Qed.

Lemma read_headers_calm fuel s max headers trailing r s' :
  read_headers fuel s max headers trailing = Some (r, s') -> calm r.
Proof.
  revert s max headers trailing. induction fuel as [|fuel IH]; intros s max headers trailing; [done|].
  cbn [read_headers]. pose proof (read_line_async_calm s max HeadersOverflow trailing) as Hl.
  destruct (read_line_async _ _ _ _) as [[[[|c line] tr]|e|] s0]; [by intros [= <- <-]| |
    by intros [= <- <-]|done].
  pose proof (shrink_cap_calm max (c :: line)) as Hc.
  destruct (shrink_cap max (c :: line)) as [max'|e|]; [apply IH|by intros [= <- <-]|done].
Qed.

Lemma from_stream_calm s mh ms r : ResponseLazy.from_stream s mh ms = Some r -> calm r.
Proof.
  unfold ResponseLazy.from_stream, read_metadata.
  pose proof (read_line_async_calm s ms StatusLineOverflow []) as Hl.
  destruct (read_line_async _ _ _ _) as [[[line tr]|e|] s0]; [|by intros [= <-]|done].
  destruct (parse_status_line line) as [code reason].
  destruct (read_headers _ s0 mh ∅ tr) as [[r1 s1]|] eqn:Eh; [|done].
  apply read_headers_calm in Eh. intros [= <-].
  apply calm_bind; [|auto with calm]. apply calm_bind; [done|]. intros [[hs mt] tr'].
  apply calm_bind; [|by intros []]. intros Hp.
  pose proof (MetadataFacts.scan_headers_result (hm_iter hs) false None) as Hs. by rewrite Hp in Hs.
Qed.

(** The answer to a poll. *)
Definition calm_poll {A} (r : poll (option (result A))) : Prop :=
  match r with Ready (Some x) => calm x | _ => True end.

(** A stream of the model does not panic, it ends or fails. *)
Lemma raw_chunk_calm s r s' : poll_stream s = (r, s') -> calm_poll (raw_chunk r).
Proof. by destruct s as [|[] s]; intros [= <- <-]. Qed.

Lemma read_until_closed_calm prefix s : calm_poll (read_until_closed prefix s).1.
Proof.
  unfold read_until_closed. destruct (0 <? _); [done|].
  destruct (poll_stream s) as [r s'] eqn:E. by eapply raw_chunk_calm.
Qed.

Lemma read_with_content_length_calm prefix s n :
  calm_poll (read_with_content_length prefix s n).1.1.
Proof.
  unfold read_with_content_length. destruct (0 <? _).
  - pose proof (usize_sub_calm (E:=Error) n (len prefix)) as Hc. by destruct (usize_sub _ _).
  - destruct (0 <? n); [|done]. destruct (poll_stream s) as [r s'] eqn:E.
    pose proof (raw_chunk_calm _ _ _ E) as Hr. destruct r as [[[chunk| |]|]|]; [|done..].
    pose proof (usize_sub_calm (E:=Error) n (len chunk)) as Hc.
    destruct (usize_sub _ _); simpl in *; [|done..]. auto with calm.
Qed.

Lemma read_trailers_calm fuel s headers max trailing r s' h :
  read_trailers fuel s headers max trailing = Some (r, s', h) -> r <> Ready Panic.
Proof.
  revert s headers max trailing.
  induction fuel as [|fuel IH]; intros s headers max trailing; [done|]. cbn [read_trailers].
  pose proof (LineFacts.read_line_spec s max HeadersOverflow trailing) as Hl.
  destruct (read_line _ _ _ _) as [[[[line tr]|e|]|] s0]; [|by intros [= <- _ _]|done|
    by intros [= <- _ _]].
  pose proof (shrink_cap_calm max line) as Hc.
  destruct (shrink_cap max line) as [max'|e|]; [|by intros [= <- _ _]|done].
  destruct (parse_header line) as [[k v]|]; [apply IH|by intros [= <- _ _]].
Qed.

Lemma chunk_size_calm line : calm (chunk_size line).
Proof. unfold chunk_size. destruct line; auto with calm. Qed.

Lemma read_chunk_calm s st : calm_poll (read_chunk s st).1.1.
Proof.
  unfold read_chunk. destruct (0 <? _); [|done].
  destruct (poll_stream s) as [r s'] eqn:E. by eapply raw_chunk_calm.
Qed.

Lemma read_chunked_calm fuel prefix s st max x :
  read_chunked fuel prefix s st max = Some x -> calm_poll x.1.1.
Proof.
  unfold read_chunked. destruct (_ && _); [by intros [= <-]|].
  destruct (_ =? 0); [|intros [= <-]; apply read_chunk_calm].
  pose proof (LineFacts.read_line_spec s (Some 1024) MalformedChunkLength prefix) as Hl.
  destruct (read_line _ _ _ _) as [[[[line tr]|e|]|] s0]; [|by intros [= <-]|done|by intros [= <-]].
  pose proof (chunk_size_calm line) as Hc.
  destruct (chunk_size line) as [n|e|]; [|by intros [= <-]|done].
  destruct (n =? 0).
  - destruct (read_trailers _ _ _ _ _) as [[[r s1] h]|] eqn:Et; [|done].
    apply read_trailers_calm in Et. intros [= <-]. by destruct r as [[| |]|].
  - pose proof (usize_add_calm (E:=Error) (content_length st) n) as Ha.
    destruct (usize_add _ _); [|by intros [= <-]|done]. intros [= <-]. apply read_chunk_calm.
Qed.

(** A poll of the body. *)
Lemma poll_next_calm p r p' : ResponseLazy.poll_next p = Some (r, p') -> calm_poll r.
Proof.
  unfold ResponseLazy.poll_next. destruct (ResponseLazy.state p) as [|n|b k c].
  - pose proof (read_until_closed_calm (default [] (ResponseLazy.trailing_content p))
      (ResponseLazy.stream p)) as Hc.
    destruct (read_until_closed _ _). by intros [= <- <-].
  - pose proof (read_with_content_length_calm (default [] (ResponseLazy.trailing_content p))
      (ResponseLazy.stream p) n) as Hc.
    destruct (read_with_content_length _ _ _) as [[? ?] ?]. by intros [= <- <-].
  - destruct (read_chunked _ _ _ _ _) as [[[r1 s1] st]|] eqn:E; [|done].
    apply read_chunked_calm in E. by intros [= <- <-].
Qed.

Lemma load_calm fuel p body r : Response.load fuel p body = Some r -> calm r.
Proof.
  revert p body. induction fuel as [|fuel IH]; intros p body; [done|]. cbn [Response.load].
  destruct (ResponseLazy.poll_next p) as [[x p']|] eqn:E; [|done]. apply poll_next_calm in E.
  cbn [mbind option_bind].
  destruct x as [[[[b n]|e|]|]|]; [apply IH|by intros [= <-]|done|by intros [= <-]|apply IH].
Qed.

Lemma create_calm p is_head r : Response.create p is_head = Some r -> calm r.
Proof.
  unfold Response.create. destruct (Response.no_body p is_head); [by intros [= <-]|].
  destruct (Response.load _ p []) as [x|] eqn:E; [|done]. apply load_calm in E.
  intros [= <-]. apply calm_bind; [done|by intros []].
Qed.
End Readers.

(** ** Programs *)

(** The runtime does not panic. *)
Record calm_runtime `{Runtime} : Prop := {
  cr_resolve : forall host port w, calm (to_socket_addrs host port w).1;
  cr_connect : forall addr w, calm (tcp_stream_connect addr w).1;
  cr_writable : forall tcp w, calm (tcp_writable tcp w).1;
  cr_try_write : forall tcp b w, calm (tcp_try_write tcp b w).1;
  cr_write_all : forall tcp b w, calm (tcp_write_all tcp b w).1;
  cr_flush : forall tcp w, calm (tcp_flush tcp w).1;
  cr_read : forall tcp n w, calm (tcp_read tcp n w).1;
}.

Section Programs.
Context `{Build} `{Externals} `{Environment} `{HashOrder} `{Runtime}.
Hypothesis unchecked : overflow_checks = false.
Hypothesis no_tls : feature_tls = false.
Hypothesis Hrt : calm_runtime.

(** A program that does not panic. *)
Definition quiet {A} (m : M A) : Prop := forall w r w', m w = Some (r, w') -> calm r.

Lemma quiet_bind {A B} (m : M A) (f : A -> M B) :
  quiet m -> (forall a, quiet (f a)) -> quiet (m ≫= f).
Proof.
  intros Hm Hf w r w'. unfold mbind, M_bind. destruct (m w) as [[[a|e|] w1]|] eqn:E; [apply Hf| | |done].
  - by intros [= <- <-].
  - by apply Hm in E.
Qed.
Lemma quiet_ret {A} (a : A) : quiet (mret (M:=M) a).
Proof. by intros w r w' [= <- <-]. Qed.
Lemma quiet_known {A} (r : result A) : calm r -> quiet (known r).
Proof. by intros Hr w r' w' [= <- <-]. Qed.
Lemma quiet_none {A} : quiet (A:=A) out_of_fuel.
Proof. by intros w r w'. Qed.
Lemma quiet_call {A} (op : World -> io_result A * World) :
  (forall w, calm (op w).1) -> quiet (call op).
Proof.
  intros Hop w r w'. unfold call. specialize (Hop w). destruct (op w) as [x w1].
  intros [= <- <-]. by apply calm_from_io.
Qed.
Lemma quiet_call_other {A} (op : World -> io_result A * World) :
  (forall w, calm (op w).1) -> quiet (call_other op).
Proof.
  intros Hop w r w'. unfold call_other. specialize (Hop w). destruct (op w) as [x w1].
  intros [= <- <-]. by apply calm_from_io, calm_map_err.
Qed.

(** A program whose result is looked at. *)
Definition looked_at {A} (m : M (io_result A)) : Prop :=
  forall w r w', m w = Some (r, w') -> calm r /\ forall x, r = Ok x -> calm x.

Lemma attempt_looked_at {A} (op : World -> io_result A * World) :
  (forall w, calm (op w).1) -> looked_at (attempt op).
Proof.
  intros Hop w r w'. unfold attempt. specialize (Hop w).
  destruct (op w) as [[x|x|] w1]; [..|done]; intros [= <- <-]; (split; [done|by intros ? [= <-]]).
Qed.

Lemma quiet_looked_at {A B} (m : M (io_result A)) (f : io_result A -> M B) :
  looked_at m -> (forall x, calm x -> quiet (f x)) -> quiet (m ≫= f).
Proof.
  intros Hm Hf w r w'. unfold mbind, M_bind. destruct (m w) as [[r1 w1]|] eqn:E; [|done].
  apply Hm in E as [Hr Hx]. destruct r1; [by apply Hf, Hx|by intros [= <- <-]|done].
Qed.

Lemma timeout_quiet {A} d (m : M A) elapsed : calm elapsed -> quiet m -> quiet (timeout d m elapsed).
Proof.
  intros He Hm w r w'. unfold timeout. destruct (m w) as [[r1 w1]|] eqn:E; [|done].
  apply Hm in E. destruct (_ || _); by intros [= <- <-].
Qed.

Create HintDb quiet.
#[local] Hint Resolve quiet_ret quiet_known quiet_none quiet_call quiet_call_other
  attempt_looked_at timeout_quiet cr_resolve cr_connect cr_writable cr_try_write cr_write_all
  cr_flush cr_read calm_Ok calm_Err calm_from_io calm_ok_or : quiet.

Lemma remaining_quiet c : quiet (remaining c).
Proof.
  intros w r w' [= <- <-]. unfold timeout_at_to_duration.
  destruct (timeout_at c); [|done]. by destruct (_ <=? _).
Qed.

Lemma connect_attempt_looked_at c addr : looked_at (connect_attempt c addr).
Proof.
  intros w r w'. unfold connect_attempt, mbind, M_bind.
  pose proof (remaining_quiet c w) as Hr. destruct (remaining c w) as [[[d|e|] w1]|]; [| | |done].
  - pose proof (attempt_looked_at (tcp_stream_connect addr) (cr_connect Hrt addr)) as Ha.
    destruct d as [d|]; [|apply Ha]. unfold timeout.
    destruct (attempt _ w1) as [[r1 w2]|] eqn:E; [|done]. apply Ha in E as [E1 E2].
    destruct (_ || _); intros [= <- <-]; [done|]. split; [done|by intros ? [= <-]].
  - intros [= <- <-]. split; [done|by intros ?].
  - by destruct (Hr _ _ eq_refl).
Qed.

Lemma tcp_connect_quiet c host port : quiet (tcp_connect c host port).
Proof.
  apply quiet_bind; [eauto with quiet|]. intros addrs. generalize 0, (len addrs).
  induction addrs as [|addr addrs IH]; intros i n; cbn [try_addrs]; [eauto with quiet|].
  apply quiet_looked_at; [apply connect_attempt_looked_at|]. intros x Hx.
  destruct (_ || _); eauto with quiet.
Qed.

Lemma read_proxy_response_quiet fuel tcp acc : quiet (read_proxy_response fuel tcp acc).
Proof.
  revert acc. induction fuel as [|fuel IH]; intros acc; cbn [read_proxy_response];
    [eauto with quiet|].
  apply quiet_bind; [eauto with quiet|]. intros data. destruct (_ <? _); eauto with quiet.
Qed.

Lemma verify_response_calm answer : calm (Proxy.verify_response answer).
Proof.
  unfold Proxy.verify_response, Proxy.classify_status.
  repeat (apply calm_bind; [auto with calm|intros ?]). by repeat case_match.
Qed.

Lemma connect_quiet fuel c : quiet (connect fuel c).
Proof.
  unfold connect, connect_direct. pose proof tcp_connect_quiet as Htcp.
  destruct feature_proxy; [|done]. destruct (Request.proxy _); [|done].
  apply quiet_bind; [done|]. intros tcp.
  apply quiet_bind; [eauto with quiet|]. intros _.
  apply quiet_bind; [eauto with quiet|]. intros _.
  apply quiet_bind; [apply read_proxy_response_quiet|]. intros answer.
  apply quiet_bind; [apply quiet_known, verify_response_calm|eauto with quiet].
Qed.

Lemma write_request_quiet fuel tcp b : quiet (write_request fuel tcp b).
Proof.
  induction fuel as [|fuel IH]; cbn [write_request]; [eauto with quiet|].
  apply quiet_bind; [eauto with quiet|]. intros _.
  apply quiet_looked_at; [eauto with quiet|]. intros [n|e|] Hr; [eauto with quiet| |done].
  case_decide; eauto with quiet.
Qed.

Lemma read_head_quiet tcp t mh ms : quiet (from_stream (Unsecured tcp t) mh ms).
Proof.
  intros w r w'. unfold from_stream. cbn [poll_read].
  destruct (ResponseLazy.from_stream _ _ _) as [x|] eqn:E; [|done].
  apply from_stream_calm in E; [|done]. by intros [= <- <-].
Qed.

Lemma ascii_host_calm host : calm (ensure_ascii_host host).
Proof.
  unfold ensure_ascii_host. destruct (is_ascii host); [done|]. destruct feature_punycode; [|done].
  apply calm_bind; [|done]. generalize (@nil N).
  induction (split_on _ _) as [|s labels IH]; intros acc; cbn [ascii_labels]; [done|].
  destruct (is_ascii s); [apply IH|]. by destruct (punycode_encode s); [apply IH|].
Qed.

Lemma handle_redirects_quiet k c p :
  (forall c', quiet (k c')) -> quiet (handle_redirects k c p).
Proof.
  intros Hk. unfold handle_redirects, get_redirect.
  destruct (is_redirect _); [|eauto with quiet].
  destruct (_ !! _) as [loc|]; [|by intros w r w' [= <- <-]].
  pose proof (RequestFacts.redirect_to_no_panic (request c) loc) as Hp.
  destruct (ParsedRequest.redirect_to _ _) as [[[]|e|] c']; [|by intros w r w' [= <- <-]|done].
  apply quiet_bind; [eauto with quiet|done].
Qed.

Lemma send_quiet fuel k c : (forall c', quiet (k c')) -> quiet (send fuel k c).
Proof.
  intros Hk. unfold send, with_remaining. apply quiet_bind; [apply remaining_quiet|].
  assert (quiet (send_without_timeout fuel k c)) as Hs; [|by intros [d|]; [apply timeout_quiet|]].
  unfold send_without_timeout.
  apply quiet_bind; [apply quiet_known, ascii_host_calm|]. intros host.
  apply quiet_bind; [apply connect_quiet|]. intros tcp.
  apply quiet_bind; [apply write_request_quiet|]. intros _.
  apply quiet_bind; [apply read_head_quiet|]. intros p. by apply handle_redirects_quiet.
Qed.

Lemma send_chain_quiet fuel hops c : quiet (send_chain fuel hops c).
Proof.
  revert c. induction hops as [|hops IH]; intros c; cbn [send_chain]; [eauto with quiet|].
  unfold send_by_scheme. rewrite no_tls.
  destruct (HttpUrl.https _); [eauto with quiet|by apply send_quiet].
Qed.

Lemma new_calm req : calm (ParsedRequest.new req).
Proof.
  unfold ParsedRequest.new. apply calm_bind; [|done].
  destruct (UrlFacts.parse_fails_iff (Request.url req) None) as [[[u Hu] _]|[Hu _]]; by rewrite Hu.
Qed.

(** The timeout of a request that starts at [w] ends at an instant the clock has. *)
Definition timeout_fits (req : Request.Request) (w : World) : Prop :=
  forall parsed secs, ParsedRequest.new req = Ok parsed -> effective_timeout parsed = Some secs ->
    now w + from_secs secs <= instant_MAX.

Lemma send_parsed_calm fuel parsed w r w' :
  (forall secs, effective_timeout parsed = Some secs -> now w + from_secs secs <= instant_MAX) ->
  Client.send_parsed fuel parsed w = Some (r, w') -> calm r.
Proof.
  intros Ht. unfold Client.send_parsed. rewrite no_tls.
  destruct (HttpUrl.https _); [by intros [= <- <-]|].
  assert (exists c, Connection.new parsed w = Some (Ok c, w)) as [c Hc].
  { unfold Connection.new. destruct (effective_timeout parsed) as [secs|]; [|by eexists].
    specialize (Ht secs eq_refl). test_true (now w + from_secs secs <=? instant_MAX). by eexists. }
  rewrite (M_bind_ok _ _ _ _ _ Hc). apply send_quiet, send_chain_quiet.
Qed.

(** C13. No panics in a release build: without overflow checks and without TLS, on a
    runtime that does not panic, and with a timeout the clock can represent, sending
    a request never panics, whatever the request, the servers and the proxies are. *)
Theorem release_never_panics fuel req w r w' :
  timeout_fits req w -> Client.send fuel req w = Some (r, w') -> r <> Panic.
Proof.
  intros Ht. unfold Client.send, timeout_fits in *. pose proof (new_calm req) as Hc.
  destruct (ParsedRequest.new req) as [parsed|e|]; [|by intros [= <- <-]|done].
  erewrite M_bind_ok; [|done]. specialize (Ht parsed).
  unfold mbind, M_bind. destruct (Client.send_parsed fuel parsed w) as [[[p|e|] w1]|] eqn:Es;
    [|by intros [= <- <-]| |done].
  - unfold computed. destruct (Response.create p _) as [x|] eqn:E; [|done].
    apply create_calm in E; [|done]. by intros [= <- <-].
  - apply send_parsed_calm in Es; [done|]. intros secs. by apply Ht.
Qed.
End Programs.
End Panics.

Module PanicExamples.
Import Connection ConnectionExamples Panics.
#[local] Existing Instances canonical_order example_externals no_variables.

(** The default build, as [cargo build --release] makes it. *)
Definition release_build : Build := {|
  feature_urlencoding := false; feature_punycode := false; feature_proxy := false;
  feature_tls := false; feature_rustls := false; feature_manual_roots := false;
  feature_probe := false; overflow_checks := false |}.

(** A server that sends more than it announces. *)
Definition over_network : Runtime := scripted [0; 1]
  [EvChunk (lit "HTTP/1.1 200 OK" ++ CRLF ++ lit "Content-Length: 3" ++ CRLF ++ CRLF ++ lit "hello")].

Definition timed_request : Request.Request := Request.with_timeout get_request 1.

Definition over_result : result Response.Response :=
  match @Client.send release_build _ _ _ over_network 1 timed_request 0 with
  | Some (r, _) => r
  | None => Panic
  end.

(** A build that checks for overflow panics. *)
Example checked_panics :
  @Client.send default_build _ _ _ over_network 1 timed_request 0 = Some (Panic, 2).
Proof. vm_compute. reflexivity. Qed.

Lemma over_network_calm : @calm_runtime over_network.
Proof. split; intros; try done. cbn. by destruct (addr =? 1). Qed.

Lemma release_never_panics_witness : over_result <> Panic.
Proof.
  apply (@release_never_panics release_build _ _ _ over_network eq_refl eq_refl over_network_calm
           1 timed_request 0 over_result 2); [|vm_compute; reflexivity].
  intros parsed secs Hp Ht. vm_compute in Hp. injection Hp as <-. vm_compute in Ht.
  injection Ht as <-. by_compute.
Defined.
End PanicExamples.
