(* ===== verification/Deadlines.v ===== *)
(** Timeouts as a whole: a deadline that is not reached changes nothing of what a
    request does, redirections and proxies included. *)

From S2P Require Import Prelude.
From S2P Require Import Errors.
From S2P Require Import Url.
From S2P Require Import Proxies.
From S2P Require Import Requests.
From S2P Require Import Lines.
From S2P Require Import Metadata.
From S2P Require Import Bodies.
From S2P Require Import Loading.
From S2P Require Import Roots.
From S2P Require Import Runtime.
From S2P Require Import Connections.
From S2P Require Import Chains.

Module Deadlines.
Import Connection ConnectionFacts.

Section Deadlines.
Context `{Build} `{Externals} `{Environment} `{HashOrder} `{Runtime}.

(** What is documented of [Instant]: the clock does not go back, whatever is done. *)
Definition forward {A} (op : World -> A * World) : Prop := forall w, now w <= now (op w).2.
Record clock_forward : Prop := {
  fw_resolve : forall host port, forward (to_socket_addrs host port);
  fw_connect : forall addr, forward (tcp_stream_connect addr);
  fw_writable : forall tcp, forward (tcp_writable tcp);
  fw_try_write : forall tcp b, forward (tcp_try_write tcp b);
  fw_write_all : forall tcp b, forward (tcp_write_all tcp b);
  fw_flush : forall tcp, forward (tcp_flush tcp);
  fw_read : forall tcp n, forward (tcp_read tcp n);
  fw_head : forall tcp w, now w <= now (head_read tcp w);
  fw_statics : forall st w, now w <= now (set_statics st w);
  fw_native : forward native_connector;
  fw_server_name : forall host, forward (tls_server_name host);
  fw_handshake : forall roots host tcp, forward (tls_handshake roots host tcp);
  fw_tls_write : forall tls b, forward (tls_write_all tls b);
}.

(** [m] does what [m'] does, as long as that is done by the time [t]. *)
Definition follows {A} (t : N) (m m' : M A) : Prop :=
  forall w r w', m' w = Some (r, w') -> now w <= now w' /\ (now w' <= t -> m w = Some (r, w')).

Lemma follows_bind {A B} t (m m' : M A) (f f' : A -> M B) :
  follows t m m' -> (forall a, follows t (f a) (f' a)) -> follows t (m ≫= f) (m' ≫= f').
Proof.
  intros Hm Hf w r w'. unfold mbind, M_bind.
  destruct (m' w) as [[[a|e|] w1]|] eqn:E; [|intros [= <- <-]..|done].
  - intros Hr. destruct (Hm _ _ _ E) as [? Hm1], (Hf _ _ _ _ Hr) as [? Hf1].
    split; [lia|]. intros Ht. rewrite Hm1 by lia. by apply Hf1.
  - destruct (Hm _ _ _ E) as [? Hm1]. split; [done|]. intros Ht. by rewrite Hm1.
  - destruct (Hm _ _ _ E) as [? Hm1]. split; [done|]. intros Ht. by rewrite Hm1.
Qed.

Lemma follows_known {A} t (r : result A) : follows t (known r) (known r).
Proof. by intros w r' w' [= <- <-]. Qed.
Lemma follows_ret {A} t (a : A) : follows t (mret (M:=M) a) (mret a).
Proof. by intros w r' w' [= <- <-]. Qed.
Lemma follows_none {A} t (m : M A) : follows t m out_of_fuel.
Proof. by intros w r w'. Qed.
Lemma follows_call {A} t (op : World -> io_result A * World) :
  forward op -> follows t (call op) (call op).
Proof.
  intros Hop w r w'. unfold call. specialize (Hop w).
  destruct (op w) as [x w1]. by intros [= <- <-].
Qed.
Lemma follows_call_other {A} t (op : World -> io_result A * World) :
  forward op -> follows t (call_other op) (call_other op).
Proof.
  intros Hop w r w'. unfold call_other. specialize (Hop w).
  destruct (op w) as [x w1]. by intros [= <- <-].
Qed.
Lemma follows_attempt {A} t (op : World -> io_result A * World) :
  forward op -> follows t (attempt op) (attempt op).
Proof.
  intros Hop w r w'. unfold attempt. specialize (Hop w).
  destruct (op w) as [[x|x|] w1]; by intros [= <- <-].
Qed.

(** A connection that has a deadline. *)
Definition with_deadline (c : Connection) (t : N) : Connection := mkConnection (request c) (Some t).

(** What is limited by the time that remains follows what is not. *)
Lemma follows_limited {A} c t (m m' : M A) elapsed :
  timeout_at c = Some t -> follows t m m' ->
  follows t (duration ← remaining c;
             match duration with Some d => Runtime.timeout d m elapsed | None => m end) m'.
Proof.
  intros Hc Hm w r w' Hr. destruct (Hm _ _ _ Hr) as [? Hm1]. split; [done|]. intros Ht.
  rewrite (M_bind_ok (remaining c) _ w (Some (t - now w)) w).
  - unfold Runtime.timeout. rewrite Hm1 by done. by test_true (now w' <=? now w + (t - now w)).
  - unfold remaining, timeout_at_to_duration. rewrite Hc. by test_true (now w <=? t).
Qed.

Lemma follows_ext {A} t (m m' m'' : M A) :
  (forall w, m'' w = m' w) -> follows t m m' -> follows t m m''.
Proof. intros He Hm w r w'. rewrite He. apply Hm. Qed.

Create HintDb deadlines.
#[local] Hint Resolve follows_known follows_ret follows_none follows_call follows_call_other
  follows_attempt fw_resolve fw_connect fw_writable fw_try_write fw_write_all fw_flush fw_read
  fw_native fw_server_name fw_handshake fw_tls_write : deadlines.

Section Follows.
Hypothesis Hclock : clock_forward.
Variable t : N.

Lemma connect_attempt_follows c addr :
  timeout_at c = None ->
  follows t (connect_attempt (with_deadline c t) addr) (connect_attempt c addr).
Proof.
  intros Hc. eapply follows_ext; [intros w; by apply connect_attempt_untimed|].
  unfold connect_attempt. apply follows_limited; eauto with deadlines.
Qed.

Lemma tcp_connect_follows c host port :
  timeout_at c = None ->
  follows t (tcp_connect (with_deadline c t) host port) (tcp_connect c host port).
Proof.
  intros Hc. apply follows_bind; [eauto with deadlines|]. intros addrs. generalize 0, (len addrs).
  induction addrs as [|addr addrs IH]; intros i n; cbn [try_addrs]; [apply follows_known|].
  apply follows_bind; [by apply connect_attempt_follows|]. intros stream.
  destruct (_ || _); [apply follows_known|apply IH].
Qed.

Lemma read_proxy_response_follows fuel tcp acc :
  follows t (read_proxy_response fuel tcp acc) (read_proxy_response fuel tcp acc).
Proof.
  revert acc. induction fuel as [|fuel IH]; intros acc; cbn [read_proxy_response];
    [apply follows_none|].
  apply follows_bind; [eauto with deadlines|]. intros data. by case_match; eauto with deadlines.
Qed.

Lemma connect_follows fuel c :
  timeout_at c = None -> follows t (connect fuel (with_deadline c t)) (connect fuel c).
Proof.
  intros Hc. unfold connect, connect_direct. change (config (with_deadline c t)) with (config c).
  pose proof (tcp_connect_follows c) as Htcp.
  destruct feature_proxy; [|by apply Htcp]. destruct (Request.proxy (config c)); [|by apply Htcp].
  apply follows_bind; [by apply Htcp|]. intros tcp.
  apply follows_bind; [eauto with deadlines|]. intros _.
  apply follows_bind; [eauto with deadlines|]. intros _.
  apply follows_bind; [apply read_proxy_response_follows|]. intros b.
  apply follows_bind; eauto with deadlines.
Qed.

Lemma write_request_follows fuel tcp b :
  follows t (write_request fuel tcp b) (write_request fuel tcp b).
Proof.
  induction fuel as [|fuel IH]; cbn [write_request]; [apply follows_none|].
  apply follows_bind; [eauto with deadlines|]. intros _.
  apply follows_bind; [eauto with deadlines|].
  intros [n|e|]; [| |]; eauto with deadlines. by case_decide; eauto with deadlines.
Qed.

(** Only the stream is looked at, not the deadline that is kept with it. *)
Lemma from_stream_follows tcp t1 t2 mh ms :
  follows t (from_stream (Unsecured tcp t1) mh ms) (from_stream (Unsecured tcp t2) mh ms).
Proof.
  intros w r w'. unfold from_stream. cbn [poll_read].
  destruct (ResponseLazy.from_stream _ _ _) as [x|]; [|done]. cbn. intros [= <- <-].
  split; [by apply fw_head|done].
Qed.

Definition deadline_hop (hop : NextHop) : NextHop :=
  match hop with
  | Redirect r => Redirect ((fun c => with_deadline c t) <$> r)
  | Destination c => Destination (with_deadline c t)
  end.

Lemma get_redirect_deadline c code loc :
  get_redirect (with_deadline c t) code loc = deadline_hop (get_redirect c code loc).
Proof.
  unfold get_redirect. destruct (is_redirect code); [|done]. destruct loc as [loc|]; [|done].
  cbn [request with_deadline].
  destruct (ParsedRequest.redirect_to (request c) loc) as [[ [] |e|] r]; [|done..].
  by destruct (code =? 303)%Z.
Qed.

Section Hops.
Variables k k' : Connection -> M ResponseLazy.ResponseLazy.
Hypothesis Hk : forall c, timeout_at c = None -> follows t (k (with_deadline c t)) (k' c).

Lemma handle_redirects_follows c p :
  timeout_at c = None ->
  follows t (handle_redirects k (with_deadline c t) p) (handle_redirects k' c p).
Proof.
  intros Hc. unfold handle_redirects. rewrite get_redirect_deadline.
  destruct (get_redirect c _ _) as [[c'|e|]|c'] eqn:E; cbn [deadline_hop]; try apply follows_ret.
  - apply get_redirect_next in E as [_ E]. intros w r w' Hr. apply (Hk c'); [by rewrite E|done].
  - by intros w r w' [= <- <-].
  - by intros w r w' [= <- <-].
Qed.

Lemma send_without_timeout_follows fuel c :
  timeout_at c = None ->
  follows t (send_without_timeout fuel k (with_deadline c t)) (send_without_timeout fuel k' c).
Proof.
  intros Hc. apply follows_bind; [apply follows_known|]. intros host.
  apply follows_bind; [by apply (connect_follows fuel (set_host c host))|]. intros tcp.
  apply follows_bind; [apply write_request_follows|]. intros _.
  apply follows_bind; [apply from_stream_follows|]. intros p.
  by apply (handle_redirects_follows (set_host c host)).
Qed.

Lemma send_https_without_timeout_follows fuel c :
  timeout_at c = None ->
  follows t (send_https_without_timeout fuel k (with_deadline c t))
    (send_https_without_timeout fuel k' c).
Proof.
  intros Hc. apply follows_bind; [apply follows_known|]. intros host.
  apply follows_bind.
  { destruct feature_rustls; [|apply follows_ret].
    apply follows_bind; [eauto with deadlines|]. intros _.
    apply follows_bind; [|eauto with deadlines]. intros w r w'. unfold rustls_connector.
    destruct (force_config _) as [x st]. intros [= <- <-]. split; [by apply fw_statics|done]. }
  intros roots. apply follows_bind; [by apply (connect_follows fuel (set_host c host))|].
  intros tcp. apply follows_bind; [unfold tls_session; case_match; eauto with deadlines|].
  intros tls. apply follows_bind; [eauto with deadlines|]. intros _.
  apply follows_bind; [by intros w r w' [= <- <-]|]. intros p.
  by apply (handle_redirects_follows (set_host c host)).
Qed.

Lemma remaining_untimed c w : timeout_at c = None -> remaining c w = Some (Ok None, w).
Proof. intros Hc. unfold remaining. by rewrite Hc. Qed.

Lemma with_remaining_follows c m m' :
  timeout_at c = None -> follows t m m' ->
  follows t (with_remaining (with_deadline c t) m) (with_remaining c m').
Proof.
  intros Hc Hm. eapply follows_ext; [|by apply follows_limited].
  intros w. unfold with_remaining. by rewrite (M_bind_ok _ _ _ _ _ (remaining_untimed c w Hc)).
Qed.

(** With the native library the time that remains is taken before the connector is
    made, so that the deadline is even later. *)
Lemma send_https_follows fuel c :
  timeout_at c = None ->
  follows t (send_https fuel k (with_deadline c t)) (send_https fuel k' c).
Proof.
  intros Hc. unfold send_https. pose proof (send_https_without_timeout_follows fuel c Hc) as Hs.
  destruct feature_rustls; [by apply with_remaining_follows|].
  intros w r w' Hr. rewrite (M_bind_ok _ _ _ _ _ (remaining_untimed c w Hc)) in Hr.
  pose proof (follows_bind t _ _ _ _ (follows_call_other t _ (fw_native Hclock)) (fun _ => Hs))
    as Hb.
  destruct (Hb _ _ _ Hr) as [Hle Heq]. split; [done|]. intros Ht. specialize (Heq Ht).
  rewrite (M_bind_ok (remaining _) _ w (Some (t - now w)) w).
  2: { unfold remaining, timeout_at_to_duration. cbn [timeout_at with_deadline].
       by test_true (now w <=? t). }
  revert Heq. unfold mbind, M_bind. unfold call_other. pose proof (fw_native Hclock w) as Hn.
  destruct (native_connector w) as [x w1]. cbn [fst snd] in *.
  destruct (from_io _) as [[]|e|]; [|done..]. intros Heq. unfold Runtime.timeout.
  rewrite Heq. by test_true (now w' <=? now w1 + (t - now w)).
Qed.

Lemma send_by_scheme_follows fuel c :
  timeout_at c = None ->
  follows t (send_by_scheme fuel k (with_deadline c t)) (send_by_scheme fuel k' c).
Proof.
  intros Hc. unfold send_by_scheme. change (url (with_deadline c t)) with (url c).
  destruct (HttpUrl.https (url c)).
  - destruct feature_tls; [by apply send_https_follows|apply follows_known].
  - apply with_remaining_follows; [done|]. by apply send_without_timeout_follows.
Qed.
End Hops.

Lemma send_chain_follows fuel hops c :
  timeout_at c = None ->
  follows t (send_chain fuel hops (with_deadline c t)) (send_chain fuel hops c).
Proof.
  revert c. induction hops as [|hops IH]; intros c Hc; [apply follows_none|].
  by apply send_by_scheme_follows.
Qed.
End Follows.

(** A request sent at [w] has no timeout, or one that is not reached at [w']. *)
Definition in_time (parsed : ParsedRequest.ParsedRequest) (w w' : World) : Prop :=
  match effective_timeout parsed with
  | None => True
  | Some secs =>
      clock_forward /\ now w + from_secs secs <= instant_MAX /\ now w' <= now w + from_secs secs
  end.

(** Sending a parsed request is the chain that begins with its connection. *)
Lemma send_parsed_chain fuel parsed c w :
  Connection.new parsed w = Some (Ok c, w) -> url c = ParsedRequest.url parsed ->
  Client.send_parsed fuel parsed w = send_chain fuel (chain_hops c) c w.
Proof.
  intros Hn Hu. unfold Client.send_parsed, chain_hops. cbn [send_chain].
  unfold send_by_scheme at 1. rewrite Hu.
  destruct (HttpUrl.https _); [destruct feature_tls; [|done]|]; by rewrite (M_bind_ok _ _ _ _ _ Hn).
Qed.

Lemma send_parsed_in_time fuel parsed w r w' :
  in_time parsed w w' ->
  send_chain fuel (chain_hops (mkConnection parsed None)) (mkConnection parsed None) w
    = Some (r, w') ->
  Client.send_parsed fuel parsed w = Some (r, w').
Proof.
  unfold in_time. intros Ht Hs. destruct (effective_timeout parsed) as [secs|] eqn:Et.
  - destruct Ht as (Hclock & Hmax & Hle).
    rewrite (send_parsed_chain fuel parsed
      (with_deadline (mkConnection parsed None) (now w + from_secs secs))).
    + by apply (send_chain_follows Hclock _ fuel _ (mkConnection parsed None) eq_refl _ _ _ Hs).
    + unfold Connection.new. rewrite Et. by test_true (now w + from_secs secs <=? instant_MAX).
    + done.
  - rewrite (send_parsed_chain fuel parsed (mkConnection parsed None)); [done| |done].
    unfold Connection.new. by rewrite Et.
Qed.

(** C20. A timeout that is not reached changes nothing: when the request, with all its
    redirections, proxies and TLS sessions, would end by the deadline if there were
    none, then with the deadline, be it from [with_timeout] or from the environment,
    it ends with the same result at the same moment, in the same state of the
    world. *)
Theorem deadline_not_reached fuel req parsed secs w r w' :
  clock_forward -> ParsedRequest.new req = Ok parsed -> effective_timeout parsed = Some secs ->
  now w + from_secs secs <= instant_MAX ->
  send_chain fuel (chain_hops (mkConnection parsed None)) (mkConnection parsed None) w
    = Some (r, w') ->
  now w' <= now w + from_secs secs ->
  Client.send_lazy fuel req w = Some (r, w').
Proof.
  intros Hclock Hnew Ht Hmax Hs Hle. unfold Client.send_lazy. rewrite Hnew.
  erewrite M_bind_ok; [|done]. apply send_parsed_in_time; [|done]. unfold in_time. by rewrite Ht.
Qed.

(** ** Servers that are too slow *)

(** [m] takes at least [d] when it succeeds. *)
Definition takes {A} (d : N) (m : M A) : Prop :=
  forall w a w', m w = Some (Ok a, w') -> now w + d <= now w'.

Lemma takes_bind {A B} d1 d2 (m : M A) (f : A -> M B) :
  takes d1 m -> (forall a, takes d2 (f a)) -> takes (d1 + d2) (m ≫= f).
Proof.
  intros Hm Hf w b w' (a & w1 & Ha & Hb)%M_bind_Some.
  apply Hm in Ha. apply Hf in Hb. lia.
Qed.
Lemma takes_then {A B} d (m : M A) (f : A -> M B) :
  takes 0 m -> (forall a, takes d (f a)) -> takes d (m ≫= f).
Proof. intros Hm Hf. rewrite <- (N.add_0_l d). by apply takes_bind. Qed.
Lemma takes_first {A B} d (m : M A) (f : A -> M B) :
  takes d m -> (forall a, takes 0 (f a)) -> takes d (m ≫= f).
Proof. intros Hm Hf. rewrite <- (N.add_0_r d). by apply takes_bind. Qed.
Lemma takes_weaken {A} d d' (m : M A) : takes d m -> d' <= d -> takes d' m.
Proof. intros Hm Hd w a w' Hr. apply Hm in Hr. lia. Qed.

Lemma takes_known {A} (r : result A) : takes 0 (known r).
Proof. intros w a w' [= _ <-]. lia. Qed.
Lemma takes_ret {A} (a : A) : takes 0 (mret (M:=M) a).
Proof. intros w b w' [= _ <-]. lia. Qed.
Lemma takes_none {A} d : takes (A:=A) d out_of_fuel.
Proof. by intros w a w'. Qed.
Lemma takes_call {A} (op : World -> io_result A * World) : forward op -> takes 0 (call op).
Proof.
  intros Hop w a w'. unfold call. specialize (Hop w). destruct (op w) as [x w1].
  intros [= _ <-]. simpl in Hop. lia.
Qed.
Lemma takes_call_other {A} (op : World -> io_result A * World) :
  forward op -> takes 0 (call_other op).
Proof.
  intros Hop w a w'. unfold call_other. specialize (Hop w). destruct (op w) as [x w1].
  intros [= _ <-]. simpl in Hop. lia.
Qed.
Lemma takes_attempt {A} (op : World -> io_result A * World) : forward op -> takes 0 (attempt op).
Proof.
  intros Hop w a w'. unfold attempt. specialize (Hop w).
  destruct (op w) as [[x|x|] w1]; intros [= _ <-]; simpl in Hop; lia.
Qed.

(** A program that is stopped is over, or has failed by then. *)
Lemma takes_timeout {A} d t (m : M A) elapsed :
  takes d m -> (forall a, elapsed <> Ok a) -> takes d (Runtime.timeout t m elapsed).
Proof. intros Hm He w a w' [Hx|[Hx _]]%timeout_Ok; [by apply He in Hx|by eapply Hm]. Qed.

#[local] Hint Resolve takes_known takes_ret takes_none takes_call takes_call_other
  takes_attempt : deadlines.

Section Slow.
Hypothesis Hclock : clock_forward.
Hypothesis Hcancelled : forall w w' t, now w <= t -> now w <= now (cancelled w w' t).
Variable d : N.
Hypothesis Hslow : forall tcp w, now w + d <= now (head_read tcp w).

Lemma remaining_takes c : takes 0 (remaining c).
Proof. intros w a w' [= _ <-]. lia. Qed.

Lemma connect_attempt_takes c addr : takes 0 (connect_attempt c addr).
Proof.
  apply takes_then; [apply remaining_takes|]. intros [t|]; [|eauto with deadlines].
  intros w a w'. unfold Runtime.timeout.
  pose proof (takes_attempt (tcp_stream_connect addr) (fw_connect Hclock addr) w) as Ha.
  destruct (attempt _ w) as [[r w1]|]; [|done].
  destruct (_ || _); intros [= Hr <-]; [subst r; by apply (Ha a)|].
  specialize (Hcancelled w w1 (now w + t)). lia.
Qed.

Lemma tcp_connect_takes c host port : takes 0 (tcp_connect c host port).
Proof.
  apply takes_then; [eauto with deadlines|]. intros addrs. generalize 0 at 2, (len addrs).
  induction addrs as [|addr addrs IH]; intros i n; cbn [try_addrs]; [apply takes_known|].
  apply takes_then; [apply connect_attempt_takes|]. intros stream.
  destruct (_ || _); [apply takes_known|apply IH].
Qed.

Lemma read_proxy_response_takes fuel tcp acc : takes 0 (read_proxy_response fuel tcp acc).
Proof.
  revert acc. induction fuel as [|fuel IH]; intros acc; cbn [read_proxy_response];
    [apply takes_none|].
  apply takes_then; [eauto with deadlines|]. intros data. case_match; eauto with deadlines.
Qed.

Lemma connect_takes fuel c : takes 0 (connect fuel c).
Proof.
  unfold connect, connect_direct. pose proof (tcp_connect_takes c) as Htcp.
  destruct feature_proxy; [|done]. destruct (Request.proxy (config c)); [|done].
  apply takes_then; [done|]. intros tcp.
  apply takes_then; [eauto with deadlines|]. intros _.
  apply takes_then; [eauto with deadlines|]. intros _.
  apply takes_then; [apply read_proxy_response_takes|]. intros b.
  apply takes_then; eauto with deadlines.
Qed.

Lemma write_request_takes fuel tcp b : takes 0 (write_request fuel tcp b).
Proof.
  induction fuel as [|fuel IH]; cbn [write_request]; [apply takes_none|].
  apply takes_then; [eauto with deadlines|]. intros _.
  apply takes_then; [eauto with deadlines|].
  intros [n|e|]; [| |]; eauto with deadlines. case_decide; eauto with deadlines.
Qed.

Lemma from_stream_takes tcp t mh ms : takes d (from_stream (Unsecured tcp t) mh ms).
Proof.
  intros w a w'. unfold from_stream. cbn [poll_read].
  destruct (ResponseLazy.from_stream _ _ _) as [x|]; [|done]. intros [= _ <-]. apply Hslow.
Qed.

Lemma send_takes fuel k c : (forall c', takes 0 (k c')) -> takes d (send fuel k c).
Proof.
  intros Hk. unfold send, with_remaining. apply takes_then; [apply remaining_takes|].
  assert (takes d (send_without_timeout fuel k c)) as Hs.
  { apply takes_then; [apply takes_known|]. intros host.
    apply takes_then; [apply connect_takes|]. intros tcp.
    apply takes_then; [apply write_request_takes|]. intros _.
    apply takes_first; [apply from_stream_takes|]. intros p. unfold handle_redirects.
    destruct (get_redirect _ _ _); [|apply takes_ret].
    apply takes_then; [apply takes_known|done]. }
  by intros [t|]; [apply takes_timeout|].
Qed.

Lemma send_chain_takes fuel hops c : takes d (send_chain fuel hops c).
Proof.
  revert c. induction hops as [|hops IH]; intros c; cbn [send_chain]; [apply takes_none|].
  assert (forall c', takes 0 (send_chain fuel hops c')) as Hk.
  { intros c'. eapply takes_weaken; [apply IH|lia]. }
  unfold send_by_scheme. destruct (HttpUrl.https _); [|by apply send_takes].
  destruct feature_tls; [|by intros w a w']. intros w a w' Hs. by apply send_https_fails in Hs.
Qed.
End Slow.

(** A runtime that stops what is late, and servers whose heads take at least [d]. *)
Record slow_servers (d : N) : Prop := {
  ss_clock : clock_forward;
  ss_cancelled : forall w w' t, now w <= t -> now w <= now (cancelled w w' t);
  ss_suspended : forall w w' t, t < now w' -> suspended w w' t = true;
  ss_slow : forall tcp w, now w + d <= now (head_read tcp w);
}.

Lemma slow_parsed fuel parsed secs d w p w' :
  slow_servers d -> effective_timeout parsed = Some secs -> from_secs secs < d ->
  Client.send_parsed fuel parsed w <> Some (Ok p, w').
Proof.
  intros [Hclock Hcan Hsus Hslow] Ht Hd. unfold Client.send_parsed. destruct (HttpUrl.https _).
  { destruct feature_tls; [|done]. intros (c & w1 & _ & Hs)%M_bind_Some.
    by apply send_https_fails in Hs. }
  unfold Connection.new. rewrite Ht. intros (c & w1 & Hn & Hs)%M_bind_Some.
  destruct (_ <=? _); simplify_eq.
  pose proof (send_takes Hclock Hcan d Hslow fuel _ _
    (fun c' => takes_weaken d 0 _ (send_chain_takes Hclock Hcan d Hslow fuel _ c') ltac:(lia))
    _ _ _ Hs) as Hlong.
  apply (send_Ok_in_time _ _ _ _ (now w1 + from_secs secs)) in Hs as [|Hs]; [lia| |done].
  rewrite Hsus in Hs; [done|lia].
Qed.

Lemma slow_send fuel req parsed secs d w r w' :
  slow_servers d -> ParsedRequest.new req = Ok parsed -> effective_timeout parsed = Some secs ->
  from_secs secs < d -> Client.send fuel req w <> Some (Ok r, w').
Proof.
  intros Hsl Hnew Ht Hd. unfold Client.send. rewrite Hnew. erewrite M_bind_ok; [|done].
  intros (p & w1 & Hs & _)%M_bind_Some. by eapply slow_parsed.
Qed.

(** C18. A server that takes longer than the timeout is not waited for: when the head of
    no response is there sooner than the timeout allows, and tokio stops what is late,
    no response is returned, lazy or loaded, by whatever redirections and proxies it
    would come. *)
Theorem slow_server_fails fuel req parsed secs d w w' :
  slow_servers d -> ParsedRequest.new req = Ok parsed -> effective_timeout parsed = Some secs ->
  from_secs secs < d ->
  (forall p, Client.send_lazy fuel req w <> Some (Ok p, w')) /\
  (forall r, Client.send fuel req w <> Some (Ok r, w')).
Proof.
  intros Hsl Hnew Ht Hd. split; intros r; [|by eapply slow_send].
  unfold Client.send_lazy. rewrite Hnew. erewrite M_bind_ok; [|done]. by eapply slow_parsed.
Qed.
End Deadlines.
End Deadlines.

Module DeadlineExamples.
Import Connection ConnectionFacts ConnectionExamples Deadlines BodyExamples.
#[local] Existing Instances canonical_order example_externals no_variables default_build.

(** Two addresses are tried, a nanosecond each, with a second to do it in. *)
Definition patient_request : Request.Request := Request.with_timeout get_request 1.
Definition patient_parsed : ParsedRequest.ParsedRequest :=
  match ParsedRequest.new patient_request with
  | Ok parsed => parsed
  | _ => get_parsed
  end.

Lemma hello_network_forward : @clock_forward hello_network.
Proof. split; intros; try intros w; cbn; try lia. Qed.

Definition patient_lazy : ResponseLazy.ResponseLazy :=
  match @Client.send_lazy _ _ _ _ hello_network 1 patient_request 0 with
  | Some (Ok r, _) => r
  | _ => lazy EndOnClose None []
  end.

Lemma deadline_not_reached_witness :
  @Client.send_lazy _ _ _ _ hello_network 1 patient_request 0 = Some (Ok patient_lazy, 2).
Proof.
  apply (@deadline_not_reached _ _ _ _ hello_network 1 patient_request patient_parsed 1 0
           (Ok patient_lazy) 2);
    [apply hello_network_forward|vm_compute; reflexivity|reflexivity|by_compute
    |vm_compute; reflexivity|by_compute].
Defined.

(** A server that takes two seconds. *)
Definition slow_network : Runtime := paused (2 * 10 ^ 9) [0; 1] hello_stream.

Lemma slow_network_slow : @slow_servers slow_network (2 * 10 ^ 9).
Proof.
  split; [split; intros; try intros w; cbn; lia|done|done|].
  intros tcp w. cbn. lia.
Qed.

(** Not even the response that a quicker server would send. *)
Lemma slow_server_fails_witness :
  (forall p, @Client.send_lazy _ _ _ _ slow_network 1 patient_request 0
               <> Some (Ok p, 2 * 10 ^ 9 + 2)) /\
  (forall r, @Client.send _ _ _ _ slow_network 1 patient_request 0
               <> Some (Ok r, 2 * 10 ^ 9 + 2)).
Proof.
  apply (@slow_server_fails _ _ _ _ slow_network 1 patient_request patient_parsed 1 (2 * 10 ^ 9) 0);
    [apply slow_network_slow|vm_compute; reflexivity|reflexivity|by_compute].
Defined.

(** It runs into the timeout. *)
Example slow_server_times_out :
  @Client.send_lazy _ _ _ _ slow_network 1 patient_request 0
  = Some (Err (IoError timeout_err), 10 ^ 9).
Proof. vm_compute. reflexivity. Qed.
End DeadlineExamples.
