(* ===== verification/Navigation.v ===== *)
(** The client against a web of replies: a specification of [Request::send] that
    knows methods, URLs, replies and failures but no sockets, and the networks that
    serve such a web, directly or through a proxy. The proof that the client implements
    the specification on them is in [Journeys]. *)

From S2P Require Import Prelude.
From S2P Require Import Text.
From S2P Require Import Strings.
From S2P Require Import Errors.
From S2P Require Import Url.
From S2P Require Import Proxies.
From S2P Require Import Requests.
From S2P Require Import Lines.
From S2P Require Import Metadata.
From S2P Require Import Bodies.
From S2P Require Import Loading.
From S2P Require Import Chunks.
From S2P Require Import Roots.
From S2P Require Import Runtime.
From S2P Require Import Connections.
From S2P Require Import Chains.
From S2P Require Import Deadlines.

(** * The specification *)

Module Navigation.

(** What a server answers: the parts of a status line, the headers, the bytes behind
    them, the error of the connection they end in, if any, and how the headers say
    that the body is found. *)
Record Reply : Type := mkReply {
  version : text;
  code : N;
  reason : text;
  reply_headers : list (text * text);
  reply_body : bytes;
  reply_error : option io_error;
  framing : MetadataFacts.Framing;
}.

(** What becomes of a request: a reply, or the error that comes before one is read. *)
Inductive answer : Type :=
| Replies (r : Reply)
| Breaks (e : Error).

(** What becomes of the requests, by method and URL. *)
Definition Web : Type := Method.Method -> HttpUrl.HttpUrl -> answer.

Definition header_map (r : Reply) : gmap text text :=
  MetadataFacts.insert_headers ∅ (reply_headers r).

(** A body is neither asked for with HEAD, nor sent with the statuses 204 and 304. *)
Definition has_body (m : Method.Method) (r : Reply) : bool :=
  negb (bool_decide (m = Method.Head) || (code r =? 204) || (code r =? 304)).

(** The head of a reply: it may exceed the caps of the request, or announce a length
    that is none. *)
Definition read_reply (base : Request.Request) (r : Reply) : result HttpStreamState :=
  BodyFacts.head_result (Request.max_headers_size base) (Request.max_status_line_len base)
    (MetadataFacts.status_line (version r) (code r) (reason r)) (reply_headers r) (framing r).

Definition with_host (u : HttpUrl.HttpUrl) (host : text) : HttpUrl.HttpUrl :=
  HttpUrl.mkHttpUrl (HttpUrl.https u) host (HttpUrl.port u) (HttpUrl.path_and_query u)
    (HttpUrl.fragment u).

Section Navigate.
Context `{Build} `{Externals}.

(** What the headers of a reply leave of the cap, for trailers. *)
Definition cap_left (base : Request.Request) (r : Reply) : option N :=
  (fun m => m - MetadataFacts.headers_size (reply_headers r)) <$> Request.max_headers_size base.

(** The body that is read of a reply, and the headers, of which chunks make others. *)
Definition read_body (base : Request.Request) (r : Reply) : result (bytes * gmap text text) :=
  match framing r with
  | MetadataFacts.InChunks =>
      Chunks.decoded (reply_body r, reply_error r) (cap_left base r) (header_map r)
  | f =>
      st ← MetadataFacts.framing_result f;
      body ← BodyFacts.body_result st (reply_body r) (reply_error r);
      Ok (body, header_map r)
  end.

(** The page a reply is for its reader: with all that was sent as its body, unless the
    connection failed before the end, or with what is decoded of its chunks. *)
Definition page (base : Request.Request) (m : Method.Method) (u : HttpUrl.HttpUrl) (r : Reply)
    : result Response.Response :=
  '(body, headers) ← (if has_body m r then read_body base r else Ok ([], header_map r));
  Ok (Response.mkResponse (Z.of_N (code r)) (reason r) headers (UrlGrammar.display u) body).

(** Where a [Location] on the page at [u] leads. *)
Definition location_target (u : HttpUrl.HttpUrl) (location : text) : result HttpUrl.HttpUrl :=
  UrlGrammar.parse_grammar
    (if contains (lit "://") location then location
     else HttpUrl.write_base_url_to u [] ++ location) (Some u).

(** What navigating comes to: a page or an error, or an https URL, behind which the
    specification does not look. *)
Inductive navigation : Type :=
| Arrived (r : result Response.Response)
| AtHttps.

(** The method behind a reply that redirects. *)
Definition next_method (m : Method.Method) (r : Reply) : Method.Method :=
  if code r =? 303 then Connection.see_other_method m else m.

(** What a reply comes to: the end, or a method and a URL to go on with. *)
Inductive step : Type :=
| Ends (r : result Response.Response)
| Leads (m : Method.Method) (u : HttpUrl.HttpUrl).

(** What is made of a reply to [m] at [u]; [base] is the request that was made at
    first. *)
Definition reply_at (base : Request.Request) (m : Method.Method) (u : HttpUrl.HttpUrl) (r : Reply)
    : step :=
  match read_reply base r with
  | Ok _ =>
      if Connection.is_redirect (Z.of_N (code r)) then
        match location ← ok_or (header_map r !! lit "location") RedirectLocationMissing;
              location_target u location with
        | Ok u' => Leads (next_method m r) u'
        | Err e => Ends (Err e)
        | Panic => Ends Panic
        end
      else Ends (page base m u r)
  | Err e => Ends (Err e)
  | Panic => Ends Panic
  end.

Definition answer_at (web : Web) (base : Request.Request) (m : Method.Method)
    (u : HttpUrl.HttpUrl) : step :=
  match web m u with
  | Replies r => reply_at base m u r
  | Breaks e => Ends (Err e)
  end.

(** The URL [u] is asked for with [m], [visited] having been visited before; [hops]
    more redirections may be followed. *)
Fixpoint navigate (web : Web) (base : Request.Request) (hops : nat) (m : Method.Method)
    (visited : list HttpUrl.HttpUrl) (u : HttpUrl.HttpUrl) : navigation :=
  if HttpUrl.https u then AtHttps
  else
    match ensure_ascii_host (HttpUrl.host u) with
    | Ok host =>
        let u := with_host u host in
        match answer_at web base m u with
        | Ends r => Arrived r
        | Leads m' u' =>
            match hops with
            | O => Arrived (Err TooManyRedirections)
            | S hops =>
                if decide (u' ∈ visited ++ [u]) then Arrived (Err InfiniteRedirectionLoop)
                else navigate web base hops m' (visited ++ [u]) u'
            end
        end
    | Err e => Arrived (Err e)
    | Panic => Arrived Panic
    end.

(** A set of requests that holds, with a request that is redirected, the next one. *)
Definition closed (web : Web) (base : Request.Request)
    (wanted : Method.Method -> HttpUrl.HttpUrl -> Prop) : Prop :=
  forall m u m' u' host,
    wanted m u -> answer_at web base m u = Leads m' u' -> HttpUrl.https u' = false ->
    ensure_ascii_host (HttpUrl.host u') = Ok host -> wanted m' (with_host u' host).
End Navigate.
End Navigation.

(** * Networks that serve a web *)

Module Network.
Import Connection ConnectionFacts BodyFacts Navigation.

Section Network.
Context `{Build} `{Externals} `{Environment} `{HashOrder} `{Runtime}.

(** Addresses that refuse, in order. *)
Inductive refused : list SocketAddr -> World -> World -> Prop :=
| refused_nil w : refused [] w w
| refused_cons addr addrs w e w1 w2 :
    tcp_stream_connect addr w = (Err e, w1) -> refused addrs w1 w2 ->
    refused (addr :: addrs) w w2.

(** A host of which some address accepts. *)
Definition opened (host : text) (port : N) (w : World) (tcp : TcpStream) (w' : World) : Prop :=
  exists l addr rest w0 w1,
    to_socket_addrs host port w = (Ok (l ++ addr :: rest), w0) /\ refused l w0 w1 /\
    tcp_stream_connect addr w1 = (Ok tcp, w').

(** The answer of a proxy in [n] buffers, and what the client makes of it: each
    buffer filled up to 256 bytes with zeros. *)
Inductive answered (tcp : TcpStream) : nat -> World -> bytes -> World -> Prop :=
| answered_last w data w1 :
    tcp_read tcp 256 w = (Ok data, w1) -> len data < 256 ->
    answered tcp 1 w (data ++ replicate (256 - length data) 0) w1
| answered_full n w data w1 answer w2 :
    tcp_read tcp 256 w = (Ok data, w1) -> len data = 256 -> answered tcp n w1 answer w2 ->
    answered tcp (S n) w (data ++ answer) w2.

(** A proxy that is opened, takes the CONNECT request, and answers. *)
Definition asked (proxy : Proxy.Proxy) (c : Connection) (n : nat) (w : World) (tcp : TcpStream)
    (answer : bytes) (w' : World) : Prop :=
  exists w1 w2 w3,
    opened (Proxy.server proxy) (Proxy.port proxy mod 2 ^ 16) w tcp w1 /\
    tcp_write_all tcp (utf8 (Proxy.connect proxy (request c))) w1 = (Ok tt, w2) /\
    tcp_flush tcp w2 = (Ok tt, w3) /\ answered tcp n w3 answer w'.

(** The server of a connection is reached, directly or through the proxy. *)
Inductive reached (fuel : nat) (c : Connection) (w : World) (tcp : TcpStream) (w' : World)
    : Prop :=
| reached_server :
    feature_proxy = false \/ Request.proxy (config c) = None ->
    opened (HttpUrl.host (url c)) (Port.port (HttpUrl.port (url c))) w tcp w' ->
    reached fuel c w tcp w'
| reached_through_proxy proxy n answer :
    feature_proxy = true -> Request.proxy (config c) = Some proxy ->
    asked proxy c n w tcp answer w' -> (n <= fuel)%nat ->
    Proxy.verify_response answer = Ok tt ->
    reached fuel c w tcp w'.

(** The socket takes the request after it would have blocked some times. *)
Definition taken (fuel : nat) (tcp : TcpStream) (b : bytes) (w w' : World) : Prop :=
  exists k w1 w2 n, blocked tcp b k w w1 /\ (k < fuel)%nat /\
    tcp_writable tcp w1 = (Ok tt, w2) /\ tcp_try_write tcp b w2 = (Ok n, w').

(** A connection that brings a reply: in any pieces and with any delays, but for chunks,
    which come in single bytes. *)
Definition brings (s : HttpStreamBytes) (r : Reply) : Prop :=
  let sent :=
    (response_bytes (version r) (code r) (reason r) (reply_headers r) (reply_body r),
     reply_error r) in
  flat s = sent /\ (framing r = MetadataFacts.InChunks -> s = Chunks.singles sent).

(** One request and its reply. *)
Definition exchange (fuel : nat) (c : Connection) (r : Reply) (w w' : World) : Prop :=
  exists tcp w1 w2,
    reached fuel c w tcp w1 /\ taken fuel tcp (ParsedRequest.as_bytes (request c)) w1 w2 /\
    brings (received tcp w2) r /\ w' = head_read tcp w2.

(** A host that cannot be connected to, and why: its name is not resolved, it has no
    address, or every address refuses, the last one with the error that is reported. *)
Inductive unreachable (host : text) (port : N) (w : World) (e : Error) (w' : World) : Prop :=
| unresolved err :
    to_socket_addrs host port w = (Err err, w') -> e = IoError err ->
    unreachable host port w e w'
| no_address :
    to_socket_addrs host port w = (Ok [], w') -> e = AddressNotFound ->
    unreachable host port w e w'
| all_refuse l addr w0 w1 err :
    to_socket_addrs host port w = (Ok (l ++ [addr]), w0) -> refused l w0 w1 ->
    tcp_stream_connect addr w1 = (Err err, w') -> e = IoError err ->
    unreachable host port w e w'.

(** One request that fails before its reply is read: the server or the proxy is not
    reached, the proxy declines, the socket does not take the request, or what comes
    back is no head of a response, which [metadata_spec] says of its bytes. *)
Inductive failed (fuel : nat) (c : Connection) (e : Error) (w w' : World) : Prop :=
| failed_server :
    feature_proxy = false \/ Request.proxy (config c) = None ->
    unreachable (HttpUrl.host (url c)) (Port.port (HttpUrl.port (url c))) w e w' ->
    failed fuel c e w w'
| failed_proxy proxy :
    feature_proxy = true -> Request.proxy (config c) = Some proxy ->
    unreachable (Proxy.server proxy) (Proxy.port proxy mod 2 ^ 16) w e w' ->
    failed fuel c e w w'
| failed_tunnel proxy n tcp answer :
    feature_proxy = true -> Request.proxy (config c) = Some proxy ->
    asked proxy c n w tcp answer w' -> (n <= fuel)%nat ->
    Proxy.verify_response answer = Err e ->
    failed fuel c e w w'
| failed_wait tcp k w1 w2 err :
    reached fuel c w tcp w1 -> blocked tcp (ParsedRequest.as_bytes (request c)) k w1 w2 ->
    (k < fuel)%nat -> tcp_writable tcp w2 = (Err err, w') -> e = IoError err ->
    failed fuel c e w w'
| failed_write tcp k w1 w2 w3 err :
    reached fuel c w tcp w1 -> blocked tcp (ParsedRequest.as_bytes (request c)) k w1 w2 ->
    (k < fuel)%nat -> tcp_writable tcp w2 = (Ok tt, w3) ->
    tcp_try_write tcp (ParsedRequest.as_bytes (request c)) w3 = (Err err, w') ->
    io_kind err <> WouldBlock -> e = IoError err ->
    failed fuel c e w w'
| failed_read tcp w1 w2 :
    reached fuel c w tcp w1 -> taken fuel tcp (ParsedRequest.as_bytes (request c)) w1 w2 ->
    metadata_spec (flat (received tcp w2)) (Request.max_headers_size (config c))
      (Request.max_status_line_len (config c)) = Some (Err e) ->
    w' = head_read tcp w2 ->
    failed fuel c e w w'.

(** What becomes of a request, on the network. *)
Definition answered_by (fuel : nat) (c : Connection) (a : answer) (w w' : World) : Prop :=
  match a with
  | Replies r => exchange fuel c r w w'
  | Breaks e => failed fuel c e w w'
  end.

(** The cap on the headers of a request is a [usize]. *)
Definition caps_ok (config : Request.Request) : Prop :=
  match Request.max_headers_size config with Some n => n <= usize_MAX | None => True end.

(** A reply that is in the format; its body is not longer than it announces. *)
Record reply_ok (m : Method.Method) (r : Reply) : Prop := {
  rp_head : head_wf (version r) (code r) (reason r) (reply_headers r);
  rp_framed : MetadataFacts.framed_as (header_map r) (framing r);
  rp_body : is_redirect (Z.of_N (code r)) = false -> has_body m r = true ->
            forall n, framing r = MetadataFacts.ByLength n ->
            len (reply_body r) <= n /\ n <= usize_MAX;
}.

(** The network answers every request that is [wanted] and has the configuration
    [base], but for its method, as the web does, in every state of the world that
    satisfies [inv]. *)
Record serves (fuel : nat) (web : Web) (base : Request.Request)
    (wanted : Method.Method -> HttpUrl.HttpUrl -> Prop) (inv : World -> Prop) : Prop := {
  sv_closed : closed web base wanted;
  sv_caps : caps_ok base;
  sv_replies : forall m u r, wanted m u -> web m u = Replies r -> reply_ok m r;
  sv_exchange : forall c w,
    inv w -> timeout_at c = None -> HttpUrl.https (url c) = false ->
    config c = Request.set_method base (Request.method (config c)) ->
    wanted (Request.method (config c)) (url c) ->
    exists w', answered_by fuel c (web (Request.method (config c)) (url c)) w w' /\ inv w';
}.
End Network.
End Network.
