(* ===== verification/Journeys.v ===== *)
(** The proof that the client implements the specification of [Navigation], and a small
    web behind a proxy. *)

From S2P Require Import Prelude.
From S2P Require Import Text.
From S2P Require Import Strings.
From S2P Require Import Errors.
From S2P Require Import Url.
From S2P Require Import Proxies.
From S2P Require Import Requests.
From S2P Require Import Lines.
From S2P Require Import Metadata.
From S2P Require Import Bodies.
From S2P Require Import Loading.
From S2P Require Import Chunks.
From S2P Require Import Roots.
From S2P Require Import Runtime.
From S2P Require Import Connections.
From S2P Require Import Chains.
From S2P Require Import Deadlines.
From S2P Require Import Navigation.

(** * Facts *)

Module NavigationFacts.
Import Connection ConnectionFacts BodyFacts Navigation Network Deadlines.

Section Facts.
Context `{Build} `{Externals} `{Environment} `{HashOrder} `{Runtime}.

(** ** Connecting *)

Lemma refused_all_fail c l w w1 :
  timeout_at c = None -> refused l w w1 -> exists es, all_fail c l w es w1.
Proof.
  intros Ht. induction 1 as [w|addr addrs w e w1 w2 Hc _ [es Hes]]; [eexists; constructor|].
  exists (e :: es). econstructor; [|done]. rewrite connect_attempt_untimed by done.
  unfold attempt. by rewrite Hc.
Qed.

Lemma tcp_connect_opened c host port w tcp w' :
  timeout_at c = None -> opened host port w tcp w' ->
  tcp_connect c host port w = Some (Ok tcp, w').
Proof.
  intros Ht (l & addr & rest & w0 & w1 & Hr & Hl & Hc).
  apply (refused_all_fail c) in Hl as [es Hl]; [|done].
  eapply tcp_connect_first; [done..|]. rewrite connect_attempt_untimed by done.
  unfold attempt. by rewrite Hc.
Qed.

Lemma try_addrs_refused c l addr w w1 n i err w' :
  timeout_at c = None -> refused l w w1 -> tcp_stream_connect addr w1 = (Err err, w') ->
  n = i + len l + 1 -> try_addrs c n i (l ++ [addr]) w = Some (Err (IoError err), w').
Proof.
  intros Ht Hl Hc ->. apply (refused_all_fail c) in Hl as [es Hl]; [|done].
  erewrite try_addrs_skip by done. cbn [try_addrs].
  rewrite (M_bind_ok _ _ _ (Err err) w').
  - change (len [addr]) with 1. replace (i + len l + 1 - 1) with (i + len l) by lia.
    by rewrite N.eqb_refl.
  - rewrite connect_attempt_untimed by done. unfold attempt. by rewrite Hc.
Qed.

Lemma tcp_connect_unreachable c host port w e w' :
  timeout_at c = None -> unreachable host port w e w' ->
  tcp_connect c host port w = Some (Err e, w').
Proof.
  intros Ht [err Hr ->|Hr ->|l addr w0 w1 err Hr Hl Hc ->]; unfold tcp_connect.
  - apply M_bind_fail. unfold call. by rewrite Hr.
  - rewrite (M_bind_ok _ _ _ [] w'); [done|]. unfold call. by rewrite Hr.
  - erewrite M_bind_ok; [|unfold call; by rewrite Hr].
    eapply try_addrs_refused; [done..|]. by rewrite len_app, N.add_0_l.
Qed.

Lemma read_proxy_response_answered fuel tcp n w acc answer w' :
  answered tcp n w answer w' -> (n <= fuel)%nat ->
  read_proxy_response fuel tcp acc w = Some (Ok (acc ++ answer), w').
Proof.
  intros Ha. revert fuel acc.
  induction Ha as [w data w1 Hr Hl|n w data w1 answer w2 Hr Hl _ IH]; intros [|fuel] acc Hf; try lia;
    cbn [read_proxy_response]; (erewrite M_bind_ok; [|unfold call; by rewrite Hr]).
  - by test_true (len data <? 256).
  - test_false (len data <? 256). rewrite IH by lia.
    assert (256 - length data = 0)%nat as -> by (unfold len in Hl; lia).
    simpl. by rewrite app_nil_r, <- app_assoc.
Qed.

(** Through a proxy, the connection is handed out as the answer is judged. *)
Lemma connect_asked fuel c proxy n w tcp answer w' :
  feature_proxy = true -> Request.proxy (config c) = Some proxy -> timeout_at c = None ->
  asked proxy c n w tcp answer w' -> (n <= fuel)%nat ->
  connect fuel c w = Some (_ ← Proxy.verify_response answer; Ok tcp, w').
Proof.
  intros Hf Hp Ht (w1 & w2 & w3 & Ho & Hw & Hfl & Ha) Hn. unfold connect. rewrite Hf, Hp.
  erewrite M_bind_ok; [|by apply tcp_connect_opened].
  erewrite M_bind_ok; [|unfold call_other; by rewrite Hw].
  erewrite M_bind_ok; [|unfold call; by rewrite Hfl].
  erewrite M_bind_ok; [|by eapply read_proxy_response_answered].
  simpl. unfold mbind at 1, M_bind, known. by destruct (Proxy.verify_response answer) as [ [] | | ].
Qed.

Lemma connect_is_direct fuel c :
  feature_proxy = false \/ Request.proxy (config c) = None -> connect fuel c = connect_direct c.
Proof.
  unfold connect. intros [-> | ->]; [done|]. by destruct feature_proxy.
Qed.

Lemma connect_reached fuel c w tcp w' :
  timeout_at c = None -> reached fuel c w tcp w' -> connect fuel c w = Some (Ok tcp, w').
Proof.
  intros Ht [Hp Ho|proxy n answer Hf Hp Ha Hn Hv].
  - rewrite connect_is_direct by done. by apply tcp_connect_opened.
  - rewrite (connect_asked fuel c proxy n w tcp answer w') by done. by rewrite Hv.
Qed.

(** C22. Connecting through a proxy, in full: the proxy is opened at its own address
    and sent the CONNECT request; when what is read of its answer begins with a
    status line, the connection to it is handed out for the status 200, the
    credentials are reported as refused for 401 and 407, and the proxy as bad for
    any other, whatever follows the line. *)
Theorem proxy_judges fuel c proxy n w tcp w' version code reason rest :
  feature_proxy = true -> Request.proxy (config c) = Some proxy -> timeout_at c = None ->
  asked proxy c n w tcp
    (utf8 (version ++ ch " " :: code ++ ch " " :: reason ++ CRLF) ++ rest) w' -> (n <= fuel)%nat ->
  version <> [] -> code <> [] ->
  Forall (fun c => is_whitespace c = false) version ->
  Forall (fun c => is_whitespace c = false) code ->
  is_text (version ++ code ++ reason) -> LF ∉ reason ->
  connect fuel c w =
    Some (if decide (code = lit "200") then Ok tcp
          else if decide (code = lit "401" \/ code = lit "407") then Err InvalidProxyCreds
          else Err BadProxy, w').
Proof.
  intros Hf Hp Ht Ha Hn ? ? ? ? ? ?. rewrite (connect_asked fuel c proxy n w tcp _ w') by done.
  rewrite ProxyFacts.verify_response_status by done. unfold Proxy.classify_status.
  destruct (decide (code = lit "200")); [done|].
  destruct (decide (code = lit "401" \/ code = lit "407")) as [[-> | ->]|Hno]; [done..|].
  rewrite !bool_decide_eq_false_2 by tauto. done.
Qed.

(** What the socket answers once it blocks no more. *)
Lemma write_request_blocked fuel tcp b k w w1 :
  blocked tcp b k w w1 -> (k < fuel)%nat ->
  exists fuel', write_request fuel tcp b w = write_request (S fuel') tcp b w1.
Proof.
  intros Hb. revert fuel.
  induction Hb as [w1|k w w1' w2' e w3' Hw' Ht' He _ IH]; intros [|fuel] Hk; try lia;
    [by exists fuel|].
  destruct (IH fuel ltac:(lia)) as [fuel' Hf]. exists fuel'. rewrite <- Hf. cbn [write_request].
  erewrite M_bind_ok; [|unfold call; by rewrite Hw'].
  erewrite M_bind_ok; [|unfold attempt; by rewrite Ht']. cbv beta iota. by rewrite decide_True.
Qed.

Lemma write_request_taken fuel tcp b w w' :
  taken fuel tcp b w w' -> write_request fuel tcp b w = Some (Ok tt, w').
Proof. intros (k & w1 & w2 & n & Hb & Hk & Hw & Ht). by eapply write_request_once. Qed.

(** ** One request *)

(** What the lazy response is that is read from a reply. *)
Definition read_as (base : Request.Request) (r : Reply) (st : HttpStreamState)
    (p : ResponseLazy.ResponseLazy) : Prop :=
  head_is p (code r) (reason r) (reply_headers r) st (reply_body r) (reply_error r) /\
  ResponseLazy.url p = [] /\
  (framing r = MetadataFacts.InChunks ->
   Chunks.single_is p (Request.max_headers_size base) (reply_headers r) (reply_body r)
     (reply_error r)).

Lemma brings_head base m s r :
  caps_ok base -> reply_ok m r -> brings s r ->
  match read_reply base r with
  | Ok st =>
      exists p,
        ResponseLazy.from_stream s (Request.max_headers_size base)
          (Request.max_status_line_len base) = Some (Ok p) /\ read_as base r st p
  | Err e =>
      ResponseLazy.from_stream s (Request.max_headers_size base)
        (Request.max_status_line_len base) = Some (Err e)
  | Panic => False
  end.
Proof.
  intros Hcaps [Hhead Hfr _] [Hflat Hsingles].
  pose proof (read_head_result _ _ _ _ _ _ _ (Request.max_headers_size base)
    (Request.max_status_line_len base) (framing r) Hflat Hhead Hfr Hcaps) as Hread.
  fold (read_reply base r) in Hread.
  destruct (read_reply base r) as [st|e|] eqn:Er; [|done..].
  destruct (decide (framing r = MetadataFacts.InChunks)) as [Hc|Hc].
  - rewrite (Hsingles Hc).
    destruct (Chunks.read_head_singles (version r) (code r) (reason r) (reply_headers r)
      (reply_body r) (reply_error r) (Request.max_headers_size base)
      (Request.max_status_line_len base) (framing r) st Hhead Hfr Hcaps Er) as (p & Hp & ? & ? & ?).
    by exists p.
  - destruct Hread as (p & Hp & ? & ?). exists p. split; [done|]. by split_and!.
Qed.

Lemma send_exchange fuel c w host r m w' :
  timeout_at c = None -> ensure_ascii_host (HttpUrl.host (url c)) = Ok host ->
  caps_ok (config c) -> reply_ok m r -> exchange fuel (set_host c host) r w w' ->
  match read_reply (config c) r with
  | Ok st =>
      exists p, read_as (config c) r st p /\
        forall k, send fuel k c w = handle_redirects k (set_host c host) p w'
  | Err e => forall k, send fuel k c w = Some (Err e, w')
  | Panic => False
  end.
Proof.
  intros Ht Hh Hcaps Hok (tcp & w1 & w2 & Hr & Htk & Hs & ->).
  pose proof (brings_head (config c) m _ r Hcaps Hok Hs) as Hread.
  assert (forall k, send fuel k c w =
    (p ← from_stream (Unsecured tcp (timeout_at c)) (Request.max_headers_size (config c))
           (Request.max_status_line_len (config c));
     handle_redirects k (set_host c host) p) w2) as Hsend.
  { intros k. unfold send, with_remaining.
    rewrite (M_bind_ok (remaining c) _ w None w) by (unfold remaining; by rewrite Ht).
    unfold send_without_timeout. rewrite Hh. erewrite M_bind_ok; [|done].
    erewrite M_bind_ok; [|by apply connect_reached].
    by erewrite M_bind_ok; [|by apply write_request_taken]. }
  unfold mbind, M_bind, from_stream in Hsend. cbn [poll_read] in Hsend.
  destruct (read_reply (config c) r) as [st|e|]; [|intros k; by rewrite Hsend, Hread|done].
  destruct Hread as (p & Hread & Hp). exists p. split; [done|]. intros k.
  by rewrite Hsend, Hread.
Qed.

(** A head that the specification refuses is refused. *)
Lemma lazy_from_spec s mh ms e :
  metadata_spec (flat s) mh ms = Some (Err e) -> ResponseLazy.from_stream s mh ms = Some (Err e).
Proof.
  intros Hm. pose proof (MetadataFacts.read_metadata_spec s mh ms) as Hspec. rewrite Hm in Hspec.
  unfold ResponseLazy.from_stream. destruct (read_metadata s mh ms) as [[r s']|]; [|done].
  injection Hspec as Hspec. by destruct r; simplify_eq/=.
Qed.

(** What comes before the head is read, when the connection fails. *)
Lemma send_failed fuel c w host e w' :
  timeout_at c = None -> ensure_ascii_host (HttpUrl.host (url c)) = Ok host ->
  failed fuel (set_host c host) e w w' -> forall k, send fuel k c w = Some (Err e, w').
Proof.
  intros Ht Hh Hf k. unfold send, with_remaining.
  rewrite (M_bind_ok (remaining c) _ w None w) by (unfold remaining; by rewrite Ht).
  unfold send_without_timeout. rewrite Hh. erewrite M_bind_ok; [|done].
  set (c' := set_host c host) in *. assert (timeout_at c' = None) as Ht' by done.
  destruct Hf as [Hp Hu|proxy Hpf Hp Hu|proxy n tcp answer Hpf Hp Ha Hn Hv
    |tcp n w1 w2 err Hr Hb Hn Hwr ->|tcp n w1 w2 w3 err Hr Hb Hn Hwr Htw Hk ->|tcp w1 w2 Hr Htk Hm ->].
  - apply M_bind_fail. rewrite connect_is_direct by done. by apply tcp_connect_unreachable.
  - apply M_bind_fail. unfold connect. rewrite Hpf, Hp.
    by apply M_bind_fail, tcp_connect_unreachable.
  - apply M_bind_fail. rewrite (connect_asked fuel c' proxy n w tcp answer w') by done.
    by rewrite Hv.
  - erewrite M_bind_ok; [|by apply connect_reached]. apply M_bind_fail.
    destruct (write_request_blocked fuel tcp _ n w1 w2 Hb Hn) as [fuel' ->]. cbn [write_request].
    apply M_bind_fail. unfold call. by rewrite Hwr.
  - erewrite M_bind_ok; [|by apply connect_reached]. apply M_bind_fail.
    destruct (write_request_blocked fuel tcp _ n w1 w2 Hb Hn) as [fuel' ->]. cbn [write_request].
    erewrite M_bind_ok; [|unfold call; by rewrite Hwr].
    erewrite M_bind_ok; [|unfold attempt; by rewrite Htw]. cbv beta iota.
    by rewrite decide_False.
  - erewrite M_bind_ok; [|by apply connect_reached].
    erewrite M_bind_ok; [|by apply write_request_taken]. apply M_bind_fail.
    unfold from_stream. cbn [poll_read]. by rewrite (lazy_from_spec _ _ _ _ Hm).
Qed.

(** The page that is made of it. *)
Lemma create_body base m u r st p :
  reply_ok m r -> read_reply base r = Ok st -> read_as base r st p ->
  is_redirect (Z.of_N (code r)) = false -> has_body m r = true ->
  Response.create (ResponseLazy.set_url p u) false
  = Some ('(body, headers) ← read_body base r;
          Ok (Response.mkResponse (Z.of_N (code r)) (reason r) headers u body)).
Proof.
  intros [_ _ Hb] Hr (Hp & _ & Hsingle) Hred Eb. specialize (Hb Hred Eb).
  assert (MetadataFacts.framing_result (framing r) = Ok st) as Hst.
  { unfold read_reply, head_result in Hr. by destruct (negb _); [|destruct (negb _)]. }
  unfold has_body in Eb. apply negb_true_iff, orb_false_iff in Eb as [[_ H204]%orb_false_iff H304].
  btest. assert (Hp' := Hp). destruct Hp' as [Hc Hrs Hh Hs _].
  unfold read_body.
  assert (framing r = MetadataFacts.InChunks \/ body_within st (reply_body r) /\
          framing r <> MetadataFacts.InChunks) as [Hck|[Hw Hck]].
  { destruct (framing r) as [n| | |]; [right| right|by left|done]; injection Hst as <-;
      (split; [|done]); [by apply Hb|done]. }
  - rewrite Hck in *. destruct (Hsingle eq_refl) as [Hstr Htr Hmax]. injection Hst as <-.
    destruct (Chunks.create_singles (ResponseLazy.set_url p u) (reply_body r, reply_error r) 0)
      as (x & Hx & ->); [done..| |].
    { unfold Response.no_body. cbn. rewrite Hc.
      by rewrite (proj2 (Z.eqb_neq _ _)), (proj2 (Z.eqb_neq _ _)) by lia. }
    cbn [ResponseLazy.max_trailing_headers_size ResponseLazy.headers ResponseLazy.set_url] in Hx.
    rewrite Hmax, Hh in Hx. unfold Chunks.decoded, cap_left, header_map. rewrite Hx.
    unfold Chunks.with_body.
    cbn [ResponseLazy.status_code ResponseLazy.reason_phrase ResponseLazy.url ResponseLazy.set_url].
    by rewrite Hc, Hrs.
  - rewrite (create_body_result _ (code r) (reason r) (reply_headers r) st (reply_body r)
      (reply_error r)); [|by destruct Hp|done|done].
    destruct (framing r) as [n| | |]; [..|done]; try done;
      rewrite Hst; simpl; rewrite Hc, Hrs, Hh; by destruct (body_result _ _ _).
Qed.

Lemma create_page base m u r st p :
  reply_ok m r -> read_reply base r = Ok st -> read_as base r st p ->
  is_redirect (Z.of_N (code r)) = false ->
  Response.create (with_url p u) (bool_decide (m = Method.Head)) = Some (page base m u r).
Proof.
  intros Hok Hr Hp Hred.
  assert (with_url p u = ResponseLazy.set_url p (UrlGrammar.display u)) as ->.
  { unfold with_url. by rewrite (proj1 (proj2 Hp)). }
  unfold page. destruct (has_body m r) eqn:Eb.
  - assert (bool_decide (m = Method.Head) = false) as ->; [|by apply (create_body base m _ r st)].
    unfold has_body in Eb. by apply negb_true_iff, orb_false_iff in Eb as [[? _]%orb_false_iff _].
  - unfold has_body in Eb. apply negb_false_iff, orb_true_iff in Eb.
    destruct Hp as [[Hc Hrs Hh _ _] _]. rewrite create_without_body.
    + simpl. by rewrite Hc, Hrs, Hh.
    + simpl. rewrite Hc. destruct Eb as [[?|?%N.eqb_eq]%orb_true_iff|?%N.eqb_eq]; [by left|right..]; lia.
Qed.

(** ** Following redirections *)

Lemma redirect_target_location self loc :
  ParsedRequest.redirect_target self loc = location_target (ParsedRequest.url self) loc.
Proof.
  unfold ParsedRequest.redirect_target, location_target. rewrite <- UrlFacts.parse_eq_grammar.
  destruct (contains _ loc); [|done]. unfold HttpUrl.parse.
  by destruct (HttpUrl.strip_scheme loc) as [[? ?]|].
Qed.

(** The redirection [handle_redirects] follows, as the specification describes it. *)
Lemma get_redirect_spec c status loc :
  is_redirect status = true ->
  get_redirect c status loc =
    match loc with
    | None => Redirect (Err RedirectLocationMissing)
    | Some loc =>
        match location_target (url c) loc with
        | Ok u =>
            if hops_left c =? 0 then Redirect (Err TooManyRedirections)
            else if decide (u ∈ ParsedRequest.redirects (request c) ++ [url c])
            then Redirect (Err InfiniteRedirectionLoop)
            else Redirect (Ok
              (mkConnection
                (ParsedRequest.mkParsedRequest u
                  (ParsedRequest.redirects (request c) ++ [url c])
                  (Request.set_method (config c)
                    (if (status =? 303)%Z then see_other_method (Request.method (config c))
                     else Request.method (config c))))
                (timeout_at c)))
        | Err e => Redirect (Err e)
        | Panic => Redirect Panic
        end
    end.
Proof.
  intros Hred. unfold get_redirect. rewrite Hred. destruct loc as [loc|]; [|done].
  unfold ParsedRequest.redirect_to. rewrite redirect_target_location. fold (url c).
  destruct (location_target (url c) loc) as [u|e|]; [|done..]. cbn [ParsedRequest.redirects
    ParsedRequest.url ParsedRequest.config].
  rewrite len_app. change (len [url c]) with 1. unfold hops_left, config.
  set (max := Request.max_redirects _). set (n := len (ParsedRequest.redirects (request c))).
  destruct (N.ltb_spec max (n + 1)), (N.eqb_spec (max - n) 0); try lia; [done|].
  rewrite (RequestFacts.existsb_visited u). unfold bool_decide. repeat case_decide; try done.
  by destruct (status =? 303)%Z; destruct c as [[? ? []] ?].
Qed.

(** What the lazy response at the end of a chain is worth. *)
Definition pages (m : Method.Method) (r : result ResponseLazy.ResponseLazy)
    : option (result Response.Response) :=
  match r with
  | Ok p => Response.create p (bool_decide (m = Method.Head))
  | Err e => Some (Err e)
  | Panic => Some Panic
  end.

Lemma see_other_head m :
  bool_decide (see_other_method m = Method.Head) = bool_decide (m = Method.Head).
Proof. by destruct m. Qed.

Lemma set_method_twice req m m' :
  Request.set_method (Request.set_method req m) m' = Request.set_method req m'.
Proof. done. Qed.

Lemma next_method_head m r :
  bool_decide (next_method m r = Method.Head) = bool_decide (m = Method.Head).
Proof. unfold next_method. destruct (code r =? 303); [apply see_other_head|done]. Qed.

(** A chain of requests ends as navigating does. *)
Definition chain_is (m : Method.Method) (nav : navigation) (inv : World -> Prop)
    (res : option (result ResponseLazy.ResponseLazy * World)) : Prop :=
  match nav with
  | Arrived x => exists r w', res = Some (r, w') /\ inv w' /\ pages m r = Some x
  | AtHttps =>
      if feature_tls then forall p w', res <> Some (Ok p, w')
      else exists w', res = Some (Err HttpsFeatureNotEnabled, w') /\ inv w'
  end.

Lemma chain_is_head m m' nav inv res :
  bool_decide (m' = Method.Head) = bool_decide (m = Method.Head) ->
  chain_is m' nav inv res -> chain_is m nav inv res.
Proof.
  intros Hm. destruct nav; [|done]. intros (p & w' & ? & ? & Hp). exists p, w'.
  split_and!; [done..|]. destruct p; [|done..]. simpl in *. by rewrite <- Hm.
Qed.

(** What is known of a connection while a chain is followed. *)
Record on_the_way (base : Request.Request) (wanted : Method.Method -> HttpUrl.HttpUrl -> Prop)
    (m : Method.Method) (c : Connection) : Prop := {
  ow_untimed : timeout_at c = None;
  ow_config : config c = Request.set_method base m;
  ow_wanted : forall host, HttpUrl.https (url c) = false ->
    ensure_ascii_host (HttpUrl.host (url c)) = Ok host -> wanted m (with_host (url c) host);
}.

Lemma chain_is_arrived m (inv : World -> Prop) x r w :
  inv w -> pages m r = Some x -> chain_is m (Arrived x) inv (Some (r, w)).
Proof. intros. by exists r, w. Qed.

(** One turn of navigating. *)
Lemma navigate_turn web base hops m visited u :
  navigate web base hops m visited u =
    if HttpUrl.https u then AtHttps
    else
      match ensure_ascii_host (HttpUrl.host u) with
      | Ok host =>
          match answer_at web base m (with_host u host) with
          | Ends r => Arrived r
          | Leads m' u' =>
              match hops with
              | O => Arrived (Err TooManyRedirections)
              | S hops =>
                  if decide (u' ∈ visited ++ [with_host u host])
                  then Arrived (Err InfiniteRedirectionLoop)
                  else navigate web base hops m' (visited ++ [with_host u host]) u'
              end
          end
      | Err e => Arrived (Err e)
      | Panic => Arrived Panic
      end.
Proof. by destruct hops. Qed.

Lemma answer_head web base m u m' u' :
  answer_at web base m u = Leads m' u' ->
  bool_decide (m' = Method.Head) = bool_decide (m = Method.Head).
Proof.
  unfold answer_at, reply_at. destruct (web m u) as [r|]; [|done].
  destruct (read_reply _ _); [|done..]. destruct (is_redirect _); [|done].
  destruct (ok_or _ _ ≫= _); [|done..]. intros [= <- _]. apply next_method_head.
Qed.

(** What is left of a chain at a connection is what the specification says. *)
Definition on_from (web : Web) (base : Request.Request)
    (wanted : Method.Method -> HttpUrl.HttpUrl -> Prop) (inv : World -> Prop)
    (k : Connection -> M ResponseLazy.ResponseLazy) (c : Connection) : Prop :=
  forall w m, inv w -> on_the_way base wanted m c ->
    chain_is m
      (navigate web base (N.to_nat (hops_left c)) m (ParsedRequest.redirects (request c)) (url c))
      inv (k c w).

(** A reply is read and handled as the specification has it: it ends the chain, or the
    next request is sent. *)
Lemma send_answered fuel web base wanted inv c w m host :
  serves fuel web base wanted inv -> inv w -> on_the_way base wanted m c ->
  HttpUrl.https (url c) = false -> ensure_ascii_host (HttpUrl.host (url c)) = Ok host ->
  exists w1, inv w1 /\ forall k,
    match answer_at web base m (with_host (url c) host) with
    | Ends x => exists r, send fuel k c w = Some (r, w1) /\ pages m r = Some x
    | Leads m' u' =>
        send fuel k c w =
          if hops_left c =? 0 then Some (Err TooManyRedirections, w1)
          else if decide (u' ∈ ParsedRequest.redirects (request c) ++ [with_host (url c) host])
          then Some (Err InfiniteRedirectionLoop, w1)
          else k (mkConnection
                    (ParsedRequest.mkParsedRequest u'
                       (ParsedRequest.redirects (request c) ++ [with_host (url c) host])
                       (Request.set_method base m'))
                    None) w1
    end.
Proof.
  intros [_ Hcaps Hok Hex] Hinv [Ht Hc Hw] Hh Ehost. specialize (Hw host Hh Ehost).
  set (u := with_host (url c) host) in *.
  assert (Request.method (config (set_host c host)) = m) as Hm.
  { change (config (set_host c host)) with (config c). by rewrite Hc. }
  destruct (Hex (set_host c host) w Hinv Ht Hh) as (w1 & Hx & Hinv1); [by rewrite Hm|by rewrite Hm|].
  rewrite Hm in Hx. change (url (set_host c host)) with u in Hx. exists w1. split; [done|].
  unfold answer_at. destruct (web m u) as [r|e] eqn:Ew; simpl in Hx.
  2: { intros k. exists (Err e). split; [|done]. by apply (send_failed fuel c w host). }
  pose proof (send_exchange fuel c w host r m w1 Ht Ehost) as Hs. rewrite Hc in Hs.
  specialize (Hs Hcaps (Hok m u r Hw Ew) Hx). intros k. unfold reply_at.
  change (read_reply (Request.set_method base m) r) with (read_reply base r) in Hs.
  destruct (read_reply base r) as [st|e|] eqn:Er; [|by exists (Err e)|done].
  destruct Hs as (p & Hp & Hs). unfold handle_redirects in Hs. rewrite Hs. clear Hs.
  assert (Hp' := Hp). destruct Hp' as [[-> _ -> _ _] _].
  destruct (is_redirect (Z.of_N (code r))) eqn:Ered.
  2: { unfold get_redirect. rewrite Ered. eexists. split; [done|].
       eapply (create_page base); [by eapply Hok|done..]. }
  rewrite get_redirect_spec by done. fold (header_map r).
  destruct (header_map r !! lit "location") as [loc|]; [|by eexists].
  change (url (set_host c host)) with u.
  change (location ← ok_or (Some loc) RedirectLocationMissing; location_target u location)
    with (location_target u loc).
  destruct (location_target u loc) as [u'|e|]; [|by eexists..].
  rewrite hops_left_set_host. destruct (hops_left c =? 0); [done|].
  change (ParsedRequest.redirects (request (set_host c host)))
    with (ParsedRequest.redirects (request c)).
  destruct (decide _); [done|]. cbn [mbind M_bind known].
  change (config (set_host c host)) with (config c). rewrite Hc, set_method_twice.
  change (timeout_at (set_host c host)) with (timeout_at c). rewrite Ht.
  unfold next_method. by replace (Z.of_N (code r) =? 303)%Z with (code r =? 303)
    by (destruct (N.eqb_spec (code r) 303), (Z.eqb_spec (Z.of_N (code r)) 303); lia).
Qed.

Lemma send_by_scheme_on fuel web base wanted inv k c :
  serves fuel web base wanted inv ->
  (forall c', hops_left c = hops_left c' + 1 -> on_from web base wanted inv k c') ->
  on_from web base wanted inv (send_by_scheme fuel k) c.
Proof.
  intros Hsv Hk w m Hinv Hc. rewrite navigate_turn.
  unfold send_by_scheme. destruct (HttpUrl.https (url c)) eqn:Eh.
  { unfold chain_is. destruct feature_tls; [|by eexists]. intros p w'. apply send_https_fails. }
  destruct (ensure_ascii_host (HttpUrl.host (url c))) as [host|e|] eqn:Ehost.
  2,3: apply (chain_is_arrived m inv _ _ w Hinv eq_refl) ||
    (unfold send, with_remaining;
     rewrite (M_bind_ok (remaining c) _ w None w) by (unfold remaining; by rewrite (ow_untimed _ _ _ _ Hc));
     unfold send_without_timeout; rewrite Ehost; by apply chain_is_arrived).
  destruct (send_answered fuel web base wanted inv c w m host Hsv Hinv Hc Eh Ehost)
    as (w1 & Hinv1 & Hs).
  specialize (Hs k). pose proof (ow_wanted _ _ _ _ Hc host Eh Ehost) as Hw.
  set (u := with_host (url c) host) in *.
  destruct (answer_at web base m u) as [x|m' u'] eqn:Ea.
  { destruct Hs as (r & -> & ?). by apply chain_is_arrived. }
  rewrite Hs. destruct (N.eqb_spec (hops_left c) 0) as [->|Hn]; [by apply chain_is_arrived|].
  destruct (N.to_nat (hops_left c)) as [|hops] eqn:Ehops; [lia|].
  destruct (decide _); [by apply chain_is_arrived|].
  apply (chain_is_head m m'); [by eapply answer_head|].
  match goal with |- chain_is _ (navigate _ _ ?n _ _ _) _ (_ ?c' _) =>
    assert (hops_left c = hops_left c' + 1) as Hleft;
    [|replace n with (N.to_nat (hops_left c')) by lia; apply (Hk c'); [done|done|split; [done..|]]]
  end.
  - unfold hops_left in *. rewrite (ow_config _ _ _ _ Hc) in *.
    cbn [request config ParsedRequest.redirects ParsedRequest.config Request.max_redirects
      Request.set_method] in *.
    rewrite len_app. change (len [u]) with 1. lia.
  - intros host' Hh' Ha'. by eapply (sv_closed _ _ _ _ _ Hsv).
Qed.

Lemma chain_navigates fuel web base wanted inv hops c :
  serves fuel web base wanted inv -> (N.to_nat (hops_left c) < hops)%nat ->
  on_from web base wanted inv (send_chain fuel hops) c.
Proof.
  intros Hsv. revert c. induction hops as [|hops IH]; intros c Hhops; [lia|].
  apply send_by_scheme_on; [done|]. intros c' Hc'. apply IH. lia.
Qed.

Lemma new_redirects req parsed :
  ParsedRequest.new req = Ok parsed -> ParsedRequest.redirects parsed = [].
Proof.
  unfold ParsedRequest.new. destruct (HttpUrl.parse _ _) as [u|e|]; [|done..]. cbn.
  by intros [= <-].
Qed.

(** The first request of a chain, with its host punycoded, is wanted. *)
Definition wants (wanted : Method.Method -> HttpUrl.HttpUrl -> Prop)
    (parsed : ParsedRequest.ParsedRequest) : Prop :=
  forall host, HttpUrl.https (ParsedRequest.url parsed) = false ->
    ensure_ascii_host (HttpUrl.host (ParsedRequest.url parsed)) = Ok host ->
    wanted (Request.method (ParsedRequest.config parsed)) (with_host (ParsedRequest.url parsed) host).

(** What the specification says of a parsed request. *)
Definition navigated (web : Web) (parsed : ParsedRequest.ParsedRequest) : navigation :=
  navigate web (ParsedRequest.config parsed)
    (N.to_nat (Request.max_redirects (ParsedRequest.config parsed)))
    (Request.method (ParsedRequest.config parsed)) [] (ParsedRequest.url parsed).

(** What becomes of a request whose navigation is known. *)
Definition client_is (fuel : nat) (inv : World -> Prop) (req : Request.Request)
    (parsed : ParsedRequest.ParsedRequest) (w : World) (nav : navigation) : Prop :=
  match nav with
  | Arrived x =>
      exists w', inv w' /\ (in_time parsed w w' -> Client.send fuel req w = Some (x, w'))
  | AtHttps =>
      if feature_tls then
        effective_timeout parsed = None ->
        forall r w', Client.send fuel req w <> Some (Ok r, w')
      else
        exists w', inv w' /\
          (in_time parsed w w' -> Client.send fuel req w = Some (Err HttpsFeatureNotEnabled, w'))
  end.

Lemma send_in_time fuel req parsed w r w' x :
  ParsedRequest.new req = Ok parsed -> in_time parsed w w' ->
  send_chain fuel (chain_hops (mkConnection parsed None)) (mkConnection parsed None) w
    = Some (r, w') ->
  pages (Request.method (ParsedRequest.config parsed)) r = Some x ->
  Client.send fuel req w = Some (x, w').
Proof.
  intros Hnew Ht Hs Hx. unfold Client.send. rewrite Hnew. erewrite M_bind_ok; [|done].
  apply (send_parsed_in_time fuel parsed w) in Hs; [|done].
  destruct r as [p|e|]; cbn in Hx.
  - erewrite M_bind_ok; [|done]. unfold computed. by rewrite Hx.
  - simplify_eq. unfold mbind, M_bind. by rewrite Hs.
  - simplify_eq. unfold mbind, M_bind. by rewrite Hs.
Qed.

(** The first connection of a request. *)
Definition first_connection (parsed : ParsedRequest.ParsedRequest) : Connection :=
  mkConnection parsed None.

(** A chain that is what the specification says makes a client that is. *)
Lemma client_of_chain fuel web wanted inv req parsed w :
  ParsedRequest.new req = Ok parsed -> inv w -> wants wanted parsed ->
  on_from web (ParsedRequest.config parsed) wanted inv
    (send_chain fuel (chain_hops (first_connection parsed))) (first_connection parsed) ->
  client_is fuel inv req parsed w (navigated web parsed).
Proof.
  intros Hnew Hinv Hw Hc.
  ospecialize (Hc w (Request.method (ParsedRequest.config parsed)) Hinv _).
  { split; [done|by destruct parsed as [? ? []]|done]. }
  unfold hops_left, config in Hc. cbn [request first_connection] in Hc.
  rewrite (new_redirects req parsed Hnew) in Hc.
  change (len []) with 0 in Hc. rewrite N.sub_0_r in Hc.
  change (url (first_connection parsed)) with (ParsedRequest.url parsed) in Hc.
  unfold navigated. destruct (navigate _ _ _ _ _ _) as [x|]; simpl in *.
  - destruct Hc as (r & w' & Hs & Hi & Hx). exists w'. split; [done|]. intros Ht.
    by eapply send_in_time.
  - destruct feature_tls.
    + intros Ht r w' Hs. unfold Client.send in Hs. rewrite Hnew in Hs.
      apply M_bind_Some in Hs as (? & ? & [= <- <-] & Hs).
      apply M_bind_Some in Hs as (p & w1 & Hp & _).
      rewrite (send_parsed_chain fuel parsed (first_connection parsed)) in Hp; [|  |done].
      * by apply Hc in Hp.
      * unfold Connection.new. by rewrite Ht.
    + destruct Hc as (w' & Hs & Hi). exists w'. split; [done|]. intros Ht.
      by eapply send_in_time.
Qed.

(** A network that serves a web, from the first connection of a request. *)
Lemma served_from_first fuel web wanted inv parsed :
  serves fuel web (ParsedRequest.config parsed) wanted inv ->
  on_from web (ParsedRequest.config parsed) wanted inv
    (send_chain fuel (chain_hops (first_connection parsed))) (first_connection parsed).
Proof.
  intros Hsv. apply chain_navigates; [done|]. unfold chain_hops.
  fold (hops_left (first_connection parsed)). lia.
Qed.

(** C1. The client against the web it is shown. On every network that answers the wanted
    requests as the web does, directly or through a proxy, in any pieces and with any
    delays (chunked replies in single bytes), or fails them where the web breaks,
    [Request::send] returns what navigating that web comes to: the page behind the
    redirections, whose body has a length, ends with the connection or is what [dechunk]
    makes of it, the error that ends the chain, or that of the name, the connection, the
    proxy or the head it breaks at; and the state of the world stays one in which the
    network serves the web. With a timeout the same is
    returned, as long as the deadline is not reached. A chain that leads to an https
    URL ends there: with [HttpsFeatureNotEnabled] when TLS is not built in, and never
    with a page when it is. *)
Theorem client_navigates fuel web wanted inv req parsed w :
  ParsedRequest.new req = Ok parsed ->
  serves fuel web (ParsedRequest.config parsed) wanted inv -> inv w -> wants wanted parsed ->
  client_is fuel inv req parsed w (navigated web parsed).
Proof.
  intros. by eapply client_of_chain, served_from_first.
Qed.
End Facts.
End NavigationFacts.

(** * Examples: a small web behind a proxy *)

Module NavigationExamples.
Import Connection ConnectionFacts BodyFacts Navigation Network NavigationFacts ConnectionExamples.
#[local] Existing Instances canonical_order example_externals no_variables.

(** The default build with proxies. *)
#[local] Instance proxy_build : Build := {|
  feature_urlencoding := false; feature_punycode := false; feature_proxy := true;
  feature_tls := false; feature_rustls := false; feature_manual_roots := false;
  feature_probe := false; overflow_checks := true |}.

Definition moved : Reply :=
  mkReply (lit "HTTP/1.1") 302 (lit "Found") [(lit "Location", lit "/y")] [] None
    MetadataFacts.ToTheEnd.
Definition hello : Reply :=
  mkReply (lit "HTTP/1.1") 200 (lit "OK") [(lit "Transfer-Encoding", lit "chunked")]
    (Chunks.chunk_bytes CRLF ChunkExamples.hello_chunk ++ lit "0" ++ CRLF ++ CRLF) None
    MetadataFacts.InChunks.

(** A server that has moved [/x]. *)
Definition server (request : bytes) : Reply :=
  if bool_decide (take 7 request = lit "GET /x ") then moved else hello.

Definition established : bytes := lit "HTTP/1.1 200 Connection established" ++ CRLF ++ CRLF.

(** A network of one server and one proxy, whose world is the last request written;
    a reply comes in one piece, after a wait, or in single bytes. *)
#[local] Instance small_network : Runtime := {|
  World := bytes;
  SocketAddr := unit;
  TcpStream := unit;
  TlsStream := unit;
  now := fun _ => 0;
  instant_MAX := 2 ^ 90;
  to_socket_addrs := fun _ _ w => (Ok [tt], w);
  tcp_stream_connect := fun _ w => (Ok tt, w);
  tcp_writable := fun _ w => (Ok tt, w);
  tcp_try_write := fun _ b _ => (Ok (len b), b);
  tcp_write_all := fun _ b _ => (Ok tt, b);
  tcp_flush := fun _ w => (Ok tt, w);
  tcp_read := fun _ _ w => (Ok established, w);
  received := fun _ w =>
    let r := server w in
    let sent := response_bytes (version r) (code r) (reason r) (reply_headers r) (reply_body r) in
    match framing r with
    | MetadataFacts.InChunks => Chunks.singles (sent, None)
    | _ => [EvPending; EvChunk sent]
    end;
  head_read := fun _ w => w;
  runtime_roots := RootsExamples.even_roots;
  statics := fun _ => initial_statics;
  set_statics := fun _ w => w;
  native_connector := fun w => (Ok tt, w);
  tls_server_name := fun _ w => (Ok tt, w);
  tls_handshake := fun _ _ _ w => (Ok tt, w);
  tls_write_all := fun _ _ w => (Ok tt, w);
  suspended := fun _ _ _ => true;
  cancelled := fun _ w _ => w;
|}.

Definition proxy : Proxy.Proxy := Proxy.mkProxy (lit "proxy") 8080 None None Proxy.Basic.
Definition proxied_request : Request.Request :=
  Request.with_proxy (Request.get (lit "http://a/x")) proxy.
Definition proxied_parsed : ParsedRequest.ParsedRequest :=
  match ParsedRequest.new proxied_request with
  | Ok parsed => parsed
  | _ => RequestExamples.first_request
  end.

Definition quiet : World := @nil N.

(** The web of that server. *)
Definition small_web : Web := fun m u =>
  Replies (server (ParsedRequest.as_bytes
    (ParsedRequest.mkParsedRequest u []
      (Request.set_method (ParsedRequest.config proxied_parsed) m)))).

(** Where a page has moved does not say how its body is framed. *)
Lemma unframed_location v :
  MetadataFacts.framed_by (MetadataFacts.insert_headers ∅ [(lit "Location", v)]) None.
Proof.
  change (MetadataFacts.insert_headers ∅ [(lit "Location", v)])
    with ({[lit "location" := v]} : gmap text text).
  split; intros k v' [<- <-]%lookup_singleton_Some Hc; [apply proj1 in Hc|]; by vm_compute in Hc.
Qed.

Lemma small_web_ok m r : r = moved \/ r = hello -> reply_ok m r.
Proof.
  intros [-> | ->]; split.
  - split; [by_compute..|apply MetadataFacts.headers_ok; vm_compute; reflexivity|by_compute].
  - apply unframed_location.
  - done.
  - split; [by_compute..|apply MetadataFacts.headers_ok; vm_compute; reflexivity|by_compute].
  - by_compute.
  - done.
Qed.

Definition anything : Method.Method -> HttpUrl.HttpUrl -> Prop := fun _ _ => True.

Lemma small_web_served :
  serves 1 small_web (ParsedRequest.config proxied_parsed) anything (fun _ => True).
Proof.
  split.
  - done.
  - done.
  - intros m u r _ [= <-]. apply small_web_ok. unfold server. destruct (bool_decide _); auto.
  - intros c w _ Ht Hh Hc _.
    set (b := ParsedRequest.as_bytes (request c)).
    assert (small_web (Request.method (config c)) (url c) = Replies (server b)) as ->.
    { unfold small_web, b, ParsedRequest.as_bytes, ParsedRequest.get_http_head. by rewrite <- Hc. }
    exists b. split; [|done]. exists tt, (utf8 (Proxy.connect proxy (request c))), b. split_and!.
    + eapply (reached_through_proxy _ _ _ _ _ proxy 1); [reflexivity| |  |lia|].
      * by rewrite Hc.
      * eexists _, _, _. split; [|split; [reflexivity|split; [reflexivity|]]].
        -- exists [], tt, [], w, w. split; [reflexivity|]. split; [constructor|reflexivity].
        -- apply (answered_last _ _ established); [reflexivity|by_compute].
      * vm_compute. reflexivity.
    + exists 0%nat, (utf8 (Proxy.connect proxy (request c))), (utf8 (Proxy.connect proxy (request c))), (len b).
      split; [constructor|]. split; [lia|]. by split.
    + cbn -[response_bytes]. unfold server.
      destruct (bool_decide _); (split; [vm_compute; reflexivity|by intros]).
    + reflexivity.
Qed.

Lemma client_navigates_witness :
  client_is 1 (fun _ => True) proxied_request proxied_parsed quiet
    (navigated small_web proxied_parsed).
Proof.
  apply (client_navigates 1 small_web anything (fun _ => True) proxied_request proxied_parsed quiet);
    [vm_compute; reflexivity|apply small_web_served|exact I|intros host _ _; exact I].
Defined.

(** What that gives: the page at [/y], which comes in one chunk. *)
Example small_web_page :
  navigated small_web proxied_parsed
  = Arrived (Ok (Response.mkResponse 200 (lit "OK")
          {[lit "content-length" := lit "5"]} (lit "http://a/y")
          (lit "hello"))).
Proof. vm_compute. reflexivity. Qed.

(** A network whose only address refuses, and what navigating it comes to. *)
Definition refusal : Error := IoError (mkIoError (Kind 0) (lit "connection refused")).
Definition refusing_web : Web := fun _ _ => Breaks refusal.

Lemma refusing_web_served :
  @serves default_build _ _ (scripted [0] []) 1 refusing_web
    (ParsedRequest.config proxied_parsed) anything (fun _ => True).
Proof.
  split; [done..|]. intros c w _ Ht Hh Hc _. exists (w + 1). split; [|done].
  apply failed_server; [by left|].
  by eapply (@all_refuse (scripted [0] []) _ _ _ _ _ [] 0); [..|constructor| |].
Qed.

Example refusing_web_page :
  @navigated default_build _ refusing_web proxied_parsed = Arrived (Err refusal).
Proof. vm_compute. reflexivity. Qed.

(** The world once the proxy has been asked. *)
Definition after_connect : World := utf8 (Proxy.connect proxy proxied_parsed).

(** The proxy of the small network accepts. *)
Lemma proxy_judges_witness :
  connect 1 (mkConnection proxied_parsed None) quiet
  = Some (if decide (lit "200" = lit "200") then Ok tt
          else if decide (lit "200" = lit "401" \/ lit "200" = lit "407")
          then Err InvalidProxyCreds else Err BadProxy,
          after_connect).
Proof.
  apply (proxy_judges 1 (mkConnection proxied_parsed None) proxy 1 quiet tt
           (after_connect) (lit "HTTP/1.1") (lit "200")
           (lit "Connection established") (CRLF ++ replicate 217 0));
    [reflexivity|reflexivity|reflexivity| |lia|by_compute..].
  eexists _, _, _. split; [|split; [reflexivity|split; [reflexivity|]]].
  - exists [], tt, [], quiet, quiet. split; [reflexivity|]. split; [constructor|reflexivity].
  - apply (answered_last _ (after_connect) established);
      [reflexivity|by_compute].
Defined.
End NavigationExamples.
