(* ===== verification/Servers.v ===== *)
(** The client against servers: requests are serialised, read by a server, answered,
    and the answers are read by the client. What servers and client share is the wire
    format alone, and the composition is again navigating a web. *)

From S2P Require Import Prelude.
From S2P Require Import Text.
From S2P Require Import Strings.
From S2P Require Import Errors.
From S2P Require Import Url.
From S2P Require Import Proxies.
From S2P Require Import Requests.
From S2P Require Import Lines.
From S2P Require Import Metadata.
From S2P Require Import Wire.
From S2P Require Import Bodies.
From S2P Require Import Loading.
From S2P Require Import Chunks.
From S2P Require Import Roots.
From S2P Require Import Runtime.
From S2P Require Import Connections.
From S2P Require Import Chains.
From S2P Require Import Deadlines.
From S2P Require Import Navigation.
From S2P Require Import Journeys.

Module Servers.
Import Connection ConnectionFacts BodyFacts Navigation Network NavigationFacts Wire.

Section Servers.
Context `{Build} `{Externals} `{Environment} `{HashOrder} `{Runtime}.

(** What the servers answer to what they have read. *)
Definition Handler : Type := Received -> Reply.

(** A request of a configuration, but for its method, at a URL. *)
Definition request_at (base : Request.Request) (m : Method.Method) (u : HttpUrl.HttpUrl)
    : ParsedRequest.ParsedRequest :=
  ParsedRequest.mkParsedRequest u [] (Request.set_method base m).

(** The web behind the servers: what they answer to the request they read. *)
Definition handler_web (handler : Handler) (base : Request.Request) : Web :=
  fun m u => Replies (handler (as_received (request_at base m u))).

(** Servers that answer what they can read, in every state that satisfies [inv]. *)
Definition answers_requests (fuel : nat) (handler : Handler) (base : Request.Request)
    (inv : World -> Prop) : Prop :=
  forall c w received,
    inv w -> timeout_at c = None -> HttpUrl.https (url c) = false ->
    config c = Request.set_method base (Request.method (config c)) ->
    read_request (ParsedRequest.as_bytes (request c)) = Some received ->
    exists w', exchange fuel c (handler received) w w' /\ inv w'.

(** The wanted requests of a site are readable, its answers are in the format, and its
    redirections lead to wanted requests. *)
Record site (handler : Handler) (base : Request.Request)
    (wanted : Method.Method -> HttpUrl.HttpUrl -> Prop) : Prop := {
  st_closed : closed (handler_web handler base) base wanted;
  st_sendable : forall m u, wanted m u -> sendable (request_at base m u);
  st_replies : forall m u, wanted m u -> reply_ok m (handler (as_received (request_at base m u)));
}.

(** The redirections that were followed are not written. *)
Lemma as_bytes_request_at base m c :
  config c = Request.set_method base m ->
  ParsedRequest.as_bytes (request c) = ParsedRequest.as_bytes (request_at base m (url c)).
Proof.
  unfold config, url. destruct (request c) as [u visited cfg]. cbn. by intros ->.
Qed.

Lemma servers_serve fuel handler base wanted inv :
  site handler base wanted -> answers_requests fuel handler base inv -> caps_ok base ->
  serves fuel (handler_web handler base) base wanted inv.
Proof.
  intros [Hcl Hsd Hok] Han Hcaps. split; [done|done| |].
  { intros m u r Hw [= <-]. by apply Hok. }
  intros c w Hinv Ht Hh Hc Hw. apply Han; [done..|]. rewrite (as_bytes_request_at base _ c Hc).
  by apply read_request_sendable, Hsd.
Qed.

(** ** Finite sites, decided *)

Definition sendable_b (self : ParsedRequest.ParsedRequest) : bool :=
  bool_decide (is_text (request_text self)) && bool_decide (LF ∉ request_text self)
  && (str_len (request_text self) + 2 <=? usize_MAX)
  && forallb MetadataFacts.header_ok (sent_headers self)
  && (MetadataFacts.headers_size (sent_headers self) + 2 <=? usize_MAX).

Definition head_wf_b (version : text) (code : N) (reason : text) (hs : list (text * text)) : bool :=
  bool_decide (is_text (MetadataFacts.status_line version code reason))
  && bool_decide (LF ∉ MetadataFacts.status_line version code reason)
  && bool_decide (Forall (fun c => c <> ch " ") version) && (code <? 2 ^ 31)
  && (str_len (MetadataFacts.status_line version code reason) + 2 <=? usize_MAX)
  && forallb MetadataFacts.header_ok hs && (MetadataFacts.headers_size hs + 2 <=? usize_MAX).

Definition reply_ok_b (r : Reply) : bool :=
  head_wf_b (version r) (code r) (reason r) (reply_headers r)
  && bool_decide (MetadataFacts.framed_as (header_map r) (framing r))
  && match framing r with
     | MetadataFacts.ByLength n => (len (reply_body r) <=? n) && (n <=? usize_MAX)
     | _ => true
     end.

(** Where the answer to a request leads, when it leads to one that is sent. *)
Definition next_request (web : Web) (base : Request.Request) (m : Method.Method)
    (u : HttpUrl.HttpUrl) : option (Method.Method * HttpUrl.HttpUrl) :=
  match answer_at web base m u with
  | Ends _ => None
  | Leads m' u' =>
      if HttpUrl.https u' then None
      else match ensure_ascii_host (HttpUrl.host u') with
           | Ok host => Some (m', with_host u' host)
           | _ => None
           end
  end.

(** The requests that come up from one, at most [n]. *)
Fixpoint trip (web : Web) (base : Request.Request) (n : nat) (m : Method.Method)
    (u : HttpUrl.HttpUrl) : list (Method.Method * HttpUrl.HttpUrl) :=
  match n with
  | O => []
  | S n =>
      (m, u) :: match next_request web base m u with
                | Some (m', u') => trip web base n m' u'
                | None => []
                end
  end.

Definition in_list (l : list (Method.Method * HttpUrl.HttpUrl)) (m : Method.Method)
    (u : HttpUrl.HttpUrl) : Prop := (m, u) ∈ l.

Definition site_b (handler : Handler) (base : Request.Request)
    (l : list (Method.Method * HttpUrl.HttpUrl)) : bool :=
  forallb (fun '(m, u) =>
    match next_request (handler_web handler base) base m u with
    | Some request => bool_decide (request ∈ l)
    | None => true
    end
    && sendable_b (request_at base m u) && reply_ok_b (handler (as_received (request_at base m u)))) l.

Lemma sendable_checked self : sendable_b self = true -> sendable self.
Proof.
  unfold sendable_b. rewrite !andb_true_iff, !bool_decide_eq_true, !N.leb_le.
  intros [[[[? ?] ?] ?%MetadataFacts.headers_ok] ?]. by split.
Qed.

Lemma reply_ok_checked m r : reply_ok_b r = true -> reply_ok m r.
Proof.
  unfold reply_ok_b, head_wf_b.
  rewrite !andb_true_iff, !bool_decide_eq_true, !N.leb_le, N.ltb_lt.
  intros [[[[[[[[? ?] ?] ?] ?] ?%MetadataFacts.headers_ok] ?] ?] Hb]. split; [by split|done|].
  intros _ _ n Hn. rewrite Hn in Hb. by rewrite andb_true_iff, !N.leb_le in Hb.
Qed.

Lemma site_checked handler base l :
  site_b handler base l = true -> site handler base (in_list l).
Proof.
  intros Hl%forallb_Forall. rewrite Forall_forall in Hl.
  assert (forall m u, in_list l m u ->
    (forall m' u', next_request (handler_web handler base) base m u = Some (m', u') ->
       (m', u') ∈ l) /\
    sendable (request_at base m u) /\ reply_ok m (handler (as_received (request_at base m u)))) as Hall.
  { intros m u Hin. specialize (Hl (m, u) Hin). cbv beta iota in Hl.
    rewrite !andb_true_iff in Hl. destruct Hl as [[Hn ?%sendable_checked] Hr].
    apply (reply_ok_checked m) in Hr. split_and!; [|done..]. intros m' u' E. rewrite E in Hn.
    by apply bool_decide_eq_true in Hn. }
  split.
  - intros m u m' u' host Hin Ha Hh He. apply (proj1 (Hall m u Hin)).
    unfold next_request. by rewrite Ha, Hh, He.
  - intros m u Hin. by apply Hall.
  - intros m u Hin. by apply Hall.
Qed.

(** C2. Client and servers composed. When servers read the bytes of a request by the line
    and header grammar and answer what they read, in the response format, however
    their answers are cut and delayed, chunked ones apart, which come in single bytes,
    [Request::send] returns what navigating the web behind the servers comes to, where a
    request is what a server is told of it: its line, its headers and its content. *)
Theorem client_meets_servers fuel handler wanted inv req parsed w :
  ParsedRequest.new req = Ok parsed ->
  site handler (ParsedRequest.config parsed) wanted ->
  answers_requests fuel handler (ParsedRequest.config parsed) inv ->
  caps_ok (ParsedRequest.config parsed) -> inv w -> wants wanted parsed ->
  client_is fuel inv req parsed w
    (navigated (handler_web handler (ParsedRequest.config parsed)) parsed).
Proof.
  intros. by eapply client_of_chain, served_from_first, servers_serve.
Qed.
End Servers.
End Servers.

(** * A network that dribbles *)

Module Dribbling.
Import Connection ConnectionFacts BodyFacts Navigation Network Wire Servers.

Section Dribbling.
Context `{Build} `{Externals} `{Environment} `{HashOrder}.

(** A network that answers what it reads, one byte at a time and each after a wait, but for
    chunks; its world is the last request written. A request that cannot be read is not
    answered. *)
Definition dribble (b : bytes) : HttpStreamBytes := b ≫= (fun c => [EvPending; EvChunk [c]]).

Definition answer_bytes (handler : Handler) (b : bytes) : HttpStreamBytes :=
  match read_request b with
  | Some received =>
      let r := handler received in
      let sent := response_bytes (version r) (code r) (reason r) (reply_headers r) (reply_body r) in
      match framing r with
      | MetadataFacts.InChunks => Chunks.singles (sent, reply_error r)
      | _ => dribble sent ++ match reply_error r with Some e => [EvError e] | None => [] end
      end
  | None => []
  end.

Definition dribbling_network (handler : Handler) : Runtime := {|
  World := bytes;
  SocketAddr := unit;
  TcpStream := unit;
  TlsStream := unit;
  now := fun _ => 0;
  instant_MAX := 2 ^ 90;
  to_socket_addrs := fun _ _ w => (Ok [tt], w);
  tcp_stream_connect := fun _ w => (Ok tt, w);
  tcp_writable := fun _ w => (Ok tt, w);
  tcp_try_write := fun _ b _ => (Ok (len b), b);
  tcp_write_all := fun _ b _ => (Ok tt, b);
  tcp_flush := fun _ w => (Ok tt, w);
  tcp_read := fun _ _ w => (Ok [], w);
  received := fun _ => answer_bytes handler;
  head_read := fun _ w => w;
  runtime_roots := RootsExamples.even_roots;
  statics := fun _ => initial_statics;
  set_statics := fun _ w => w;
  native_connector := fun w => (Ok tt, w);
  tls_server_name := fun _ w => (Ok tt, w);
  tls_handshake := fun _ _ _ w => (Ok tt, w);
  tls_write_all := fun _ _ w => (Ok tt, w);
  suspended := fun _ _ _ => true;
  cancelled := fun _ w _ => w;
|}.

Lemma flat_dribble b s : flat (dribble b ++ s) = (b ++ (flat s).1, (flat s).2).
Proof.
  induction b as [|c b IH]; [apply surjective_pairing|]. cbn. fold (dribble b). by rewrite IH.
Qed.

Lemma brings_pieces r :
  brings
    (let sent := response_bytes (version r) (code r) (reason r) (reply_headers r) (reply_body r) in
     match framing r with
     | MetadataFacts.InChunks => Chunks.singles (sent, reply_error r)
     | _ => dribble sent ++ match reply_error r with Some e => [EvError e] | None => [] end
     end) r.
Proof.
  assert (forall b, flat (dribble b ++ match reply_error r with Some e => [EvError e] | None => [] end)
                    = (b, reply_error r)) as Hd.
  { intros b. rewrite flat_dribble. by destruct (reply_error r); rewrite app_nil_r. }
  unfold brings. destruct (framing r); (split; [|done]); [apply Hd..|apply Chunks.flat_singles|apply Hd].
Qed.

Lemma dribbling_network_answers handler base :
  Request.proxy base = None \/ feature_proxy = false ->
  @answers_requests _ _ _ (dribbling_network handler) 1 handler base (fun _ => True).
Proof.
  intros Hp c w received _ Ht Hh Hc Hr. set (b := ParsedRequest.as_bytes (request c)) in *.
  exists b. split; [|done]. exists tt, w, b. split_and!; [| | |done].
  - apply reached_server; [destruct Hp; [right; by rewrite Hc|by left]|]. exists [], tt, [], w, w.
    split; [reflexivity|]. split; [constructor|reflexivity].
  - exists 0%nat, w, w, (len b). split; [constructor|]. split; [lia|]. by split.
  - cbn -[response_bytes]. unfold answer_bytes. rewrite Hr. apply brings_pieces.
Qed.

End Dribbling.
End Dribbling.

(** * Examples: a server of forms *)

Module ServerExamples.
Import Connection ConnectionFacts BodyFacts Navigation Network NavigationFacts Wire Servers.
Import Dribbling ConnectionExamples.
#[local] Existing Instances canonical_order example_externals no_variables default_build.

(** Behind a form is the page [/thanks]; any other request is echoed. *)
Definition see_other : Reply :=
  mkReply (lit "HTTP/1.1") 303 (lit "See Other") [(lit "Location", lit "/thanks")] [] None
    MetadataFacts.ToTheEnd.
Definition echo (content : bytes) : Reply :=
  mkReply (lit "HTTP/1.1") 200 (lit "OK") [] content None MetadataFacts.ToTheEnd.
Definition form_server : Handler := fun received =>
  if bool_decide (line received = lit "POST /form HTTP/1.1") then see_other
  else echo (utf8 (line received)).

(** [minreq::post("http://a/form").with_body("x=1").with_timeout(1)] *)
Definition form_request : Request.Request :=
  Request.with_timeout (Request.with_body (Request.post (lit "http://a/form")) (lit "x=1")) 1.
Definition form_parsed : ParsedRequest.ParsedRequest :=
  match ParsedRequest.new form_request with
  | Ok parsed => parsed
  | _ => RequestExamples.first_request
  end.
Definition form_base : Request.Request := ParsedRequest.config form_parsed.

Definition form_url : HttpUrl.HttpUrl := ParsedRequest.url form_parsed.
Definition thanks_url : HttpUrl.HttpUrl :=
  HttpUrl.mkHttpUrl false (lit "a") (Port.ImplicitHttp) (lit "/thanks") None.

#[local] Instance form_network : Runtime := dribbling_network form_server.

Example form_pages :
  navigated (handler_web form_server form_base) form_parsed
  = Arrived (Ok (Response.mkResponse 200 (lit "OK") ∅ (lit "http://a/thanks")
                   (lit "GET /thanks HTTP/1.1"))).
Proof. vm_compute. reflexivity. Qed.

Lemma form_site :
  site form_server form_base (in_list [(Method.Post, form_url); (Method.Get, thanks_url)]).
Proof. apply site_checked. vm_compute. reflexivity. Qed.

Definition idle : World := @nil N.

Lemma client_meets_servers_witness :
  client_is 1 (fun _ => True) form_request form_parsed idle
    (navigated (handler_web form_server form_base) form_parsed).
Proof.
  apply (client_meets_servers 1 form_server
           (in_list [(Method.Post, form_url); (Method.Get, thanks_url)]) (fun _ => True)
           form_request form_parsed idle);
    [vm_compute; reflexivity|apply form_site|apply dribbling_network_answers; by right|exact I|exact I|].
  intros host _ Ha. vm_compute in Ha. injection Ha as <-. by left.
Defined.
End ServerExamples.
