(* ===== verification/Echo.v ===== *)
(** Round trips through a server: what is sent to a server that sends back what it has
    received comes back as it was, as bytes and as JSON. *)

From S2P Require Import Prelude.
From S2P Require Import Text.
From S2P Require Import Strings.
From S2P Require Import Numbers.
From S2P Require Import Errors.
From S2P Require Import Url.
From S2P Require Import Proxies.
From S2P Require Import Requests.
From S2P Require Import Lines.
From S2P Require Import Metadata.
From S2P Require Import Wire.
From S2P Require Import Bodies.
From S2P Require Import Loading.
From S2P Require Import Roots.
From S2P Require Import Runtime.
From S2P Require Import Connections.
From S2P Require Import Chains.
From S2P Require Import Deadlines.
From S2P Require Import Navigation.
From S2P Require Import Journeys.
From S2P Require Import Servers.

Module Echo.
Import Connection ConnectionFacts BodyFacts Navigation Network NavigationFacts Wire Servers Deadlines.

(** A server that sends back the content it has received, with its length behind headers
    of its own. *)
Definition echo_with (extra : list (text * text)) : Handler := fun received =>
  mkReply (lit "HTTP/1.1") 200 (lit "OK")
    (extra ++ [(lit "Content-Length", dec (len (content received)))])
    (content received) None (MetadataFacts.ByLength (len (content received))).

(** The headers of its own say nothing about the body. *)
Definition harmless (extra : list (text * text)) : Prop :=
  Forall MetadataFacts.header_wf extra /\
  map_Forall (fun k v => ~ MetadataFacts.is_chunked (k, v) /\ ~ MetadataFacts.is_content_length (k, v))
    (MetadataFacts.insert_headers ∅ extra).

Definition length_headers (extra : list (text * text)) (n : N) : gmap text text :=
  <[lit "content-length" := dec n]> (MetadataFacts.insert_headers ∅ extra).

Section Echo.
Context `{Build} `{Externals} `{Environment} `{HashOrder} `{Runtime}.

Lemma insert_length_header extra n :
  MetadataFacts.insert_headers ∅ (extra ++ [(lit "Content-Length", dec n)])
  = length_headers extra n.
Proof. unfold MetadataFacts.insert_headers, length_headers. by rewrite foldl_app. Qed.

Lemma header_map_echo extra received :
  header_map (echo_with extra received) = length_headers extra (len (content received)).
Proof. apply insert_length_header. Qed.

Lemma length_headers_framed extra n :
  harmless extra -> n <= usize_MAX ->
  MetadataFacts.framed_as (length_headers extra n) (MetadataFacts.ByLength n).
Proof.
  intros [_ Hex] Hn. unfold length_headers. split; [|split].
  - intros k v [[<- _]|[_ Hk]]%lookup_insert_Some; [intros [Hc _]; by vm_compute in Hc|].
    by apply Hex.
  - exists (dec n). split; [apply lookup_insert_eq|]. rewrite trim_dec.
    by apply from_str_radix_dec.
  - intros k v [[<- _]|[_ Hk]]%lookup_insert_Some; [done|]. intros Hc.
    by destruct (Hex k v Hk).
Qed.

Lemma length_header_wf n : MetadataFacts.header_wf (lit "Content-Length", dec n).
Proof.
  split; cbn [fst snd]; [by_compute|]. split; [apply is_ascii_text, dec_ascii|].
  apply dec_not_in. left. reflexivity.
Qed.

Lemma headers_size_app hs hs' :
  MetadataFacts.headers_size (hs ++ hs')
  = MetadataFacts.headers_size hs + MetadataFacts.headers_size hs'.
Proof. induction hs as [|kv hs IH]; [done|]. simpl. rewrite IH. lia. Qed.

Lemma length_header_size n :
  n < 2 ^ 64 -> MetadataFacts.headers_size [(lit "Content-Length", dec n)] <= 83.
Proof.
  intros Hn. pose proof (dec_length n Hn) as Hd. cbn [MetadataFacts.headers_size].
  unfold str_len, MetadataFacts.header_text. cbn [fst snd].
  rewrite utf8_ascii.
  - rewrite len_app. change (len (lit "Content-Length")) with 14.
    change (ch ":" :: ch " " :: dec n) with ([ch ":"; ch " "] ++ dec n). rewrite len_app.
    change (len [ch ":"; ch " "]) with 2. lia.
  - unfold is_ascii. rewrite forallb_app. cbn. apply dec_ascii.
Qed.

(** Room for the head of an echo. *)
Definition roomy (extra : list (text * text)) (config : Request.Request) : Prop :=
  let n := MetadataFacts.headers_size extra + 100 in
  n <= usize_MAX /\
  (match Request.max_headers_size config with Some m => n <= m <= usize_MAX | None => True end) /\
  (match Request.max_status_line_len config with Some m => 100 <= m | None => True end).

Lemma read_echo extra config received :
  roomy extra config -> len (content received) <= usize_MAX ->
  read_reply config (echo_with extra received) = Ok (ContentLength (len (content received))).
Proof.
  intros (_ & Hm & Hs) Hn. unfold read_reply, head_result, echo_with.
  cbn [version code reason reply_headers framing].
  pose proof (length_header_size (len (content received))) as Hsz.
  assert (MetadataFacts.fits (Request.max_status_line_len config)
    (str_len (MetadataFacts.status_line (lit "HTTP/1.1") 200 (lit "OK")) + 2) = true) as ->.
  { change (str_len _ + 2) with 17. unfold MetadataFacts.fits.
    destruct (Request.max_status_line_len config); [|done]. decide_test. }
  assert (MetadataFacts.fits (Request.max_headers_size config)
    (MetadataFacts.headers_size
       (extra ++ [(lit "Content-Length", dec (len (content received)))]) + 2) = true)
    as ->; [|done].
  unfold MetadataFacts.fits. destruct (Request.max_headers_size config); [|done].
  rewrite headers_size_app. unfold usize_MAX in *. decide_test.
Qed.

Lemma echo_ok extra config m received :
  harmless extra -> roomy extra config -> len (content received) <= usize_MAX ->
  reply_ok m (echo_with extra received).
Proof.
  intros Hex [Hroom _] Hn. split.
  - split; [by_compute..| |].
    + apply Forall_app. split; [apply Hex|]. constructor; [apply length_header_wf|done].
    + pose proof (length_header_size (len (content received))). cbn [reply_headers echo_with].
      rewrite headers_size_app. unfold usize_MAX in *. lia.
  - rewrite header_map_echo. by apply length_headers_framed.
  - intros _ _ n [= <-]. cbn. lia.
Qed.

(** ** One request *)

(** A request that a server can read and that is not asked for without a body, and caps
    that leave room for the answer. *)
Record echoable (extra : list (text * text)) (parsed : ParsedRequest.ParsedRequest) : Prop := {
  ec_http : HttpUrl.https (ParsedRequest.url parsed) = false;
  ec_ascii : is_ascii (HttpUrl.host (ParsedRequest.url parsed)) = true;
  ec_method : Request.method (ParsedRequest.config parsed) <> Method.Head;
  ec_sendable : sendable parsed;
  ec_roomy : roomy extra (ParsedRequest.config parsed);
  ec_size : len (content (as_received parsed)) <= usize_MAX;
}.

Section Request.
Variables (req : Request.Request) (parsed : ParsedRequest.ParsedRequest).
Variables (handler : Handler) (extra : list (text * text)).
Hypothesis Hnew : ParsedRequest.new req = Ok parsed.
Hypothesis Hecho : echoable extra parsed.
Hypothesis Hharmless : harmless extra.
Hypothesis Hhandler : handler (as_received parsed) = echo_with extra (as_received parsed).

Definition base := ParsedRequest.config parsed.
Definition only (m : Method.Method) (u : HttpUrl.HttpUrl) : Prop :=
  m = Request.method base /\ u = ParsedRequest.url parsed.

Definition echo_page : Response.Response :=
  Response.mkResponse 200 (lit "OK") (length_headers extra (len (content (as_received parsed))))
    (UrlGrammar.display (ParsedRequest.url parsed)) (content (as_received parsed)).

Lemma request_at_parsed : request_at base (Request.method base) (ParsedRequest.url parsed) = parsed.
Proof.
  unfold request_at, base. pose proof (new_redirects req parsed Hnew) as Hr.
  destruct parsed as [u visited []]. simpl in *. by subst visited.
Qed.

Lemma echo_answer :
  answer_at (handler_web handler base) base (Request.method base) (ParsedRequest.url parsed)
  = Ends (Ok echo_page).
Proof.
  unfold answer_at, handler_web, reply_at.
  rewrite request_at_parsed, Hhandler, read_echo by apply Hecho.
  change (is_redirect (Z.of_N (code (echo_with extra (as_received parsed))))) with false. cbv iota.
  unfold page, has_body. cbn [code echo_with]. rewrite bool_decide_eq_false_2 by apply Hecho.
  unfold read_body. cbn [framing echo_with]. by rewrite header_map_echo.
Qed.

Lemma echo_site : site handler base only.
Proof.
  split.
  - intros m u m' u' host [-> ->]. by rewrite echo_answer.
  - intros m u [-> ->]. rewrite request_at_parsed. apply Hecho.
  - intros m u [-> ->]. rewrite request_at_parsed, Hhandler.
    apply (echo_ok extra base); [done|apply Hecho..].
Qed.

Lemma ascii_host : ensure_ascii_host (HttpUrl.host (ParsedRequest.url parsed))
  = Ok (HttpUrl.host (ParsedRequest.url parsed)).
Proof. unfold ensure_ascii_host. by rewrite (ec_ascii _ _ Hecho). Qed.

Lemma echo_navigated : navigated (handler_web handler base) parsed = Arrived (Ok echo_page).
Proof.
  unfold navigated. rewrite navigate_turn, (ec_http _ _ Hecho), ascii_host.
  assert (with_host (ParsedRequest.url parsed) (HttpUrl.host (ParsedRequest.url parsed))
          = ParsedRequest.url parsed) as -> by by destruct (ParsedRequest.url parsed).
  fold base. by rewrite echo_answer.
Qed.

(** What is sent comes back. *)
Lemma echo_returns fuel inv w :
  answers_requests fuel handler base inv -> inv w ->
  exists w', inv w' /\
    (in_time parsed w w' -> Client.send fuel req w = Some (Ok echo_page, w')).
Proof.
  intros Han Hinv.
  assert (client_is fuel inv req parsed w (navigated (handler_web handler base) parsed)) as Hc.
  { eapply (client_of_chain fuel _ only); [done..| |].
    - intros host _ Hh. rewrite ascii_host in Hh. injection Hh as <-. split; [done|].
      by destruct (ParsedRequest.url parsed).
    - apply served_from_first, servers_serve; [apply echo_site|done|].
      destruct (ec_roomy _ _ Hecho) as (_ & Hm & _). unfold caps_ok, base.
      destruct (Request.max_headers_size _); [exact (proj2 Hm)|done]. }
  by rewrite echo_navigated in Hc.
Qed.
End Request.

Lemma new_body req parsed :
  ParsedRequest.new req = Ok parsed ->
  Request.body (ParsedRequest.config parsed) = Request.body req.
Proof.
  unfold ParsedRequest.new. destruct (HttpUrl.parse _ _) as [u|e|]; [|done..].
  cbn [mbind outcome_bind]. intros [= <-]. cbn [ParsedRequest.config].
  destruct feature_proxy; [|done]. unfold ParsedRequest.default_proxy, ParsedRequest.set_proxy_from.
  by repeat case_match.
Qed.

(** What the page of an echo says as JSON. *)
Lemma echoed_json {T} (to_string : T -> outcome text text) (from_str : text -> outcome text T)
    req0 v s req parsed extra :
  to_string v = Ok s -> from_str s = Ok v -> is_text s ->
  Request.with_json to_string req0 v = Ok req -> ParsedRequest.new req = Ok parsed ->
  Response.body (echo_page parsed extra) = utf8 s /\
  Response.json from_str (echo_page parsed extra) = Ok v.
Proof.
  intros Hto Hfrom Htext Hwith Hnew.
  assert (Response.body (echo_page parsed extra) = utf8 s) as Hb.
  { cbn. rewrite (new_body _ _ Hnew). unfold Request.with_json in Hwith. rewrite Hto in Hwith.
    by injection Hwith as <-. }
  split; [done|]. unfold Response.json, Response.as_str.
  by rewrite Hb, from_utf8_utf8, Hfrom by done.
Qed.

(** C6. JSON through a server: a value that is sent with [with_json] to servers that send
    back what they have received, behind any headers that say nothing about the body, is
    the value that [json] gives of the response, for every request that the servers can
    read, when [serde_json] parses what it has printed. *)
Theorem json_round_trip {T} (to_string : T -> outcome text text) (from_str : text -> outcome text T)
    fuel inv handler extra req0 v s req parsed w :
  to_string v = Ok s -> from_str s = Ok v -> is_text s ->
  Request.with_json to_string req0 v = Ok req -> ParsedRequest.new req = Ok parsed ->
  echoable extra parsed -> harmless extra ->
  handler (as_received parsed) = echo_with extra (as_received parsed) ->
  answers_requests fuel handler (ParsedRequest.config parsed) inv -> inv w ->
  exists w', inv w' /\
    (in_time parsed w w' ->
     exists response, Client.send fuel req w = Some (Ok response, w') /\
       Response.body response = utf8 s /\ Response.json from_str response = Ok v).
Proof.
  intros Hto Hfrom Htext Hwith Hnew Hecho Hex Hh Han Hinv.
  destruct (echo_returns req parsed handler extra Hnew Hecho Hex Hh fuel inv w Han Hinv)
    as (w' & Hi & Hs).
  exists w'. split; [done|]. intros Ht. exists (echo_page parsed extra). split; [by apply Hs|].
  by apply (echoed_json to_string from_str req0 v s req).
Qed.
End Echo.
End Echo.

Module EchoExamples.
Import Connection Navigation Wire Servers Dribbling Deadlines Echo ConnectionExamples.
#[local] Existing Instances canonical_order example_externals no_variables default_build.

(** Numbers as JSON. *)
Definition number_to_string (n : N) : outcome text text := Ok (dec n).
Definition number_from_str (s : text) : outcome text N := ok_or (parse_usize s) (lit "no number").

Definition number_request : Request.Request :=
  match Request.with_json number_to_string (Request.post (lit "http://a/echo")) 42 with
  | Ok req => req
  | _ => get_request
  end.
Definition number_parsed : ParsedRequest.ParsedRequest :=
  match ParsedRequest.new number_request with Ok parsed => parsed | _ => get_parsed end.

(** The server says who it is. *)
Definition named : list (text * text) := [(lit "Server", lit "echo")].

Lemma named_harmless : harmless named.
Proof. split; [apply MetadataFacts.headers_ok; vm_compute; reflexivity|by_compute]. Qed.

Lemma number_echoable : echoable named number_parsed.
Proof.
  split; [reflexivity|reflexivity|by vm_compute|apply sendable_checked; vm_compute; reflexivity
    |by vm_compute|by_compute].
Qed.

#[local] Instance echo_network : Runtime := dribbling_network (echo_with named).

Definition idle : World := @nil N.

Lemma json_round_trip_witness :
  exists w', True /\
    (in_time number_parsed idle w' ->
     exists response, Client.send 1 number_request idle = Some (Ok response, w') /\
       Response.body response = utf8 (lit "42") /\ Response.json number_from_str response = Ok 42).
Proof.
  apply (json_round_trip number_to_string number_from_str 1
           (fun _ => True) (echo_with named) named (Request.post (lit "http://a/echo")) 42
           (lit "42") number_request number_parsed idle);
    [reflexivity|reflexivity|by_compute|reflexivity|vm_compute; reflexivity|apply number_echoable
    |apply named_harmless|reflexivity
    |apply dribbling_network_answers; by right|exact I].
Defined.
End EchoExamples.
