(* ===== verification/TestServer.v ===== *)
(** The test server of [src/tests/setup.rs]: what it answers, its threads, and the
    library it is built on, [tiny_http], as an interface with its documented behaviour.
    Replies that say the same are read alike by the client, whatever else is in them. *)

From S2P Require Import Prelude.
From S2P Require Import Text.
From S2P Require Import Strings.
From S2P Require Import Numbers.
From S2P Require Import Errors.
From S2P Require Import Url.
From S2P Require Import Requests.
From S2P Require Import Metadata.
From S2P Require Import Wire.
From S2P Require Import Bodies.
From S2P Require Import Loading.
From S2P Require Import Runtime.
From S2P Require Import Connections.
From S2P Require Import Navigation.
From S2P Require Import Journeys.
From S2P Require Import Servers.
From S2P Require Import Echo.

Module TestServer.
Import Navigation Network Wire Servers.

(** * The interface of [tiny_http] *)

(** A response, by the calls of [setup.rs] that make one: [Response::from_string], with
    a status code; [Response::empty], with a header or without; and [Response::new] on
    no data, announcing a length. *)
Inductive Response : Type :=
| FromString (code : N) (s : text)
| Empty (code : N) (header : option (text * text))
| Announcing (code length : N).

(** What the server asks of a request it has received, and how it responds to it. *)
Class TinyHttp : Type := {
  http_method : Received -> text;
  http_url : Received -> text;
  http_headers : Received -> list (text * text);
  as_reader : Received -> bytes;
  reason_phrase : N -> text;
  respond_with : Received -> Response -> Reply;
}.

(** * The server *)

Section Server.
Context `{TinyHttp}.

(** [read_to_string(&mut content).ok()] on an empty string. *)
Definition read_content (request : Received) : text :=
  match from_utf8 (as_reader request) with Ok s => s | _ => [] end.

(** [split('#').next().unwrap()] *)
Definition url_without_fragment (url : text) : text :=
  match split_char (ch "#") url with
  | Some (before, _) => before
  | None => url
  end.

Definition here (path : text) : text := lit "http://localhost:35562" ++ path.

(** The loop over the headers at [/header_pong]. *)
Fixpoint pong (headers : list (text * text)) : Response :=
  match headers with
  | [] => FromString 200 (lit "No header!")
  | (field, value) :: headers =>
      if bool_decide (field = lit "Ping") then FromString 200 value else pong headers
  end.

(** The 1000 characters of the long header, its name and the colon included. *)
Definition long_header : text * text :=
  (lit "Very-Long-Header", replicate (1000 - length (lit "Very-Long-Header: ")) (ch ".")).

Definition moved_to (code : N) (location : text) : Response :=
  Empty code (Some (lit "Location", location)).

(** The [match] of the loop of the server, [slow_a] without its pause. *)
Definition choose (method url : text) (headers : list (text * text)) (content : text) : Response :=
  let asked m path := bool_decide (method = m) && bool_decide (url = path) in
  if asked (lit "GET") (lit "/header_pong") then pong headers
  else if asked (lit "GET") (lit "/slow_a") then FromString 200 (lit "j: " ++ content)
  else if asked (lit "GET") (lit "/a") then FromString 200 (lit "j: " ++ content)
  else if asked (lit "POST") (lit "/a") then FromString 200 (lit "POST to /a is not valid.")
  else if asked (lit "GET") (lit "/long_header") then Empty 200 (Some long_header)
  else if asked (lit "GET") (lit "/massive_content_length") then Announcing 200 (10 ^ 15)
  else if asked (lit "GET") (lit "/long_status_line") then Empty 203 None
  else if asked (lit "GET") (lit "/redirect-baz") then moved_to 301 (here (lit "/a#baz"))
  else if asked (lit "GET") (lit "/redirect") then moved_to 301 (here (lit "/a"))
  else if asked (lit "POST") (lit "/redirect") then moved_to 303 (here (lit "/a"))
  else if asked (lit "GET") (lit "/infiniteredirect") then moved_to 301 (here (lit "/redirectpong"))
  else if asked (lit "GET") (lit "/redirectpong") then moved_to 301 (here (lit "/infiniteredirect"))
  else if asked (lit "GET") (lit "/relativeredirect") then moved_to 303 (lit "/a")
  else if asked (lit "POST") (lit "/echo") then FromString 200 content
  else if asked (lit "HEAD") (lit "/b") then Empty 418 None
  else if asked (lit "POST") (lit "/c") then FromString 200 (lit "l: " ++ content)
  else if asked (lit "PUT") (lit "/d") then FromString 200 (lit "m: " ++ content)
  else if asked (lit "DELETE") (lit "/e") then FromString 200 (lit "n: " ++ content)
  else if asked (lit "TRACE") (lit "/f") then FromString 200 (lit "o: " ++ content)
  else if asked (lit "OPTIONS") (lit "/g") then FromString 200 (lit "p: " ++ content)
  else if asked (lit "CONNECT") (lit "/h") then FromString 200 (lit "q: " ++ content)
  else if asked (lit "PATCH") (lit "/i") then FromString 200 (lit "r: " ++ content)
  else FromString 404 (lit "Not Found").

(** The body of the loop. *)
Definition respond : Handler := fun request =>
  respond_with request
    (choose (http_method request) (url_without_fragment (http_url request)) (http_headers request)
       (read_content request)).

(** The threads of the server: [setup] starts four. The [return] in the loop over the
    headers ends the thread that answers, not only the loop. *)
Definition setup : nat := 4.
Definition ends_thread (request : Received) : bool :=
  bool_decide (http_method request = lit "GET")
  && bool_decide (url_without_fragment (http_url request) = lit "/header_pong")
  && existsb (fun header => bool_decide (header.1 = lit "Ping")) (http_headers request).

(** A request is taken by a thread, if there is one left; requests in turn. *)
Definition serve (threads : nat) (request : Received) : option Reply * nat :=
  match threads with
  | O => (None, O)
  | S others => (Some (respond request), if ends_thread request then others else threads)
  end.
Definition serve_all (threads : nat) (requests : list Received) : nat :=
  foldl (fun threads request => (serve threads request).2) threads requests.

Lemma serve_threads threads request :
  (serve threads request).2 = (threads - if ends_thread request then 1 else 0)%nat.
Proof. destruct threads as [|others]; [done|]. cbn. destruct (ends_thread request); lia. Qed.

(** After as many requests for [/header_pong] with a [Ping] as there were threads, no
    request is answered any more; before, every one is. *)
Lemma server_runs_dry threads requests request :
  (serve (serve_all threads requests) request).1
  = if (length (filter (fun r => ends_thread r = true) requests) <? threads)%nat
    then Some (respond request) else None.
Proof.
  assert (serve_all threads requests
          = threads - length (filter (fun r => ends_thread r = true) requests))%nat as ->.
  { revert threads. induction requests as [|r rs IH]; intros threads; [cbn; lia|].
    unfold serve_all in *. cbn [foldl]. rewrite IH, serve_threads, filter_cons.
    case_decide as Hr; destruct (ends_thread r); try done; cbn [length]; lia. }
  destruct (Nat.ltb_spec (length (filter (fun r => ends_thread r = true) requests)) threads);
    [|by replace (threads - _)%nat with 0%nat by lia].
  by destruct (threads - _)%nat eqn:E; [lia|].
Qed.
End Server.
End TestServer.

(** * What [tiny_http] is documented to do *)

Module Documented.
Import Navigation Network Wire Servers TestServer MetadataFacts.

(** The parts of a response. *)
Definition status (response : Response) : N :=
  match response with FromString code _ | Empty code _ | Announcing code _ => code end.
Definition given (response : Response) : list (text * text) :=
  match response with Empty _ (Some header) => [header] | _ => [] end.
Definition data (response : Response) : bytes :=
  match response with FromString _ s => utf8 s | _ => [] end.
Definition data_length (response : Response) : N :=
  match response with Announcing _ n => n | _ => len (data response) end.

(** The name of a header, as the client compares it. *)
Definition header_key (header : text * text) : text :=
  trim (to_lowercase (make_ascii_lowercase header.1)).
Definition framing_keys : list text := [lit "transfer-encoding"; lit "content-length"].
Definition location_key : text := lit "location".

(** Headers that the library adds, such as [Date], [Server] and [Content-Type]. *)
Record own_headers (own : list (text * text)) : Prop := {
  own_wf : Forall header_wf own;
  own_keys : Forall (fun header => header_key header ∉ location_key :: framing_keys) own;
  own_size : headers_size own <= 400;
}.

(** The reply of a response: HTTP/1.1 with its status code and a reason; its header
    and its length among headers of the library, in any order; and its data behind them,
    but not in answer to HEAD. *)
Record sends (reason_ : text) (is_head : bool) (response : Response) (r : Reply) : Prop := {
  sn_version : version r = lit "HTTP/1.1";
  sn_code : code r = status response;
  sn_reason : reason r = reason_;
  sn_headers : exists own,
    reply_headers r
    ≡ₚ own ++ given response ++ [(lit "Content-Length", dec (data_length response))] /\
    own_headers own;
  sn_body : reply_body r = if is_head then [] else data response;
  sn_framing : framing r = ByLength (data_length response);
}.

(** A response that is sent as it is: its status code allows a body, its data are less
    than are sent in chunks (32768 bytes), and its header is not one that the library
    sets itself. *)
Definition library_keys : list text :=
  framing_keys ++ [lit "connection"; lit "trailer"; lit "upgrade"; lit "date"; lit "server";
                   lit "content-type"].
Definition ordinary (response : Response) : bool :=
  (200 <=? status response) && (status response <? 600)
  && negb (status response =? 204) && negb (status response =? 304)
  && match response with
     | FromString _ s => bool_decide (is_text s) && (len (utf8 s) <? 32768)
     | Empty _ _ => true
     | Announcing _ n => n <=? usize_MAX
     end
  && forallb header_ok (given response)
  && forallb (fun header => negb (bool_decide (header_key header ∈ library_keys))) (given response)
  && (headers_size (given response) <=? 65536).

(** A request in the ordinary form: its line has three words, its headers have nothing
    to trim, its body has a length, and it asks neither for a transfer encoding nor for
    an answer ahead of its body. *)
Definition upper (c : N) : bool := (ch "A" <=? c) && (c <=? ch "Z").
Definition plain_header (header : text * text) : bool :=
  is_ascii header.1 && is_ascii header.2 && bool_decide (ch " " ∉ header.1)
  && bool_decide (trim header.2 = header.2).
Record plainly_asks (request : Received) (method url : text) : Prop := {
  asks_line : line request = method ++ lit " " ++ url ++ lit " HTTP/1.1";
  asks_method : method <> [] /\ forallb upper method = true;
  asks_url : is_ascii url = true /\ (ch " " ∉ url);
  asks_headers : forallb plain_header (written request) = true;
  asks_encoding : fields request !! lit "te" = None;
  asks_expect : fields request !! lit "expect" = None;
  asks_content : content request = [] \/
    fields request !! lit "content-length" = Some (dec (len (content request)));
}.

(** The documented behaviour. Of a request, the library gives the method and the URL of
    its line, its headers as they were written, and its body; and it sends what a
    response says. The reasons are those of the standard, which for 203 is asked for by
    a test; the others are short. *)
Class TinyHttpLaws (T : TinyHttp) : Prop := {
  law_request request method url :
    plainly_asks request method url ->
    http_method request = method /\ http_url request = url /\
    http_headers request = written request /\ as_reader request = content request;
  law_response request method url response :
    plainly_asks request method url -> ordinary response = true ->
    sends (reason_phrase (status response)) (bool_decide (method = lit "HEAD")) response
      (respond_with request response);
  law_reason code :
    is_text (reason_phrase code) /\ (LF ∉ reason_phrase code) /\ str_len (reason_phrase code) <= 100;
  law_reason_203 : reason_phrase 203 = lit "Non-Authoritative Information";
}.

(** What the test server sends in answer to a request of the ordinary form. *)
Definition chosen (request : Received) (method url : text) : Response :=
  choose method (url_without_fragment url) (written request)
    (match from_utf8 (content request) with Ok s => s | _ => [] end).

Lemma respond_sends `{TinyHttpLaws} request method url :
  plainly_asks request method url -> ordinary (chosen request method url) = true ->
  sends (reason_phrase (status (chosen request method url))) (bool_decide (method = lit "HEAD"))
    (chosen request method url) (respond request).
Proof.
  intros Ha Ho. destruct (law_request _ _ _ Ha) as (Hm & Hu & Hh & Hc).
  unfold respond, read_content. rewrite Hm, Hu, Hh, Hc. by eapply law_response.
Qed.

(** ** Requests of the ordinary form, decided *)

Definition plainly_asks_b (request : Received) (method url : text) : bool :=
  bool_decide (line request = method ++ lit " " ++ url ++ lit " HTTP/1.1")
  && negb (bool_decide (method = [])) && forallb upper method
  && is_ascii url && bool_decide (ch " " ∉ url)
  && forallb plain_header (written request)
  && bool_decide (fields request !! lit "te" = None)
  && bool_decide (fields request !! lit "expect" = None)
  && (bool_decide (content request = [])
      || bool_decide (fields request !! lit "content-length" = Some (dec (len (content request))))).

Lemma plainly_asks_checked request method url :
  plainly_asks_b request method url = true -> plainly_asks request method url.
Proof.
  unfold plainly_asks_b. rewrite !andb_true_iff, orb_true_iff, negb_true_iff, bool_decide_eq_false,
    !bool_decide_eq_true.
  intros [[[[[[[[? ?] ?] ?] ?] ?] ?] ?] ?]. by split.
Qed.
End Documented.

(** * Replies that say the same *)

Module Likeness.
Import Connection BodyFacts Navigation Network NavigationFacts Wire Servers TestServer Documented.
Import MetadataFacts.

(** ** The headers of a reply *)

Lemma headers_size_perm hs hs' : hs ≡ₚ hs' -> headers_size hs = headers_size hs'.
Proof. induction 1; simpl; lia. Qed.

Lemma insert_headers_snoc hs kv :
  insert_headers ∅ (hs ++ [kv]) = <[make_ascii_lowercase kv.1 := kv.2]> (insert_headers ∅ hs).
Proof. unfold insert_headers. by rewrite foldl_app. Qed.

(** An entry of the map is a header, and every name has an entry. *)
Lemma insert_headers_Some hs k v :
  insert_headers ∅ hs !! k = Some v ->
  exists kv, kv ∈ hs /\ make_ascii_lowercase kv.1 = k /\ kv.2 = v.
Proof.
  induction hs as [|kv hs IH] using rev_ind; [done|].
  rewrite insert_headers_snoc. intros [[<- <-]|[_ Hk]]%lookup_insert_Some.
  - exists kv. split; [|done]. apply elem_of_app. right. by left.
  - destruct (IH Hk) as (kv' & Hin & ?). exists kv'. split; [|done]. apply elem_of_app. by left.
Qed.

Lemma insert_headers_is_Some hs kv :
  kv ∈ hs -> is_Some (insert_headers ∅ hs !! make_ascii_lowercase kv.1).
Proof.
  induction hs as [|kv' hs IH] using rev_ind; [by intros ?%not_elem_of_nil|].
  rewrite insert_headers_snoc, lookup_insert_is_Some.
  intros [Hin|Hin%list_elem_of_singleton]%elem_of_app; [|subst kv'; by left].
  destruct (decide (make_ascii_lowercase kv'.1 = make_ascii_lowercase kv.1)) as [->|Hne];
    [by left|right; auto].
Qed.

(** A name that one header has is found, with its value. *)
Lemma insert_headers_one hs k v :
  (exists kv, kv ∈ hs /\ make_ascii_lowercase kv.1 = k) ->
  (forall kv, kv ∈ hs -> make_ascii_lowercase kv.1 = k -> kv.2 = v) ->
  insert_headers ∅ hs !! k = Some v.
Proof.
  intros (kv & Hin & <-) Hall. destruct (insert_headers_is_Some hs kv Hin) as [v' Hv].
  destruct (insert_headers_Some _ _ _ Hv) as (kv' & Hin' & Hk & <-). rewrite Hv. f_equal. by apply Hall.
Qed.

Lemma insert_headers_None hs k :
  (forall kv, kv ∈ hs -> make_ascii_lowercase kv.1 <> k) -> insert_headers ∅ hs !! k = None.
Proof.
  intros Hall. destruct (insert_headers ∅ hs !! k) as [v|] eqn:E; [|done].
  apply insert_headers_Some in E as (kv & Hin & Hk & _). by destruct (Hall kv Hin).
Qed.

Lemma ordinary_parts response :
  ordinary response = true ->
  200 <= status response < 600 /\ status response <> 204 /\ status response <> 304 /\
  data_length response <= usize_MAX /\
  (len (data response) <= data_length response) /\
  Forall header_wf (given response) /\
  Forall (fun header => header_key header ∉ library_keys) (given response) /\
  headers_size (given response) <= 65536.
Proof.
  intros Hordinary. unfold ordinary in Hordinary. rewrite !andb_true_iff, !negb_true_iff in Hordinary.
  destruct Hordinary as [[[[[[[? ?] ?] ?] Hd] Hwf%headers_ok] Hk] ?]. btest.
  assert (Forall (fun header => header_key header ∉ library_keys) (given response)) as Hk'.
  { apply forallb_Forall in Hk. eapply Forall_impl; [exact Hk|]. intros header Hh. cbv beta in Hh.
    by apply negb_true_iff, bool_decide_eq_false in Hh. }
  assert (data_length response <= usize_MAX /\ len (data response) <= data_length response) as [? ?].
  { unfold data_length, usize_MAX in *. destruct response as [code s|code h|code n]; simpl.
    - apply andb_true_iff in Hd as [_ Hd]. btest. lia.
    - by split.
    - btest. split; [lia|]. apply N.le_0_l. }
  by split_and!.
Qed.

Lemma status_line_size reason_ code :
  str_len reason_ <= 100 -> code < 600 ->
  str_len (status_line (lit "HTTP/1.1") code reason_) <= 175.
Proof.
  intros Hr Hcode. pose proof (dec_length code ltac:(lia)) as Hd.
  unfold str_len, status_line in *. rewrite !utf8_app, !utf8_cons, !utf8_app, !utf8_cons, !len_app.
  rewrite (utf8_ascii (dec code)) by apply dec_ascii.
  change (len (utf8 (lit "HTTP/1.1"))) with 8. change (len (encode_utf8 (ch " "))) with 1. lia.
Qed.

Section Sends.
Context (reason_ : text) (is_head : bool) (response : Response) (r : Reply).
Hypothesis Hsends : sends reason_ is_head response r.
Hypothesis Hordinary : ordinary response = true.
Hypothesis Hreason : is_text reason_ /\ (LF ∉ reason_) /\ str_len reason_ <= 100.

(** A header of the reply is one of the library, the given one, or the length. *)
Lemma reply_header_cases header :
  header ∈ reply_headers r ->
  header_key header ∉ location_key :: framing_keys \/
  (header ∈ given response /\ header_key header ∉ library_keys) \/
  header = (lit "Content-Length", dec (data_length response)).
Proof.
  destruct (sn_headers _ _ _ _ Hsends) as (own & Hperm & [_ Hk _]). rewrite Hperm.
  destruct (ordinary_parts _ Hordinary) as (_ & _ & _ & _ & _ & _ & Hg & _).
  rewrite Forall_forall in Hk, Hg.
  intros [Hin|[Hin|Hin]%elem_of_app]%elem_of_app; [left; auto|right; left; auto|].
  right. right. by apply list_elem_of_singleton.
Qed.
Lemma reply_has_length :
  (lit "Content-Length", dec (data_length response)) ∈ reply_headers r.
Proof.
  destruct (sn_headers _ _ _ _ Hsends) as (own & -> & _).
  apply elem_of_app. right. apply elem_of_app. right. by left.
Qed.

Lemma lower_key k header : make_ascii_lowercase header.1 = k -> trim (to_lowercase k) = header_key header.
Proof. by intros <-. Qed.

(** Only the length is of that name, and no encoding is named. *)
Lemma framing_key header :
  header ∈ reply_headers r -> header_key header ∈ framing_keys ->
  header = (lit "Content-Length", dec (data_length response)).
Proof.
  intros Hin Hkey. destruct (reply_header_cases header Hin) as [Hno|[[_ Hno]|?]]; [|  |done];
    destruct Hno; [by right|apply elem_of_app; by left].
Qed.

Lemma reply_framed : framed_as (header_map r) (ByLength (data_length response)).
Proof.
  assert (forall k v, header_map r !! k = Some v -> trim (to_lowercase k) ∈ framing_keys ->
            k = lit "content-length" /\ v = dec (data_length response)) as Hall.
  { intros k v (header & Hin & Hk & <-)%insert_headers_Some Hkey.
    rewrite (lower_key _ _ Hk) in Hkey. apply framing_key in Hkey; [|done]. by subst header k. }
  split; [|split].
  - intros k v Hkv [Hkey _]. cbn [fst] in Hkey.
    destruct (Hall k v Hkv) as [-> _]; [rewrite Hkey; by left|]. by vm_compute in Hkey.
  - exists (dec (data_length response)). split.
    + apply insert_headers_one.
      * exists (lit "Content-Length", dec (data_length response)). split; [apply reply_has_length|done].
      * intros header Hin Hk. rewrite (framing_key header Hin); [done|].
        rewrite <- (lower_key _ _ Hk). by right; left.
    + rewrite trim_dec. apply from_str_radix_dec. by apply ordinary_parts.
  - intros k v Hkv Hkey. apply (Hall k v Hkv). unfold is_content_length in Hkey. cbn [fst] in Hkey.
    rewrite Hkey. by right; left.
Qed.

(** The location is the given one. *)
Lemma reply_location :
  header_map r !! location_key = insert_headers ∅ (given response) !! location_key.
Proof.
  assert (forall header, header ∈ reply_headers r -> make_ascii_lowercase header.1 = location_key ->
            header ∈ given response) as Hall.
  { intros header Hin Hk. destruct (reply_header_cases header Hin) as [Hno|[[? _]| ->]]; [|done|done].
    destruct Hno. rewrite <- (lower_key _ _ Hk). by left. }
  assert (forall header, header ∈ given response -> header ∈ reply_headers r) as Hgiven.
  { intros header Hin. destruct (sn_headers _ _ _ _ Hsends) as (own & -> & _).
    apply elem_of_app. right. apply elem_of_app. by left. }
  destruct (insert_headers ∅ (given response) !! location_key) as [v|] eqn:E.
  - apply insert_headers_Some in E as (header & Hin & Hk & <-). apply insert_headers_one.
    + exists header. split; [by apply Hgiven|done].
    + intros header' Hin' Hk'. apply Hall in Hin'; [|done].
      destruct response as [|code [h|]|]; cbn [given] in Hin, Hin';
        try by apply not_elem_of_nil in Hin.
      apply list_elem_of_singleton in Hin, Hin'. by subst.
  - apply insert_headers_None. intros header Hin Hk.
    destruct (insert_headers_is_Some (given response) header) as [v Hv]; [by apply Hall|].
    rewrite Hk, E in Hv. done.
Qed.

Lemma reply_headers_size :
  headers_size (given response) + 2 <= headers_size (reply_headers r) /\
  headers_size (reply_headers r) <= headers_size (given response) + 483.
Proof.
  destruct (sn_headers _ _ _ _ Hsends) as (own & Hperm%headers_size_perm & [_ _ Hown]).
  rewrite !Echo.headers_size_app in Hperm.
  destruct (ordinary_parts _ Hordinary) as (_ & _ & _ & Hn & _). unfold usize_MAX in Hn.
  pose proof (Echo.length_header_size (data_length response) ltac:(lia)) as Hl.
  cbn [headers_size] in *. lia.
Qed.

Lemma reply_line :
  status_line (version r) (code r) (reason r) = status_line (lit "HTTP/1.1") (status response) reason_.
Proof. destruct Hsends as [-> -> -> _ _ _]. done. Qed.

(** The reply is in the format. *)
Lemma sends_ok m : reply_ok m r.
Proof.
  destruct (ordinary_parts _ Hordinary) as (Hcode & _ & _ & Hn & Hd & Hg & _ & Hgs).
  destruct Hreason as (Ht & Hlf & Hr).
  split.
  - split.
    + rewrite reply_line. unfold status_line. apply is_text_app. split; [by_compute|].
      constructor; [done|]. apply is_text_app. split; [apply is_ascii_text, dec_ascii|]. by constructor.
    + rewrite reply_line. unfold status_line. rewrite not_elem_of_app, not_elem_of_cons, not_elem_of_app,
        not_elem_of_cons. split_and!; [by_compute|done| |done..]. apply dec_not_in. by left.
    + rewrite (sn_version _ _ _ _ Hsends). by_compute.
    + rewrite (sn_code _ _ _ _ Hsends). lia.
    + rewrite reply_line. pose proof (status_line_size _ (status response) Hr ltac:(lia)).
      unfold usize_MAX. lia.
    + destruct (sn_headers _ _ _ _ Hsends) as (own & -> & [Hown _ _]).
      rewrite !Forall_app. split_and!; [done..|]. constructor; [apply Echo.length_header_wf|done].
    + destruct reply_headers_size. unfold usize_MAX. lia.
  - rewrite (sn_framing _ _ _ _ Hsends). apply reply_framed.
  - intros _ _ n Hf. rewrite (sn_framing _ _ _ _ Hsends) in Hf. injection Hf as <-.
    rewrite (sn_body _ _ _ _ Hsends). split; [|done]. destruct is_head; [apply N.le_0_l|done].
Qed.
End Sends.

(** ** Results that are alike *)

(** A result by its status, URL and body. *)
Definition essence (r : result Response.Response) : result (Z * text * bytes) :=
  response ← r; Ok (Response.status_code response, Response.url response, Response.body response).
Definition result_like (r r' : result Response.Response) : Prop := essence r = essence r'.

Definition step_like (s s' : step) : Prop :=
  match s, s' with
  | Ends r, Ends r' => result_like r r'
  | Leads m u, Leads m' u' => m = m' /\ u = u'
  | _, _ => False
  end.
Definition navigation_like (n n' : navigation) : Prop :=
  match n, n' with
  | Arrived r, Arrived r' => result_like r r'
  | AtHttps, AtHttps => True
  | _, _ => False
  end.

(** All that is announced is sent, so that the end of the connection does not matter. *)
Definition no_more (is_head : bool) (response : Response) : Prop :=
  data_length response <= len (if is_head then [] else data response).

(** The caps of a request exclude a response, or leave room for it, whatever headers the
    library adds. *)
Definition caps_clear (base : Request.Request) (response : Response) : bool :=
  match Request.max_status_line_len base with
  | Some m => (status response =? 203) || (177 <=? m)
  | None => true
  end
  && match Request.max_headers_size base with
     | Some m => (m <? headers_size (given response) + 4) || (headers_size (given response) + 485 <=? m)
     | None => true
     end.

Section Alike.
Context `{Build} `{Externals}.
Context (reason_ reason' : text) (is_head : bool) (response : Response) (r r' : Reply).
Hypothesis Hsends : sends reason_ is_head response r.
Hypothesis Hsends' : sends reason' is_head response r'.
Hypothesis Hordinary : ordinary response = true.
Hypothesis Hreason : is_text reason_ /\ (LF ∉ reason_) /\ str_len reason_ <= 100.
Hypothesis Hreason' : is_text reason' /\ (LF ∉ reason') /\ str_len reason' <= 100.
Hypothesis H203 : status response = 203 -> reason_ = reason'.

Lemma read_reply_same base :
  caps_clear base response = true -> read_reply base r = read_reply base r'.
Proof.
  unfold caps_clear. rewrite andb_true_iff. intros [Hs Hh]. unfold read_reply, head_result.
  rewrite (reply_line _ _ _ _ Hsends), (reply_line _ _ _ _ Hsends').
  rewrite (sn_framing _ _ _ _ Hsends), (sn_framing _ _ _ _ Hsends').
  destruct (ordinary_parts _ Hordinary) as (Hcode & _).
  assert (fits (Request.max_status_line_len base)
            (str_len (status_line (lit "HTTP/1.1") (status response) reason_) + 2)
          = fits (Request.max_status_line_len base)
            (str_len (status_line (lit "HTTP/1.1") (status response) reason') + 2)) as ->.
  { destruct (Request.max_status_line_len base) as [m|]; [|done]. unfold fits.
    apply orb_true_iff in Hs as [Hs|Hs]; btest; [by rewrite H203|].
    pose proof (status_line_size _ (status response) (proj2 (proj2 Hreason)) ltac:(lia)).
    pose proof (status_line_size _ (status response) (proj2 (proj2 Hreason')) ltac:(lia)).
    by rewrite (proj2 (N.leb_le _ _)), (proj2 (N.leb_le _ _)) by lia. }
  assert (fits (Request.max_headers_size base) (headers_size (reply_headers r) + 2)
          = fits (Request.max_headers_size base) (headers_size (reply_headers r') + 2)) as ->; [|done].
  destruct (Request.max_headers_size base) as [m|]; [|done]. unfold fits.
  destruct (reply_headers_size _ _ _ _ Hsends Hordinary Hreason).
  destruct (reply_headers_size _ _ _ _ Hsends' Hordinary Hreason').
  apply orb_true_iff in Hh as [Hh|Hh]; btest.
  - rewrite (proj2 (N.leb_gt _ _)), (proj2 (N.leb_gt _ _)) by lia. done.
  - rewrite (proj2 (N.leb_le _ _)), (proj2 (N.leb_le _ _)) by lia. done.
Qed.

Lemma page_like base m u :
  reply_error r = reply_error r' \/ no_more is_head response ->
  result_like (page base m u r) (page base m u r').
Proof.
  intros Herr. unfold page, has_body, read_body.
  rewrite (sn_framing _ _ _ _ Hsends), (sn_framing _ _ _ _ Hsends').
  rewrite (sn_code _ _ _ _ Hsends), (sn_code _ _ _ _ Hsends').
  rewrite (sn_body _ _ _ _ Hsends), (sn_body _ _ _ _ Hsends').
  destruct (negb _); [|done]. cbn [framing_result mbind outcome_bind]. unfold body_result.
  unfold no_more in Herr. destruct Herr as [->|Hle].
  - destruct (reply_error r') as [e|]; [|done]. by destruct (data_length response <=? _).
  - rewrite (proj2 (N.leb_le _ _) Hle).
    by destruct (reply_error r), (reply_error r').
Qed.

Lemma reply_at_like base m u :
  caps_clear base response = true ->
  reply_error r = reply_error r' \/ no_more is_head response ->
  step_like (reply_at base m u r) (reply_at base m u r').
Proof.
  intros Hcaps Herr. unfold reply_at. rewrite (read_reply_same base Hcaps).
  destruct (read_reply base r') as [st|e|]; [|done..].
  rewrite (sn_code _ _ _ _ Hsends), (sn_code _ _ _ _ Hsends').
  destruct (is_redirect _); [|by apply page_like].
  fold location_key. rewrite (reply_location _ _ _ _ Hsends Hordinary).
  rewrite (reply_location _ _ _ _ Hsends' Hordinary). unfold next_method.
  rewrite (sn_code _ _ _ _ Hsends), (sn_code _ _ _ _ Hsends').
  by destruct (location ← _; location_target u location).
Qed.
End Alike.

(** ** Webs that are alike *)

Section Navigate.
Context `{Build} `{Externals}.
Context (web web' : Web) (base : Request.Request) (wanted : Method.Method -> HttpUrl.HttpUrl -> Prop).
Hypothesis Hlike : forall m u, wanted m u ->
  step_like (answer_at web base m u) (answer_at web' base m u).
Hypothesis Hclosed : closed web' base wanted.

Lemma closed_like : closed web base wanted.
Proof.
  intros m u m' u' host Hw Ha Hh He. pose proof (Hlike m u Hw) as Hl. rewrite Ha in Hl.
  destruct (answer_at web' base m u) as [|m1 u1] eqn:E; [done|]. destruct Hl as [<- <-].
  by apply (Hclosed m u m' u').
Qed.

Lemma navigate_like hops m visited u :
  (forall host, HttpUrl.https u = false -> ensure_ascii_host (HttpUrl.host u) = Ok host ->
     wanted m (with_host u host)) ->
  navigation_like (navigate web base hops m visited u) (navigate web' base hops m visited u).
Proof.
  revert m visited u. induction hops as [|hops IH]; intros m visited u Hw; cbn [navigate];
    (destruct (HttpUrl.https u) eqn:Eh; [done|]);
    destruct (ensure_ascii_host (HttpUrl.host u)) as [host|e|]; try done;
    specialize (Hw host eq_refl eq_refl); pose proof (Hlike _ _ Hw) as Hl;
    destruct (answer_at web base _ _) as [x|m1 u1], (answer_at web' base _ _) as [x'|m2 u2] eqn:E;
    try done; destruct Hl as [<- <-]; try done.
  case_decide; [done|]. apply IH. intros host' Hh He. by apply (Hclosed _ _ _ _ _ Hw E).
Qed.
End Navigate.

(** Two replies that send the same response, which the caps of the request allow or not
    whatever else is in them. *)
Inductive alike (base : Request.Request) (r r' : Reply) : Prop :=
| alike_intro reason_ reason' is_head response :
    sends reason_ is_head response r -> sends reason' is_head response r' ->
    ordinary response = true -> (status response = 203 -> reason_ = reason') ->
    is_text reason_ /\ (LF ∉ reason_) /\ str_len reason_ <= 100 ->
    is_text reason' /\ (LF ∉ reason') /\ str_len reason' <= 100 ->
    caps_clear base response = true ->
    reply_error r = reply_error r' \/ no_more is_head response ->
    alike base r r'.

Section Client.
Context `{Build} `{Externals} `{Environment} `{HashOrder} `{Runtime}.

(** A client of servers that answer alike: when what navigating the one comes to is
    known, what the client gives on the network of the other is like it. *)
Lemma client_like fuel inv req parsed w handler handler' wanted :
  let base := ParsedRequest.config parsed in
  ParsedRequest.new req = Ok parsed -> site handler' base wanted ->
  (forall m u, wanted m u ->
     alike base (handler (as_received (request_at base m u)))
       (handler' (as_received (request_at base m u)))) ->
  answers_requests fuel handler base inv -> caps_ok base -> inv w -> wants wanted parsed ->
  exists nav, navigation_like nav (navigated (handler_web handler' base) parsed) /\
    client_is fuel inv req parsed w nav.
Proof.
  intros base Hnew [Hcl Hsd _] Halike Han Hcaps Hinv Hw.
  exists (navigated (handler_web handler base) parsed).
  assert (forall m u, wanted m u -> step_like (answer_at (handler_web handler base) base m u)
            (answer_at (handler_web handler' base) base m u)) as Hlike.
  { intros m u Hmu. destruct (Halike m u Hmu) as [r1 r2 is_head response].
    unfold answer_at, handler_web. by eapply reply_at_like. }
  split; [by eapply navigate_like|].
  eapply client_of_chain; [done|done|exact Hw|]. apply served_from_first, servers_serve; [|done..].
  split; [by eapply closed_like|done|].
  intros m u Hmu. destruct (Halike m u Hmu) as [r1 r2 is_head response Hs].
  by eapply sends_ok.
Qed.
End Client.
End Likeness.

(** * An instance of the interface *)

Module PlainHttp.
Import Navigation Wire TestServer Documented MetadataFacts.

Definition plain_reason (code : N) : text :=
  if code =? 200 then lit "OK"
  else if code =? 203 then lit "Non-Authoritative Information"
  else if code =? 301 then lit "Moved Permanently"
  else if code =? 303 then lit "See Other"
  else if code =? 404 then lit "Not Found"
  else if code =? 418 then lit "I'm a teapot" else lit "Unknown".

Definition plain_own : list (text * text) :=
  [(lit "Server", lit "plain"); (lit "Date", lit "Thu, 01 Jan 1970 00:00:00 GMT");
   (lit "Content-Type", lit "text/plain; charset=UTF-8")].

Definition first_word (s : text) : text :=
  match split_char (ch " ") s with Some (word, _) => word | None => s end.
Definition behind_word (s : text) : text :=
  match split_char (ch " ") s with Some (_, rest) => rest | None => [] end.

(** A library that satisfies the laws, on which tests can be computed; what holds with it
    is carried over to every other by [Likeness]. Its connections end with [err]. *)
Definition plain_http (err : option io_error) : TinyHttp := {|
  http_method := fun request => first_word (line request);
  http_url := fun request => first_word (behind_word (line request));
  http_headers := written;
  as_reader := content;
  reason_phrase := plain_reason;
  respond_with := fun request response =>
    mkReply (lit "HTTP/1.1") (status response) (plain_reason (status response))
      (plain_own ++ given response ++ [(lit "Content-Length", dec (data_length response))])
      (if bool_decide (first_word (line request) = lit "HEAD") then [] else data response) err
      (ByLength (data_length response));
|}.

Lemma upper_no_space method : forallb upper method = true -> ch " " ∉ method.
Proof.
  intros Hall%forallb_Forall Hin. rewrite Forall_forall in Hall. by specialize (Hall _ Hin).
Qed.

Lemma plain_words request method url :
  plainly_asks request method url ->
  first_word (line request) = method /\ first_word (behind_word (line request)) = url.
Proof.
  intros [-> [_ Hm%upper_no_space] [_ Hu] _ _ _ _]. unfold first_word, behind_word.
  change (lit " " ++ ?s) with (ch " " :: s). rewrite split_char_app by done.
  change (lit " HTTP/1.1") with (ch " " :: lit "HTTP/1.1"). by rewrite split_char_app.
Qed.

Lemma plain_http_laws err : TinyHttpLaws (plain_http err).
Proof.
  split.
  - intros request method url Ha. destruct (plain_words _ _ _ Ha). by split_and!.
  - intros request method url response Ha _. destruct (plain_words _ _ _ Ha) as [Hm _].
    split; [done|done|done| |cbn [respond_with plain_http reply_body]; by rewrite Hm|done].
    exists plain_own. split; [done|]. split; [apply headers_ok; vm_compute; reflexivity|by_compute..].
  - intros code. cbn [reason_phrase plain_http]. unfold plain_reason.
    repeat (destruct (_ =? _); [split_and!; by_compute|]). split_and!; by_compute.
  - done.
Qed.
End PlainHttp.
