(* ===== verification/Tests.v ===== *)
(** The tests of the repository: the unit tests of [src/src/request.rs] and
    [src/src/proxy.rs], and those of [src/tests/main.rs]. What a test of [main.rs]
    asserts of one run on one machine is proved here of every library that does what
    [tiny_http] is documented to do, and every network whose servers answer with it as
    the test server does, in any pieces and with any delays. *)

From S2P Require Import Prelude.
From S2P Require Import Text.
From S2P Require Import Strings.
From S2P Require Import Numbers.
From S2P Require Import Errors.
From S2P Require Import Url.
From S2P Require Import Proxies.
From S2P Require Import Requests.
From S2P Require Import Lines.
From S2P Require Import Metadata.
From S2P Require Import Wire.
From S2P Require Import Bodies.
From S2P Require Import Loading.
From S2P Require Import Roots.
From S2P Require Import Runtime.
From S2P Require Import Connections.
From S2P Require Import Chains.
From S2P Require Import Deadlines.
From S2P Require Import Navigation.
From S2P Require Import Journeys.
From S2P Require Import Servers.
From S2P Require Import Echo.
From S2P Require Import TestServer.

(** * The unit tests *)

Module UnitTests.

#[local] Instance any_variables : Environment := fun _ => None.

(** What is asserted of a request that parses. *)
Definition parsed `{Build} `{Externals} (req : Request.Request)
    (asserts : ParsedRequest.ParsedRequest -> bool) : bool :=
  match ParsedRequest.new req with Ok parsed => asserts parsed | _ => false end.

Definition resource_is (s : text) (req : ParsedRequest.ParsedRequest) : bool :=
  bool_decide (HttpUrl.path_and_query (ParsedRequest.url req) = s).

Section Parsing.
Context `{Build} `{Externals} `{HashOrder}.

(** A map is extended by the entries of another in the order of that map. *)
Definition test_headers : bool :=
  let headers : gmap text text :=
    <[lit "foo" := lit "baz"]> (<[lit "foo" := lit "bar"]> ∅) in
  let req := Request.with_headers (Request.get (lit "http://www.example.org/test/res"))
               (hm_iter headers) in
  bool_decide (Request.headers req = headers).

Definition test_multiple_params : bool :=
  let req := Request.with_param (Request.with_param
               (Request.get (lit "http://www.example.org/test/res"))
               (lit "foo") (lit "bar")) (lit "asd") (lit "qwe") in
  parsed req (resource_is (lit "/test/res?foo=bar&asd=qwe")).

Definition test_domain : bool :=
  let req := Request.with_param (Request.get (lit "http://www.example.org/test/res"))
               (lit "foo") (lit "bar") in
  parsed req (fun req =>
    bool_decide (HttpUrl.host (ParsedRequest.url req) = lit "www.example.org")).

Definition test_protocol : bool :=
  parsed (Request.with_param (Request.get (lit "http://www.example.org/")) (lit "foo") (lit "bar"))
    (fun req => negb (HttpUrl.https (ParsedRequest.url req)))
  && parsed (Request.with_param (Request.get (lit "https://www.example.org/"))
               (lit "foo") (lit "bar"))
       (fun req => HttpUrl.https (ParsedRequest.url req)).

(** The words of the tests that are not ASCII. *)
Definition owo : text := [0xF3; ch "w"; 0xF2].
Definition eyes : text := [0x1F440].

Definition test_with_param : bool :=
  let get := Request.get (lit "http://www.example.org") in
  parsed (Request.with_param get (lit "foo") (lit "bar")) (resource_is (lit "/?foo=bar"))
  && parsed (Request.with_param get owo (lit "what's this? " ++ eyes))
       (resource_is (lit "/?%C3%B3w%C3%B2=what%27s%20this%3F%20%F0%9F%91%80")).

Definition test_on_creation : bool :=
  parsed (Request.get (lit "http://www.example.org/?foo=bar#baz")) (resource_is (lit "/?foo=bar"))
  && parsed (Request.get (lit "http://www.example.org/?" ++ owo ++ lit "=what's this? " ++ eyes))
       (resource_is (lit "/?%C3%B3w%C3%B2=what%27s%20this?%20%F0%9F%91%80")).
End Parsing.

Definition proxy_is (s : string) (user password : option text) (server : string) (port : N)
    : bool :=
  match Proxy.new (lit s) with
  | Ok proxy =>
      bool_decide (Proxy.user proxy = user) && bool_decide (Proxy.password proxy = password)
      && bool_decide (Proxy.server proxy = lit server) && (Proxy.port proxy =? port)
  | _ => false
  end.

Definition parse_proxy : bool :=
  proxy_is "user:p@ssw0rd@localhost:9999" (Some (lit "user")) (Some (lit "p@ssw0rd"))
    "localhost" 9999.
Definition parse_regular_proxy_with_protocol : bool :=
  proxy_is "http://localhost:1080" None None "localhost" 1080.

(** The crate [urlencoding]: all but unreserved characters are escaped. *)
Definition percent_encode (s : text) : text :=
  utf8 s ≫= (fun b =>
    if ((48 <=? b) && (b <=? 57)) || ((65 <=? b) && (b <=? 90)) || ((97 <=? b) && (b <=? 122))
       || (b =? ch "-") || (b =? ch "_") || (b =? ch ".") || (b =? ch "~")
    then [b] else HttpUrl.escape_byte b).

#[local] Instance percent_externals : Externals := {|
  urlencoding_encode := percent_encode;
  punycode_encode := fun _ => None;
  base64_encode := fun b => b;
|}.

Definition encoding_build : Build := {|
  feature_urlencoding := true; feature_punycode := false; feature_proxy := false;
  feature_tls := false; feature_rustls := false; feature_manual_roots := false;
  feature_probe := false; overflow_checks := true |}.

Example unit_tests_pass :
  @test_headers canonical_order = true /\ @test_multiple_params default_build _ = true /\
  @test_domain default_build _ = true /\ @test_protocol default_build _ = true /\
  @test_with_param encoding_build _ = true /\ @test_on_creation encoding_build _ = true /\
  parse_proxy = true /\ parse_regular_proxy_with_protocol = true.
Proof. vm_compute. tauto. Qed.
End UnitTests.

(** * The tests *)

Module TestSuite.
Import Connection ConnectionFacts BodyFacts Navigation Network NavigationFacts Wire Servers Deadlines.
Import Echo.
Import Dribbling TestServer Documented Likeness PlainHttp.
#[local] Existing Instances canonical_order default_build plain_http_laws.
#[local] Instance no_variables : Environment := fun _ => None.

(** [url] of [setup.rs] is [here]. *)
Definition get_body (r : result Response.Response) : text :=
  match r with
  | Ok response => match Response.as_str response with Ok s => s | _ => [] end
  | _ => []
  end.
Definition get_status_code (r : result Response.Response) : Z :=
  match r with Ok response => Response.status_code response | _ => (-1)%Z end.

(** A request, and what is asserted of its result; a result that is no panic. *)
Record test : Type := mkTest {
  sent : Request.Request;
  expected : result Response.Response -> bool;
}.
Definition body_is (s : text) (r : result Response.Response) : bool :=
  bool_decide (get_body r = s).
Definition url_is (u : text) (r : result Response.Response) : bool :=
  match r with Ok response => bool_decide (Response.url response = u) | _ => false end.
Definition is_err (r : result Response.Response) : bool :=
  match r with Err _ => true | _ => false end.
Definition error_is (e : Error) (r : result Response.Response) : bool :=
  match r with Err e' => bool_decide (e = e') | _ => false end.
Definition no_crash (r : result Response.Response) : bool :=
  match r with Panic => false | _ => true end.

Definition at_ (make : text -> Request.Request) (path : string) : Request.Request :=
  make (here (lit path)).
Definition q (request : Request.Request) : Request.Request := Request.with_body request (lit "Q").

Definition status_line_203 : text := lit "HTTP/1.1 203 Non-Authoritative Information".

(** The tests of [main.rs] that neither need a feature nor a timeout that is reached,
    in its order: of headers and redirections, of methods, and of caps. *)
Definition page_tests : list test := [
  (* test_timeout_high_enough *)
  mkTest (Request.with_timeout (q (at_ Request.get "/slow_a")) 3) (body_is (lit "j: Q"));
  (* test_headers *)
  mkTest (Request.with_header (at_ Request.get "/header_pong") (lit "Ping") (lit "Qwerty"))
    (body_is (lit "Qwerty"));
  (* test_custom_method *)
  mkTest (q (at_ (Request.new (Method.Custom (lit "GET"))) "/a")) (body_is (lit "j: Q"));
  (* test_get *)
  mkTest (q (at_ Request.get "/a")) (body_is (lit "j: Q"));
  (* test_redirect_get *)
  mkTest (q (at_ Request.get "/redirect")) (body_is (lit "j: Q"));
  (* test_redirect_post *)
  mkTest (q (at_ Request.post "/redirect")) (body_is (lit "j: Q"));
  (* test_redirect_with_fragment *)
  mkTest (at_ Request.get "/redirect#foo") (url_is (here (lit "/a#foo")));
  (* test_redirect_with_overridden_fragment *)
  mkTest (at_ Request.get "/redirect-baz#foo") (url_is (here (lit "/a#baz")));
  (* test_infinite_redirect *)
  mkTest (at_ Request.get "/infiniteredirect") is_err;
  (* test_relative_redirect_get *)
  mkTest (q (at_ Request.get "/relativeredirect")) (body_is (lit "j: Q"))
].
Definition method_tests : list test := [
  (* test_head *)
  mkTest (at_ Request.head "/b") (fun r => (get_status_code r =? 418)%Z);
  (* test_post, test_put, test_delete, test_trace *)
  mkTest (Request.with_body (at_ Request.post "/c") (lit "E")) (body_is (lit "l: E"));
  mkTest (Request.with_body (at_ Request.put "/d") (lit "R")) (body_is (lit "m: R"));
  mkTest (at_ Request.delete "/e") (body_is (lit "n: "));
  mkTest (at_ Request.trace "/f") (body_is (lit "o: "));
  (* test_options, test_connect, test_patch *)
  mkTest (Request.with_body (at_ Request.options "/g") (lit "U")) (body_is (lit "p: U"));
  mkTest (Request.with_body (at_ Request.connect "/h") (lit "I")) (body_is (lit "q: I"));
  mkTest (Request.with_body (at_ Request.patch "/i") (lit "O")) (body_is (lit "r: O"))
].
Definition cap_tests : list test := [
  (* test_header_cap *)
  mkTest (Request.with_max_headers_size (at_ Request.get "/long_header") (Some 999))
    (error_is HeadersOverflow);
  mkTest (Request.with_max_headers_size (at_ Request.get "/long_header") (Some 1500)) is_ok;
  (* test_status_line_cap *)
  mkTest (Request.with_max_status_line_length (at_ Request.get "/long_status_line")
            (Some (len status_line_203 + 1))) (error_is StatusLineOverflow);
  mkTest (Request.with_max_status_line_length (at_ Request.get "/long_status_line")
            (Some (len status_line_203 + 2))) is_ok;
  (* test_massive_content_length *)
  mkTest (at_ Request.get "/massive_content_length") no_crash
].
Definition tests : list test := page_tests ++ method_tests ++ cap_tests.

Section Tests.
Context `{Externals} `{Runtime} {T : TinyHttp}.

(** A test passes on a network: if the request is not stopped by its timeout, it has a
    result that is the expected one. *)
Definition passes (fuel : nat) (inv : World -> Prop) (t : test) : Prop :=
  exists parsed, ParsedRequest.new (sent t) = Ok parsed /\
    forall w, answers_requests fuel respond (ParsedRequest.config parsed) inv -> inv w ->
      exists w', inv w' /\
        (in_time parsed w w' ->
         exists r, Client.send fuel (sent t) w = Some (r, w') /\ expected t r = true).

(** ** A test on the plain library *)

Definition plain_server (err : option io_error) : Handler := @respond (plain_http err).

(** The requests of a test, and what the server chooses to answer. *)
Definition stations (err : option io_error) (parsed : ParsedRequest.ParsedRequest)
    : list (Method.Method * HttpUrl.HttpUrl) :=
  let base := ParsedRequest.config parsed in
  trip (handler_web (plain_server err) base) base 3 (Request.method base) (ParsedRequest.url parsed).
Definition station (base : Request.Request) (m : Method.Method) (u : HttpUrl.HttpUrl) : Received :=
  as_received (request_at base m u).
Definition chosen_at (base : Request.Request) (m : Method.Method) (u : HttpUrl.HttpUrl) : Response :=
  chosen (station base m u) (Method.fmt m) (HttpUrl.path_and_query u).

(** Every library answers the request alike, but for the end of the connection. *)
Definition clear_b (base : Request.Request) (m : Method.Method) (u : HttpUrl.HttpUrl) : bool :=
  plainly_asks_b (station base m u) (Method.fmt m) (HttpUrl.path_and_query u)
  && ordinary (chosen_at base m u) && caps_clear base (chosen_at base m u).
Definition settled_b (base : Request.Request) (m : Method.Method) (u : HttpUrl.HttpUrl) : bool :=
  data_length (chosen_at base m u)
  <=? len (if bool_decide (Method.fmt m = lit "HEAD") then [] else data (chosen_at base m u)).

(** The test, computed on the specification. *)
Definition passes_b (err : option io_error) (t : test) : bool :=
  match ParsedRequest.new (sent t) with
  | Ok parsed =>
      let base := ParsedRequest.config parsed in
      is_ascii (HttpUrl.host (ParsedRequest.url parsed))
      && site_b (plain_server err) base (stations err parsed)
      && forallb (fun '(m, u) => clear_b base m u) (stations err parsed)
      && match Request.max_headers_size base with Some n => n <=? usize_MAX | None => true end
      && match navigated (handler_web (plain_server err) base) parsed with
         | Arrived r => expected t r
         | AtHttps => false
         end
  | _ => false
  end.
Definition settles_b (t : test) : bool :=
  match ParsedRequest.new (sent t) with
  | Ok parsed =>
      forallb (fun '(m, u) => settled_b (ParsedRequest.config parsed) m u) (stations None parsed)
  | _ => false
  end.

(** What is asserted of a result is of its status, URL and body. *)
Definition respects (t : test) : Prop :=
  forall r r', result_like r r' -> expected t r' = true -> expected t r = true.

(** ** From the plain library to others *)

Context `{!TinyHttpLaws T}.

Lemma alike_at err base m u :
  clear_b base m u = true ->
  settled_b base m u = true \/ reply_error (respond (station base m u)) = err ->
  alike base (respond (station base m u)) (plain_server err (station base m u)).
Proof.
  unfold clear_b. rewrite !andb_true_iff. intros [[Ha%plainly_asks_checked Ho] Hc] Herr.
  econstructor; [by apply respond_sends|by apply (respond_sends (T:=plain_http err))|done| | | |done|].
  - unfold chosen_at in *. intros ->. apply law_reason_203.
  - apply law_reason.
  - apply (law_reason (T:=plain_http err)).
  - destruct Herr as [Hs| ->]; [right; by apply N.leb_le|by left].
Qed.

Lemma ascii_wants parsed l :
  is_ascii (HttpUrl.host (ParsedRequest.url parsed)) = true ->
  (Request.method (ParsedRequest.config parsed), ParsedRequest.url parsed) ∈ l ->
  wants (in_list l) parsed.
Proof.
  intros Ha Hin host _. unfold ensure_ascii_host. rewrite Ha. intros [= <-].
  unfold with_host, in_list. by destruct (ParsedRequest.url parsed).
Qed.

Lemma passes_checked err fuel inv t :
  passes_b err t = true -> respects t ->
  (forall parsed m u, ParsedRequest.new (sent t) = Ok parsed -> (m, u) ∈ stations err parsed ->
     settled_b (ParsedRequest.config parsed) m u = true \/
     reply_error (respond (station (ParsedRequest.config parsed) m u)) = err) ->
  passes fuel inv t.
Proof.
  unfold passes_b, passes. destruct (ParsedRequest.new (sent t)) as [parsed|e|] eqn:Hnew; [|done..].
  rewrite !andb_true_iff. intros [[[[Ha Hsite%site_checked] Hclear] Hcaps] Hnav] Hresp Herr.
  exists parsed. split; [done|]. intros w Han Hinv.
  apply forallb_Forall in Hclear. rewrite Forall_forall in Hclear.
  destruct (client_like fuel inv (sent t) parsed w respond (plain_server err)
    (in_list (stations err parsed)) Hnew Hsite) as (nav & Hlike & Hc); [|done| |done| |].
  - intros m u Hin. apply alike_at; [exact (Hclear (m, u) Hin)|by apply Herr].
  - unfold caps_ok. destruct (Request.max_headers_size _); [by apply N.leb_le|done].
  - apply ascii_wants; [done|]. by left.
  - destruct (navigated _ parsed) as [r'|]; [|done]. destruct nav as [r|]; [|done].
    destruct Hc as (w' & Hi & Hs). exists w'. split; [done|]. intros Ht. exists r.
    split; [by apply Hs|by eapply Hresp].
Qed.
Lemma result_like_cases r r' :
  result_like r r' ->
  match r, r' with
  | Ok a, Ok b =>
      Response.status_code a = Response.status_code b /\ Response.url a = Response.url b /\
      Response.body a = Response.body b
  | Err e, Err e' => e = e'
  | Panic, Panic => True
  | _, _ => False
  end.
Proof. unfold result_like, essence. by destruct r, r'; intros [=]. Qed.

Lemma as_str_body a b : Response.body a = Response.body b -> Response.as_str a = Response.as_str b.
Proof. intros Hb. unfold Response.as_str. by rewrite Hb. Qed.

Lemma body_is_respects req s : respects (mkTest req (body_is s)).
Proof.
  intros r r' Hl%result_like_cases. cbn [expected]. unfold body_is, get_body.
  destruct r as [a| |], r' as [b| |]; try done. destruct Hl as (_ & _ & Hb). by rewrite (as_str_body a b).
Qed.
Lemma url_is_respects req u : respects (mkTest req (url_is u)).
Proof.
  intros r r' Hl%result_like_cases. cbn [expected]. unfold url_is.
  destruct r as [a| |], r' as [b| |]; try done. destruct Hl as (_ & Hu & _). by rewrite Hu.
Qed.
Lemma status_respects req n : respects (mkTest req (fun r => (get_status_code r =? n)%Z)).
Proof.
  intros r r' Hl%result_like_cases. cbn [expected]. unfold get_status_code.
  destruct r as [a| |], r' as [b| |]; try done. destruct Hl as (Hs & _). by rewrite Hs.
Qed.
Lemma kind_respects req (p : result Response.Response -> bool) :
  (forall a b, p (Ok a) = p (Ok b)) -> respects (mkTest req p).
Proof.
  intros Hp r r' Hl%result_like_cases. cbn [expected].
  destruct r as [a|e|], r' as [b|e'|]; try done; [by rewrite (Hp a b)|by subst].
Qed.

Ltac prove_respects :=
  lazymatch goal with
  | |- respects (mkTest _ (body_is _)) => apply body_is_respects
  | |- respects (mkTest _ (url_is _)) => apply url_is_respects
  | |- respects (mkTest _ (fun r => (get_status_code r =? _)%Z)) => apply status_respects
  | |- respects (mkTest _ _) => apply kind_respects; intros a b; reflexivity
  end.

Lemma tests_respect : Forall respects tests.
Proof.
  unfold tests, page_tests, method_tests, cap_tests. rewrite !Forall_app.
  split_and!; repeat (apply Forall_cons_2; [prove_respects|]); apply Forall_nil_2.
Qed.

(** All but the last test settle. *)
Definition settling_tests : list test :=
  page_tests ++ method_tests ++ take 4 cap_tests.
Definition massive_test : test := mkTest (at_ Request.get "/massive_content_length") no_crash.

Lemma settling_tests_pass :
  forallb (fun t => passes_b None t && settles_b t) settling_tests = true.
Proof. vm_compute. reflexivity. Qed.

Definition massive_url : HttpUrl.HttpUrl :=
  HttpUrl.mkHttpUrl false (lit "localhost") (Port.Explicit 35562) (lit "/massive_content_length") None.

Lemma massive_stations err parsed :
  ParsedRequest.new (sent massive_test) = Ok parsed ->
  stations err parsed = [(Method.Get, massive_url)].
Proof.
  assert (ParsedRequest.new (sent massive_test)
          = Ok (ParsedRequest.mkParsedRequest massive_url [] (sent massive_test))) as ->
    by (vm_compute; reflexivity).
  intros [= <-]. destruct err as [[k s]|]; vm_compute; reflexivity.
Qed.

Lemma massive_test_passes err : passes_b err massive_test = true.
Proof. destruct err as [[k s]|]; vm_compute; reflexivity. Qed.
Lemma settling_test_passes fuel inv t : t ∈ settling_tests -> passes fuel inv t.
Proof.
  intros Hin. pose proof settling_tests_pass as Hall. apply forallb_Forall in Hall.
  rewrite Forall_forall in Hall. specialize (Hall t Hin). cbv beta in Hall.
  apply andb_true_iff in Hall as [Hp Hs]. apply (passes_checked None); [done| |].
  - pose proof tests_respect as Hr. rewrite Forall_forall in Hr. apply Hr.
    unfold settling_tests in Hin. unfold tests. rewrite !elem_of_app in *.
    destruct Hin as [?|[?|Hin]]; [by left|by right; left|right; right].
    rewrite <- (take_drop 4 cap_tests). apply elem_of_app. by left.
  - intros parsed m u Hnew Hm. left. unfold settles_b in Hs. rewrite Hnew in Hs.
    apply forallb_Forall in Hs. rewrite Forall_forall in Hs. exact (Hs (m, u) Hm).
Qed.

(** C5. The tests of the repository pass, with every library that does what [tiny_http] is
    documented to do, and on every network: whatever headers the library adds, whatever
    the addresses of the network, its delays, and the pieces its answers come in, a
    network whose servers read requests by the line and header grammar and answer with
    the library as the test server does gives every test the result it asserts. *)
Theorem tests_pass fuel inv t : t ∈ tests -> passes fuel inv t.
Proof.
  assert (tests = settling_tests ++ [massive_test]) as -> by done.
  intros [Hin|Hin%list_elem_of_singleton]%elem_of_app; [by apply settling_test_passes|subst t].
  set (base := match ParsedRequest.new (sent massive_test) with
               | Ok parsed => ParsedRequest.config parsed | _ => sent massive_test end).
  apply (passes_checked (reply_error (respond (station base Method.Get massive_url)))).
  - apply massive_test_passes.
  - apply kind_respects. intros a b. reflexivity.
  - intros parsed m u Hnew Hin. right. unfold base. rewrite Hnew.
    rewrite massive_stations in Hin by done. apply list_elem_of_singleton in Hin. by simplify_eq.
Qed.

(** The two tests of a timeout that is reached: servers that take more than a second
    give them no response. *)
Definition test_timeout_too_low : Request.Request :=
  Request.with_timeout (q (at_ Request.get "/slow_a")) 1.
Definition tcp_connect_timeout : Request.Request :=
  Request.with_timeout (Request.new Method.Get (lit "http://127.0.0.1:32162")) 1.
Definition slow_tests : list Request.Request := [test_timeout_too_low; tcp_connect_timeout].

Lemma slow_tests_fail fuel d req w r w' :
  req ∈ slow_tests -> slow_servers d -> from_secs 1 < d ->
  Client.send fuel req w <> Some (Ok r, w').
Proof.
  intros Hreq Hslow Hd.
  assert (exists parsed, ParsedRequest.new req = Ok parsed /\ effective_timeout parsed = Some 1)
    as (parsed & Hnew & Ht).
  { repeat (apply elem_of_cons in Hreq as [->|Hreq]; [eexists; split; reflexivity|]).
    by apply not_elem_of_nil in Hreq. }
  by eapply slow_send.
Qed.
End Tests.

(** The requests that a test makes. *)
Definition requests_of `{Externals} (t : test) : list Received :=
  match ParsedRequest.new (sent t) with
  | Ok parsed =>
      (fun '(m, u) => station (ParsedRequest.config parsed) m u) <$> stations None parsed
  | _ => []
  end.

(** ** JSON *)

(** [url("/echo")] with a body of JSON. *)
Definition json_request (b : bytes) : Request.Request :=
  Request.with_body (Request.with_header (at_ Request.post "/echo") (lit "Content-Type")
    (lit "application/json; charset=UTF-8")) b.
Definition json_parsed (b : bytes) : ParsedRequest.ParsedRequest :=
  ParsedRequest.mkParsedRequest
    (HttpUrl.mkHttpUrl false (lit "localhost") (Port.Explicit 35562) (lit "/echo") None) []
    (json_request b).

(** The header of a server that echoes JSON, before its length. *)
Definition text_plain : list (text * text) :=
  [(lit "Content-Type", lit "text/plain; charset=UTF-8")].

Section Json.
Context `{Externals} `{Runtime} {T : TinyHttp} `{!TinyHttpLaws T}.
Context {Value : Type} `{EqDecision Value} (from_str : text -> outcome text Value)
  (to_string : Value -> outcome text text).

Definition quoted (s : text) : text := [0x22] ++ s ++ [0x22].
Definition JSON_SRC : text :=
  lit "{" ++ [LF] ++ lit "        " ++ quoted (lit "str") ++ lit ": " ++ quoted (lit "Json test")
  ++ lit "," ++ [LF] ++ lit "        " ++ quoted (lit "num") ++ lit ": 42" ++ [LF] ++ lit "    }".

(** [Result::unwrap] *)
Definition unwrap {E A} (r : outcome E A) : result A :=
  match r with Ok a => Ok a | _ => Panic end.

Definition test_json_using_serde : result test :=
  original_json ← unwrap (from_str JSON_SRC);
  request ← unwrap (Request.with_json to_string (at_ Request.post "/echo") original_json);
  Ok (mkTest request (fun r =>
    match unwrap (response ← r; Response.json from_str response) with
    | Ok actual_json => bool_decide (actual_json = original_json)
    | _ => false
    end)).

Lemma json_request_new b : ParsedRequest.new (json_request b) = Ok (json_parsed b).
Proof.
  unfold ParsedRequest.new.
  change (HttpUrl.parse (Request.url (json_request b)) None)
    with (HttpUrl.parse (here (lit "/echo")) None).
  assert (HttpUrl.parse (here (lit "/echo")) None = Ok (ParsedRequest.url (json_parsed b))) as ->
    by (vm_compute; reflexivity).
  reflexivity.
Qed.

Lemma json_sent_headers b :
  sent_headers (json_parsed b)
  = [(lit "Host", lit "localhost:35562"); (lit "Content-Length", dec (len b));
     (lit "Content-Type", lit "application/json; charset=UTF-8")].
Proof. vm_compute. reflexivity. Qed.

Lemma json_sendable b : len b <= usize_MAX -> sendable (json_parsed b).
Proof.
  intros Hb. split.
  - change (request_text (json_parsed b)) with (lit "POST /echo HTTP/1.1"). by_compute.
  - change (request_text (json_parsed b)) with (lit "POST /echo HTTP/1.1"). by_compute.
  - change (request_text (json_parsed b)) with (lit "POST /echo HTTP/1.1"). by_compute.
  - rewrite json_sent_headers. apply Forall_cons. split.
    { apply (Forall_inv (l:=[])), MetadataFacts.headers_ok. vm_compute. reflexivity. }
    apply Forall_cons. split; [apply length_header_wf|].
    apply MetadataFacts.headers_ok. vm_compute. reflexivity.
  - rewrite json_sent_headers.
    pose proof (length_header_size (len b)) as Hl. unfold usize_MAX in *.
    change [(lit "Host", lit "localhost:35562"); (lit "Content-Length", dec (len b));
            (lit "Content-Type", lit "application/json; charset=UTF-8")]
      with ([(lit "Host", lit "localhost:35562")] ++ [(lit "Content-Length", dec (len b))]
            ++ [(lit "Content-Type", lit "application/json; charset=UTF-8")]).
    rewrite !headers_size_app.
    change (MetadataFacts.headers_size [(lit "Host", lit "localhost:35562")]) with 23.
    change (MetadataFacts.headers_size
      [(lit "Content-Type", lit "application/json; charset=UTF-8")]) with 47. lia.
Qed.

Lemma json_echoable b : len b <= usize_MAX -> echoable text_plain (json_parsed b).
Proof.
  intros Hb. split; [reflexivity|reflexivity|done|by apply json_sendable| |done].
  split_and!; [by_compute|exact I..].
Qed.

Lemma text_plain_harmless : harmless text_plain.
Proof. split; [apply MetadataFacts.headers_ok; vm_compute; reflexivity|by_compute]. Qed.

(** The request is of the ordinary form. *)
Lemma json_asks b : plainly_asks (as_received (json_parsed b)) (lit "POST") (lit "/echo").
Proof.
  assert (forall k, make_ascii_lowercase (lit "Host") <> k ->
            make_ascii_lowercase (lit "Content-Length") <> k ->
            make_ascii_lowercase (lit "Content-Type") <> k ->
            fields (as_received (json_parsed b)) !! k = None) as Hno.
  { intros k H1 H2 H3. cbn [fields as_received]. rewrite json_sent_headers.
    unfold MetadataFacts.insert_headers. cbn [foldl fst snd].
    by rewrite !lookup_insert_ne, lookup_empty by done. }
  split; [reflexivity|by split|split; by_compute| |by apply Hno|by apply Hno|right].
  - cbn [written as_received]. rewrite json_sent_headers. cbn [forallb].
    unfold plain_header at 2. cbn [fst snd]. rewrite dec_ascii, trim_dec, (bool_decide_eq_true_2 _ eq_refl).
    vm_compute. reflexivity.
  - cbn [fields as_received content]. rewrite json_sent_headers.
    unfold MetadataFacts.insert_headers. cbn [foldl fst snd].
    rewrite lookup_insert_ne by done. apply lookup_insert_eq.
Qed.

(** At [/echo] the test server sends the text it has read. *)
Lemma json_alike s :
  is_text s -> len (utf8 s) < 32768 ->
  alike (json_request (utf8 s)) (respond (as_received (json_parsed (utf8 s))))
    (echo_with text_plain (as_received (json_parsed (utf8 s)))).
Proof.
  intros Hs Hlen. set (request := as_received (json_parsed (utf8 s))).
  assert (chosen request (lit "POST") (lit "/echo") = FromString 200 s) as Hc.
  { unfold chosen. change (content request) with (utf8 s). rewrite from_utf8_utf8 by done.
    unfold choose. change (url_without_fragment (lit "/echo")) with (lit "/echo").
    repeat match goal with
    | |- context [bool_decide (lit ?a = lit ?b)] =>
        let v := eval vm_compute in (bool_decide (lit a = lit b)) in
        change (bool_decide (lit a = lit b)) with v
    end. reflexivity. }
  assert (ordinary (FromString 200 s) = true) as Ho.
  { unfold ordinary. cbn [status given]. rewrite (bool_decide_eq_true_2 _ Hs).
    by rewrite (proj2 (N.ltb_lt _ _) Hlen). }
  pose proof (respond_sends request _ _ (json_asks _)) as Hr. rewrite Hc in Hr.
  apply (alike_intro _ _ _ (reason_phrase 200) (lit "OK") false (FromString 200 s));
    [by apply Hr| |done|done|apply law_reason|split_and!; by_compute|done|right].
  - split; [done..| |done|done]. exists text_plain. split; [reflexivity|].
    split; [apply MetadataFacts.headers_ok; vm_compute; reflexivity|by_compute..].
  - unfold no_more. cbn [data_length data]. lia.
Qed.

(** The JSON test passes, with every library and on every network as above, when
    [serde_json] parses its text, and the text that it prints of the value, of less than
    32 KiB, back to the value. *)
Lemma json_test_passes fuel inv v s :
  from_str JSON_SRC = Ok v -> to_string v = Ok s -> from_str s = Ok v -> is_text s ->
  len (utf8 s) < 32768 ->
  exists t, test_json_using_serde = Ok t /\ passes fuel inv t.
Proof.
  intros Hsrc Hto Hfrom Htext Hlen.
  assert (Request.with_json to_string (at_ Request.post "/echo") v = Ok (json_request (utf8 s)))
    as Hwith by by unfold Request.with_json; rewrite Hto.
  unfold test_json_using_serde. rewrite Hsrc. cbn [unwrap mbind outcome_bind]. rewrite Hwith.
  eexists. split; [done|]. exists (json_parsed (utf8 s)). split; [apply json_request_new|].
  intros w Han Hinv. assert (len (utf8 s) <= usize_MAX) as Hmax by (unfold usize_MAX; lia).
  pose proof (json_request_new (utf8 s)) as Hnew. set (handler := echo_with text_plain).
  destruct (client_like fuel inv (json_request (utf8 s)) (json_parsed (utf8 s)) w respond handler
    (only (json_parsed (utf8 s))) Hnew) as (nav & Hlike & Hc); [| |done|done|done| |].
  - exact (echo_site _ _ handler text_plain Hnew (json_echoable _ Hmax) text_plain_harmless eq_refl).
  - intros m u [-> ->].
    pose proof (request_at_parsed _ _ handler text_plain Hnew (json_echoable _ Hmax) eq_refl) as Hat.
    unfold base in Hat |- *. rewrite Hat. by apply json_alike.
  - intros host _ Hh. injection Hh as <-. by split.
  - rewrite (echo_navigated _ _ handler text_plain Hnew (json_echoable _ Hmax) eq_refl) in Hlike.
    destruct nav as [r|]; [|done]. destruct Hc as (w' & Hi & Hs). exists w'. split; [done|].
    intros Ht. exists r. split; [by apply Hs|]. apply result_like_cases in Hlike.
    destruct r as [response| |]; [|done..]. destruct Hlike as (_ & _ & Hb).
    destruct (echoed_json to_string from_str (at_ Request.post "/echo") v s
      (json_request (utf8 s)) (json_parsed (utf8 s)) text_plain) as [_ Hj]; [done..|].
    cbn [expected mbind outcome_bind]. unfold Response.json in *. rewrite (as_str_body _ _ Hb), Hj.
    cbn [unwrap]. by apply bool_decide_eq_true_2.
Qed.
End Json.
(** ** HTTPS *)

Definition test_https : test :=
  mkTest (Request.get (lit "https://example.com")) (fun r => (get_status_code r =? 200)%Z).

(** The test of HTTPS fails in every build and on every network: no response is ever read
    from a TLS session. *)
Lemma test_https_fails `{B : Build} `{Externals} `{O : HashOrder} `{Runtime} fuel w r w' :
  Client.send fuel (sent test_https) w = Some (r, w') -> expected test_https r = false.
Proof.
  destruct r as [response|e|]; [|done..]. intros Hs.
  by apply (ClientFacts.send_Ok_http fuel _
    (HttpUrl.mkHttpUrl true (lit "example.com") Port.ImplicitHttps (lit "/") None)) in Hs.
Qed.

(** On a network that sends its answers one byte at a time. *)
Definition no_externals : Externals := {|
  urlencoding_encode := fun s => s;
  punycode_encode := fun _ => None;
  base64_encode := fun b => b;
|}.

(** All of them leave threads to the server: only one request ends one. *)
Example tests_leave_threads :
  @serve_all (plain_http None) setup (tests ≫= @requests_of no_externals) = 3%nat.
Proof. vm_compute. reflexivity. Qed.

(** A network of the plain library. *)
Definition plain_network : Runtime :=
  dribbling_network (plain_server None).

Lemma tests_pass_witness :
  Forall (@passes no_externals plain_network (plain_http None) 1 (fun _ => True)) tests /\
  forall base, @answers_requests _ no_externals _ plain_network 1 (plain_server None) base
                 (fun _ => True).
Proof.
  split.
  - apply Forall_forall. intros t Ht.
    apply (@tests_pass no_externals plain_network (plain_http None) (plain_http_laws None) 1
             (fun _ => True) t Ht).
  - intros base. apply dribbling_network_answers. by right.
Defined.

(** One of them, run. *)
Definition run (request : Request.Request) : option text :=
  r ← @Client.send _ no_externals _ _ plain_network 1 request []; Some (get_body r.1).

Example test_redirect_post_runs : run (q (at_ Request.post "/redirect")) = Some (lit "j: Q").
Proof. vm_compute. reflexivity. Qed.

(** And the one of JSON, for a [serde_json] whose values are texts. *)
Example test_json_runs :
  exists t r w,
    test_json_using_serde (fun s => Ok s) (fun s => Ok s) = Ok t /\
    @Client.send _ no_externals _ _ plain_network 1 (sent t) [] = Some (r, w) /\
    expected t r = true.
Proof. eexists _, _, _. split_and!; [reflexivity|vm_compute; reflexivity|reflexivity]. Qed.
End TestSuite.
