(* ===== verification/Polling.v ===== *)
(** The lazy response as a state machine: what every sequence of polls keeps, made by
    whatever code holds the response, before and after its end. *)

From S2P Require Import Prelude.
From S2P Require Import Errors.
From S2P Require Import Lines.
From S2P Require Import Metadata.
From S2P Require Import Bodies.
From S2P Require Import Loading.

Module Polling.
Import ResponseLazy BodyFacts.

Section Polling.
Context `{Build} `{HashOrder}.

(** The bytes an answer hands out. *)
Definition delivered (r : poll (option (result (bytes * N)))) : bytes :=
  match r with Ready (Some (Ok (chunk, _))) => chunk | _ => [] end.

(** A sequence of polls, and all they hand out. *)
Inductive polls : ResponseLazy -> bytes -> ResponseLazy -> Prop :=
| polls_none p : polls p [] p
| polls_one p r p1 ds p2 :
    poll_next p = Some (r, p1) -> polls p1 ds p2 -> polls p (delivered r ++ ds) p2.

(** All bytes a stream will ever give, those behind an error included. *)
Definition all_bytes (s : HttpStreamBytes) : bytes :=
  s ≫= fun ev => match ev with EvChunk chunk => chunk | _ => [] end.

(** The bytes a response still has: those read ahead, and those of its stream. *)
Definition available (p : ResponseLazy) : bytes :=
  default [] (trailing_content p) ++ all_bytes (stream p).

(** A body that is not chunked, and whose length, if it has one, the server keeps to. *)
Definition plain_body (p : ResponseLazy) : Prop :=
  match state p with
  | EndOnClose => True
  | ContentLength n => len (available p) <= n <= usize_MAX
  | Chunked _ _ _ => False
  end.

(** The state once [k] more bytes have been handed out. *)
Definition state_after (st : HttpStreamState) (k : N) : HttpStreamState :=
  match st with ContentLength n => ContentLength (n - k) | st => st end.

(** The part of a response that polls leave alone. *)
Definition same_head (p p' : ResponseLazy) : Prop :=
  status_code p' = status_code p /\ reason_phrase p' = reason_phrase p /\
  headers p' = headers p /\ url p' = url p.

(** One poll hands out the next bytes, and counts them. *)
Record poll_keeps (p : ResponseLazy) (ds : bytes) (p' : ResponseLazy) : Prop := {
  pk_head : same_head p p';
  pk_bytes : available p = ds ++ available p';
  pk_state : state p' = state_after (state p) (len ds);
}.

Lemma all_bytes_chunk chunk s : all_bytes (EvChunk chunk :: s) = chunk ++ all_bytes s.
Proof. done. Qed.

Lemma keeps_update p s ds st :
  available p = ds ++ all_bytes s -> st = state_after (state p) (len ds) ->
  poll_keeps p ds (update p s (headers p) st).
Proof. intros Ha ->. by split. Qed.

Lemma state_after_0 st : state_after st 0 = st.
Proof. destruct st; [done| |done]. simpl. by rewrite N.sub_0_r. Qed.

Lemma poll_stream_keeps p s r :
  trailing_content p = None \/ trailing_content p = Some [] ->
  poll_stream (stream p) = (r, s) -> available p = delivered (raw_chunk r) ++ all_bytes s.
Proof.
  intros Ht. assert (available p = all_bytes (stream p)) as ->.
  { unfold available. by destruct Ht as [-> | ->]. }
  by destruct (stream p) as [|[|chunk|err] s']; intros [= <- <-].
Qed.

Lemma poll_next_keeps p r p' :
  plain_body p -> poll_next p = Some (r, p') -> poll_keeps p (delivered r) p'.
Proof.
  unfold plain_body, poll_next. intros Hp.
  destruct (default [] (trailing_content p)) as [|b prefix] eqn:Et.
  - assert (trailing_content p = None \/ trailing_content p = Some []) as Ht.
    { destruct (trailing_content p); [right; simpl in Et; by subst|by left]. }
    destruct (state p) as [|n|] eqn:Est; [| |done].
    + unfold read_until_closed. change (0 <? len []) with false.
      destruct (poll_stream (stream p)) as [x s] eqn:E. intros [= <- <-].
      apply keeps_update; [by apply poll_stream_keeps|by rewrite Est].
    + unfold read_with_content_length. change (0 <? len []) with false.
      destruct (0 <? n) eqn:En.
      * destruct (poll_stream (stream p)) as [x s] eqn:E.
        pose proof (poll_stream_keeps p s x Ht E) as Ha.
        destruct x as [[[chunk|err|]|]|]; cycle 1; [intros [= <- <-]; apply keeps_update;
          [exact Ha|by rewrite Est, state_after_0]..|].
        simpl in Ha. rewrite Ha, len_app in Hp. rewrite usize_sub_fits by lia.
        unfold MAX_CONTENT_LENGTH. rewrite usize_add_fits by lia. intros [= <- <-].
        apply keeps_update; [exact Ha|by rewrite Est].
      * intros [= <- <-]. btest. apply keeps_update; [|by rewrite Est, state_after_0].
        unfold available. by rewrite Et.
  - destruct (state p) as [|n|] eqn:Est; [| |done].
    + unfold read_until_closed. change (0 <? len (b :: prefix)) with true. intros [= <- <-].
      apply keeps_update; [unfold available; by rewrite Et|by rewrite Est].
    + unfold read_with_content_length. change (0 <? len (b :: prefix)) with true.
      unfold available in Hp. rewrite Et, len_app in Hp. rewrite usize_sub_fits by lia.
      intros [= <- <-]. apply keeps_update; [unfold available; by rewrite Et|by rewrite Est].
Qed.

Lemma poll_keeps_plain p ds p' : plain_body p -> poll_keeps p ds p' -> plain_body p'.
Proof.
  unfold plain_body. intros Hp [_ Ha ->]. destruct (state p) as [|n|]; [done| |done]. simpl.
  rewrite Ha, len_app in Hp. lia.
Qed.

Lemma poll_keeps_trans p ds p1 ds' p2 :
  poll_keeps p ds p1 -> poll_keeps p1 ds' p2 -> poll_keeps p (ds ++ ds') p2.
Proof.
  intros [(H1 & H2 & H3 & H4) Ha Hs] [(H5 & H6 & H7 & H8) Ha' Hs']. split.
  - split_and!; congruence.
  - by rewrite Ha, Ha', app_assoc.
  - rewrite Hs', Hs, len_app. destruct (state p); [done| |done]. simpl. f_equal. lia.
Qed.

(** The end: nothing is left, and it stays the end. *)
Lemma poll_next_end p p' :
  plain_body p -> poll_next p = Some (Ready None, p') ->
  available p' = [] /\ poll_next p' = Some (Ready None, p').
Proof.
  intros Hp He. pose proof (poll_next_keeps p _ p' Hp He) as [_ Ha _]. simpl in Ha.
  unfold plain_body, poll_next in *.
  destruct (state p) as [|n|] eqn:Est; [| |done].
  - unfold read_until_closed in He. destruct (0 <? len _); [done|].
    destruct (stream p) as [|[|chunk|err] s] eqn:Es; try done. by injection He as <-.
  - unfold read_with_content_length in He. destruct (0 <? len _) eqn:Epre.
    { destruct (usize_sub n _); [done|by destruct e|done]. }
    destruct (0 <? n) eqn:En.
    + destruct (stream p) as [|[|chunk|err] s] eqn:Es; try done.
      * injection He as <-. split; [done|]. cbn [state update default trailing_content stream].
        unfold read_with_content_length. change (0 <? len []) with false. by rewrite En.
      * cbn in He. by destruct (usize_sub n (len chunk)) as [|e|]; [|destruct e|].
    + injection He as <-. btest. assert (n = 0) as -> by lia.
      split; [|done]. rewrite <- Ha. by apply len_0_inv; lia.
Qed.

(** C19. However a response is polled, whatever the pieces and waits, no byte of a body
    that is not chunked is lost, repeated or changed: what the polls have handed out,
    followed by what is still available, is what was available at first; the length
    that is left counts it exactly; the head does not change. When the stream says
    that it has ended nothing is left, and every later poll says the same. *)
Theorem polls_conserve p ds p' :
  plain_body p -> polls p ds p' ->
  available p = ds ++ available p' /\ state p' = state_after (state p) (len ds) /\
  same_head p p' /\
  (forall p'', poll_next p' = Some (Ready None, p'') ->
     available p'' = [] /\ poll_next p'' = Some (Ready None, p'')).
Proof.
  intros Hp Hs. assert (poll_keeps p ds p' /\ plain_body p') as [[Hh Ha Hst] Hp'].
  { induction Hs as [p|p r p1 ds p2 Hr _ IH].
    - split; [|done]. split; [by split_and!|done|by rewrite state_after_0].
    - pose proof (poll_next_keeps p r p1 Hp Hr) as Hk.
      destruct (IH (poll_keeps_plain _ _ _ Hp Hk)) as [Hk' ?].
      split; [by eapply poll_keeps_trans|done]. }
  split_and!; [done..|]. intros p''. by apply poll_next_end.
Qed.
End Polling.
End Polling.

Module PollingExamples.
Import ResponseLazy BodyFacts BodyExamples Polling.
#[local] Existing Instances canonical_order default_build.

(** A body of five bytes, two of them read ahead. *)
Definition five : ResponseLazy :=
  lazy (ContentLength 5) (Some (lit "he")) [EvPending; EvChunk (lit "ll"); EvChunk (lit "o")].
Definition one_left : ResponseLazy := lazy (ContentLength 1) None [EvChunk (lit "o")].

Lemma polls_conserve_witness :
  available five = lit "hell" ++ available one_left /\
  state one_left = state_after (state five) (len (lit "hell")) /\
  same_head five one_left /\
  (forall p'', poll_next one_left = Some (Ready None, p'') ->
     available p'' = [] /\ poll_next p'' = Some (Ready None, p'')).
Proof.
  apply (polls_conserve five (lit "hell") one_left); [split; by_compute|].
  change (lit "hell") with (lit "he" ++ [] ++ lit "ll" ++ []).
  apply (polls_one _ (Ready (Some (Ok (lit "he", 2))))
           (lazy (ContentLength 3) None [EvPending; EvChunk (lit "ll"); EvChunk (lit "o")]));
    [reflexivity|].
  apply (polls_one _ Pending (lazy (ContentLength 3) None [EvChunk (lit "ll"); EvChunk (lit "o")]));
    [reflexivity|].
  apply (polls_one _ (Ready (Some (Ok (lit "ll", 3)))) one_left); [reflexivity|]. apply polls_none.
Defined.
End PollingExamples.
