(* ===== verification/Programs.v ===== *)
(** [src/examples]: the programs [hello] and [iterator], which print a page, and [json],
    which prints what a server received. *)

From S2P Require Import Prelude.
From S2P Require Import Text.
From S2P Require Import Errors.
From S2P Require Import Url.
From S2P Require Import Requests.
From S2P Require Import Proxies.
From S2P Require Import Lines.
From S2P Require Import Metadata.
From S2P Require Import Bodies.
From S2P Require Import Loading.
From S2P Require Import Polling.
From S2P Require Import Roots.
From S2P Require Import Runtime.
From S2P Require Import Connections.
From S2P Require Import Chains.
From S2P Require Import Deadlines.
From S2P Require Import Navigation.
From S2P Require Import Journeys.
From S2P Require Import Wire.
From S2P Require Import Servers.

Module Programs.
Section Programs.
Context `{Build} `{Externals} `{Environment} `{HashOrder} `{Runtime}.

Definition example_request : Request.Request := Request.get (lit "http://example.com").

(** [main] of [hello.rs]; its value is what it prints. *)
Definition hello_main (fuel : nat) : M text :=
  response ← Client.send fuel example_request;
  html ← known (Response.as_str response);
  mret (html ++ [LF]).

(** The loop of [iterator.rs]: what it has printed at its end, and how it ends; a
    chunk that is not UTF-8 makes the [unwrap] panic. *)
Fixpoint print_chunks (fuel : nat) (response_lazy : ResponseLazy.ResponseLazy) (printed : text)
    : option (text * result unit) :=
  match fuel with
  | O => None
  | S fuel =>
      '(r, response_lazy) ← ResponseLazy.poll_next response_lazy;
      match r with
      | Pending => print_chunks fuel response_lazy printed
      | Ready None => Some (printed, Ok tt)
      | Ready (Some (Ok (bytes, _))) =>
          match from_utf8 bytes with
          | Ok s => print_chunks fuel response_lazy (printed ++ s)
          | _ => Some (printed, Panic)
          end
      | Ready (Some (Err e)) => Some (printed, Err e)
      | Ready (Some Panic) => Some (printed, Panic)
      end
  end.

(** [main] of [iterator.rs]: what it prints, how it ends, and the world it leaves. *)
Definition iterator_main (fuel : nat) (w : World) : option (text * result unit * World) :=
  '(r, w) ← Client.send_lazy fuel example_request w;
  match r with
  | Ok response_lazy =>
      '(printed, r) ← print_chunks (Response.load_fuel response_lazy) response_lazy [];
      Some (printed, r, w)
  | Err e => Some ([], Err e, w)
  | Panic => Some ([], Panic, w)
  end.

(** [serde_json]: the values, their parser, [v["data"]], and how they are printed. *)
Context {Value : Type} (from_str : text -> outcome text Value) (index : Value -> text -> Value)
  (to_text : Value -> text).

Definition json_request : Request.Request :=
  Request.with_body (Request.get (lit "http://httpbin.org/anything")) (lit "Hello, world!").

Definition quoted (s : text) : text := [0x22] ++ s ++ [0x22].

(** The line that is printed for a value. *)
Definition json_line (json : Value) : text :=
  quoted (lit "Hello, world!") ++ lit " == " ++ to_text (index json (lit "data")) ++ [LF].

(** [main] of [json.rs]. *)
Definition json_main (fuel : nat) : M text :=
  response ← Client.send fuel json_request;
  json ← known (Response.json from_str response);
  mret (json_line json).
End Programs.
End Programs.

Module ProgramFacts.
Import Connection Programs Polling.

Section Facts.
Context `{Build} `{Externals} `{Environment} `{HashOrder} `{Runtime}.

(** Some chunk of a response is not UTF-8 by itself. *)
Definition splits (p : ResponseLazy.ResponseLazy) : Prop :=
  exists ds p1 chunk n p2, polls p ds p1 /\
    ResponseLazy.poll_next p1 = Some (Ready (Some (Ok (chunk, n))), p2) /\
    forall s, from_utf8 chunk <> Ok s.

Lemma splits_next p r p1 :
  ResponseLazy.poll_next p = Some (r, p1) -> splits p1 -> splits p.
Proof.
  intros Hr (ds & p2 & chunk & n & p3 & Hs & Hp & Hu). exists (delivered r ++ ds), p2, chunk, n, p3.
  split; [|done]. by eapply polls_one.
Qed.

(** What the loop prints is what loading the body gives. *)
Lemma print_chunks_loads fuel p out :
  is_text out ->
  match print_chunks fuel p out with
  | Some (out', Ok _) =>
      is_text out' /\ exists p', Response.load fuel p (utf8 out) = Some (Ok (utf8 out', p'))
  | Some (_, Err e) => Response.load fuel p (utf8 out) = Some (Err e)
  | Some (_, Panic) => Response.load fuel p (utf8 out) = Some Panic \/ splits p
  | None => Response.load fuel p (utf8 out) = None
  end.
Proof.
  revert p out. induction fuel as [|fuel IH]; intros p out Ht; [done|].
  cbn [print_chunks]. rewrite BodyFacts.load_S.
  destruct (ResponseLazy.poll_next p) as [[r p1]|] eqn:Er; [|done]. cbn [mbind option_bind].
  assert (forall x : option (text * result unit),
    match x with Some (_, Panic) => splits p1 | _ => True end ->
    match x with Some (_, Panic) => splits p | _ => True end) as Hsp.
  { intros [[t []]|]; [done|done| |done]. by apply splits_next with r. }
  destruct r as [[[[chunk n]|e|]|]|]; [|done|by left|by split; [|eexists]|].
  - destruct (from_utf8 chunk) as [s|e|] eqn:Eu.
    + apply from_utf8_ok in Eu as [-> Hs]. specialize (IH p1 (out ++ s)).
      rewrite utf8_app in IH. assert (is_text (out ++ s)) as Hos by by apply is_text_app.
      specialize (IH Hos). destruct (print_chunks fuel p1 (out ++ s)) as [[t []]|]; [done|done| |done].
      destruct IH as [|Hsplit]; [by left|right]. by eapply splits_next.
    + right. exists [], p, chunk, n, p1. split; [constructor|]. split; [done|]. by rewrite Eu.
    + right. exists [], p, chunk, n, p1. split; [constructor|]. split; [done|]. by rewrite Eu.
  - specialize (IH p1 out Ht). destruct (print_chunks fuel p1 out) as [[t []]|]; [done|done| |done].
    destruct IH as [|Hsplit]; [by left|right]. by eapply splits_next.
Qed.

(** Enough fuel for the loading is enough for the loop. *)
Lemma print_chunks_total fuel p out :
  (BodyFacts.measure p < fuel)%nat -> is_Some (print_chunks fuel p out).
Proof.
  revert p out. induction fuel as [|fuel IH]; intros p out Hf; [lia|]. cbn [print_chunks].
  destruct (BodyFacts.poll_next_progress p) as (r & p1 & -> & _ & Hp). cbn [mbind option_bind].
  destruct r as [[[[chunk n]|e|]|]|]; [|by eexists..|].
  - destruct (from_utf8 chunk); [|by eexists..]. apply IH. specialize (Hp eq_refl). lia.
  - apply IH. specialize (Hp eq_refl). lia.
Qed.

Lemma new_method req parsed :
  ParsedRequest.new req = Ok parsed ->
  Request.method (ParsedRequest.config parsed) = Request.method req.
Proof.
  unfold ParsedRequest.new. destruct (HttpUrl.parse _ _) as [u|e|]; [|done..].
  intros [= <-]. cbn [ParsedRequest.config].
  unfold ParsedRequest.default_proxy, ParsedRequest.set_proxy_from.
  by repeat case_match.
Qed.

(** [send] loads the body of what [send_lazy] gives. *)
Lemma send_of_send_lazy fuel req w p w' :
  Client.send_lazy fuel req w = Some (Ok p, w') -> Request.method req <> Method.Head ->
  Client.send fuel req w = computed (Response.create p false) w'.
Proof.
  unfold Client.send_lazy, Client.send. intros Hs Hm.
  apply M_bind_Some in Hs as (parsed & w1 & Hn & Hs). rewrite (M_bind_ok _ _ _ _ _ Hn).
  injection Hn as Hn _. rewrite (new_method _ _ Hn), bool_decide_eq_false_2 by done.
  by rewrite (M_bind_ok _ _ _ _ _ Hs).
Qed.

(** [hello] loads what [iterator] polls. *)
Lemma hello_main_lazy fuel w p w' :
  Client.send_lazy fuel example_request w = Some (Ok p, w') -> Response.no_body p false = false ->
  hello_main fuel w =
    match Response.load (Response.load_fuel p) p [] with
    | Some (Ok (body, _)) =>
        Some (html ← map_err InvalidUtf8InBody (from_utf8 body); Ok (html ++ [LF]), w')
    | Some (Err e) => Some (Err e, w')
    | Some Panic => Some (Panic, w')
    | None => None
    end.
Proof.
  intros Hs Hb. unfold hello_main, mbind at 1, M_bind at 1.
  rewrite (send_of_send_lazy _ _ _ _ _ Hs) by done. unfold computed, Response.create. rewrite Hb.
  destruct (Response.load _ p []) as [[[body p']|e|]|]; [|done..].
  cbn [mbind option_bind outcome_bind].
  unfold known, Response.as_str, mbind, M_bind, mret, M_ret. simpl. by destruct (from_utf8 body).
Qed.

(** C40. The two example programs print the same page. For every server, when the head
    of a response that has a body is read, the loop of [iterator] comes to an end; when
    it ends without a panic [hello] ends in the same way, and has printed the same text
    and a line end. But [iterator] panics where [hello] does not when a character of
    the page is split between two chunks. *)
Theorem iterator_prints fuel w p w' :
  Client.send_lazy fuel example_request w = Some (Ok p, w') -> Response.no_body p false = false ->
  exists out r, iterator_main fuel w = Some (out, r, w') /\
    match r with
    | Ok _ => hello_main fuel w = Some (Ok (out ++ [LF]), w')
    | Err e => hello_main fuel w = Some (Err e, w')
    | Panic => hello_main fuel w = Some (Panic, w') \/ splits p
    end.
Proof.
  intros Hs Hb. rewrite (hello_main_lazy fuel w p w' Hs Hb). unfold iterator_main. rewrite Hs.
  cbn [mbind option_bind].
  destruct (print_chunks_total (Response.load_fuel p) p [] (BodyFacts.load_fuel_enough p))
    as [[out r] Hp].
  pose proof (print_chunks_loads (Response.load_fuel p) p [] ltac:(constructor)) as Hl.
  rewrite Hp in *. change (utf8 []) with (@nil N) in Hl. exists out, r. split; [done|].
  destruct r as [ [] |e|].
  - destruct Hl as (Ht & p' & ->). by rewrite from_utf8_utf8.
  - by rewrite Hl.
  - destruct Hl as [->|]; [by left|by right].
Qed.

(** What [json] prints on a network of servers: the [data] of the page that they answer
    to the body [Hello, world!], or the error of a page that is no JSON. *)
Lemma json_prints {Value} (from_str : text -> outcome text Value) index to_text
    fuel handler wanted inv parsed w page s :
  ParsedRequest.new json_request = Ok parsed ->
  Servers.site handler (ParsedRequest.config parsed) wanted ->
  Servers.answers_requests fuel handler (ParsedRequest.config parsed) inv ->
  Network.caps_ok (ParsedRequest.config parsed) -> inv w -> NavigationFacts.wants wanted parsed ->
  NavigationFacts.navigated (Servers.handler_web handler (ParsedRequest.config parsed)) parsed
    = Navigation.Arrived (Ok page) ->
  from_utf8 (Response.body page) = Ok s ->
  exists w', inv w' /\
    (Deadlines.in_time parsed w w' ->
     json_main from_str index to_text fuel w =
       Some (match from_str s with
             | Ok v => Ok (json_line index to_text v)
             | Err e => Err (SerdeJsonError e)
             | Panic => Panic
             end, w')).
Proof.
  intros Hnew Hsite Han Hcaps Hinv Hw Hnav Hs.
  assert (NavigationFacts.client_is fuel inv json_request parsed w
    (NavigationFacts.navigated (Servers.handler_web handler (ParsedRequest.config parsed)) parsed))
    as Hc by (by eapply NavigationFacts.client_of_chain, NavigationFacts.served_from_first,
      Servers.servers_serve).
  rewrite Hnav in Hc. destruct Hc as (w' & Hi & Hc). exists w'. split; [done|]. intros Ht.
  unfold json_main. erewrite M_bind_ok; [|by apply Hc].
  unfold mbind, M_bind, known, mret, M_ret, Response.json, Response.as_str. rewrite Hs.
  by destruct (from_str s).
Qed.
End Facts.
End ProgramFacts.

Module ProgramExamples.
Import Connection ConnectionExamples BodyExamples Programs ProgramFacts.
#[local] Existing Instances canonical_order example_externals no_variables default_build.

(** The response of [hello_stream], read by its head. *)
Definition page_lazy : ResponseLazy.ResponseLazy :=
  match @Client.send_lazy _ _ _ _ hello_network 1 example_request 0 with
  | Some (Ok r, _) => r
  | _ => lazy EndOnClose None []
  end.

Lemma iterator_prints_witness :
  exists out r, @iterator_main _ _ _ _ hello_network 1 0 = Some (out, r, 2) /\
    match r with
    | Ok _ => @hello_main _ _ _ _ hello_network 1 0 = Some (Ok (out ++ [LF]), 2)
    | Err e => @hello_main _ _ _ _ hello_network 1 0 = Some (Err e, 2)
    | Panic => @hello_main _ _ _ _ hello_network 1 0 = Some (Panic, 2) \/ splits page_lazy
    end.
Proof.
  apply (@iterator_prints _ _ _ _ hello_network 1 0 page_lazy 2); vm_compute; reflexivity.
Defined.

Example iterator_hello :
  @iterator_main _ _ _ _ hello_network 1 0 = Some (lit "hello", Ok tt, 2).
Proof. vm_compute. reflexivity. Qed.

(** A u with dots, in two chunks. *)
Definition split_network : Runtime :=
  scripted [1] [EvChunk (lit "HTTP/1.1 200 OK" ++ CRLF ++ CRLF); EvChunk [0xC3]; EvChunk [0xBC]].

Example hello_joins : @hello_main _ _ _ _ split_network 1 0 = Some (Ok [0xFC; LF], 1).
Proof. vm_compute. reflexivity. Qed.
Example iterator_splits : @iterator_main _ _ _ _ split_network 1 0 = Some ([], Panic, 1).
Proof. vm_compute. reflexivity. Qed.

(** A server that sends back what it received, read as a string for JSON. *)
Definition send_back : Servers.Handler := fun received =>
  Navigation.mkReply (lit "HTTP/1.1") 200 (lit "OK") [] (Wire.content received) None
    MetadataFacts.ToTheEnd.

Example json_prints_back :
  (r ← @json_main _ _ _ _ (Dribbling.dribbling_network send_back) text (fun s => Ok s)
         (fun v _ => v) (fun v => v) 1 []; Some r.1)
  = Some (Ok (quoted (lit "Hello, world!") ++ lit " == Hello, world!" ++ [LF])).
Proof. vm_compute. reflexivity. Qed.
End ProgramExamples.
