(* ===== verification/NativeTls.v ===== *)
(** [src/native_tls] and [src/build.rs]: the settings of TLS connectors over
    openssl, as a copy of the native-tls crate makes them. *)

From S2P Require Import Prelude.
From S2P Require Import Strings.
From S2P Require Import Numbers.
From S2P Require Import Errors.
From Stdlib Require Import Btauto.

(** * [src/build.rs] *)

(** Whether a version, in the hexadecimal digits of the variable, is at least
    [least]; the [unwrap] panics on another value. *)
Definition version_at_least (version : option text) (least : N) : outcome Empty_set bool :=
  match version with
  | None => Ok false
  | Some version =>
      match from_str_radix 16 u64_MAX version with
      | Some version => Ok (least <=? version)
      | None => Panic
      end
  end.

(** The flag [have_min_max_version] is printed for openssl from 1.1.0 on and for
    libressl from 2.6.1 on. The arguments are [DEP_OPENSSL_VERSION_NUMBER] and
    [DEP_OPENSSL_LIBRESSL_VERSION_NUMBER]. *)
Definition main (openssl libressl : option text) : outcome Empty_set bool :=
  a ← version_at_least openssl 0x10100000;
  b ← version_at_least libressl 0x20601000;
  Ok (a || b).

(** * The openssl crate *)

Class OpenSsl : Type := {
  ErrorStack : Type;
  (** what errors print, and the message of their source *)
  ErrorStack_display : ErrorStack -> text;
  ErrorStack_source : ErrorStack -> option text;
  X509 : Type;
  PKey : Type;
  SslVersion : Type;
  SSL3 : SslVersion;
  TLS1 : SslVersion;
  TLS1_1 : SslVersion;
  TLS1_2 : SslVersion;
  NO_SSLV2 : N;
  NO_SSLV3 : N;
  NO_TLSV1 : N;
  NO_TLSV1_1 : N;
  NO_TLSV1_2 : N;
  (** a context under construction; an operation that fails leaves none *)
  SslContextBuilder : Type;
  connector_builder : outcome ErrorStack SslContextBuilder;
  load_probed_locations : SslContextBuilder -> outcome ErrorStack SslContextBuilder;
  set_certificate : X509 -> SslContextBuilder -> outcome ErrorStack SslContextBuilder;
  set_private_key : PKey -> SslContextBuilder -> outcome ErrorStack SslContextBuilder;
  add_extra_chain_cert : X509 -> SslContextBuilder -> outcome ErrorStack SslContextBuilder;
  set_min_proto_version : option SslVersion -> SslContextBuilder ->
    outcome ErrorStack SslContextBuilder;
  set_max_proto_version : option SslVersion -> SslContextBuilder ->
    outcome ErrorStack SslContextBuilder;
  options : SslContextBuilder -> N;
  clear_options : N -> SslContextBuilder -> SslContextBuilder;
  set_options : N -> SslContextBuilder -> SslContextBuilder;
  set_empty_cert_store : SslContextBuilder -> outcome ErrorStack SslContextBuilder;
  (** [cert_store_mut().add_cert], whose failure is only logged *)
  add_cert : X509 -> SslContextBuilder -> SslContextBuilder;
  (** a finished context, and the settings of one connection made with it *)
  SslConnector : Type;
  build_connector : SslContextBuilder -> SslConnector;
  ConnectConfiguration : Type;
  configure : SslConnector -> outcome ErrorStack ConnectConfiguration;
  use_server_name_indication : bool -> ConnectConfiguration -> ConnectConfiguration;
  verify_hostname : bool -> ConnectConfiguration -> ConnectConfiguration;
  set_verify_none : ConnectConfiguration -> ConnectConfiguration;
  (** errors of a session, and the result of the verification of its certificate *)
  SslError : Type;
  SslError_display : SslError -> text;
  SslError_source : SslError -> option text;
  X509VerifyResult : Type;
  X509VerifyResult_display : X509VerifyResult -> text;
  is_OK : X509VerifyResult -> bool;
  (** a handshake that has not ended, and a session, over a stream *)
  MidHandshakeSslStream : Type -> Type;
  verify_result : forall {S}, MidHandshakeSslStream S -> X509VerifyResult;
  into_error : forall {S}, MidHandshakeSslStream S -> SslError;
  SslStream : Type -> Type;
  ssl_stream_get_ref : forall {S}, SslStream S -> S;
  (** the stream below, and the session once that has become another *)
  ssl_stream_get_mut : forall {S}, SslStream S -> S * (S -> SslStream S);
  ssl_read : forall {S}, N -> SslStream S -> io_result bytes * SslStream S;
  ssl_write : forall {S}, bytes -> SslStream S -> io_result N * SslStream S;
  ssl_flush : forall {S}, SslStream S -> io_result unit * SslStream S;
  (** the files of the directory of certificates of Android, if it can be read, each
      with its certificate, if it is one *)
  android_cacerts : option (list (option X509));
}.

(** [openssl::ssl::HandshakeError]. *)
Inductive ssl_HandshakeError `{OpenSsl} (S : Type) : Type :=
| ssl_SetupFailure (e : ErrorStack)
| ssl_Failure (s : MidHandshakeSslStream S)
| ssl_WouldBlock (s : MidHandshakeSslStream S).
Arguments ssl_SetupFailure {_ S} e.
Arguments ssl_Failure {_ S} s.
Arguments ssl_WouldBlock {_ S} s.

(** [ConnectConfiguration::connect]: the handshake for a domain over a stream. *)
Class SslConnect `{OpenSsl} (S : Type) : Type :=
  ssl_connect : ConnectConfiguration -> text -> S -> outcome (ssl_HandshakeError S) (SslStream S).

Module Protocol.
Inductive Protocol : Type := Sslv3 | Tlsv10 | Tlsv11 | Tlsv12 | NonExhaustive.
End Protocol.

Section NativeTls.
Context `{OpenSsl}.
Import Protocol.

Record Identity : Type := mkIdentity {
  pkey : PKey;
  cert : X509;
  chain : list X509;
}.

Record TlsConnectorBuilder : Type := mkTlsConnectorBuilder {
  identity : option Identity;
  min_protocol : option Protocol;
  max_protocol : option Protocol;
  root_certificates : list X509;
  accept_invalid_certs : bool;
  accept_invalid_hostnames : bool;
  use_sni : bool;
  disable_built_in_roots : bool;
}.

(** [TlsConnector::builder]. *)
Definition builder : TlsConnectorBuilder :=
  mkTlsConnectorBuilder None (Some Tlsv10) None [] false false true false.

(** [cvt], with its [unreachable!()]. *)
Definition cvt (p : Protocol) : outcome ErrorStack SslVersion :=
  match p with
  | Sslv3 => Ok SSL3
  | Tlsv10 => Ok TLS1
  | Tlsv11 => Ok TLS1_1
  | Tlsv12 => Ok TLS1_2
  | NonExhaustive => Panic
  end.

(** [version.map(cvt)]. *)
Definition map_cvt (p : option Protocol) : outcome ErrorStack (option SslVersion) :=
  match p with
  | None => Ok None
  | Some p => v ← cvt p; Ok (Some v)
  end.

(** [supported_protocols] with [have_min_max_version]. *)
Definition supported_protocols_min_max (min max : option Protocol) (ctx : SslContextBuilder)
    : outcome ErrorStack SslContextBuilder :=
  v ← map_cvt min;
  ctx ← set_min_proto_version v ctx;
  v ← map_cvt max;
  set_max_proto_version v ctx.

Definition no_ssl_mask : N :=
  N.lor (N.lor (N.lor (N.lor NO_SSLV2 NO_SSLV3) NO_TLSV1) NO_TLSV1_1) NO_TLSV1_2.

(** The options that switch off what is below the minimum, and above the maximum. *)
Definition min_options (min : option Protocol) : outcome ErrorStack N :=
  match min with
  | None => Ok 0
  | Some Sslv3 => Ok NO_SSLV2
  | Some Tlsv10 => Ok (N.lor NO_SSLV2 NO_SSLV3)
  | Some Tlsv11 => Ok (N.lor (N.lor NO_SSLV2 NO_SSLV3) NO_TLSV1)
  | Some Tlsv12 => Ok (N.lor (N.lor (N.lor NO_SSLV2 NO_SSLV3) NO_TLSV1) NO_TLSV1_1)
  | Some NonExhaustive => Panic
  end.

Definition max_options (max : option Protocol) : outcome ErrorStack N :=
  match max with
  | None | Some Tlsv12 => Ok 0
  | Some Tlsv11 => Ok NO_TLSV1_2
  | Some Tlsv10 => Ok (N.lor NO_TLSV1_1 NO_TLSV1_2)
  | Some Sslv3 => Ok (N.lor (N.lor NO_TLSV1 NO_TLSV1_1) NO_TLSV1_2)
  | Some NonExhaustive => Panic
  end.

(** [supported_protocols] without [have_min_max_version]. *)
Definition supported_protocols_masks (min max : option Protocol) (ctx : SslContextBuilder)
    : outcome ErrorStack SslContextBuilder :=
  let ctx := clear_options no_ssl_mask ctx in
  min ← min_options min;
  max ← max_options max;
  Ok (set_options (N.lor (N.lor 0 min) max) ctx).

Record TlsConnector : Type := mkTlsConnector {
  connector : SslConnector;
  connector_use_sni : bool;
  connector_accept_invalid_hostnames : bool;
  connector_accept_invalid_certs : bool;
}.

Section New.
(** How the crate was built: [have_min_max_version], [openssl-probe] and for Android. *)
Variables have_min_max_version feature_openssl_probe target_android : bool.

Definition supported_protocols : option Protocol -> option Protocol -> SslContextBuilder ->
    outcome ErrorStack SslContextBuilder :=
  if have_min_max_version then supported_protocols_min_max else supported_protocols_masks.

(** The client certificate, its key, and its chain from the root down. *)
Definition set_identity (identity : option Identity) (ctx : SslContextBuilder)
    : outcome ErrorStack SslContextBuilder :=
  match identity with
  | None => Ok ctx
  | Some identity =>
      ctx ← set_certificate (cert identity) ctx;
      ctx ← set_private_key (pkey identity) ctx;
      foldl (fun ctx c => ctx ← ctx; add_extra_chain_cert c ctx) (Ok ctx) (reverse (chain identity))
  end.

(** [load_android_root_certs]. *)
Definition load_android_root_certs (connector : SslContextBuilder) : SslContextBuilder :=
  match android_cacerts with
  | Some dir => foldl (fun ctx c => add_cert c ctx) connector (omap id dir)
  | None => connector
  end.

(** [imp::TlsConnector::new]. *)
Definition new (b : TlsConnectorBuilder) : outcome ErrorStack TlsConnector :=
  ctx ← connector_builder;
  ctx ← (if feature_openssl_probe then load_probed_locations ctx else Ok ctx);
  ctx ← set_identity (identity b) ctx;
  ctx ← supported_protocols (min_protocol b) (max_protocol b) ctx;
  ctx ← (if disable_built_in_roots b then set_empty_cert_store ctx else Ok ctx);
  let ctx := foldl (fun ctx c => add_cert c ctx) ctx (root_certificates b) in
  let ctx := if target_android then load_android_root_certs ctx else ctx in
  Ok (mkTlsConnector (build_connector ctx) (use_sni b) (accept_invalid_hostnames b)
        (accept_invalid_certs b)).
End New.

(** The settings [TlsConnector::connect] makes for a connection. *)
Definition connect_configuration (self : TlsConnector)
    : outcome ErrorStack ConnectConfiguration :=
  ssl ← configure (connector self);
  let ssl := use_server_name_indication (connector_use_sni self) ssl in
  let ssl := verify_hostname (negb (connector_accept_invalid_hostnames self)) ssl in
  Ok (if connector_accept_invalid_certs self then set_verify_none ssl else ssl).
End NativeTls.

(** * Errors and sessions, in [openssl.rs] *)

Module Imp.
Section Imp.
Context `{OpenSsl}.

Inductive Error : Type :=
| Normal (e : ErrorStack)
| Ssl (e : SslError) (v : X509VerifyResult).

Definition Error_source (e : Error) : option text :=
  match e with
  | Normal e => ErrorStack_source e
  | Ssl e _ => SslError_source e
  end.

Definition Error_display (e : Error) : text :=
  match e with
  | Normal e => ErrorStack_display e
  | Ssl e v =>
      if is_OK v then SslError_display e
      else SslError_display e ++ lit " (" ++ X509VerifyResult_display v ++ lit ")"
  end.

(** [From<ErrorStack> for Error]. *)
Definition Error_from (err : ErrorStack) : Error := Normal err.

Inductive HandshakeError (S : Type) : Type :=
| Failure (e : Error)
| WouldBlock (s : MidHandshakeSslStream S).
Arguments Failure {S} e.
Arguments WouldBlock {S} s.

(** [From<ssl::HandshakeError<S>>] and [From<ErrorStack> for HandshakeError<S>]. *)
Definition HandshakeError_from {S} (e : ssl_HandshakeError S) : HandshakeError S :=
  match e with
  | ssl_SetupFailure e => Failure (Error_from e)
  | ssl_Failure e => let v := verify_result e in Failure (Ssl (into_error e) v)
  | ssl_WouldBlock s => WouldBlock s
  end.
Definition HandshakeError_from_stack {S} (e : ErrorStack) : HandshakeError S :=
  Failure (Error_from e).

Record TlsStream (S : Type) : Type := mkTlsStream { stream : SslStream S }.
Arguments mkTlsStream {S} stream.
Arguments stream {S} t.

(** [TlsConnector::connect]. *)
Definition connect {S} `{!SslConnect S} (self : TlsConnector) (domain : text) (s : S)
    : outcome (HandshakeError S) (TlsStream S) :=
  ssl ← map_err HandshakeError_from_stack (connect_configuration self);
  s ← map_err HandshakeError_from (ssl_connect ssl domain s);
  Ok (mkTlsStream s).

(** A call that is handed on to the session. *)
Definition delegate {S A} (f : SslStream S -> A * SslStream S) (self : TlsStream S)
    : A * TlsStream S :=
  let '(r, s) := f (stream self) in (r, mkTlsStream s).

Definition get_ref {S} (self : TlsStream S) : S := ssl_stream_get_ref (stream self).
Definition get_mut {S} (self : TlsStream S) : S * (S -> TlsStream S) :=
  let '(s, put) := ssl_stream_get_mut (stream self) in (s, fun s => mkTlsStream (put s)).
Definition read {S} (buf_len : N) : TlsStream S -> io_result bytes * TlsStream S :=
  delegate (ssl_read buf_len).
Definition write {S} (buf : bytes) : TlsStream S -> io_result N * TlsStream S :=
  delegate (ssl_write buf).
Definition flush {S} : TlsStream S -> io_result unit * TlsStream S := delegate ssl_flush.
End Imp.
Arguments mkTlsStream {_ S} stream.
Arguments stream {_ S} t.
Arguments Failure {_ S} e.
Arguments WouldBlock {_ S} s.
End Imp.

(** * The interface, in [mod.rs] *)

Module Api.
Section Api.
Context `{OpenSsl}.

Record Error : Type := mkError { imp_error : Imp.Error }.

Definition Error_source (e : Error) : option text := Imp.Error_source (imp_error e).
Definition Error_display (e : Error) : text := Imp.Error_display (imp_error e).

(** [From<imp::Error> for Error]. *)
Definition Error_from (err : Imp.Error) : Error := mkError err.

Inductive HandshakeError (S : Type) : Type :=
| Failure (e : Error)
| WouldBlock (s : MidHandshakeSslStream S).
Arguments Failure {S} e.
Arguments WouldBlock {S} s.

(** The source of a failure is the error itself. *)
Definition HandshakeError_source {S} (e : HandshakeError S) : option Error :=
  match e with
  | Failure e => Some e
  | WouldBlock _ => None
  end.

Definition HandshakeError_display {S} (e : HandshakeError S) : text :=
  match e with
  | Failure e => Error_display e
  | WouldBlock _ => lit "the handshake process was interrupted"
  end.

(** [From<imp::HandshakeError<S>> for HandshakeError<S>]. *)
Definition HandshakeError_from {S} (e : Imp.HandshakeError S) : HandshakeError S :=
  match e with
  | Imp.Failure e => Failure (mkError e)
  | Imp.WouldBlock s => WouldBlock s
  end.

Section Build.
Variables have_min_max_version feature_openssl_probe target_android : bool.

(** [TlsConnectorBuilder::build] and [TlsConnector::new]. *)
Definition build (self : TlsConnectorBuilder) : outcome Error TlsConnector :=
  map_err (fun e => Error_from (Imp.Error_from e))
    (NativeTls.new have_min_max_version feature_openssl_probe target_android self).
Definition new_default : outcome Error TlsConnector := build builder.
End Build.

Record TlsStream (S : Type) : Type := mkTlsStream { imp_stream : Imp.TlsStream S }.
Arguments mkTlsStream {S} imp_stream.
Arguments imp_stream {S} t.

(** [TlsConnector::connect]. *)
Definition connect {S} `{!SslConnect S} (self : TlsConnector) (domain : text) (s : S)
    : outcome (HandshakeError S) (TlsStream S) :=
  s ← map_err HandshakeError_from (Imp.connect self domain s);
  Ok (mkTlsStream s).

Definition delegate {S A} (f : Imp.TlsStream S -> A * Imp.TlsStream S) (self : TlsStream S)
    : A * TlsStream S :=
  let '(r, s) := f (imp_stream self) in (r, mkTlsStream s).

Definition get_ref {S} (self : TlsStream S) : S := Imp.get_ref (imp_stream self).
Definition get_mut {S} (self : TlsStream S) : S * (S -> TlsStream S) :=
  let '(s, put) := Imp.get_mut (imp_stream self) in (s, fun s => mkTlsStream (put s)).
Definition read {S} (buf_len : N) : TlsStream S -> io_result bytes * TlsStream S :=
  delegate (Imp.read buf_len).
Definition write {S} (buf : bytes) : TlsStream S -> io_result N * TlsStream S :=
  delegate (Imp.write buf).
Definition flush {S} : TlsStream S -> io_result unit * TlsStream S := delegate Imp.flush.
End Api.
Arguments Failure {_ S} e.
Arguments WouldBlock {_ S} s.
End Api.

Module NativeTlsFacts.
Section Facts.
Context `{OpenSsl}.

(** The versions the options of a context know, from SSL 2.0 to TLS 1.2, are
    numbered from 0; a minimum and a maximum are the ends of an interval of them. *)
Definition rank (p : Protocol.Protocol) : option nat :=
  match p with
  | Protocol.Sslv3 => Some 1%nat
  | Protocol.Tlsv10 => Some 2%nat
  | Protocol.Tlsv11 => Some 3%nat
  | Protocol.Tlsv12 => Some 4%nat
  | Protocol.NonExhaustive => None
  end.
Definition end_rank (default : nat) (p : option Protocol.Protocol) : option nat :=
  match p with None => Some default | Some p => rank p end.

Definition version_flags : list N := [NO_SSLV2; NO_SSLV3; NO_TLSV1; NO_TLSV1_1; NO_TLSV1_2].

(** What openssl documents of its options: setting and clearing are by bit. *)
Definition options_by_bit : Prop :=
  forall o ctx,
    options (set_options o ctx) = N.lor (options ctx) o /\
    options (clear_options o ctx) = N.ldiff (options ctx) o.

(** Before 1.1.0 every flag is a bit of its own. *)
Definition flags_are_bits (bits : list N) : Prop :=
  version_flags = map (N.pow 2) bits /\ NoDup bits.

(** The versions that the options made of a minimum and a maximum switch off. *)
Definition switched_off (lo hi : nat) (i : nat) : bool := negb ((lo <=? i) && (i <=? hi))%nat.

Lemma flag_bit k b : N.testbit (2 ^ k) b = (k =? b).
Proof. apply N.pow2_bits_eqb. Qed.

(** The bits of the options are those of the flags of the versions switched off. *)
Lemma options_bits min max lo hi :
  end_rank 0 min = Some lo -> end_rank 4 max = Some hi ->
  exists o1 o2, min_options min = Ok o1 /\ max_options max = Ok o2 /\
    forall b, N.testbit (N.lor o1 o2) b =
      existsb (fun '(i, flag) => switched_off lo hi i && N.testbit flag b)
        (imap pair version_flags).
Proof.
  intros Hmin Hmax.
  destruct min as [[]|], max as [[]|]; try discriminate Hmin; try discriminate Hmax;
    injection Hmin as <-; injection Hmax as <-;
    (do 2 eexists; split; [reflexivity|]; split; [reflexivity|]);
    intros b; simpl; rewrite ?N.lor_spec, ?N.bits_0; btauto.
Qed.

(** When flags are bits, a union of flags has the bits of its versions. *)
Lemma union_bit bits (f : nat -> bool) b :
  flags_are_bits bits ->
  existsb (fun '(i, flag) => f i && N.testbit flag b) (imap pair version_flags) = true <->
  exists i, bits !! i = Some b /\ f i = true.
Proof.
  intros [-> _]. rewrite existsb_exists. split.
  - intros [[i flag] [Hin Hf]]. apply list_elem_of_In, elem_of_lookup_imap in Hin as (j & flag' & [= <- <-] & Hk).
    apply andb_true_iff in Hf as [Hf Hb]. exists i. split; [|done].
    rewrite list_lookup_fmap in Hk. destruct (bits !! i) as [k|]; [|done].
    injection Hk as <-. rewrite flag_bit in Hb. by apply N.eqb_eq in Hb as ->.
  - intros (i & Hi & Hf). exists (i, 2 ^ b). split.
    + apply list_elem_of_In, elem_of_lookup_imap. exists i, (2 ^ b). split; [done|].
      by rewrite list_lookup_fmap, Hi.
    + by rewrite Hf, flag_bit, N.eqb_refl.
Qed.

Lemma union_bit_of bits (f : nat -> bool) i b :
  flags_are_bits bits -> bits !! i = Some b ->
  existsb (fun '(i, flag) => f i && N.testbit flag b) (imap pair version_flags) = f i.
Proof.
  intros Hbits Hi. apply eq_true_iff_eq. rewrite (union_bit bits) by done. split.
  - intros (j & Hj & Hf). by rewrite (NoDup_lookup bits i j b (proj2 Hbits) Hi Hj).
  - intros Hf. by exists i.
Qed.

Lemma union_bit_other bits (f : nat -> bool) b :
  flags_are_bits bits -> b ∉ bits ->
  existsb (fun '(i, flag) => f i && N.testbit flag b) (imap pair version_flags) = false.
Proof.
  intros Hbits Hb. apply not_true_is_false. rewrite (union_bit bits) by done.
  intros (i & Hi & _). apply Hb. by eapply list_elem_of_lookup_2.
Qed.

Lemma mask_is_union b :
  N.testbit no_ssl_mask b =
  existsb (fun '(i, flag) => (fun _ => true) i && N.testbit flag b) (imap pair version_flags).
Proof. unfold no_ssl_mask. rewrite !N.lor_spec. simpl. btauto. Qed.

(** C33. Without [have_min_max_version], the protocols are those from the minimum to
    the maximum: whatever the options of the context were, the flag of every version
    from SSL 2.0 to TLS 1.2 is set exactly when the version is below the minimum or
    above the maximum, where no minimum allows SSL 2.0 and no maximum TLS 1.2, and
    every other option is as it was. The variant that is not to be used panics. *)
Theorem supported_protocols_interval bits min max ctx :
  options_by_bit -> flags_are_bits bits ->
  match end_rank 0 min, end_rank 4 max with
  | Some lo, Some hi =>
      exists ctx', supported_protocols_masks min max ctx = Ok ctx' /\
        (forall i b, bits !! i = Some b ->
           N.testbit (options ctx') b = negb ((lo <=? i) && (i <=? hi))%nat) /\
        (forall b, b ∉ bits -> N.testbit (options ctx') b = N.testbit (options ctx) b)
  | _, _ => supported_protocols_masks min max ctx = Panic
  end.
Proof.
  intros Hopt Hbits.
  destruct (end_rank 0 min) as [lo|] eqn:Hmin.
  2: { destruct min as [[]|]; done. }
  destruct (end_rank 4 max) as [hi|] eqn:Hmax.
  2: { by destruct min as [[]|], max as [[]|]. }
  destruct (options_bits min max lo hi) as (o1 & o2 & H1 & H2 & Hb); [done..|].
  unfold supported_protocols_masks. rewrite H1, H2. simpl. eexists. split; [reflexivity|].
  rewrite !(fun o c => proj1 (Hopt o c)), !(fun o c => proj2 (Hopt o c)).
  split; [intros i b Hi|intros b Hi]; rewrite N.lor_spec, N.ldiff_spec, mask_is_union, Hb.
  - rewrite !(union_bit_of bits _ i) by done. unfold switched_off. btauto.
  - rewrite !(union_bit_other bits) by done. btauto.
Qed.

(** How a connection fails, and what is printed then: errors of the settings and of
    the setup as they are, a failed handshake with the result of the verification of
    the certificate behind it unless that was good, and an interrupted one as such. *)
Lemma connect_failure {S} `{!SslConnect S} self domain (s : S) e :
  Api.connect self domain s = Err e ->
  (exists x, connect_configuration self = Err x /\
     Api.HandshakeError_display e = ErrorStack_display x) \/
  (exists ssl x, connect_configuration self = Ok ssl /\ ssl_connect ssl domain s = Err x /\
     Api.HandshakeError_display e =
       match x with
       | ssl_SetupFailure x => ErrorStack_display x
       | ssl_Failure m =>
           SslError_display (into_error m)
             ++ (if is_OK (verify_result m) then []
                 else lit " (" ++ X509VerifyResult_display (verify_result m) ++ lit ")")
       | ssl_WouldBlock _ => lit "the handshake process was interrupted"
       end).
Proof.
  unfold Api.connect, Imp.connect. destruct (connect_configuration self) as [ssl|x|]; [| |done].
  - cbn [map_err mbind outcome_bind]. destruct (ssl_connect ssl domain s) as [t|x|] eqn:E; [done| |done].
    intros [= <-]. right. exists ssl, x. split; [done|]. split; [done|].
    destruct x as [x|m|m]; [done| |done]. unfold Api.HandshakeError_display. simpl.
    unfold Api.Error_display. simpl. destruct (is_OK (verify_result m)); by rewrite ?app_nil_r.
  - intros [= <-]. left. by exists x.
Qed.
End Facts.
End NativeTlsFacts.

Module NativeTlsExamples.
(** A context that keeps its options and the list of what was done to it. *)
Record Context : Type := mkContext { context_options : N; log : list nat }.
Definition logged (n : nat) (c : Context) : Context :=
  mkContext (context_options c) (log c ++ [n]).

(** The flags of openssl 1.0.2; keys and certificates are numbers. *)
#[local] Instance openssl_1_0 : OpenSsl := {|
  ErrorStack := Empty_set; ErrorStack_display := fun _ => []; ErrorStack_source := fun _ => None;
  X509 := nat; PKey := nat; SslVersion := nat;
  SSL3 := 3; TLS1 := 10; TLS1_1 := 11; TLS1_2 := 12;
  NO_SSLV2 := 0x01000000; NO_SSLV3 := 0x02000000; NO_TLSV1 := 0x04000000;
  NO_TLSV1_1 := 0x10000000; NO_TLSV1_2 := 0x08000000;
  SslContextBuilder := Context;
  connector_builder := Ok (mkContext 0x01000004 []);
  load_probed_locations := fun c => Ok (logged 1 c);
  set_certificate := fun x c => Ok (logged x c);
  set_private_key := fun x c => Ok (logged x c);
  add_extra_chain_cert := fun x c => Ok (logged x c);
  set_min_proto_version := fun v c => Ok (logged (default 0%nat v) c);
  set_max_proto_version := fun v c => Ok (logged (default 0%nat v) c);
  options := context_options;
  clear_options := fun o c => mkContext (N.ldiff (context_options c) o) (log c);
  set_options := fun o c => mkContext (N.lor (context_options c) o) (log c);
  set_empty_cert_store := fun c => Ok (logged 2 c);
  add_cert := logged;
  SslConnector := Context; build_connector := fun c => c;
  ConnectConfiguration := Context * list bool; configure := fun c => Ok (c, []);
  use_server_name_indication := fun b c => (c.1, c.2 ++ [b]);
  verify_hostname := fun b c => (c.1, c.2 ++ [b]);
  set_verify_none := fun c => (c.1, c.2 ++ [false]);
  SslError := Empty_set; SslError_display := fun _ => []; SslError_source := fun _ => None;
  X509VerifyResult := unit; X509VerifyResult_display := fun _ => []; is_OK := fun _ => true;
  MidHandshakeSslStream := fun _ => Empty_set; verify_result := fun _ _ => tt;
  into_error := fun _ m => m;
  SslStream := fun S => S; ssl_stream_get_ref := fun _ s => s;
  ssl_stream_get_mut := fun _ s => (s, id);
  ssl_read := fun _ _ s => (Ok [], s); ssl_write := fun _ b s => (Ok (len b), s);
  ssl_flush := fun _ s => (Ok tt, s);
  android_cacerts := Some [Some 41; None; Some 42];
|}%nat.

Definition context : SslContextBuilder := mkContext 0x01000004 [].
Definition bits_1_0 : list N := [24; 25; 26; 28; 27].

Lemma supported_protocols_interval_witness :
  exists ctx', supported_protocols_masks (Some Protocol.Tlsv10) None context = Ok ctx' /\
    (forall i b, bits_1_0 !! i = Some b ->
       N.testbit (options ctx') b = negb ((2 <=? i) && (i <=? 4))%nat) /\
    (forall b, b ∉ bits_1_0 -> N.testbit (options ctx') b = N.testbit (options context) b).
Proof.
  apply (NativeTlsFacts.supported_protocols_interval bits_1_0 (Some Protocol.Tlsv10) None
           context).
  - intros o ctx. split; reflexivity.
  - split; [reflexivity|]. apply (bool_decide_unpack (NoDup bits_1_0)). vm_compute. exact I.
Defined.

(** The identity comes before the protocols, its chain from the end; then the
    certificates, behind the store that replaces the built-in one. *)
Example connector_settings :
  new true true true
    (mkTlsConnectorBuilder (Some (mkIdentity 21 20 [22; 23; 24])) (Some Protocol.Tlsv11)
       (Some Protocol.Tlsv12) [31; 32] false true true true)%nat =
  Ok (mkTlsConnector (mkContext 0x01000004 [1; 20; 21; 24; 23; 22; 11; 12; 2; 31; 32; 41; 42]%nat)
        true true false).
Proof. reflexivity. Qed.

Example default_connection :
  (c ← new false false false builder; connect_configuration c) =
  Ok (mkContext 0x03000004 [], [true; true]).
Proof. reflexivity. Qed.

Example build_flag :
  main (Some (lit "101000cf")) None = Ok true /\ main (Some (lit "1000214f")) None = Ok false /\
  main None (Some (lit "20601000")) = Ok true /\ main (Some (lit "1.1.0")) None = Panic.
Proof. repeat split; reflexivity. Qed.
End NativeTlsExamples.
